(* ===== verification/_CoqProject ===== *)
-Q . S2P
Prelude.v
Go.v
Models.v
Postgres.v
Runtime.v
OneShot.v
Isolation.v
Sample.v
Redis.v
Http.v
Auth.v
Middleware.v
Metrics.v
Ledger.v
Outbox.v
Idempotency.v
Wallets.v
Transfers.v
Concurrency.v
TransferHandler.v
TransferAnswers.v
TransferRoute.v
Payments.v
PaymentRoutes.v
Locks.v
Reconciliation.v
Server.v
EndToEnd.v
Telemetry.v
Startup.v
Steps.v
Books.v
History.v
Lifecycle.v
Transactions.v
Serializability.v
