(* ===== verification/Prelude.v ===== *)
(** * A verification library for the wallet and ledger service

    The service keeps wallets of money for users.  Users register and log in, open
    wallets, move money between wallets, and fund them through a payment provider whose
    webhooks report what became of a payment.  Every movement is booked in a double-entry
    ledger and announced through a transactional outbox; a reconciliation worker compares
    the wallets with the ledger.  The Go code under [src/internal] is modelled package by
    package, SQL statements included.

    ** The parts and the code they model

    - [Prelude]: machine integers, sums over finite maps, counting, the shared tactics.
    - [Go]: Go's errors ([errors.Is], wrapping, SQLSTATE), results, JSON, responses.
    - [Models]: one Module per Go package with the types of its [models.go].
    - [Postgres]: the tables of [db/migrations] as finite maps, column types, constraints.
    - [Runtime]: the outside world, transactions, programs, interleavings and the logics
      for them.  [Sample]: a concrete environment to evaluate everything on.
    - [OneShot]: programs that race to decide something once.
    - [Isolation]: transactions whose statements interleave, under Read Committed with row
      locks and unique indexes; when such a transaction is as good as an atomic one.
    - [Redis]: internal/redis/client.go, with the commands it sends and its Lua script.
    - [Http]: requests and handlers.  [Auth]: internal/auth.  [Middleware]:
      internal/middleware/auth.go and rate_limiter.go.  [Metrics]:
      internal/observability/metrics.go and internal/middleware/metrics.go.
    - [Ledger], [Outbox], [Idempotency], [Wallets], [Payments], [Reconciliation]: the
      packages of the same names ([Outbox] with the Kafka producer).  [PaymentRoutes]: what
      the handlers of payments/handler.go answer when nothing fails.
    - [Transfers]: transfers/service.go.  [TransferHandler]: transfers/handler.go.
      [TransferAnswers]: what racing requests are told.  [TransferRoute]: what one request
      is answered when nothing fails.
      [Concurrency]: transfers/service_test.go, the integration test as a theorem.
    - [Locks]: the row locks of the transactions of transfers and payments, one at a time.
    - [Server]: internal/server/server.go, the routes with their guards and the workers.
      [EndToEnd]: a transfer request from the server's entry to the database.
      [Telemetry]: what its request counter says.
    - [Startup]: cmd/api/main.go, internal/config, internal/logger, the connecting halves of
      internal/database, internal/redis and internal/kafka, scripts/simulate_webhook.go.
    - [Steps]: the specification of the whole program, and that the server refines it.
    - [Books]: the invariants of the whole program.  [History]: what it never rewrites.
    - [Lifecycle]: server.go, [Start], and the deferred calls of main.go: the process as a
      state machine that accepts, subscribes to the signals, serves, is told to stop (or
      killed, before it subscribed), drains and closes.
    - [Transactions], [Serializability]: the transactions of transfers, webhooks and wallet
      openings as sequences of statements, and their reduction to atomic steps.

    Each component has the Go interface as a class ([LedgerRepository], [WalletsService],
    ...), the Go implementation as an instance ([postgresRepository], [serviceImpl]) with
    the SQL statements as functions [sql_...], and its handlers as functions from a
    request to a program.  Where a client relies on a component, [LedgerContract] and
    [OutboxContract] state what is promised; the client's theorems are proved from the
    contract and the implementation is an instance of it.

    ** State and execution

    [World] is the state all goroutines share: the database, the metrics of Prometheus,
    the messages Kafka accepted, the keys of Redis with their texts and expiry times, and the
    number of exchanges made with the outside so far.  [Env] is an oracle: the n-th exchange may go well, fail without
    effect, or take effect although its reply is lost; it also draws the UUIDs, the random
    numbers and the clock.  Theorems hold for every oracle unless they ask for
    [no_faults].  A computation in [M] runs inside one statement or one transaction
    ([with_tx]: begin, deferred rollback, commit) and is atomic; a [prog] is the sequence
    of such calls that one goroutine makes, and between two calls the other goroutines may
    do anything ([interleaving], [schedule]).  Tools: [keeps] and [calls] for invariants,
    [safe] for rely-guarantee arguments, [amortized] for counting effects under
    interleaving, [decides] for what is decided once, [within] for the number of calls.

    Integers are kept at 64 bits: Go's [+] wraps ([add64]) and a [BIGINT] that overflows
    fails.  Ids are text until the database reads them as [uuid] ([uuid_in]), so that two
    spellings of one id are told apart wherever the code compares strings.

    ** What is shown

    - The whole program ([Books], [Steps], [History], [Server]): under any requests,
      interleaving and failures, the wallets agree with the ledger and the ledger balances;
      the money held grows exactly by the payments that succeed; the database only goes
      through the events of [change], which say what may happen to every table; the record of
      what happened is append-only, and an email identifies a user; private routes need a
      token; a reconciliation finds nothing; the request counter is exact.
    - Statements ([Isolation], [Serializability]): interleaved statement by statement,
      transfers, webhooks and wallet openings still go through business events only, each
      commits at most once and does what its answer says; the books match between any two
      statements.  (The two forms of a transaction, by statements and in one step, are
      checked against each other by an auxiliary theorem, [alone_as_in_one_step].)
    - The process ([Lifecycle]): connections are closed only after the requests were answered
      or ten seconds have passed; ten turns each drain the server.
    - Transfers: the exact effect, with the ledger entries specified on their own
      ([double_entry]), atomicity, conservation of every currency, refinement of an abstract
      bank for ids in the spelling of the database; transfers between distinct eligible
      wallets that can afford them succeed at once under every fair schedule; row locks never
      deadlock; through the handler, at most one transfer per idempotency key, only by who
      may spend, with replay of stored responses.
      Requests that race under one key are told one outcome, whatever fails.
      When nothing outside fails and the ids are spelled as the database prints them, the
      server's answer to a request for a transfer and all it writes are those of an executable
      decision, from the rate limit to the bank.
    - Payments: a webhook is all or nothing and harmless when repeated; payments follow
      their state machine; a success credits exactly once.  When nothing outside fails, the
      answer to a webhook is that of an executable decision, and so is that to a demo
      funding, which works where the platform's account exists.
    - Ledger: the one-pass check is equivalent to the definition of balance, exactly as long
      as sums do not wrap and modulo [2 ^ 64] in any case; what is accepted is posted whole;
      every refusal, with the error of the first bad entry.
    - Outbox: published implies delivered; a batch delivers what is due in order; every
      failure recorded postpones the event, and the sixth is final.  Idempotency: a key is
      given to one request; responses round-trip.
    - Reconciliation: the verdict is exact, and only its own tables are written.
    - Auth: issued tokens are accepted, login recognises who registered, with a token that
      says so, and nobody else, emails stay unique.  Middleware: who passes the guards.
      Redis: the limit of a window that opens without a counter, and twice the limit in any
      period; what is cached is read until it expires.
    - Wallets: opening is atomic, reading is private, freezing is restricted; what every
      route answers, histories and lists.

    Theorems whose names are not C-numbered are auxiliary or of lesser importance.  The
    behaviours that look unintended are theorems too: [noncanonical_source_is_credited],
    [success_needs_platform_account], [anyone_can_freeze_a_wallet], [partial_read_passes],
    [noncanonical_transfers_deadlock], [default_secret_lets_anyone_in],
    [mismatch_details_are_lost], [check_balanced_overflow], [two_workers_publish_twice],
    [mark_failed_reopens_published], [claimed_addresses_evade_the_limit],
    [bursts_pass_at_the_end], [abandoned_key_is_lost], [rolled_back_webhook_is_counted],
    [anyone_can_start_a_payment].

    ** Bounds and fuel

    Programs are inductive, so every handler ends, after at most ten turns
    ([serve_within]).  The endless loops of the two workers ([Start]) take the number of
    ticks as an argument and the theorems hold for every number.  Batches have the 50 events
    and histories the 100 entries of the code.

    ** What is not modelled, and why

    - In the theorems about the whole program a transaction is one atomic step.  For the
      transactions of several statements [Serializability] shows what this rests on;
      [Locks] interleaves the taking of locks alone, to show that it cannot deadlock.  A
      deadlock victim is an oracle failure.
    - Outside [src]: PostgreSQL itself beyond the statements issued, the router library
      with its request-id, real-ip, logging, recovery, timeout and CORS middlewares, the
      JWT library, bcrypt, HMAC-SHA256 and the text parser of JSON.  The last four are
      parameters, with the laws the theorems use.
    - What happens between two calls while a connection is held: a call holds its connection
      from its first statement to its last, so [db.Close] never has to wait at a step of the
      process.
    - Text that PostgreSQL or JSON would refuse (NUL bytes, invalid UTF-8).
    - The producer's [Close], which nothing calls; paths that no route matches; and pure
      input and output: what is logged, and the buckets of the histogram.  The
      pattern a route has in the labels of the metrics is the router's.
    - Redis and Lua beyond the commands the client sends; in particular how Lua compares a
      text with a number when that number is no 64-bit integer in its shortest spelling or is
      too large for a double ([lua_ge]), which the client's own writes never lead to.
    - The clock moves only at exchanges, so two readings of it between two exchanges agree.

    Every other function of internal that acts on state is modelled.  What could still be shown is
    the liveness of the single routes while other requests run; [Concurrency] does it for the
    transfer service. *)

From stdpp Require Export base gmap strings list fin_maps sorting.
From Stdlib Require Export ZArith Lia.

#[global] Open Scope Z_scope.

(** ** Machine integers

    Go's [int64] and PostgreSQL's [BIGINT] have the same range.  Go's [+] wraps
    around; PostgreSQL's raises [numeric_value_out_of_range]. *)

Definition int64_min : Z := - 2 ^ 63.
Definition int64_max : Z := 2 ^ 63 - 1.

Definition in_int64 (z : Z) : Prop := int64_min <= z <= int64_max.

#[global] Instance in_int64_dec z : Decision (in_int64 z).
Proof. unfold in_int64. apply _. Defined.

(** Two's complement reduction to 64 bits, signed. *)
Definition wrap64 (z : Z) : Z := (z + 2 ^ 63) mod 2 ^ 64 - 2 ^ 63.

Definition add64 (x y : Z) : Z := wrap64 (x + y).
Definition sub64 (x y : Z) : Z := wrap64 (x - y).

Lemma wrap64_id z : in_int64 z → wrap64 z = z.
Proof.
  unfold in_int64, int64_min, int64_max, wrap64. intros Hz.
  rewrite Z.mod_small; lia.
Qed.

Lemma wrap64_range z : in_int64 (wrap64 z).
Proof.
  unfold in_int64, int64_min, int64_max, wrap64.
  pose proof (Z.mod_pos_bound (z + 2 ^ 63) (2 ^ 64) ltac:(lia)). lia.
Qed.

Lemma add64_exact x y : in_int64 (x + y) → add64 x y = x + y.
Proof. apply wrap64_id. Qed.

Lemma sub64_exact x y : in_int64 (x - y) → sub64 x y = x - y.
Proof. apply wrap64_id. Qed.

(** ** Sums over finite maps (what SQL's [SUM] computes) *)

Section MapSum.
Context {K V : Type} `{Countable K}.
Implicit Types (f g : V → Z) (m : gmap K V).

Definition map_sum f m : Z := map_fold (λ _ v acc, f v + acc) 0 m.

Lemma map_sum_empty f : map_sum f ∅ = 0.
Proof. apply map_fold_empty. Qed.

Lemma map_sum_insert_new f m k v :
  m !! k = None → map_sum f (<[k:=v]> m) = f v + map_sum f m.
Proof.
  intros Hk. unfold map_sum. rewrite map_fold_insert_L; [done| |done].
  intros; lia.
Qed.

Lemma map_sum_delete f m k v :
  m !! k = Some v → map_sum f m = f v + map_sum f (delete k m).
Proof.
  intros Hk. rewrite <- (insert_delete_id m k v Hk) at 1.
  apply map_sum_insert_new, lookup_delete_eq.
Qed.

Lemma map_sum_update f m k v v' :
  m !! k = Some v → map_sum f (<[k:=v']> m) = map_sum f m - f v + f v'.
Proof.
  intros Hk. rewrite (map_sum_delete f m k v Hk), <- insert_delete_eq.
  rewrite map_sum_insert_new by apply lookup_delete_eq. lia.
Qed.

Lemma map_sum_ext f g m :
  (∀ k v, m !! k = Some v → f v = g v) → map_sum f m = map_sum g m.
Proof.
  induction m as [|k v m Hk IH] using map_ind; intros Hfg; [done|].
  rewrite !map_sum_insert_new by done.
  rewrite (Hfg k v) by apply lookup_insert_eq. f_equal. apply IH.
  intros k' v' Hk'. apply (Hfg k'). rewrite lookup_insert_ne; congruence.
Qed.

Lemma map_sum_zero f m : (∀ k v, m !! k = Some v → f v = 0) → map_sum f m = 0.
Proof.
  intros Hf. rewrite (map_sum_ext f (λ _, 0)) by done.
  induction m as [|k v m Hk IH] using map_ind; [done|].
  rewrite map_sum_insert_new by done. rewrite IH; [done|].
  intros k' v' Hk'. apply (Hf k'). rewrite lookup_insert_ne; congruence.
Qed.

Lemma map_sum_add f g m : map_sum (λ v, f v + g v) m = map_sum f m + map_sum g m.
Proof.
  induction m as [|k v m Hk IH] using map_ind; [done|].
  rewrite !map_sum_insert_new by done. lia.
Qed.

Lemma map_sum_sub f g m : map_sum (λ v, f v - g v) m = map_sum f m - map_sum g m.
Proof.
  induction m as [|k v m Hk IH] using map_ind; [done|].
  rewrite !map_sum_insert_new by done. lia.
Qed.

Lemma map_sum_nonneg f m : (∀ k v, m !! k = Some v → 0 <= f v) → 0 <= map_sum f m.
Proof.
  induction m as [|k v m Hk IH] using map_ind; intros Hf; [done|].
  rewrite map_sum_insert_new by done.
  assert (0 <= f v) by apply (Hf k), lookup_insert_eq.
  assert (0 <= map_sum f m); [|lia].
  apply IH. intros k' v' Hk'. apply (Hf k'). rewrite lookup_insert_ne; congruence.
Qed.
End MapSum.

(** ** Counting the elements of a list *)

Section Count.
Context {A : Type} (f : A → bool).

Definition count_if (l : list A) : nat := foldr (λ x n, (if f x then 1 else 0) + n)%nat 0%nat l.

Lemma count_if_insert l i x y :
  l !! i = Some x →
  (count_if (<[i := y]> l) + (if f x then 1 else 0) = count_if l + (if f y then 1 else 0))%nat.
Proof.
  revert i. induction l as [|z l IH]; intros [|i] Hi; simplify_eq/=; [lia|].
  specialize (IH i Hi). lia.
Qed.

Lemma count_if_zero l : Forall (λ x, f x = false) l → count_if l = 0%nat.
Proof. induction 1 as [|x l Hx _ IH]; simpl; [done|]. by rewrite Hx, IH. Qed.

Lemma count_if_two l i j x y :
  i ≠ j → l !! i = Some x → l !! j = Some y → f x = true → f y = true → (2 ≤ count_if l)%nat.
Proof.
  assert (Hone : ∀ l i x, l !! i = Some x → f x = true → (1 ≤ count_if l)%nat).
  { clear. induction l as [|z l IH]; intros [|i] x Hi Hx; simplify_eq/=; [rewrite Hx; lia|].
    specialize (IH i x Hi Hx). lia. }
  revert i j. induction l as [|z l IH]; intros [|i] [|j] Hij Hi Hj Hx Hy; simplify_eq/=.
  - rewrite Hx. pose proof (Hone _ _ _ Hj Hy). lia.
  - rewrite Hy. pose proof (Hone _ _ _ Hi Hx). lia.
  - pose proof (IH i j ltac:(lia) Hi Hj Hx Hy). lia.
Qed.
End Count.

(** ** Automation

    [ledger_db] collects the facts about lookups, sums and machine integers that
    close the routine goals of the components; [ledger_rw] the equations used to
    evaluate a program symbolically. *)

Create HintDb ledger_db discriminated.
Create Rewrite HintDb ledger_rw.

#[export] Hint Resolve map_sum_empty lookup_insert_eq lookup_delete_eq
  wrap64_range : ledger_db.

(** Split a boolean condition of the code into the propositions it tests. *)
Ltac bools :=
  repeat match goal with
  | H : _ && _ = true |- _ => apply andb_true_iff in H as [? ?]
  | H : _ || _ = false |- _ => apply orb_false_iff in H as [? ?]
  | H : negb _ = true |- _ => apply negb_true_iff in H
  | H : negb _ = false |- _ => apply negb_false_iff in H
  | H : bool_decide _ = true |- _ => apply bool_decide_eq_true in H
  | H : bool_decide _ = false |- _ => apply bool_decide_eq_false in H
  | H : (_ <? _) = true |- _ => apply Z.ltb_lt in H
  | H : (_ <? _) = false |- _ => apply Z.ltb_ge in H
  | H : (_ <=? _) = true |- _ => apply Z.leb_le in H
  | H : (_ <=? _) = false |- _ => apply Z.leb_gt in H
  | H : (_ =? _) = true |- _ => apply Z.eqb_eq in H
  | H : (_ =? _) = false |- _ => apply Z.eqb_neq in H
  end.
