(* ===== verification/Go.v ===== *)
(** * The parts of Go the service is written with

    Errors as values (sentinels, [fmt.Errorf] wrapping, [errors.Is],
    [errors.As] on the SQLSTATE of a driver error), the result of a fallible
    call, JSON documents and HTTP responses. *)

From S2P Require Import Prelude.
From Stdlib Require Import Ascii.

(** ** Errors *)

(** A Go [error].  A sentinel is [errors.New] bound to a package variable, and is
    identified by that variable; [sentinel = ""] is an anonymous [errors.New].
    [fmt_Errorf pre e post] is [fmt.Errorf] with one [%w] verb.  [pg_error] is the
    driver's [*pgconn.PgError], [pgx_ErrNoRows] the driver's sentinel, and
    [ext_error] any other error of the outside world (a lost connection, a
    cancelled context, a broker that does not answer). *)
Inductive error : Set :=
| errors_New (sentinel msg : string)
| fmt_Errorf (pre : string) (e : error) (post : string)
| pg_error (sqlstate msg : string)
| pgx_ErrNoRows
| ext_error (msg : string).

#[global] Instance error_eq_dec : EqDecision error.
Proof. solve_decision. Defined.

(** [err.Error()] *)
Fixpoint Error (e : error) : string :=
  match e with
  | errors_New _ msg => msg
  | fmt_Errorf pre e post => pre +:+ Error e +:+ post
  | pg_error _ msg => msg
  | pgx_ErrNoRows => "no rows in result set"
  | ext_error msg => msg
  end.

(** [errors.Is(err, target)]: the error or one it wraps is the target. *)
Fixpoint errors_Is (e target : error) : bool :=
  bool_decide (e = target) ||
  match e with fmt_Errorf _ e' _ => errors_Is e' target | _ => false end.

(** [errors.As(err, &pgErr)] followed by [pgErr.SQLState()]: the SQLSTATE of the
    first driver error of the chain. *)
Fixpoint errors_As_SQLState (e : error) : option string :=
  match e with
  | pg_error code _ => Some code
  | fmt_Errorf _ e' _ => errors_As_SQLState e'
  | _ => None
  end.

Lemma errors_Is_refl e : errors_Is e e = true.
Proof. destruct e; cbn [errors_Is]; by rewrite bool_decide_eq_true_2. Qed.

Lemma errors_Is_wrap pre e post target :
  errors_Is e target = true → errors_Is (fmt_Errorf pre e post) target = true.
Proof. intros H. simpl. rewrite H. apply orb_true_r. Qed.

(** ** The result of a call [(A, error)] *)

Inductive Res (A : Type) : Type :=
| Ok (a : A)
| Err (e : error).
Arguments Ok {A} a.
Arguments Err {A} e.

#[global] Instance Res_eq_dec `{EqDecision A} : EqDecision (Res A).
Proof. solve_decision. Defined.

Definition is_ok {A} (r : Res A) : bool :=
  match r with Ok _ => true | Err _ => false end.

Definition res_map {A B} (f : A → B) (r : Res A) : Res B :=
  match r with Ok a => Ok (f a) | Err e => Err e end.

Definition res_bind {A B} (r : Res A) (f : A → Res B) : Res B :=
  match r with Ok a => f a | Err e => Err e end.

(** [if err != nil { return fmt.Errorf("...: %w", err) }] *)
Definition res_wrap {A} (pre : string) (r : Res A) : Res A :=
  match r with Ok a => Ok a | Err e => Err (fmt_Errorf pre e "") end.

(** [if cond { return err }] as a result *)
Definition guard_res (b : bool) (e : error) : Res unit :=
  if b then Ok tt else Err e.

Declare Scope go_scope.
Delimit Scope go_scope with go.
Notation "'let?' x ':=' r 'in' k" := (res_bind r (λ x, k))
  (at level 10, x pattern, r at level 100, k at level 200) : go_scope.

Lemma res_bind_ok {A B} (r : Res A) (f : A → Res B) b :
  res_bind r f = Ok b → ∃ a, r = Ok a ∧ f a = Ok b.
Proof. destruct r; simpl; [eauto|done]. Qed.

Lemma guard_res_ok b e u : guard_res b e = Ok u → b = true.
Proof. by destruct b. Qed.

(** ** JSON

    A document as a tree.  [encoding/json] fixes the member order of a marshalled
    value; a [JSONB] column does not keep it, so documents that went through the
    database are compared by their members.  [JNum] is a number written without
    fraction or exponent, [JReal] any other.  A time is marshalled as a string in
    one of two layouts. *)

Inductive time_layout : Set := RFC3339 | RFC3339Nano.

Inductive json : Set :=
| JNull
| JNum (z : Z)
| JReal (literal : string)
| JStr (s : string)
| JTime (l : time_layout) (t : Z)
| JObj (members : list (string * json))
| JArr (elems : list json).

(** [encoding/json] matches a member to a struct field up to Unicode case folding:
    two non-ASCII characters fold to an ASCII letter, U+017F to [s] and U+212A to
    [k]. *)
Definition fold_char (c : ascii) : ascii :=
  let n := nat_of_ascii c in
  if decide (65 ≤ n ≤ 90)%nat then ascii_of_nat (n + 32) else c.

Fixpoint fold_name (s : string) : string :=
  match s with
  | String "197" (String "191" s') => String "s" (fold_name s')
  | String "226" (String "132" (String "170" s')) => String "k" (fold_name s')
  | String c s' => String (fold_char c) (fold_name s')
  | EmptyString => EmptyString
  end.

(** Decoding into a [string] or an [int64] field that holds [old]; [null] leaves it
    alone. *)
Definition decode_string (old : string) (j : json) : option string :=
  match j with JStr s => Some s | JNull => Some old | _ => None end.

Definition decode_int64 (old : Z) (j : json) : option Z :=
  match j with
  | JNum z => if decide (in_int64 z) then Some z else None
  | JNull => Some old
  | _ => None
  end.

(** Decoding into a struct that holds its zero value: the members in order, an
    unknown one ignored, any mismatch an error. *)
Definition decode_struct {R} (field : string → json → R → option R) (zero : R) (j : json)
  : option R :=
  match j with
  | JNull => Some zero
  | JObj members => foldl (λ acc m, acc ≫= field (fold_name m.1) m.2) (Some zero) members
  | _ => None
  end.

(** ** HTTP *)

Inductive http_body : Set :=
| NoBody
| TextBody (s : string)
| JsonBody (j : json).

Record Response : Set := mkResponse {
  resp_status : Z;
  resp_body : http_body;
}.

(** [http.Error(w, msg, code)] *)
Definition http_Error (msg : string) (code : Z) : Response :=
  mkResponse code (TextBody msg).

Definition StatusOK : Z := 200.
Definition StatusCreated : Z := 201.
Definition StatusBadRequest : Z := 400.
Definition StatusUnauthorized : Z := 401.
Definition StatusForbidden : Z := 403.
Definition StatusNotFound : Z := 404.
Definition StatusConflict : Z := 409.
Definition StatusTooManyRequests : Z := 429.
Definition StatusInternalServerError : Z := 500.
Definition StatusServiceUnavailable : Z := 503.
