(* ===== verification/Models.v ===== *)
(** * The data of the service

    One Module per Go package, holding the types of its [models.go] (and, for
    [idempotency] and [payments], the types declared beside the code).  A Go
    [string] type with constants stays a string; a struct is a Record whose
    fields carry the struct's name; [time.Time] is a number of microseconds.
    [X_json] is what [json.Marshal] makes of a struct, by its field tags. *)

From S2P Require Import Prelude Go.

(** ** internal/auth/models.go *)
Module auth.
Definition Role := string.
Definition RoleUser : Role := "USER".
Definition RoleMerchant : Role := "MERCHANT".
Definition RoleDistributor : Role := "DISTRIBUTOR".
Definition RolePlatform : Role := "PLATFORM".
Definition RoleSystem : Role := "SYSTEM".
Definition RoleAdmin : Role := "ADMIN".

Record User := mkUser {
  User_ID : string;
  User_Email : string;
  User_PasswordHash : string;
  User_Role : Role;
  User_CreatedAt : Z;
  User_UpdatedAt : Z;
}.

Record RegisterRequest := mkRegisterRequest {
  Register_Email : string;
  Register_Password : string;
  Register_Role : Role;
}.

Record LoginRequest := mkLoginRequest {
  Login_Email : string;
  Login_Password : string;
}.

Record AuthResponse := mkAuthResponse {
  Auth_Token : string;
  Auth_User : User;
}.

Definition decode_RegisterRequest : json → option RegisterRequest :=
  decode_struct (λ name j r,
    if bool_decide (name = "email") then
      (λ s, mkRegisterRequest s (Register_Password r) (Register_Role r))
        <$> decode_string (Register_Email r) j
    else if bool_decide (name = "password") then
      (λ s, mkRegisterRequest (Register_Email r) s (Register_Role r))
        <$> decode_string (Register_Password r) j
    else if bool_decide (name = "role") then
      (λ s, mkRegisterRequest (Register_Email r) (Register_Password r) s)
        <$> decode_string (Register_Role r) j
    else Some r) (mkRegisterRequest "" "" "").

Definition decode_LoginRequest : json → option LoginRequest :=
  decode_struct (λ name j r,
    if bool_decide (name = "email") then
      (λ s, mkLoginRequest s (Login_Password r)) <$> decode_string (Login_Email r) j
    else if bool_decide (name = "password") then
      (λ s, mkLoginRequest (Login_Email r) s) <$> decode_string (Login_Password r) j
    else Some r) (mkLoginRequest "" "").

(** [PasswordHash] is tagged [json:"-"]. *)
Definition User_json (u : User) : json := JObj [
  ("id", JStr (User_ID u)); ("email", JStr (User_Email u)); ("role", JStr (User_Role u));
  ("created_at", JTime RFC3339Nano (User_CreatedAt u));
  ("updated_at", JTime RFC3339Nano (User_UpdatedAt u))].

Definition AuthResponse_json (r : AuthResponse) : json := JObj [
  ("token", JStr (Auth_Token r)); ("user", User_json (Auth_User r))].

(** The claims of a verified token that the handlers read. *)
Record JWTClaims := mkClaims {
  Claims_UserID : string;
  Claims_Role : Role;
}.
End auth.

(** ** internal/wallets/models.go *)
Module wallets.
Definition WalletStatus := string.
Definition StatusActive : WalletStatus := "ACTIVE".
Definition StatusFrozen : WalletStatus := "FROZEN".
Definition StatusClosed : WalletStatus := "CLOSED".

Record Wallet := mkWallet {
  Wallet_ID : string;
  Wallet_OwnerID : string;
  Wallet_AccountID : string;
  Wallet_Currency : string;
  Wallet_AvailableBalance : Z;
  Wallet_LockedBalance : Z;
  Wallet_Status : WalletStatus;
  Wallet_Version : Z;
  Wallet_CreatedAt : Z;
  Wallet_UpdatedAt : Z;
}.

Record CreateWalletRequest := mkCreateWalletRequest {
  CreateWalletRequest_Currency : string;
}.

Definition decode_CreateWalletRequest : json → option CreateWalletRequest :=
  decode_struct (λ name j r,
    if bool_decide (name = "currency") then
      mkCreateWalletRequest <$> decode_string (CreateWalletRequest_Currency r) j
    else Some r) (mkCreateWalletRequest "").

Record BalanceResponse := mkBalanceResponse {
  Balance_WalletID : string;
  Balance_Currency : string;
  Balance_AvailableBalance : Z;
  Balance_LockedBalance : Z;
  Balance_LedgerBalance : Z;
}.

Record Transaction := mkTransaction {
  Transaction_ID : string;
  Transaction_ReferenceID : string;
  Transaction_ReferenceType : string;
  Transaction_Amount : Z;
  Transaction_Direction : string;
  Transaction_Currency : string;
  Transaction_Status : string;
  Transaction_CreatedAt : Z;
}.

(** The row with another available balance or another status. *)
Definition set_available (b : Z) (w : Wallet) : Wallet :=
  mkWallet (Wallet_ID w) (Wallet_OwnerID w) (Wallet_AccountID w) (Wallet_Currency w)
    b (Wallet_LockedBalance w) (Wallet_Status w) (Wallet_Version w)
    (Wallet_CreatedAt w) (Wallet_UpdatedAt w).

Definition set_status (st : WalletStatus) (now : Z) (w : Wallet) : Wallet :=
  mkWallet (Wallet_ID w) (Wallet_OwnerID w) (Wallet_AccountID w) (Wallet_Currency w)
    (Wallet_AvailableBalance w) (Wallet_LockedBalance w) st (Wallet_Version w)
    (Wallet_CreatedAt w) now.

Definition Wallet_json (w : Wallet) : json := JObj [
  ("id", JStr (Wallet_ID w)); ("owner_id", JStr (Wallet_OwnerID w));
  ("account_id", JStr (Wallet_AccountID w)); ("currency", JStr (Wallet_Currency w));
  ("available_balance", JNum (Wallet_AvailableBalance w));
  ("locked_balance", JNum (Wallet_LockedBalance w));
  ("status", JStr (Wallet_Status w)); ("version", JNum (Wallet_Version w));
  ("created_at", JTime RFC3339Nano (Wallet_CreatedAt w));
  ("updated_at", JTime RFC3339Nano (Wallet_UpdatedAt w))].

Definition BalanceResponse_json (b : BalanceResponse) : json := JObj [
  ("wallet_id", JStr (Balance_WalletID b)); ("currency", JStr (Balance_Currency b));
  ("available_balance", JNum (Balance_AvailableBalance b));
  ("locked_balance", JNum (Balance_LockedBalance b));
  ("ledger_balance", JNum (Balance_LedgerBalance b))].

Definition Transaction_json (t : Transaction) : json := JObj [
  ("id", JStr (Transaction_ID t)); ("reference_id", JStr (Transaction_ReferenceID t));
  ("reference_type", JStr (Transaction_ReferenceType t));
  ("amount", JNum (Transaction_Amount t)); ("direction", JStr (Transaction_Direction t));
  ("currency", JStr (Transaction_Currency t)); ("status", JStr (Transaction_Status t));
  ("created_at", JTime RFC3339Nano (Transaction_CreatedAt t))].
End wallets.

(** ** internal/ledger/models.go *)
Module ledger.
Definition Direction := string.
Definition DirectionDebit : Direction := "DEBIT".
Definition DirectionCredit : Direction := "CREDIT".

Definition TransactionType := string.
Definition TxTypeTransfer : TransactionType := "TRANSFER".
Definition TxTypePayment : TransactionType := "PAYMENT".
Definition TxTypeRefund : TransactionType := "REFUND".
Definition TxTypeAdjustment : TransactionType := "ADJUSTMENT".
Definition TxTypeReversal : TransactionType := "REVERSAL".
Definition TxTypeFee : TransactionType := "FEE".

Definition TransactionStatus := string.
Definition StatusPending : TransactionStatus := "PENDING".
Definition StatusCompleted : TransactionStatus := "COMPLETED".
Definition StatusFailed : TransactionStatus := "FAILED".

Record Entry := mkEntry {
  Entry_ID : string;
  Entry_TransactionID : string;
  Entry_AccountID : string;
  Entry_Amount : Z;
  Entry_Direction : Direction;
  Entry_Currency : string;
  Entry_CreatedAt : Z;
}.

Record Transaction := mkTransaction {
  Transaction_ID : string;
  Transaction_ReferenceID : string;
  Transaction_ReferenceType : TransactionType;
  Transaction_Status : TransactionStatus;
  Transaction_CreatedAt : Z;
  Transaction_Entries : list Entry;
}.
End ledger.

(** ** internal/transfers/models.go *)
Module transfers.
Definition TransferStatus := string.
Definition StatusPending : TransferStatus := "PENDING".
Definition StatusCompleted : TransferStatus := "COMPLETED".
Definition StatusFailed : TransferStatus := "FAILED".

Record Transfer := mkTransfer {
  Transfer_ID : string;
  Transfer_SourceWalletID : string;
  Transfer_DestinationWalletID : string;
  Transfer_Amount : Z;
  Transfer_Currency : string;
  Transfer_Status : TransferStatus;
  Transfer_IdempotencyKey : string;
  Transfer_CreatedAt : Z;
}.

Record CreateTransferRequest := mkReq {
  Req_SourceWalletID : string;
  Req_DestinationWalletID : string;
  Req_Amount : Z;
  Req_Currency : string;
}.

Definition decode_CreateTransferRequest : json → option CreateTransferRequest :=
  decode_struct (λ name j r,
    if bool_decide (name = "source_wallet_id") then
      (λ s, mkReq s (Req_DestinationWalletID r) (Req_Amount r) (Req_Currency r))
        <$> decode_string (Req_SourceWalletID r) j
    else if bool_decide (name = "destination_wallet_id") then
      (λ s, mkReq (Req_SourceWalletID r) s (Req_Amount r) (Req_Currency r))
        <$> decode_string (Req_DestinationWalletID r) j
    else if bool_decide (name = "amount") then
      (λ n, mkReq (Req_SourceWalletID r) (Req_DestinationWalletID r) n (Req_Currency r))
        <$> decode_int64 (Req_Amount r) j
    else if bool_decide (name = "currency") then
      (λ s, mkReq (Req_SourceWalletID r) (Req_DestinationWalletID r) (Req_Amount r) s)
        <$> decode_string (Req_Currency r) j
    else Some r) (mkReq "" "" 0 "").

Definition Transfer_json (t : Transfer) : json := JObj [
  ("id", JStr (Transfer_ID t)); ("source_wallet_id", JStr (Transfer_SourceWalletID t));
  ("destination_wallet_id", JStr (Transfer_DestinationWalletID t));
  ("amount", JNum (Transfer_Amount t)); ("currency", JStr (Transfer_Currency t));
  ("status", JStr (Transfer_Status t));
  ("idempotency_key", JStr (Transfer_IdempotencyKey t));
  ("created_at", JTime RFC3339Nano (Transfer_CreatedAt t))].

Definition CreateTransferRequest_json (r : CreateTransferRequest) : json := JObj [
  ("source_wallet_id", JStr (Req_SourceWalletID r));
  ("destination_wallet_id", JStr (Req_DestinationWalletID r));
  ("amount", JNum (Req_Amount r)); ("currency", JStr (Req_Currency r))].
End transfers.

(** ** internal/payments/models.go, provider.go, handler.go *)
Module payments.
Definition PaymentStatus := string.
Definition StatusCreated : PaymentStatus := "CREATED".
Definition StatusProcessing : PaymentStatus := "PROCESSING".
Definition StatusSucceeded : PaymentStatus := "SUCCEEDED".
Definition StatusFailed : PaymentStatus := "FAILED".
Definition StatusRefundRequested : PaymentStatus := "REFUND_REQUESTED".
Definition StatusPartiallyRefunded : PaymentStatus := "PARTIALLY_REFUNDED".
Definition StatusRefunded : PaymentStatus := "REFUNDED".
Definition StatusReversed : PaymentStatus := "REVERSED".

Record Payment := mkPayment {
  Payment_ID : string;
  Payment_WalletID : string;
  Payment_Amount : Z;
  Payment_Currency : string;
  Payment_Status : PaymentStatus;
  Payment_ProviderReference : string;
  Payment_CreatedAt : Z;
  Payment_UpdatedAt : Z;
}.

Definition WebhookEventStatus := string.
Definition WebhookStatusPending : WebhookEventStatus := "PENDING".
Definition WebhookStatusProcessed : WebhookEventStatus := "PROCESSED".
Definition WebhookStatusFailed : WebhookEventStatus := "FAILED".

(** A row of [webhook_events]. *)
Record WebhookEvent := mkWebhookEvent {
  WebhookEvent_ID : string;
  WebhookEvent_Provider : string;
  WebhookEvent_EventID : string;
  WebhookEvent_EventType : string;
  WebhookEvent_Payload : json;
  WebhookEvent_Status : WebhookEventStatus;
  WebhookEvent_CreatedAt : Z;
}.

Record WebhookPayload := mkWebhookPayload {
  Webhook_EventID : string;
  Webhook_EventType : string;
  Webhook_ReferenceID : string;
  Webhook_Status : PaymentStatus;
}.

Record ProviderResponse := mkProviderResponse {
  Provider_ReferenceID : string;
  Provider_Status : PaymentStatus;
}.

Record CreatePaymentRequest := mkCreatePaymentRequest {
  CreatePayment_WalletID : string;
  CreatePayment_Amount : Z;
  CreatePayment_Currency : string;
}.

Definition decode_CreatePaymentRequest : json → option CreatePaymentRequest :=
  decode_struct (λ name j r,
    if bool_decide (name = "wallet_id") then
      (λ s, mkCreatePaymentRequest s (CreatePayment_Amount r) (CreatePayment_Currency r))
        <$> decode_string (CreatePayment_WalletID r) j
    else if bool_decide (name = "amount") then
      (λ n, mkCreatePaymentRequest (CreatePayment_WalletID r) n (CreatePayment_Currency r))
        <$> decode_int64 (CreatePayment_Amount r) j
    else if bool_decide (name = "currency") then
      (λ s, mkCreatePaymentRequest (CreatePayment_WalletID r) (CreatePayment_Amount r) s)
        <$> decode_string (CreatePayment_Currency r) j
    else Some r) (mkCreatePaymentRequest "" 0 "").

Definition decode_WebhookPayload : json → option WebhookPayload :=
  decode_struct (λ name j r,
    if bool_decide (name = "event_id") then
      (λ s, mkWebhookPayload s (Webhook_EventType r) (Webhook_ReferenceID r) (Webhook_Status r))
        <$> decode_string (Webhook_EventID r) j
    else if bool_decide (name = "event_type") then
      (λ s, mkWebhookPayload (Webhook_EventID r) s (Webhook_ReferenceID r) (Webhook_Status r))
        <$> decode_string (Webhook_EventType r) j
    else if bool_decide (name = "reference_id") then
      (λ s, mkWebhookPayload (Webhook_EventID r) (Webhook_EventType r) s (Webhook_Status r))
        <$> decode_string (Webhook_ReferenceID r) j
    else if bool_decide (name = "status") then
      (λ s, mkWebhookPayload (Webhook_EventID r) (Webhook_EventType r) (Webhook_ReferenceID r) s)
        <$> decode_string (Webhook_Status r) j
    else Some r) (mkWebhookPayload "" "" "" "").

Definition set_payment_status (st : PaymentStatus) (now : Z) (p : Payment) : Payment :=
  mkPayment (Payment_ID p) (Payment_WalletID p) (Payment_Amount p) (Payment_Currency p)
    st (Payment_ProviderReference p) (Payment_CreatedAt p) now.

Definition Payment_json (p : Payment) : json := JObj [
  ("id", JStr (Payment_ID p)); ("wallet_id", JStr (Payment_WalletID p));
  ("amount", JNum (Payment_Amount p)); ("currency", JStr (Payment_Currency p));
  ("status", JStr (Payment_Status p));
  ("provider_reference", JStr (Payment_ProviderReference p));
  ("created_at", JTime RFC3339Nano (Payment_CreatedAt p));
  ("updated_at", JTime RFC3339Nano (Payment_UpdatedAt p))].
End payments.

(** ** internal/outbox/models.go *)
Module outbox.
Definition EventStatus := string.
Definition StatusPending : EventStatus := "PENDING".
Definition StatusPublished : EventStatus := "PUBLISHED".
Definition StatusFailed : EventStatus := "FAILED".

Record Event := mkEvent {
  Event_ID : string;
  Event_Topic : string;
  Event_Payload : json;
  Event_Status : EventStatus;
  Event_Attempts : Z;
  Event_NextRetryAt : Z;
  Event_ErrorMsg : option string;
  Event_CreatedAt : Z;
  Event_UpdatedAt : Z;
}.
End outbox.

(** ** internal/idempotency/repository.go *)
Module idempotency.
Definition Status := string.
Definition StatusInProgress : Status := "IN_PROGRESS".
Definition StatusCompleted : Status := "COMPLETED".

(** A row of [idempotency_keys]: the response columns are nullable. *)
Record KeyRow := mkKeyRow {
  Row_Key : string;
  Row_Status : Status;
  Row_RequestPayload : json;
  Row_ResponsePayload : option json;
  Row_ResponseStatus : option Z;
  Row_LockedAt : option Z;
  Row_CreatedAt : Z;
}.

(** What [TryAcquire] returns: nil payload and status [0] when absent. *)
Record KeyRecord := mkKeyRecord {
  Rec_Key : string;
  Rec_Status : Status;
  Rec_RequestPayload : json;
  Rec_ResponsePayload : option json;
  Rec_ResponseStatus : Z;
}.
End idempotency.

(** ** internal/reconciliation/models.go *)
Module reconciliation.
Definition RunStatus := string.
Definition StatusInProgress : RunStatus := "IN_PROGRESS".
Definition StatusPassed : RunStatus := "PASSED".
Definition StatusFailed : RunStatus := "FAILED".

Record Run := mkRun {
  Run_ID : string;
  Run_Status : RunStatus;
  Run_WalletsChecked : Z;
  Run_LedgerTransactionsChecked : Z;
  Run_MismatchesFound : Z;
  Run_StartedAt : Z;
  Run_CompletedAt : option Z;
}.

Record Item := mkItem {
  Item_ID : string;
  Item_RunID : string;
  Item_EntityType : string;
  Item_EntityID : string;
  Item_MismatchType : string;
  Item_Details : json;
  Item_CreatedAt : Z;
}.
End reconciliation.
