(* ===== verification/Postgres.v ===== *)
(** * The database

    The tables of [db/migrations] as finite maps from primary keys to rows, and
    the column types and constraints the SQL of the service relies on:
    [VARCHAR(n)], [BIGINT], [CHECK], [REFERENCES], primary keys, with the SQLSTATE
    each of them fails with. *)

From S2P Require Import Prelude Go Models.
From Stdlib Require Import Ascii.

(** ** Tables *)

(** A row of [accounts]. *)
Record Account := mkAccount {
  Account_ID : string;
  Account_Type : string;
  Account_Currency : string;
  Account_CreatedAt : Z;
}.

(** A row of [ledger_transactions] (the entries are rows of another table). *)
Record LedgerTxnRow := mkLedgerTxnRow {
  LTxn_ID : string;
  LTxn_ReferenceID : string;
  LTxn_ReferenceType : string;
  LTxn_Status : string;
  LTxn_CreatedAt : Z;
}.

Record DB := mkDB {
  users : gmap string auth.User;
  accounts : gmap string Account;
  wallets_t : gmap string wallets.Wallet;
  ledger_transactions : gmap string LedgerTxnRow;
  ledger_entries : gmap string ledger.Entry;
  idempotency_keys : gmap string idempotency.KeyRow;
  transfers_t : gmap string transfers.Transfer;
  payments_t : gmap string payments.Payment;
  webhook_events : gmap string payments.WebhookEvent;
  outbox_events : gmap string outbox.Event;
  reconciliation_runs : gmap string reconciliation.Run;
  reconciliation_items : gmap string reconciliation.Item;
}.

(** The schema just after the migrations: no row anywhere. *)
Definition empty_db : DB := mkDB ∅ ∅ ∅ ∅ ∅ ∅ ∅ ∅ ∅ ∅ ∅ ∅.

Definition set_users t d := mkDB t (accounts d) (wallets_t d) (ledger_transactions d)
  (ledger_entries d) (idempotency_keys d) (transfers_t d) (payments_t d) (webhook_events d)
  (outbox_events d) (reconciliation_runs d) (reconciliation_items d).
Definition set_accounts t d := mkDB (users d) t (wallets_t d) (ledger_transactions d)
  (ledger_entries d) (idempotency_keys d) (transfers_t d) (payments_t d) (webhook_events d)
  (outbox_events d) (reconciliation_runs d) (reconciliation_items d).
Definition set_wallets t d := mkDB (users d) (accounts d) t (ledger_transactions d)
  (ledger_entries d) (idempotency_keys d) (transfers_t d) (payments_t d) (webhook_events d)
  (outbox_events d) (reconciliation_runs d) (reconciliation_items d).
Definition set_ledger_transactions t d := mkDB (users d) (accounts d) (wallets_t d) t
  (ledger_entries d) (idempotency_keys d) (transfers_t d) (payments_t d) (webhook_events d)
  (outbox_events d) (reconciliation_runs d) (reconciliation_items d).
Definition set_ledger_entries t d := mkDB (users d) (accounts d) (wallets_t d)
  (ledger_transactions d) t (idempotency_keys d) (transfers_t d) (payments_t d)
  (webhook_events d) (outbox_events d) (reconciliation_runs d) (reconciliation_items d).
Definition set_idempotency_keys t d := mkDB (users d) (accounts d) (wallets_t d)
  (ledger_transactions d) (ledger_entries d) t (transfers_t d) (payments_t d)
  (webhook_events d) (outbox_events d) (reconciliation_runs d) (reconciliation_items d).
Definition set_transfers t d := mkDB (users d) (accounts d) (wallets_t d)
  (ledger_transactions d) (ledger_entries d) (idempotency_keys d) t (payments_t d)
  (webhook_events d) (outbox_events d) (reconciliation_runs d) (reconciliation_items d).
Definition set_payments t d := mkDB (users d) (accounts d) (wallets_t d)
  (ledger_transactions d) (ledger_entries d) (idempotency_keys d) (transfers_t d) t
  (webhook_events d) (outbox_events d) (reconciliation_runs d) (reconciliation_items d).
Definition set_webhook_events t d := mkDB (users d) (accounts d) (wallets_t d)
  (ledger_transactions d) (ledger_entries d) (idempotency_keys d) (transfers_t d)
  (payments_t d) t (outbox_events d) (reconciliation_runs d) (reconciliation_items d).
Definition set_outbox_events t d := mkDB (users d) (accounts d) (wallets_t d)
  (ledger_transactions d) (ledger_entries d) (idempotency_keys d) (transfers_t d)
  (payments_t d) (webhook_events d) t (reconciliation_runs d) (reconciliation_items d).
Definition set_reconciliation_runs t d := mkDB (users d) (accounts d) (wallets_t d)
  (ledger_transactions d) (ledger_entries d) (idempotency_keys d) (transfers_t d)
  (payments_t d) (webhook_events d) (outbox_events d) t (reconciliation_items d).
Definition set_reconciliation_items t d := mkDB (users d) (accounts d) (wallets_t d)
  (ledger_transactions d) (ledger_entries d) (idempotency_keys d) (transfers_t d)
  (payments_t d) (webhook_events d) (outbox_events d) (reconciliation_runs d) t.

(** ** Column types and constraints *)

Definition unique_violation (c : string) : error :=
  pg_error "23505" ("duplicate key value violates unique constraint " +:+ c).
Definition foreign_key_violation (t : string) : error :=
  pg_error "23503" ("insert violates foreign key constraint on " +:+ t).
Definition check_violation (c : string) : error :=
  pg_error "23514" ("new row violates check constraint " +:+ c).
Definition invalid_uuid : error := pg_error "22P02" "invalid input syntax for type uuid".
Definition value_too_long : error := pg_error "22001" "value too long for type character varying".
Definition bigint_out_of_range : error := pg_error "22003" "bigint out of range".

(** The first [n] characters of a UTF-8 string and the rest: a continuation byte
    (10xxxxxx) belongs to the character before it. *)
Fixpoint split_chars (n : nat) (s : string) : string * string :=
  match s with
  | EmptyString => (EmptyString, EmptyString)
  | String c s' =>
    let b := Ascii.nat_of_ascii c in
    if decide (128 ≤ b < 192)%nat then
      let '(u, v) := split_chars n s' in (String c u, v)
    else match n with
         | O => (EmptyString, s)
         | S n' => let '(u, v) := split_chars n' s' in (String c u, v)
         end
  end.

Fixpoint all_spaces (s : string) : bool :=
  match s with
  | EmptyString => true
  | String c s' => bool_decide (c = " "%char) && all_spaces s'
  end.

(** Storing into a [VARCHAR(n)] column: a longer value is an error unless the
    excess is only spaces, which are cut. *)
Definition varchar (n : nat) (s : string) : Res string :=
  let '(u, v) := split_chars n s in
  if all_spaces v then Ok u else Err value_too_long.

Definition bigint (z : Z) : Res Z :=
  if decide (in_int64 z) then Ok z else Err bigint_out_of_range.

Definition integer_out_of_range : error := pg_error "22003" "integer out of range".

(** An [INT] column. *)
Definition int4 (z : Z) : Res Z :=
  if decide (- 2 ^ 31 <= z < 2 ^ 31) then Ok z else Err integer_out_of_range.

(** [CONSTRAINT c CHECK (b)] *)
Definition check_constraint (c : string) (b : bool) : Res unit :=
  guard_res b (check_violation c).

(** [REFERENCES t(id)] *)
Definition references {A} (name : string) (t : gmap string A) (id : string) : Res unit :=
  guard_res (bool_decide (is_Some (t !! id))) (foreign_key_violation name).

(** Insertion under a primary key. *)
Definition insert_pk {A} (name : string) (t : gmap string A) (id : string) (row : A)
  : Res (gmap string A) :=
  match t !! id with
  | Some _ => Err (unique_violation name)
  | None => Ok (<[id:=row]> t)
  end.

Lemma insert_pk_ok {A} name (t t' : gmap string A) id row :
  insert_pk name t id row = Ok t' → t !! id = None ∧ t' = <[id:=row]> t.
Proof. unfold insert_pk. destruct (t !! id); naive_solver. Qed.

Lemma insert_pk_fresh {A} name (t : gmap string A) id row :
  t !! id = None → insert_pk name t id row = Ok (<[id:=row]> t).
Proof. unfold insert_pk. by intros ->. Qed.

Lemma references_ok {A} name (t : gmap string A) id u :
  references name t id = Ok u → is_Some (t !! id).
Proof. intros H%guard_res_ok. by apply bool_decide_eq_true in H. Qed.

Lemma references_some {A} name (t : gmap string A) id :
  is_Some (t !! id) → references name t id = Ok tt.
Proof. intros H. unfold references. by rewrite bool_decide_eq_true_2. Qed.

Lemma bigint_ok z z' : bigint z = Ok z' → z' = z ∧ in_int64 z.
Proof. unfold bigint. case_decide; naive_solver. Qed.

Lemma bigint_in z : in_int64 z → bigint z = Ok z.
Proof. intros. unfold bigint. by rewrite decide_True. Qed.

(** A text of at most [n] bytes has at most [n] characters. *)
Lemma split_chars_short n s : (String.length s ≤ n)%nat → split_chars n s = (s, EmptyString).
Proof.
  revert n. induction s as [|c s IH]; intros n Hn; simpl in *; [done|].
  case_decide; [by rewrite IH by lia|]. destruct n as [|n]; [lia|]. by rewrite IH by lia.
Qed.

Lemma varchar_short n s : (String.length s ≤ n)%nat → varchar n s = Ok s.
Proof. intros Hn. unfold varchar. by rewrite split_chars_short. Qed.
