(* ===== verification/Runtime.v ===== *)
(** * Programs that talk to the outside

    The outside world as an oracle ([Env]), the shared state ([World]), and two
    levels of programs: [M], what one goroutine does inside a single database call
    or transaction, and [prog], a sequence of such calls.  Transactions are opened
    the way the code opens them: [Begin], a deferred [Rollback], a final
    [Commit]. *)

From S2P Require Import Prelude Go Models Postgres.
From Stdlib Require Import QArith_base.
#[local] Open Scope Z_scope.

(** ** The environment

    Every exchange with the outside is numbered.  The [n]-th may go well, fail
    without effect, or take effect although its reply is lost; the error of a
    failure ([ext_error]) stands for every error the schema does not raise, a
    deadlock or a serialization failure included; it may draw a
    random UUID or random numbers, and it reads a clock.  [lua_ge] is how Lua compares a text
    with a number, if it takes the text for one; the cases that the code meets are written
    out where they are used.  [uuid_in] is
    PostgreSQL's text input for type [uuid]: several spellings denote one value,
    which is always output in its canonical spelling. *)
Inductive outcome : Set :=
| Fine
| FailBefore (msg : string)
| FailAfter (msg : string).

Class Env := {
  env_outcome : nat → outcome;
  env_uuid : nat → string;
  env_now : nat → Z;
  env_intn : nat → Z → Z;
  env_float32 : nat → Q;
  lua_ge : string → Z → option bool;
  uuid_in : string → option string;
}.

(** The documented behaviour of the uuid type the theorems rely on. *)
Class UuidLaws `{Env} := {
  uuid_in_canonical s u : uuid_in s = Some u → uuid_in u = Some u;
  env_uuid_canonical n : uuid_in (env_uuid n) = Some (env_uuid n);
}.

(** A request spells an id canonically when the database prints it that way. *)
Definition canonical `{Env} (s : string) : Prop := uuid_in s = Some s.

#[export] Instance canonical_dec `{Env} s : Decision (canonical s).
Proof. unfold canonical. apply _. Defined.

(** No exchange fails from number [n] on. *)
Definition no_faults `{Env} (n : nat) : Prop := ∀ k, (n ≤ k)%nat → env_outcome k = Fine.

(** ** The shared state *)

(** The keys of Redis with their texts and expiry times. *)
Notation Keyspace := (gmap string (string * option Z)).

(** [w_tick] numbers the exchanges; [w_now] is [NOW()] of the current statement or
    transaction; [w_locks] the row locks the current or last transaction took, in
    order; [w_transfers_total] and [w_payments_total] the Prometheus counters by
    label; [w_topics] what the broker accepted; [w_redis] the keys of
    Redis; [w_http_requests_total] and [w_http_request_duration] the
    HTTP metrics, by label values, the durations as they were observed. *)
Record World := mkWorld {
  w_db : DB;
  w_tick : nat;
  w_now : Z;
  w_locks : list (string * string);
  w_transfers_total : gmap string Z;
  w_payments_total : gmap string Z;
  w_topics : list (string * json);
  w_redis : Keyspace;
  w_http_requests_total : gmap (list string) Z;
  w_http_request_duration : gmap (list string) (list Z);
}.

Definition init_world : World := mkWorld empty_db 0 0 [] ∅ ∅ [] ∅ ∅ ∅.

Definition set_db (d : DB) (w : World) : World :=
  mkWorld d (w_tick w) (w_now w) (w_locks w) (w_transfers_total w) (w_payments_total w)
    (w_topics w) (w_redis w)
    (w_http_requests_total w) (w_http_request_duration w).

(** The exchange is over. *)
Definition bump (w : World) : World :=
  mkWorld (w_db w) (S (w_tick w)) (w_now w) (w_locks w) (w_transfers_total w)
    (w_payments_total w) (w_topics w) (w_redis w)
    (w_http_requests_total w) (w_http_request_duration w).

(** A transaction, or a statement on its own, starts: [NOW()] is read. *)
Definition start `{Env} (w : World) : World :=
  mkWorld (w_db w) (w_tick w) (env_now (w_tick w)) [] (w_transfers_total w)
    (w_payments_total w) (w_topics w) (w_redis w)
    (w_http_requests_total w) (w_http_request_duration w).

Definition set_locks (l : list (string * string)) (w : World) : World :=
  mkWorld (w_db w) (w_tick w) (w_now w) l (w_transfers_total w) (w_payments_total w)
    (w_topics w) (w_redis w)
    (w_http_requests_total w) (w_http_request_duration w).

Definition set_transfers_total t (w : World) : World :=
  mkWorld (w_db w) (w_tick w) (w_now w) (w_locks w) t (w_payments_total w) (w_topics w)
    (w_redis w)
    (w_http_requests_total w) (w_http_request_duration w).
Definition set_payments_total t (w : World) : World :=
  mkWorld (w_db w) (w_tick w) (w_now w) (w_locks w) (w_transfers_total w) t (w_topics w)
    (w_redis w)
    (w_http_requests_total w) (w_http_request_duration w).
Definition set_topics t (w : World) : World :=
  mkWorld (w_db w) (w_tick w) (w_now w) (w_locks w) (w_transfers_total w)
    (w_payments_total w) t (w_redis w)
    (w_http_requests_total w) (w_http_request_duration w).
Definition set_redis t (w : World) : World :=
  mkWorld (w_db w) (w_tick w) (w_now w) (w_locks w) (w_transfers_total w)
    (w_payments_total w) (w_topics w) t
    (w_http_requests_total w) (w_http_request_duration w).
Definition set_http t h (w : World) : World :=
  mkWorld (w_db w) (w_tick w) (w_now w) (w_locks w) (w_transfers_total w)
    (w_payments_total w) (w_topics w) (w_redis w) t h.

(** ** Inside a database call or transaction *)

Definition M (A : Type) : Type := World → Res A * World.

Definition ret {A} (a : A) : M A := λ w, (Ok a, w).
Definition fail {A} (e : error) : M A := λ w, (Err e, w).

(** Sequencing with Go's [if err != nil { return err }]. *)
Definition bind {A B} (m : M A) (f : A → M B) : M B := λ w,
  match m w with
  | (Ok a, w') => f a w'
  | (Err e, w') => (Err e, w')
  end.

Definition guard (b : bool) (e : error) : M unit := if b then ret tt else fail e.

(** [return fmt.Errorf("...: %w", err)] *)
Definition wrap_err {A} (pre : string) (m : M A) : M A := λ w,
  let '(r, w') := m w in (res_wrap pre r, w').

(** [if err != nil { if ... { return err' }; return err }] *)
Definition map_err {A} (f : error → error) (m : M A) : M A := λ w,
  match m w with
  | (Ok a, w') => (Ok a, w')
  | (Err e, w') => (Err (f e), w')
  end.

(** A computation that exchanges nothing with the outside. *)
Definition lift_res {A} (r : Res A) : M A := λ w, (r, w).

(** A [uuid] parameter of a statement, sent as text. *)
Definition uuid_param `{Env} (s : string) : Res string :=
  match uuid_in s with Some u => Ok u | None => Err invalid_uuid end.

Declare Scope m_scope.
Delimit Scope m_scope with m.
Bind Scope m_scope with M.
Notation "x <- m ;; k" := (bind m (λ x, k))
  (at level 100, m at next level, right associativity) : m_scope.
Notation "m ;; k" := (bind m (λ _, k)) (at level 100, right associativity) : m_scope.

(** What a statement may use: a fresh [gen_random_uuid()] and [NOW()]. *)
Record Ctx := mkCtx { c_uuid : string; c_now : Z }.

Definition ctx `{Env} (w : World) : Ctx := mkCtx (env_uuid (w_tick w)) (w_now w).

(** A statement of an open transaction ([tx.Exec], [tx.QueryRow]).  When it fails
    the transaction is lost, so a lost reply is a failure like another. *)
Definition query `{Env} {A} (f : Ctx → DB → Res (A * DB)) : M A := λ w,
  match env_outcome (w_tick w) with
  | Fine => match f (ctx w) (w_db w) with
            | Ok (a, d) => (Ok a, set_db d (bump w))
            | Err e => (Err e, bump w)
            end
  | FailBefore msg | FailAfter msg => (Err (ext_error msg), bump w)
  end.

(** A statement on its own ([db.Exec], [db.QueryRow], [db.Query]): it commits by
    itself, so it may have taken effect although an error is returned. *)
Definition exec `{Env} {A} (f : Ctx → DB → Res (A * DB)) : M A := λ w,
  let w0 := start w in
  match env_outcome (w_tick w) with
  | Fine => match f (ctx w0) (w_db w) with
            | Ok (a, d) => (Ok a, set_db d (bump w0))
            | Err e => (Err e, bump w0)
            end
  | FailBefore msg => (Err (ext_error msg), bump w0)
  | FailAfter msg => match f (ctx w0) (w_db w) with
                     | Ok (_, d) => (Err (ext_error msg), set_db d (bump w0))
                     | Err e => (Err e, bump w0)
                     end
  end.

(** [time.Now()]; the clock moves when something is exchanged with the outside. *)
Definition time_Now `{Env} : M Z := λ w, (Ok (env_now (w_tick w)), w).

(** The row lock of a [SELECT ... FOR UPDATE] or an [UPDATE], held to the end of
    the transaction; taking it again changes nothing. *)
Definition take_lock (l : string * string) : M unit := λ w,
  (Ok tt, if decide (l ∈ w_locks w) then w else set_locks (w_locks w ++ [l]) w).

(** [tx, err := db.Begin(ctx); if err != nil { return err };
    defer tx.Rollback(ctx); ...; if err := tx.Commit(ctx); err != nil { return err }] *)
Definition with_tx `{Env} {A} (body : M A) : M A := λ w,
  match env_outcome (w_tick w) with
  | FailBefore msg | FailAfter msg => (Err (ext_error msg), bump w)
  | Fine =>
    match body (bump (start w)) with
    | (Err e, w1) => (Err e, set_db (w_db w) w1)
    | (Ok a, w1) =>
      match env_outcome (w_tick w1) with
      | Fine => (Ok a, bump w1)
      | FailBefore msg => (Err (ext_error msg), set_db (w_db w) (bump w1))
      | FailAfter msg => (Err (ext_error msg), bump w1)
      end
    end
  end.

(** ** Sequences of calls *)

(** A goroutine's program: it performs an atomic call and goes on with its
    result.  Between two calls other goroutines may run. *)
Inductive prog (A : Type) : Type :=
| Ret (a : A)
| Do {X : Type} (m : M X) (k : Res X → prog A).
Arguments Ret {A} a.
Arguments Do {A X} m k.

Fixpoint prog_bind {A B} (p : prog A) (f : A → prog B) : prog B :=
  match p with
  | Ret a => f a
  | Do m k => Do m (λ r, prog_bind (k r) f)
  end.

Definition call {X} (m : M X) : prog (Res X) := Do m Ret.

(** Sequencing a fallible call with [if err != nil { return err }]. *)
Definition prog_try {A B} (p : prog (Res A)) (f : A → prog (Res B)) : prog (Res B) :=
  prog_bind p (λ r, match r with Ok a => f a | Err e => Ret (Err e) end).

Declare Scope prog_scope.
Delimit Scope prog_scope with prog.
Notation "'let+' x ':=' p 'in' k" := (prog_bind p (λ x, k))
  (at level 10, x pattern, p at level 100, k at level 200) : prog_scope.
Notation "'let*' x ':=' p 'in' k" := (prog_try p (λ x, k))
  (at level 10, x pattern, p at level 100, k at level 200) : prog_scope.

(** The program run without interference. *)
Fixpoint run {A} (p : prog A) (w : World) : A * World :=
  match p with
  | Ret a => (a, w)
  | Do m k => let '(r, w') := m w in run (k r) w'
  end.

(** ** Equations and inversions

    The [_ok] lemmas read a successful run backwards, the [_fine] lemmas evaluate
    it forwards. *)

Lemma bind_ok {A B} (m : M A) (f : A → M B) w b w' :
  bind m f w = (Ok b, w') → ∃ a w1, m w = (Ok a, w1) ∧ f a w1 = (Ok b, w').
Proof. unfold bind. destruct (m w) as [[a|e] w1]; naive_solver. Qed.

Lemma bind_ret {A B} (a : A) (f : A → M B) w : bind (ret a) f w = f a w.
Proof. done. Qed.

Lemma bind_eq {A B} (m : M A) (f : A → M B) w a w' :
  m w = (Ok a, w') → bind m f w = f a w'.
Proof. unfold bind. by intros ->. Qed.

Lemma bind_err {A B} (m : M A) (f : A → M B) w e w' :
  m w = (Err e, w') → bind m f w = (Err e, w').
Proof. unfold bind. by intros ->. Qed.

Lemma ret_ok {A} (a a' : A) w w' : ret a w = (Ok a', w') → a' = a ∧ w' = w.
Proof. unfold ret. naive_solver. Qed.

Lemma guard_ok b e u w w' : guard b e w = (Ok u, w') → b = true ∧ w' = w.
Proof. destruct b; unfold guard, ret, fail; naive_solver. Qed.

Lemma wrap_err_ok {A} pre (m : M A) w a w' :
  wrap_err pre m w = (Ok a, w') → m w = (Ok a, w').
Proof. unfold wrap_err, res_wrap. destruct (m w) as [[?|?] ?]; naive_solver. Qed.

Lemma map_err_ok {A} f (m : M A) w a w' :
  map_err f m w = (Ok a, w') → m w = (Ok a, w').
Proof. unfold map_err. destruct (m w) as [[?|?] ?]; naive_solver. Qed.

Lemma lift_res_ok {A} (r : Res A) w a w' :
  lift_res r w = (Ok a, w') → r = Ok a ∧ w' = w.
Proof. unfold lift_res. naive_solver. Qed.

Lemma uuid_param_ok `{Env} s u : uuid_param s = Ok u → uuid_in s = Some u.
Proof. unfold uuid_param. destruct (uuid_in s); naive_solver. Qed.

Lemma uuid_param_some `{Env} s u : uuid_in s = Some u → uuid_param s = Ok u.
Proof. unfold uuid_param. by intros ->. Qed.

Lemma take_lock_ok l u w w' :
  take_lock l w = (Ok u, w') →
  w' = if decide (l ∈ w_locks w) then w else set_locks (w_locks w ++ [l]) w.
Proof. unfold take_lock. naive_solver. Qed.

Section Equations.
Context `{Env}.

Lemma query_ok {A} (f : Ctx → DB → Res (A * DB)) w a w' :
  query f w = (Ok a, w') →
  ∃ d, f (ctx w) (w_db w) = Ok (a, d) ∧ w' = set_db d (bump w).
Proof.
  unfold query. destruct (env_outcome (w_tick w)); [|done..].
  destruct (f _ _) as [[? ?]|]; naive_solver.
Qed.

Lemma query_fine {A} (f : Ctx → DB → Res (A * DB)) w :
  env_outcome (w_tick w) = Fine →
  query f w = match f (ctx w) (w_db w) with
              | Ok (a, d) => (Ok a, set_db d (bump w))
              | Err e => (Err e, bump w)
              end.
Proof. unfold query. by intros ->. Qed.

Lemma query_err_db {A} (f : Ctx → DB → Res (A * DB)) w e w' :
  query f w = (Err e, w') → w' = bump w.
Proof.
  unfold query. destruct (env_outcome (w_tick w)); [|naive_solver..].
  destruct (f _ _) as [[? ?]|]; naive_solver.
Qed.

(** The effect of a statement on its own: none, or the statement's. *)
Lemma exec_cases {A} (f : Ctx → DB → Res (A * DB)) w r w' :
  exec f w = (r, w') →
  (∃ e, r = Err e ∧ w_db w' = w_db w) ∨
  (∃ a d, f (ctx (start w)) (w_db w) = Ok (a, d) ∧ w_db w' = d ∧
          (r = Ok a ∨ ∃ e, r = Err e)).
Proof.
  unfold exec. destruct (env_outcome (w_tick w)); [| |].
  - destruct (f _ _) as [[? ?]|]; intros; simplify_eq; naive_solver.
  - intros; simplify_eq; naive_solver.
  - destruct (f _ _) as [[? ?]|]; intros; simplify_eq; naive_solver.
Qed.

Lemma exec_ok {A} (f : Ctx → DB → Res (A * DB)) w a w' :
  exec f w = (Ok a, w') →
  ∃ d, f (ctx (start w)) (w_db w) = Ok (a, d) ∧ w' = set_db d (bump (start w)).
Proof.
  unfold exec. destruct (env_outcome (w_tick w)); [| |].
  - destruct (f _ _) as [[? ?]|]; intros; simplify_eq; naive_solver.
  - done.
  - destruct (f _ _) as [[? ?]|]; done.
Qed.

Lemma exec_fine {A} (f : Ctx → DB → Res (A * DB)) w :
  env_outcome (w_tick w) = Fine →
  exec f w = match f (ctx (start w)) (w_db w) with
             | Ok (a, d) => (Ok a, set_db d (bump (start w)))
             | Err e => (Err e, bump (start w))
             end.
Proof. unfold exec. by intros ->. Qed.

(** A statement that only reads. *)
Definition reads {A} (f : Ctx → DB → Res (A * DB)) : Prop :=
  ∀ c d a d', f c d = Ok (a, d') → d' = d.

Lemma exec_read {A} (f : Ctx → DB → Res (A * DB)) w r w' :
  reads f → exec f w = (r, w') → w_db w' = w_db w.
Proof. intros Hr [(e & _ & Hd)|(a & d & Hq%Hr & -> & _)]%exec_cases; done. Qed.

Lemma exec_tick {A} (f : Ctx → DB → Res (A * DB)) w : w_tick (exec f w).2 = S (w_tick w).
Proof. unfold exec. destruct (env_outcome _); [|done|]; by destruct (f _ _) as [[? ?]|]. Qed.

Lemma exec_topics {A} (f : Ctx → DB → Res (A * DB)) w : w_topics (exec f w).2 = w_topics w.
Proof.
  unfold exec. destruct (env_outcome (w_tick w)); [|done|];
    by destruct (f _ _) as [[? ?]|].
Qed.

Lemma query_topics {A} (f : Ctx → DB → Res (A * DB)) w :
  w_topics (query f w).2 = w_topics w.
Proof.
  unfold query. destruct (env_outcome (w_tick w)); [|done..].
  by destruct (f _ _) as [[? ?]|].
Qed.

Lemma with_tx_topics {A} (body : M A) w :
  (∀ w, w_topics (body w).2 = w_topics w) → w_topics (with_tx body w).2 = w_topics w.
Proof.
  intros Hb. unfold with_tx. destruct (env_outcome (w_tick w)); [|done..].
  specialize (Hb (bump (start w))). destruct (body _) as [[a|e] w1]; [|done].
  by destruct (env_outcome (w_tick w1)).
Qed.

(** A transaction is all or nothing: either the database is as before and an
    error is returned, or the body succeeded and its effect is there (the error,
    if any, is then a lost commit reply). *)
Lemma with_tx_cases {A} (body : M A) w r w' :
  with_tx body w = (r, w') →
  (∃ e, r = Err e ∧ w_db w' = w_db w) ∨
  (∃ a w1, body (bump (start w)) = (Ok a, w1) ∧ w' = bump w1 ∧
           (r = Ok a ∨ ∃ msg, r = Err (ext_error msg) ∧
                        env_outcome (w_tick w1) = FailAfter msg)).
Proof.
  unfold with_tx. destruct (env_outcome (w_tick w)); [|naive_solver..].
  destruct (body _) as [[a|e] w1]; [|naive_solver].
  destruct (env_outcome (w_tick w1)) eqn:?; naive_solver.
Qed.

Lemma with_tx_ok {A} (body : M A) w a w' :
  with_tx body w = (Ok a, w') →
  ∃ w1, body (bump (start w)) = (Ok a, w1) ∧ w' = bump w1.
Proof.
  intros [(? & ? & _)|(a' & w1 & ? & ? & [?|(? & ? & _)])]%with_tx_cases; naive_solver.
Qed.

Lemma with_tx_fine {A} (body : M A) w a w1 :
  env_outcome (w_tick w) = Fine → body (bump (start w)) = (Ok a, w1) →
  env_outcome (w_tick w1) = Fine → with_tx body w = (Ok a, bump w1).
Proof. unfold with_tx. intros -> Hb Hc. rewrite Hb. by rewrite Hc. Qed.

(** When every exchange goes well, an error of the body is returned as it is
    and undoes everything. *)
Lemma with_tx_err {A} (body : M A) w e w1 :
  env_outcome (w_tick w) = Fine → body (bump (start w)) = (Err e, w1) →
  with_tx body w = (Err e, set_db (w_db w) w1).
Proof. unfold with_tx. intros -> Hb. by rewrite Hb. Qed.
End Equations.

Lemma run_bind {A B} (p : prog A) (f : A → prog B) w :
  run (prog_bind p f) w = let '(a, w') := run p w in run (f a) w'.
Proof.
  revert w. induction p as [a|X m k IH]; intros w; simpl; [done|].
  destruct (m w) as [r w']. apply IH.
Qed.

Lemma run_try {A B} (p : prog (Res A)) (f : A → prog (Res B)) w :
  run (prog_try p f) w =
  match run p w with
  | (Ok a, w') => run (f a) w'
  | (Err e, w') => (Err e, w')
  end.
Proof. unfold prog_try. rewrite run_bind. by destruct (run p w) as [[?|?] ?]. Qed.

Lemma run_call {X} (m : M X) w : run (call m) w = m w.
Proof. unfold call. simpl. by destruct (m w). Qed.

#[export] Hint Rewrite @run_bind @run_try @run_call : ledger_rw.

(** The invariants of single calls lift to programs: a predicate on worlds kept by
    every call of a program, whatever the calls return. *)
Fixpoint calls {A} (Q : ∀ X, M X → Prop) (p : prog A) : Prop :=
  match p with
  | Ret _ => True
  | Do m k => Q _ m ∧ ∀ r, calls Q (k r)
  end.

Definition keeps (I : World → Prop) : ∀ X, M X → Prop :=
  λ _ m, ∀ w, I w → I (m w).2.

Lemma calls_bind {A B} Q (p : prog A) (f : A → prog B) :
  calls Q p → (∀ a, calls Q (f a)) → calls Q (prog_bind p f).
Proof. induction p; simpl; naive_solver. Qed.

Lemma calls_try {A B} Q (p : prog (Res A)) (f : A → prog (Res B)) :
  calls Q p → (∀ a, calls Q (f a)) → calls Q (prog_try p f).
Proof. intros Hp Hf. apply calls_bind; [done|]. intros [a|e]; simpl; auto. Qed.

Lemma calls_call {X} Q (m : M X) : Q _ m → calls Q (call m).
Proof. simpl; auto. Qed.

Lemma calls_mono {A} (Q Q' : ∀ X, M X → Prop) (p : prog A) :
  (∀ X (m : M X), Q X m → Q' X m) → calls Q p → calls Q' p.
Proof. intros HQ. induction p; simpl; naive_solver. Qed.

Lemma run_keeps {A} I (p : prog A) w : calls (keeps I) p → I w → I (run p w).2.
Proof.
  revert w. induction p as [a|X m k IH]; intros w; simpl; [done|].
  intros [Hm Hk] Hw. specialize (Hm w Hw). destruct (m w) as [r w']. by apply IH.
Qed.

#[export] Hint Resolve calls_bind calls_try calls_call : ledger_db.

(** [m_inv] reads a successful run of a straight-line [M] program backwards, one
    statement at a time. *)
Ltac m_inv_step :=
  match goal with
  | H : bind _ _ _ = (Ok _, _) |- _ => apply bind_ok in H as (? & ? & ? & ?)
  | H : ret _ _ = (Ok _, _) |- _ => apply ret_ok in H as [? ?]
  | H : guard _ _ _ = (Ok _, _) |- _ => apply guard_ok in H as [? ?]
  | H : wrap_err _ _ _ = (Ok _, _) |- _ => apply wrap_err_ok in H
  | H : map_err _ _ _ = (Ok _, _) |- _ => apply map_err_ok in H
  | H : lift_res _ _ = (Ok _, _) |- _ => apply lift_res_ok in H as [? ?]
  | H : uuid_param _ = Ok _ |- _ => apply uuid_param_ok in H
  | H : take_lock _ _ = (Ok _, _) |- _ => apply take_lock_ok in H
  | H : res_bind _ _ = Ok _ |- _ => apply res_bind_ok in H as (? & ? & ?)
  | H : fail _ _ = (Ok _, _) |- _ => discriminate H
  | H : Ok _ = Ok _ |- _ => injection H as H
  | H : (_, _) = (_, _) |- _ => injection H as ? ?
  | H : guard_res _ _ = Ok _ |- _ => apply guard_res_ok in H
  | H : check_constraint _ _ = Ok _ |- _ => unfold check_constraint in H
  | H : references _ _ _ = Ok _ |- _ => apply references_ok in H
  | H : insert_pk _ _ _ _ = Ok _ |- _ => apply insert_pk_ok in H as [? ?]
  | H : bigint _ = Ok _ |- _ => apply bigint_ok in H as [? ?]
  | H : varchar _ ?s = Ok ?x |- _ =>
    is_var x; let E := fresh in assert (E : Ok s = Ok x) by exact H; injection E as E; clear H
  end.
Ltac m_inv := repeat (m_inv_step; simplify_eq).

Lemma is_ok_inv {A} (r : Res A) : is_ok r → ∃ a, r = Ok a.
Proof. destruct r; [eauto|done]. Qed.

(** ** What a call leaves alone *)

(** Time has passed, and only the database may have changed. *)
Definition silent (w w' : World) : Prop :=
  (w_tick w ≤ w_tick w')%nat ∧ w_now w' = w_now w ∧ w_locks w' = w_locks w ∧
  w_transfers_total w' = w_transfers_total w ∧ w_payments_total w' = w_payments_total w ∧
  w_topics w' = w_topics w ∧ w_redis w' = w_redis w.

#[global] Instance silent_preorder : PreOrder silent.
Proof.
  split; [intros w; unfold silent; naive_solver lia|].
  intros w1 w2 w3 (?&?&?&?&?&?&?) (?&?&?&?&?&?&?). unfold silent. repeat split; (lia || congruence).
Qed.

Lemma silent_bump d w : silent w (set_db d (bump w)).
Proof. unfold silent; simpl; repeat split; lia. Qed.

Lemma query_silent `{Env} {A} (f : Ctx → DB → Res (A * DB)) w a w' :
  query f w = (Ok a, w') → silent w w'.
Proof. intros (d & _ & ->)%query_ok. apply silent_bump. Qed.

#[export] Hint Resolve silent_bump query_silent : ledger_db.

(** The UUIDs still to be drawn are distinct and no row has one of them: what a
    random generator gives in practice, and what insertions need to succeed. *)
Definition unused (u : string) (d : DB) : Prop :=
  users d !! u = None ∧ accounts d !! u = None ∧ wallets_t d !! u = None ∧
  ledger_transactions d !! u = None ∧ ledger_entries d !! u = None ∧
  transfers_t d !! u = None ∧ payments_t d !! u = None ∧ webhook_events d !! u = None ∧
  outbox_events d !! u = None ∧ reconciliation_runs d !! u = None ∧
  reconciliation_items d !! u = None.

Definition uuid_supply `{Env} (n : nat) (d : DB) : Prop :=
  (∀ i j, (n ≤ i)%nat → (n ≤ j)%nat → env_uuid i = env_uuid j → i = j) ∧
  (∀ i, (n ≤ i)%nat → unused (env_uuid i) d).

Definition supplied `{Env} (w : World) : Prop := uuid_supply (w_tick w) (w_db w).

Lemma uuid_supply_le `{Env} n m d : (n ≤ m)%nat → uuid_supply n d → uuid_supply m d.
Proof. intros Hnm [Hi Hu]. split; [intros i j ??|intros i ?]; [apply Hi|apply Hu]; lia. Qed.

(** A statement that inserts at most its own fresh UUID keeps the supply. *)
Lemma uuid_supply_insert `{Env} n d d' :
  uuid_supply n d → (∀ v, v ≠ env_uuid n → unused v d → unused v d') →
  uuid_supply (S n) d'.
Proof.
  intros [Hi Hu] Hd. split; [intros i j ??; apply Hi; lia|].
  intros i Hn. apply Hd; [|apply Hu; lia].
  intros Heq. apply Hi in Heq; lia.
Qed.

Lemma no_faults_le `{Env} n m : (n ≤ m)%nat → no_faults n → no_faults m.
Proof. intros ? Hn k ?. apply Hn. lia. Qed.

Lemma no_faults_S `{Env} n : no_faults n → no_faults (S n).
Proof. apply no_faults_le. lia. Qed.

Lemma no_faults_now `{Env} n : no_faults n → env_outcome n = Fine.
Proof. intros Hn. by apply Hn. Qed.

#[export] Hint Resolve no_faults_now : ledger_db.

(** A statement that succeeds on the next UUID keeps the supply. *)
Lemma query_insert `{Env} {A} (f : Ctx → DB → Res (A * DB)) w a d :
  env_outcome (w_tick w) = Fine → supplied w → f (ctx w) (w_db w) = Ok (a, d) →
  (∀ v, v ≠ env_uuid (w_tick w) → unused v (w_db w) → unused v d) →
  query f w = (Ok a, set_db d (bump w)) ∧ supplied (set_db d (bump w)).
Proof.
  intros Hf Hs Hq Hu. rewrite query_fine, Hq by done.
  split; [done|]. by eapply uuid_supply_insert.
Qed.

Lemma supplied_now `{Env} w : supplied w → unused (env_uuid (w_tick w)) (w_db w).
Proof. intros [_ Hu]. apply Hu. lia. Qed.

(** [solve_unused] closes the side condition of [uuid_supply_insert]. *)
Ltac solve_unused :=
  let v := fresh "v" in let Hv := fresh "Hv" in let Hu := fresh "Hu" in
  intros v Hv Hu; unfold unused in *; simpl;
  destruct Hu as (?&?&?&?&?&?&?&?&?&?&?);
  repeat split; simpl; rewrite ?lookup_insert_ne by congruence; assumption.

(** ** Interleaving

    Several programs over one world: at each step one of them performs its next
    call. *)

Definition prog_step {A} (p : prog A) (w : World) : option (prog A * World) :=
  match p with
  | Ret _ => None
  | Do m k => let '(r, w') := m w in Some (k r, w')
  end.

Inductive pool_step {A} : list (prog A) * World → list (prog A) * World → Prop :=
| pool_step_do ps i p p' w w' :
    ps !! i = Some p → prog_step p w = Some (p', w') →
    pool_step (ps, w) (<[i := p']> ps, w').

Definition interleaving {A} : list (prog A) * World → list (prog A) * World → Prop :=
  rtc pool_step.

(** What every step of every program preserves holds throughout. *)
Lemma interleaving_invariant {A} (J : list (prog A) → World → Prop) ps w ps' w' :
  (∀ ps w i p p' w', J ps w → ps !! i = Some p → prog_step p w = Some (p', w') →
     J (<[i := p']> ps) w') →
  J ps w → interleaving (ps, w) (ps', w') → J ps' w'.
Proof.
  intros Hstep Hw Hrtc. remember (ps, w) as c eqn:Hc. remember (ps', w') as c' eqn:Hc'.
  revert ps w Hc Hw. induction Hrtc as [?|? c1 ? Hs Hrtc IH]; intros ps w -> Hw.
  - by simplify_eq.
  - inversion Hs; simplify_eq. eapply (IH eq_refl _ _ eq_refl), Hstep; eauto.
Qed.

Lemma step_keeps {A} I (p p' : prog A) w w' :
  prog_step p w = Some (p', w') → calls (keeps I) p → I w → I w' ∧ calls (keeps I) p'.
Proof.
  destruct p as [a|X m k]; simpl; [done|]. intros Hp [Hm Hk] Hw.
  specialize (Hm w Hw). destruct (m w) as [r w1]. by simplify_eq.
Qed.

Lemma interleaving_keeps {A} I (ps ps' : list (prog A)) w w' :
  Forall (calls (keeps I)) ps → I w →
  interleaving (ps, w) (ps', w') → I w' ∧ Forall (calls (keeps I)) ps'.
Proof.
  intros Hps Hw Hrtc.
  remember (ps, w) as c eqn:Hc. remember (ps', w') as c' eqn:Hc'.
  revert ps w Hc Hps Hw. induction Hrtc as [?|? c1 ? Hstep Hrtc IH]; intros ps w -> Hps Hw.
  - by simplify_eq.
  - inversion Hstep as [ps0 i p p' w0 w1 Hi Hp]; simplify_eq.
    destruct (step_keeps _ _ _ _ _ Hp (Forall_lookup_1 _ _ _ _ Hps Hi) Hw) as [Hw1 Hp'].
    apply (IH eq_refl _ _ eq_refl); [by apply Forall_insert|done].
Qed.

(** ** Interleaving with interference

    A thread may rely on facts the other threads leave alone.  [safe I R p P]: from
    worlds satisfying [I] and the thread's own assertion [P], every call of [p]
    keeps [I], changes the world only along [R], and establishes an assertion for
    what follows that no step along [R] destroys. *)

Definition stable (I : World → Prop) (R : World → World → Prop) (P : World → Prop) : Prop :=
  ∀ w w', I w → P w → R w w' → I w' → P w'.

Fixpoint safe {A} (I : World → Prop) (R : World → World → Prop) (p : prog A)
    (P : World → Prop) : Prop :=
  match p with
  | Ret _ => True
  | @Do _ X m k => ∃ P' : Res X → World → Prop,
      (∀ w, I w → P w → I (m w).2 ∧ R w (m w).2 ∧ P' (m w).1 (m w).2) ∧
      (∀ r, stable I R (P' r)) ∧ ∀ r, safe I R (k r) (P' r)
  end.

Lemma safe_weaken {A} I R (p : prog A) (P Q : World → Prop) :
  (∀ w, I w → Q w → P w) → safe I R p P → safe I R p Q.
Proof.
  destruct p as [a|X m k]; simpl; [done|]. intros HQ (P' & Hm & Hst & Hk).
  exists P'. split; [|done]. intros w Hw Hq. apply Hm; auto.
Qed.

(** Sequencing with a second part that needs nothing. *)
Lemma safe_bind {A B} I R (p : prog A) (f : A → prog B) (P : World → Prop) :
  safe I R p P → (∀ a, safe I R (f a) (λ _, True)) → safe I R (prog_bind p f) P.
Proof.
  intros Hp Hf. revert P Hp. induction p as [a|X m k IH]; intros P Hp; simpl.
  - eapply safe_weaken; [|apply Hf]. done.
  - destruct Hp as (P' & Hm & Hst & Hk). exists P'. auto.
Qed.

Lemma step_safe {A} I R (p p' : prog A) P w w' :
  prog_step p w = Some (p', w') → safe I R p P → I w → P w →
  I w' ∧ R w w' ∧ ∃ Q, safe I R p' Q ∧ stable I R Q ∧ Q w'.
Proof.
  destruct p as [a|X m k]; simpl; [done|]. intros Hp (P' & Hm & Hst & Hk) Hw HP.
  destruct (Hm w Hw HP) as (HI & HR & HP'). destruct (m w) as [r w1]. simplify_eq/=. eauto 8.
Qed.

Lemma interleaving_safe {A} I R (ps ps' : list (prog A)) w w' :
  Forall (λ p, ∃ P, safe I R p P ∧ stable I R P ∧ P w) ps → I w →
  interleaving (ps, w) (ps', w') → I w'.
Proof.
  intros Hps Hw Hrtc.
  remember (ps, w) as c eqn:Hc. remember (ps', w') as c' eqn:Hc'.
  revert ps w Hc Hps Hw. induction Hrtc as [?|? c1 ? Hstep Hrtc IH]; intros ps w -> Hps Hw.
  - by simplify_eq.
  - inversion Hstep as [ps0 i p p' w0 w1 Hi Hp]; simplify_eq.
    destruct (Forall_lookup_1 _ _ _ _ Hps Hi) as (P & Hsafe & _ & HP).
    destruct (step_safe _ _ _ _ _ _ _ Hp Hsafe Hw HP) as (HI & HR & Hp').
    apply (IH eq_refl _ _ eq_refl); [|done].
    apply Forall_insert; [|exact Hp'].
    eapply Forall_impl; [exact Hps|]. intros p0 (Q & Hs & HstQ & HQ).
    exists Q. split; [done|]. split; [done|]. exact (HstQ _ _ Hw HQ HR HI).
Qed.

Lemma run_safe {A} I R (p : prog A) P w : safe I R p P → I w → P w → I (run p w).2.
Proof.
  revert P w. induction p as [a|X m k IH]; intros P w; simpl; [done|].
  intros (P' & Hm & _ & Hk) Hw HP. destruct (Hm w Hw HP) as (HI & _ & HP').
  destruct (m w) as [r w']. by eapply IH.
Qed.

(** A scheduling of a pool: which program moves at each step. *)
Fixpoint schedule {A} (sched : list nat) (c : list (prog A) * World) : list (prog A) * World :=
  match sched with
  | [] => c
  | i :: sched' =>
    match c.1 !! i ≫= λ p, prog_step p c.2 with
    | Some (p', w') => schedule sched' (<[i := p']> c.1, w')
    | None => schedule sched' c
    end
  end.

Lemma schedule_interleaving {A} sched (c : list (prog A) * World) :
  interleaving c (schedule sched c).
Proof.
  revert c. induction sched as [|i sched IH]; intros [ps w]; simpl; [apply rtc_refl|].
  destruct (ps !! i) as [p|] eqn:Hi; simpl; [|apply IH].
  destruct (prog_step p w) as [[p' w']|] eqn:Hp; [|apply IH].
  eapply rtc_l; [by eapply pool_step_do|apply IH].
Qed.

Lemma schedule_length {A} sched (c : list (prog A) * World) :
  length (schedule sched c).1 = length c.1.
Proof.
  revert c. induction sched as [|i sched IH]; intros [ps w]; simpl; [done|].
  destruct (ps !! i ≫= _) as [[p' w']|]; rewrite IH; [apply length_insert|done].
Qed.

(** ** Programs that end

    [within n p]: whatever its calls answer, [p] returns after at most [n] of them. *)

Fixpoint within {A} (n : nat) (p : prog A) {struct p} : Prop :=
  match p with
  | Ret _ => True
  | Do m k => match n with O => False | S n' => ∀ r, within n' (k r) end
  end.

Lemma within_mono {A} n n' (p : prog A) : (n ≤ n')%nat → within n p → within n' p.
Proof.
  revert n n'. induction p as [a|X m k IH]; intros [|n] [|n'] Hle; simpl; try done; [lia|].
  intros Hp r. apply (IH _ n); [lia|apply Hp].
Qed.

Lemma within_bind {A B} n n' (p : prog A) (f : A → prog B) :
  within n p → (∀ a, within n' (f a)) → within (n + n') (prog_bind p f).
Proof.
  revert n. induction p as [a|X m k IH]; intros n Hp Hf; simpl.
  - apply (within_mono n'); [lia|apply Hf].
  - destruct n as [|n]; [done|]. intros r. by apply IH.
Qed.

Lemma within_call {X A} n (m : M X) (f : Res X → prog A) :
  (∀ r, within n (f r)) → within (S n) (prog_bind (call m) f).
Proof. done. Qed.

Lemma within_try {A B} n n' (p : prog (Res A)) (f : A → prog (Res B)) :
  within n p → (∀ a, within n' (f a)) → within (n + n') (prog_try p f).
Proof. intros Hp Hf. apply within_bind; [done|]. by intros [a|e]. Qed.

(** A program that is given enough turns has returned, whatever the others do. *)
Lemma schedule_within {A} sched n (ps : list (prog A)) w i p :
  ps !! i = Some p → within n p → (n ≤ count_occ Nat.eq_dec sched i)%nat →
  ∃ a, (schedule sched (ps, w)).1 !! i = Some (Ret a).
Proof.
  revert n ps w p. induction sched as [|j sched IH]; intros n ps w p Hp Hn Hc; simpl.
  { destruct p as [a|X m k]; [eauto|]. simpl in Hc. destruct n as [|n]; [done|lia]. }
  simpl in Hc. destruct (Nat.eq_dec j i) as [->|Hne].
  - rewrite Hp. simpl. destruct p as [a|X m k]; simpl.
    { apply (IH O ps w (Ret a)); [done..|lia]. }
    destruct n as [|n]; [done|]. destruct (m w) as [r w'].
    apply (IH n _ _ (k r)); [|apply Hn|lia].
    apply list_lookup_insert_eq. by eapply lookup_lt_Some.
  - destruct (ps !! j ≫= _) as [[p' w']|]; [|by eapply IH].
    eapply IH; [|done..]. by rewrite list_lookup_insert_ne.
Qed.

(** ** Amortized bounds

    [amortized pot p n Q]: started with a credit of [n], every call of [p] raises the
    potential [pot] of the world by at most what it takes from the credit; at its end
    the result and the remaining credit satisfy [Q].  Credits are private, so the
    bounds of a pool add up whatever the interleaving. *)

Fixpoint amortized {A} (pot : World → Z) (p : prog A) (n : Z) (Q : A → Z → Prop) : Prop :=
  0 <= n ∧
  match p with
  | Ret a => Q a n
  | Do m k => ∀ w, ∃ n', amortized pot (k (m w).1) n' Q ∧ pot (m w).2 + n' <= pot w + n
  end.

Lemma amortized_nonneg {A} pot (p : prog A) n Q : amortized pot p n Q → 0 <= n.
Proof. destruct p; simpl; tauto. Qed.

Lemma amortized_bind {A B} pot (p : prog A) (f : A → prog B) n Q R :
  amortized pot p n Q → (∀ a n', 0 <= n' → Q a n' → amortized pot (f a) n' R) →
  amortized pot (prog_bind p f) n R.
Proof.
  intros Hp Hf. revert n Hp. induction p as [a|Y m k IH]; intros n [Hn Hp]; [by apply Hf|].
  split; [done|]. intros w. destruct (Hp w) as (n' & Hk & Hle). exists n'. auto.
Qed.

Lemma amortized_call {Y} pot (m : M Y) n (Q : Res Y → Z → Prop) :
  0 <= n →
  (∀ w, ∃ n', 0 <= n' ∧ Q (m w).1 n' ∧ pot (m w).2 + n' <= pot w + n) →
  amortized pot (call m) n Q.
Proof. intros Hn Hm. split; [done|]. intros w. destruct (Hm w) as (n' & ? & ? & ?). exists n'. done. Qed.

Lemma amortized_mono {A} pot (p : prog A) n (Q R : A → Z → Prop) :
  (∀ a n', Q a n' → R a n') → amortized pot p n Q → amortized pot p n R.
Proof.
  intros HQ. revert n. induction p as [a|Y m k IH]; intros n [Hn Hp]; [split; auto|].
  split; [done|]. intros w. destruct (Hp w) as (n' & ? & ?). eauto.
Qed.

Definition credits (ns : list Z) : Z := foldr Z.add 0 ns.

Lemma credits_insert ns i n n' :
  ns !! i = Some n → credits (<[i := n']> ns) = credits ns - n + n'.
Proof.
  revert i. induction ns as [|x ns IH]; intros [|i] Hi; simplify_eq/=; [lia|].
  rewrite (IH i Hi). lia.
Qed.

(** What was spent and what is left, at any time. *)
Lemma interleaving_credits {A} pot (Q : A → Z → Prop) ps ns w ps' w' :
  Forall2 (λ p n, amortized pot p n Q) ps ns → interleaving (ps, w) (ps', w') →
  ∃ ns', Forall2 (λ p n, amortized pot p n Q) ps' ns' ∧
    pot w' + credits ns' <= pot w + credits ns.
Proof.
  intros Hall Hrun.
  refine (interleaving_invariant (λ ps1 w1, ∃ ns', Forall2 (λ p n, amortized pot p n Q) ps1 ns' ∧
    pot w1 + credits ns' <= pot w + credits ns) _ _ _ _ _ _ Hrun); [|exists ns; split; [done|lia]].
  clear. intros ps1 w1 i p p' w2 (ns1 & Hall & Hle) Hi Hp.
  destruct (Forall2_lookup_l _ _ _ _ _ Hall Hi) as (n & Hn & Ham).
  destruct p as [a|Y m k]; [done|]. destruct Ham as [_ Ham]. destruct (Ham w1) as (n' & Hk & Hle').
  simpl in Hp. destruct (m w1) as [r w3]. injection Hp as <- <-. simpl in *.
  exists (<[i := n']> ns1). split; [by apply Forall2_insert|].
  rewrite (credits_insert _ _ _ _ Hn). lia.
Qed.

Lemma interleaving_amortized {A} pot (Q : A → Z → Prop) ps ns w ps' w' :
  Forall2 (λ p n, amortized pot p n Q) ps ns → interleaving (ps, w) (ps', w') →
  pot w' <= pot w + credits ns.
Proof.
  intros Hall Hrun. destruct (interleaving_credits _ _ _ _ _ _ _ Hall Hrun) as (ns' & Hall' & Hle).
  assert (0 <= credits ns'); [|lia].
  clear -Hall'. induction Hall' as [|p n ps' ns' Hp _ IH]; simpl; [lia|].
  apply amortized_nonneg in Hp. lia.
Qed.
