(* ===== verification/OneShot.v ===== *)
(** * Programs that race to decide something once

    Something is decided at most once: it is [Fresh], then [Taken] by one program, which later
    says what was decided ([Shot]).  Other programs may learn it.  The logic below follows each
    program's knowledge through an interleaving, so that two programs that know what was
    decided know the same. *)

From S2P Require Import Prelude Go Runtime.
#[local] Open Scope prog_scope.

Section OneShot.
Context {V A : Type}.

Inductive shot : Type := Fresh | Taken | Shot (v : V).

(** What a program knows of it. *)
Inductive knowledge : Type := Outside | Holder | Knows (v : V).

Definition sees (t : knowledge) (s : shot) : Prop :=
  match t with Outside => True | Holder => s = Taken | Knows v => s = Shot v end.

(** What a call may do: nothing, take it (and perhaps not know it, when the reply is lost),
    decide it, or learn what was decided. *)
Inductive move : knowledge → shot → knowledge → shot → Prop :=
| move_stay t s : move t s t s
| move_take : move Outside Fresh Holder Taken
| move_lose : move Outside Fresh Outside Taken
| move_fire v : move Holder Taken (Knows v) (Shot v)
| move_learn v : move Outside (Shot v) (Knows v) (Shot v).

(** How the state of it shows in the world. *)
Variable inv : shot → World → Prop.

(** From knowledge [t] on, every call of the program is a move, and its answer satisfies [post]. *)
Fixpoint decides (post : knowledge → A → Prop) (t : knowledge) (p : prog A) : Prop :=
  match p with
  | Ret a => post t a
  | Do m k => ∀ s w, inv s w → sees t s →
      ∃ t' s', move t s t' s' ∧ inv s' (m w).2 ∧ decides post t' (k (m w).1)
  end.

(** A call of a program that knows the state. *)
Lemma decides_at post t s0 {X} (m : M X) (k : Res X → prog A) :
  (∀ s, sees t s → s = s0) →
  (∀ w, inv s0 w → ∃ t' s', move t s0 t' s' ∧ inv s' (m w).2 ∧ decides post t' (k (m w).1)) →
  decides post t (Do m k).
Proof. intros Hs0 Hm s w Hs Ht. apply Hs0 in Ht. subst s. by apply Hm. Qed.

(** A call that has nothing to do with it. *)
Definition aside : ∀ X, M X → Prop := λ _ m, ∀ s w, inv s w → inv s (m w).2.

Lemma decides_bind {B} post t (p : prog B) (f : B → prog A) :
  calls aside p → (∀ b, decides post t (f b)) → decides post t (prog_bind p f).
Proof.
  intros Hp Hf. induction p as [b|X m k IH]; simpl; [apply Hf|].
  destruct Hp as [Hm Hk]. intros s w Hs Ht. exists t, s.
  split; [constructor|]. split; [by apply Hm|]. by apply IH.
Qed.

Lemma decides_aside post t (p : prog A) :
  calls aside p → (∀ a, post t a) → decides post t p.
Proof.
  intros Hp Hpost. induction p as [a|X m k IH]; simpl; [apply Hpost|].
  destruct Hp as [Hm Hk]. intros s w Hs Ht. exists t, s.
  split; [constructor|]. split; [by apply Hm|]. by apply IH.
Qed.

Lemma decides_mono (post post' : knowledge → A → Prop) t (p : prog A) :
  (∀ t a, post t a → post' t a) → decides post t p → decides post' t p.
Proof.
  intros Hpost. revert t. induction p as [a|X m k IH]; intros t; simpl; [apply Hpost|].
  intros Hm s w Hs Ht. destruct (Hm s w Hs Ht) as (t' & s' & Hmove & Hs' & Hk).
  exists t', s'. split; [done|]. split; [done|]. by apply IH.
Qed.

(** The views of all programs fit the state, and one program at most holds it. *)
Record agreed (posts : nat → knowledge → A → Prop) (ps : list (prog A)) (w : World) (s : shot)
    (ts : nat → knowledge) : Prop := {
  agreed_inv : inv s w;
  agreed_decides i p : ps !! i = Some p → decides (posts i) (ts i) p;
  agreed_sees i : sees (ts i) s;
  agreed_holder i j : ts i = Holder → ts j = Holder → i = j;
}.

(** A move of one program leaves the others their views. *)
Lemma move_sees t s t' s' i j (ts : nat → knowledge) :
  move t s t' s' → ts i = t → (∀ i, sees (ts i) s) →
  (∀ i j, ts i = Holder → ts j = Holder → i = j) → j ≠ i → sees (ts j) s'.
Proof.
  intros Hm Hi Hsees Hone Hne. specialize (Hsees j).
  destruct Hm; destruct (ts j) eqn:Hj; simpl in *; try done.
  exfalso. apply Hne. by apply Hone.
Qed.

Lemma agreed_step posts ps w s ts i p p' w' :
  agreed posts ps w s ts → ps !! i = Some p → prog_step p w = Some (p', w') →
  ∃ s' ts', agreed posts (<[i := p']> ps) w' s' ts'.
Proof.
  intros [Hinv Hdec Hsees Hone] Hi Hp. destruct p as [a|X m k]; [done|]. simpl in Hp.
  destruct (Hdec _ _ Hi s w Hinv (Hsees i)) as (t' & s' & Hm & Hinv' & Hk).
  destruct (m w) as [r w1]. simplify_eq/=.
  exists s', (λ j, if decide (j = i) then t' else ts j). split; [done|..].
  - intros j q. destruct (decide (j = i)) as [->|Hne].
    + rewrite list_lookup_insert_eq by (by eapply lookup_lt_Some). by intros [= <-].
    + rewrite list_lookup_insert_ne by done. apply Hdec.
  - intros j. case_decide; [|by eapply (move_sees _ s)].
    pose proof (Hsees i) as Hsi. revert Hsi. by destruct Hm.
  - assert (Hnew : ∀ j, j ≠ i → t' = Holder → ts j = Holder → False).
    { intros j Hne -> Hj. pose proof (Hsees j) as Hs. rewrite Hj in Hs. simpl in Hs. subst s.
      inversion Hm; simplify_eq. by apply Hne, Hone. }
    intros j1 j2. repeat case_decide; subst; intros ??; (done || eauto || by exfalso; eauto).
Qed.

(** Whatever the schedule, the answers of all programs are about one decision. *)
Lemma interleaving_decides posts ps w ps' w' s :
  (∀ i p, ps !! i = Some p → decides (posts i) Outside p) → inv s w →
  interleaving (ps, w) (ps', w') →
  ∃ s' ts, agreed posts ps' w' s' ts.
Proof.
  intros Hps Hs. refine (interleaving_invariant (λ ps w, ∃ s ts, agreed posts ps w s ts) _ _ _ _ _ _).
  - clear. intros ps w i p p' w' (s & ts & Ha) Hi Hp. by eapply agreed_step.
  - by exists s, (λ _, Outside).
Qed.

(** What was taken by nobody who is left stays taken, and nobody knows anything. *)
Lemma interleaving_orphaned posts ps w ps' w' :
  (∀ i p, ps !! i = Some p → decides (posts i) Outside p) → inv Taken w →
  interleaving (ps, w) (ps', w') →
  inv Taken w' ∧ ∀ i p, ps' !! i = Some p → decides (posts i) Outside p.
Proof.
  intros Hps Hw. refine (interleaving_invariant (λ ps w, inv Taken w ∧
    ∀ i p, ps !! i = Some p → decides (posts i) Outside p) _ _ _ _ _ (conj Hw Hps)).
  clear. intros ps w i p p' w' [Hw Hps] Hi Hp. destruct p as [a|X m k]; [done|]. simpl in Hp.
  destruct (Hps _ _ Hi Taken w Hw I) as (t' & s' & Hm & Hw' & Hk).
  destruct (m w) as [r w1]. simplify_eq/=. inversion Hm; simplify_eq. split; [done|].
  intros j q. destruct (decide (j = i)) as [->|Hne].
  - rewrite list_lookup_insert_eq by (by eapply lookup_lt_Some). by intros [= <-].
  - rewrite list_lookup_insert_ne by done. apply Hps.
Qed.
End OneShot.
#[global] Arguments shot : clear implicits.
#[global] Arguments knowledge : clear implicits.
