(* ===== verification/Isolation.v ===== *)
(** * Transactions, one statement at a time

    [Runtime] takes a transaction as one atomic step.  Here its statements interleave with
    those of other transactions, the way PostgreSQL runs them at its default isolation
    level, Read Committed: a statement sees what is committed when it starts and what its
    own transaction wrote before; it waits for rows that another open transaction has
    locked and for index entries that another open transaction has inserted; the
    transaction's writes become visible at its commit.  A transaction whose statements are
    [steady] then does at its commit what it would have done all at once
    ([commit_is_atomic]): this is what justifies the atomic transactions of the rest of the
    development.  The transactions of the service are shown steady in [Transactions]. *)

From stdpp Require Import functions.
From S2P Require Import Prelude Go Models Postgres Runtime.
#[local] Open Scope m_scope.
#[local] Open Scope Z_scope.

(** ** Rows *)

(** A row of any table. *)
Inductive Row : Type :=
| UserRow (r : auth.User)
| AccountRow (r : Account)
| WalletRow (r : wallets.Wallet)
| LedgerTransactionRow (r : LedgerTxnRow)
| LedgerEntryRow (r : ledger.Entry)
| IdempotencyKeyRow (r : idempotency.KeyRow)
| TransferRow (r : transfers.Transfer)
| PaymentRow (r : payments.Payment)
| WebhookEventRow (r : payments.WebhookEvent)
| OutboxEventRow (r : outbox.Event)
| ReconciliationRunRow (r : reconciliation.Run)
| ReconciliationItemRow (r : reconciliation.Item).

Definition table_of (r : Row) : string :=
  match r with
  | UserRow _ => "users"
  | AccountRow _ => "accounts"
  | WalletRow _ => "wallets"
  | LedgerTransactionRow _ => "ledger_transactions"
  | LedgerEntryRow _ => "ledger_entries"
  | IdempotencyKeyRow _ => "idempotency_keys"
  | TransferRow _ => "transfers"
  | PaymentRow _ => "payments"
  | WebhookEventRow _ => "webhook_events"
  | OutboxEventRow _ => "outbox_events"
  | ReconciliationRunRow _ => "reconciliation_runs"
  | ReconciliationItemRow _ => "reconciliation_items"
  end.

(** The row of a table with a primary key. *)
Definition row_at (d : DB) (k : string * string) : option Row :=
  let '(t, id) := k in
  if decide (t = "users") then UserRow <$> users d !! id
  else if decide (t = "accounts") then AccountRow <$> accounts d !! id
  else if decide (t = "wallets") then WalletRow <$> wallets_t d !! id
  else if decide (t = "ledger_transactions") then LedgerTransactionRow <$> ledger_transactions d !! id
  else if decide (t = "ledger_entries") then LedgerEntryRow <$> ledger_entries d !! id
  else if decide (t = "idempotency_keys") then IdempotencyKeyRow <$> idempotency_keys d !! id
  else if decide (t = "transfers") then TransferRow <$> transfers_t d !! id
  else if decide (t = "payments") then PaymentRow <$> payments_t d !! id
  else if decide (t = "webhook_events") then WebhookEventRow <$> webhook_events d !! id
  else if decide (t = "outbox_events") then OutboxEventRow <$> outbox_events d !! id
  else if decide (t = "reconciliation_runs") then
    ReconciliationRunRow <$> reconciliation_runs d !! id
  else if decide (t = "reconciliation_items") then
    ReconciliationItemRow <$> reconciliation_items d !! id
  else None.

#[global] Arguments row_at : simpl never.

(** A row written under a primary key. *)
Definition put : Type := string * Row.

Definition key_of (p : put) : string * string := (table_of p.2, p.1).

Definition put_row (d : DB) (p : put) : DB :=
  let '(id, row) := p in
  match row with
  | UserRow r => set_users (<[id := r]> (users d)) d
  | AccountRow r => set_accounts (<[id := r]> (accounts d)) d
  | WalletRow r => set_wallets (<[id := r]> (wallets_t d)) d
  | LedgerTransactionRow r => set_ledger_transactions (<[id := r]> (ledger_transactions d)) d
  | LedgerEntryRow r => set_ledger_entries (<[id := r]> (ledger_entries d)) d
  | IdempotencyKeyRow r => set_idempotency_keys (<[id := r]> (idempotency_keys d)) d
  | TransferRow r => set_transfers (<[id := r]> (transfers_t d)) d
  | PaymentRow r => set_payments (<[id := r]> (payments_t d)) d
  | WebhookEventRow r => set_webhook_events (<[id := r]> (webhook_events d)) d
  | OutboxEventRow r => set_outbox_events (<[id := r]> (outbox_events d)) d
  | ReconciliationRunRow r => set_reconciliation_runs (<[id := r]> (reconciliation_runs d)) d
  | ReconciliationItemRow r => set_reconciliation_items (<[id := r]> (reconciliation_items d)) d
  end.

(** What a transaction has written, first to last, on top of what is committed. *)
Definition apply_puts (d : DB) (ps : list put) : DB := foldl put_row d ps.

(** The entry a row has in the unique indexes of the schema (primary keys apart). *)
Definition index_entry (r : Row) : option (string * list string) :=
  match r with
  | UserRow u => Some ("users_email_key", [auth.User_Email u])
  | PaymentRow p => Some ("idx_payments_provider_ref", [payments.Payment_ProviderReference p])
  | WebhookEventRow e => Some ("webhook_events_provider_event_id_key",
      [payments.WebhookEvent_Provider e; payments.WebhookEvent_EventID e])
  | _ => None
  end.

(** The columns of a row that are read without a lock and that no statement changes. *)
Definition account_column (r : Row) : option string :=
  match r with WalletRow w => Some (wallets.Wallet_AccountID w) | _ => None end.

Definition fixed (r r' : Row) : Prop :=
  index_entry r' = index_entry r ∧ account_column r' = account_column r.

#[export] Instance fixed_preorder : PreOrder fixed.
Proof. split; [by split|]. intros r1 r2 r3 [? ?] [? ?]. split; congruence. Qed.

(** The unique indexes hold. *)
Definition unique_indexes (d : DB) : Prop := ∀ k1 k2 r1 r2 c,
  row_at d k1 = Some r1 → row_at d k2 = Some r2 →
  index_entry r1 = Some c → index_entry r2 = Some c → k1 = k2.

(** The [uuid] columns that statements read into text and send back: they hold ids as the
    database prints them. *)
Definition uuid_columns `{Env} (id : string) (r : Row) : Prop :=
  match r with
  | PaymentRow p => canonical id ∧ canonical (payments.Payment_WalletID p)
  | _ => True
  end.

(** What the schema enforces and the statements rely on. *)
Record schema `{Env} (d : DB) : Prop := {
  schema_unique : unique_indexes d;
  schema_uuid k r : row_at d k = Some r → uuid_columns k.2 r;
}.

Definition all_there (ks : list (string * string)) (d : DB) : Prop :=
  Forall (λ k, is_Some (row_at d k)) ks.

Lemma row_at_table d k r : row_at d k = Some r → table_of r = k.1.
Proof.
  destruct k as [t id]. unfold row_at.
  repeat (case_decide; [subst; intros (? & _ & ->)%fmap_Some; done|]). done.
Qed.

Lemma row_at_put d p k :
  row_at (put_row d p) k = if decide (k = key_of p) then Some p.2 else row_at d k.
Proof.
  destruct p as [id r], k as [t id']. unfold key_of. simpl fst; simpl snd.
  destruct (decide ((t, id') = (table_of r, id))) as [[= -> ->]|Hne].
  - destruct r; unfold row_at; repeat (rewrite decide_True by done || rewrite decide_False by done);
      simpl; by rewrite lookup_insert_eq.
  - destruct r; unfold row_at; repeat case_decide; try done; subst; simpl;
      (rewrite lookup_insert_ne; [done|intros ->; by apply Hne]).
Qed.

Lemma row_at_put_eq d p : row_at (put_row d p) (key_of p) = Some p.2.
Proof. by rewrite row_at_put, decide_True. Qed.

Lemma row_at_put_ne d p k : k ≠ key_of p → row_at (put_row d p) k = row_at d k.
Proof. intros ?. by rewrite row_at_put, decide_False. Qed.

(** ** What a transaction may rely on

    Between two statements of an open transaction the committed database changes; but what
    the transaction has locked stays, nobody takes its fresh ids or the index entries it
    has inserted, no row is deleted, and the fixed columns stay. *)

Record respects (locks : list (string * string)) (ids : list string)
    (claims : list (string * list string)) (d d' : DB) : Prop := {
  respects_locked k r : k ∈ locks → row_at d k = Some r → row_at d' k = Some r;
  respects_fresh t id : id ∈ ids → row_at d (t, id) = None → row_at d' (t, id) = None;
  respects_claims k r' c : c ∈ claims → row_at d' k = Some r' → index_entry r' = Some c →
    ∃ r, row_at d k = Some r ∧ index_entry r = Some c;
  respects_fixed k r : row_at d k = Some r → ∃ r', row_at d' k = Some r' ∧ fixed r r';
}.

#[export] Instance respects_preorder locks ids claims : PreOrder (respects locks ids claims).
Proof.
  split.
  - intros d. split; [done|done| |]; [by eauto|]. intros k r Hr. exists r. by split.
  - intros d1 d2 d3 [L1 F1 C1 X1] [L2 F2 C2 X2]. split; [by eauto|by eauto| |].
    + intros k r c Hc Hr He. destruct (C2 _ _ _ Hc Hr He) as (r2 & Hr2 & He2). by eapply C1.
    + intros k r Hr. destruct (X1 _ _ Hr) as (r2 & Hr2 & Hf2).
      destruct (X2 _ _ Hr2) as (r3 & Hr3 & Hf3). exists r3. split; [done|]. by etrans.
Qed.

Lemma respects_mono locks ids claims locks' ids' claims' d d' :
  locks' ⊆ locks → ids' ⊆ ids → claims' ⊆ claims →
  respects locks ids claims d d' → respects locks' ids' claims' d d'.
Proof.
  intros Hl Hi Hc [L F C X]. split; [|by eauto| |done].
  - intros k r Hk. by apply L, Hl.
  - intros k r c ?. by apply C, Hc.
Qed.

Lemma all_there_mono locks ids claims d d' ks :
  respects locks ids claims d d' → all_there ks d → all_there ks d'.
Proof.
  intros Hr Hp. eapply Forall_impl; [exact Hp|]. intros k [r Hk].
  destruct (respects_fixed _ _ _ _ _ Hr _ _ Hk) as (r' & ? & _). eauto.
Qed.

(** The transaction's own writes hide the same rows before and after. *)
Lemma respects_put locks ids claims d d' p :
  respects locks ids claims d d' → respects locks ids claims (put_row d p) (put_row d' p).
Proof.
  intros [L F C X].
  split; setoid_rewrite row_at_put.
  - intros k r Hk. case_decide; [done|]. by apply L.
  - intros t id Hi. case_decide; [done|]. by apply F.
  - intros k r' c Hc. case_decide; [eauto|]. by apply C.
  - intros k r. case_decide; [|by apply X]. intros [= <-]. by exists p.2.
Qed.

Lemma respects_puts locks ids claims d d' ps :
  respects locks ids claims d d' → respects locks ids claims (apply_puts d ps) (apply_puts d' ps).
Proof.
  revert d d'. induction ps as [|p ps IH]; intros d d' H; simpl; [done|].
  by apply IH, respects_put.
Qed.

(** What a transaction may write: a row it has locked, or a new row under its own fresh id;
    it leaves the fixed columns alone, and a new index entry must be free. *)
Record may_put `{Env} (locks : list (string * string)) (id : string)
    (claims : list (string * list string)) (d : DB) (p : put) : Prop := {
  may_put_where : (key_of p ∈ locks ∧ is_Some (row_at d (key_of p))) ∨
                  (p.1 = id ∧ row_at d (key_of p) = None);
  may_put_fixed r : row_at d (key_of p) = Some r → fixed r p.2;
  may_put_index c : index_entry p.2 = Some c → is_Some (row_at d (key_of p)) ∨
    (c ∈ claims ∧ ∀ k r, row_at d k = Some r → index_entry r ≠ Some c);
  may_put_uuid : uuid_columns p.1 p.2;
}.

Lemma may_put_respects `{Env} locks id claims locks' ids' claims' d p :
  may_put locks id claims d p →
  (∀ k, k ∈ locks → k ∉ locks') → id ∉ ids' → (∀ c, c ∈ claims → c ∉ claims') →
  respects locks' ids' claims' d (put_row d p).
Proof.
  intros [Hw Hf Hi _] Hl Hid Hc. split; setoid_rewrite row_at_put.
  - intros k r Hk Hr. case_decide as Hd; [|done]. subst k.
    destruct Hw as [[Hw _]|[_ Hw]]; [by apply Hl in Hw|congruence].
  - intros t u Hu Hr. case_decide as Hd; [|done]. rewrite Hd in Hr. unfold key_of in Hd.
    injection Hd as -> ->.
    destruct Hw as [[_ [r Hw]]|[<- _]]; [unfold key_of in *; congruence|done].
  - intros k r' c Hk Hr He. case_decide as Hd; [|eauto]. injection Hr as <-. subst k.
    destruct (Hi _ He) as [[r Hr]|[Hin _]]; [|by apply Hc in Hin].
    exists r. split; [done|]. by rewrite <- (proj1 (Hf _ Hr)).
  - intros k r Hr. case_decide as Hd; [|by exists r]. subst k. exists p.2. eauto.
Qed.

Lemma may_put_schema `{Env} locks id claims d p :
  may_put locks id claims d p → schema d → schema (put_row d p).
Proof.
  intros [_ Hf Hi Hid] [Hu Hc].
  assert (Hnew : ∀ k r c, k ≠ key_of p → row_at d k = Some r → index_entry r = Some c →
                 index_entry p.2 = Some c → False).
  { intros k r c Hk Hr He Hp. destruct (Hi _ Hp) as [[r0 Hr0]|[_ Hno]]; [|by eapply Hno].
    apply Hk, (Hu k (key_of p) r r0 c); try done. by rewrite <- (proj1 (Hf _ Hr0)). }
  split.
  - intros k1 k2 r1 r2 c. rewrite !row_at_put. repeat case_decide; subst; intros; simplify_eq;
      [done|by exfalso; eauto..|by eapply Hu].
  - intros k r. rewrite row_at_put. case_decide; [|apply Hc]. subst k. by intros [= <-].
Qed.

(** ** Transactions as sequences of statements *)

(** What a statement touches besides reading: the row it writes, the rows it locks first,
    and the index entries it inserts. *)
Record footprint := mkFootprint {
  fp_write : Ctx → option (string * string);
  fp_locks : Ctx → DB → list (string * string);
  fp_claims : list (string * list string);
}.

(** The statements between [Begin] and [Commit].  [Statement on_err sql fp k] sends a
    statement, which may also use the time read just before ([time.Now()]), goes on with
    its result, and returns an error as [on_err] makes it; [Effect] is what the goroutine
    does in its own process. *)
Inductive tx (A : Type) : Type :=
| Done (r : Res A)
| Effect (u : World → World) (k : tx A)
| Statement {X : Type} (on_err : error → error) (sql : Z → Ctx → DB → Res (X * DB))
    (fp : footprint) (k : X → tx A).
Arguments Done {A} r.
Arguments Effect {A} u k.
Arguments Statement {A X} on_err sql fp k.

Fixpoint tx_bind {A B} (p : tx A) (f : A → tx B) : tx B :=
  match p with
  | Done (Ok a) => f a
  | Done (Err e) => Done (Err e)
  | Effect u k => Effect u (tx_bind k f)
  | Statement g sql fp k => Statement g sql fp (λ x, tx_bind (k x) f)
  end.

(** [if err != nil { return h(err) }] *)
Fixpoint tx_map_err {A} (h : error → error) (p : tx A) : tx A :=
  match p with
  | Done (Ok a) => Done (Ok a)
  | Done (Err e) => Done (Err (h e))
  | Effect u k => Effect u (tx_map_err h k)
  | Statement g sql fp k => Statement (h ∘ g) sql fp (λ x, tx_map_err h (k x))
  end.

Definition tx_wrap {A} (pre : string) (p : tx A) : tx A :=
  tx_map_err (λ e, fmt_Errorf pre e "") p.

Definition stmt {X} (fp : footprint) (sql : Ctx → DB → Res (X * DB)) : tx X :=
  Statement id (λ _, sql) fp (λ x, Done (Ok x)).

Definition tx_guard (b : bool) (e : error) : tx unit := Done (guard_res b e).

Declare Scope tx_scope.
Delimit Scope tx_scope with tx.
Notation "x <- p ;; k" := (tx_bind p (λ x, k))
  (at level 100, p at next level, right associativity) : tx_scope.
Notation "p ;; k" := (tx_bind p (λ _, k)) (at level 100, right associativity) : tx_scope.

Fixpoint take_locks (ls : list (string * string)) : M unit :=
  match ls with
  | [] => ret tt
  | l :: ls => take_lock l ;; take_locks ls
  end.

(** The statements run one after the other, as the rest of the development has them. *)
Fixpoint denote `{Env} {A} (p : tx A) : M A :=
  match p with
  | Done r => lift_res r
  | Effect u k => λ w, denote k (u w)
  | Statement g sql fp k => λ w,
      (x <- map_err g (query (sql (env_now (w_tick w)))) ;;
       take_locks (fp_locks fp (ctx w) (w_db w)) ;;
       denote (k x)) w
  end.

Section Denote.
Context `{Env}.

Lemma take_locks_ok ls w :
  ∃ ls', take_locks ls w = (Ok tt, set_locks ls' w).
Proof.
  revert w. induction ls as [|l ls IH]; intros w; simpl.
  { exists (w_locks w). by destruct w. }
  unfold bind, take_lock. case_decide; [apply IH|].
  destruct (IH (set_locks (w_locks w ++ [l]) w)) as [ls' ->]. by exists ls'.
Qed.

Lemma denote_bind {A B} (p : tx A) (f : A → tx B) w :
  denote (tx_bind p f) w = bind (denote p) (λ a, denote (f a)) w.
Proof.
  revert w. induction p as [[a|e]|u k IH|X g sql fp k IH]; intros w; simpl; [done..|apply IH|].
  unfold bind, map_err. destruct (query _ w) as [[x|e] w1]; [|done].
  destruct (take_locks_ok (fp_locks fp (ctx w) (w_db w)) w1) as [ls ->]. rewrite IH. done.
Qed.

Lemma denote_map_err {A} h (p : tx A) w :
  denote (tx_map_err h p) w = map_err h (denote p) w.
Proof.
  revert w. induction p as [[a|e]|u k IH|X g sql fp k IH]; intros w; simpl; [done..|apply IH|].
  unfold bind, map_err at 1 2 3. destruct (query _ w) as [[x|e] w1]; [|done].
  destruct (take_locks_ok (fp_locks fp (ctx w) (w_db w)) w1) as [ls ->]. apply IH.
Qed.

Lemma denote_wrap {A} pre (p : tx A) w : denote (tx_wrap pre p) w = wrap_err pre (denote p) w.
Proof.
  unfold tx_wrap. rewrite denote_map_err. unfold map_err, wrap_err.
  by destruct (denote p w) as [[a|e] w'].
Qed.

Lemma denote_guard b e w : denote (tx_guard b e) w = guard b e w.
Proof. by destruct b. Qed.

(** A statement that locks nothing. *)
Lemma denote_stmt {X} wr cl (sql : Ctx → DB → Res (X * DB)) w :
  denote (stmt (mkFootprint wr (λ _ _, []) cl) sql) w = query sql w.
Proof.
  unfold stmt. simpl. unfold bind, map_err. by destruct (query sql w) as [[x|e] w'].
Qed.
End Denote.

(** ** Well-behaved transactions *)

(** The row a statement has written. *)
Definition written (fp : footprint) (c : Ctx) (d : DB) : list put :=
  match fp_write fp c with
  | Some k => match row_at d k with Some r => [(k.2, r)] | None => [] end
  | None => []
  end.

(** A statement is steady when its footprint is right (it locks rows that are there,
    changes the row it says and nothing else, and is allowed to), and when what it does
    depends on nothing that others may change while its footprint is respected.  [pr] are
    rows known to be there. *)
Record steady `{Env} (pr : list (string * string)) {X} (sql : Z → Ctx → DB → Res (X * DB))
    (fp : footprint) : Prop := {
  steady_locks clk c v x d1 : sql clk c v = Ok (x, d1) → all_there pr v → schema v →
    all_there (fp_locks fp c v) v;
  steady_writes clk c v x d1 : sql clk c v = Ok (x, d1) → all_there pr v → schema v →
    d1 = apply_puts v (written fp c d1) ∧
    Forall (may_put (fp_locks fp c v) (c_uuid c) (fp_claims fp) v) (written fp c d1);
  steady_same clk c v v' x d1 : sql clk c v = Ok (x, d1) → all_there pr v →
    schema v → schema v' →
    respects (fp_locks fp c v) [c_uuid c] (fp_claims fp) v v' →
    ∃ d1', sql clk c v' = Ok (x, d1') ∧ written fp c d1' = written fp c d1 ∧
      fp_locks fp c v' = fp_locks fp c v;
}.

Definition internal (u : World → World) : Prop :=
  ∀ w, w_db (u w) = w_db w ∧ w_tick (u w) = w_tick w ∧ w_now (u w) = w_now w.

(** Every statement that can be reached is steady; [Q] holds of the result and of the rows
    known to be there. *)
Fixpoint behaves `{Env} {A} (pr : list (string * string)) (p : tx A)
    (Q : list (string * string) → A → Prop) : Prop :=
  match p with
  | Done (Ok a) => Q pr a
  | Done (Err _) => True
  | Effect u k => internal u ∧ behaves pr k Q
  | Statement g sql fp k => steady pr sql fp ∧
      ∀ clk c v x d1, sql clk c v = Ok (x, d1) → all_there pr v → schema v →
        ∃ pr', all_there pr' v ∧ behaves pr' (k x) Q
  end.

Definition well_behaved `{Env} {A} (p : tx A) : Prop := behaves [] p (λ _ _, True).

Lemma behaves_bind `{Env} {A B} pr (p : tx A) (f : A → tx B) Q R :
  behaves pr p Q → (∀ pr' a, Q pr' a → behaves pr' (f a) R) → behaves pr (tx_bind p f) R.
Proof.
  intros Hp Hf. revert pr Hp.
  induction p as [[a|e]|u k IH|X g sql fp k IH]; intros pr Hp; simpl in *; [auto|done| |].
  - destruct Hp. auto.
  - destruct Hp as [Hst Hk]. split; [done|]. intros clk c v x d1 Hq Hpr Hu.
    destruct (Hk _ _ _ _ _ Hq Hpr Hu) as (pr' & ? & ?). eauto.
Qed.

Lemma behaves_map_err `{Env} {A} pr h (p : tx A) Q : behaves pr p Q → behaves pr (tx_map_err h p) Q.
Proof.
  revert pr. induction p as [[a|e]|u k IH|X g sql fp k IH]; intros pr Hp; simpl in *;
    [done..|naive_solver|].
  destruct Hp as [Hst Hk]. split; [done|]. intros clk c v x d1 Hq Hpr Hu.
  destruct (Hk _ _ _ _ _ Hq Hpr Hu) as (pr' & ? & ?). eauto.
Qed.

Lemma behaves_guard `{Env} pr b e Q : (b = true → Q pr tt) → behaves pr (tx_guard b e) Q.
Proof. destruct b; simpl; auto. Qed.

(** A statement, with what its success shows. *)
Lemma behaves_stmt `{Env} {X} pr fp (sql : Ctx → DB → Res (X * DB)) (Q : _ → X → Prop) :
  steady pr (λ _ : Z, sql) fp →
  (∀ c v x d1, sql c v = Ok (x, d1) → all_there pr v → schema v →
     ∃ pr', all_there pr' v ∧ Q pr' x) →
  behaves pr (stmt fp sql) Q.
Proof. intros Hs HQ. split; [done|]. intros clk c v x d1. apply HQ. Qed.

(** ** The statements a transaction has executed *)

Section Executes.
Context `{Env}.

(** [executes now d b ns ps ls cs p]: the transaction [b] begun at [now], alone on the
    committed database [d], executes its first statements at the exchanges [ns], which
    writes [ps], locks [ls] and inserts the index entries [cs], and has [p] left. *)
Inductive executes {A} (now : Z) (d : DB) (b : tx A)
  : list nat → list put → list (string * string) → list (string * list string) → tx A → Prop :=
| executes_start : executes now d b [] [] [] [] b
| executes_effect ns ps ls cs u k :
    executes now d b ns ps ls cs (Effect u k) → executes now d b ns ps ls cs k
| executes_statement ns ps ls cs X g sql fp (k : X → tx A) n x d1 :
    let v := apply_puts d ps in let c := mkCtx (env_uuid n) now in
    executes now d b ns ps ls cs (Statement g sql fp k) → sql (env_now n) c v = Ok (x, d1) →
    executes now d b (ns ++ [n]) (ps ++ written fp c d1) (ls ++ fp_locks fp c v)
      (cs ++ fp_claims fp) (k x).

Lemma apply_puts_app d ps qs : apply_puts d (ps ++ qs) = apply_puts (apply_puts d ps) qs.
Proof. apply foldl_app. Qed.

Lemma written_schema locks id claims v fp c d1 :
  Forall (may_put locks id claims v) (written fp c d1) → schema v →
  schema (apply_puts v (written fp c d1)).
Proof.
  unfold written. destruct (fp_write fp c) as [k|]; [|done].
  destruct (row_at d1 k) as [r|]; [|done].
  intros Hp Hu. apply Forall_inv in Hp. simpl. by eapply (may_put_schema locks id claims v (k.2, r)).
Qed.

Lemma written_respects locks id claims locks' ids' claims' v fp c d1 :
  Forall (may_put locks id claims v) (written fp c d1) →
  (∀ k, k ∈ locks → k ∉ locks') → id ∉ ids' → (∀ e, e ∈ claims → e ∉ claims') →
  respects locks' ids' claims' v (apply_puts v (written fp c d1)).
Proof.
  unfold written. destruct (fp_write fp c) as [k|]; [|done].
  destruct (row_at d1 k) as [r|]; [|done].
  intros Hp ???. apply Forall_inv in Hp. simpl.
  by eapply (may_put_respects locks id claims _ _ _ v (k.2, r)).
Qed.

(** What it sees satisfies the schema, and the rest of it is well-behaved there. *)
Lemma executes_behaves {A} now d (b p : tx A) ns ps ls cs :
  well_behaved b → schema d → executes now d b ns ps ls cs p →
  schema (apply_puts d ps) ∧
  ∃ pr, all_there pr (apply_puts d ps) ∧ behaves pr p (λ _ _, True).
Proof.
  intros Hb Hu. induction 1 as [|ns ps ls cs u k _ (Hu' & pr & Hpr & Hk)
    |ns ps ls cs X g sql fp k n x d1 v c _ (Hu' & pr & Hpr & Hst & Hk) Hq].
  - split; [done|]. exists []. split; [constructor|done].
  - split; [done|]. exists pr. split; [done|apply Hk].
  - rewrite apply_puts_app. fold v in Hpr, Hu' |- *.
    destruct (steady_writes _ _ _ Hst _ _ _ _ _ Hq Hpr Hu') as [Hd1 Hmay].
    split; [by eapply written_schema|].
    destruct (Hk _ _ _ _ _ Hq Hpr Hu') as (pr' & Hpr' & Hk'). exists pr'. split; [|done].
    eapply (all_there_mono [] [] []); [|exact Hpr'].
    eapply written_respects; [exact Hmay|set_solver..].
Qed.

(** The other transactions may rely on it. *)
Lemma executes_respects {A} now d (b p : tx A) ns ps ls cs ls' ns' cs' :
  well_behaved b → schema d → executes now d b ns ps ls cs p →
  (∀ k, k ∈ ls → k ∉ ls') → (∀ n, n ∈ ns → env_uuid n ∉ env_uuid <$> ns') →
  (∀ e, e ∈ cs → e ∉ cs') → respects ls' (env_uuid <$> ns') cs' d (apply_puts d ps).
Proof.
  intros Hb Hu. induction 1 as [|ns ps ls cs u k _ IH
    |ns ps ls cs X g sql fp k n x d1 v c Hex IH Hq]; intros Hl Hn Hc; [done|by apply IH|].
  destruct (executes_behaves _ _ _ _ _ _ _ _ Hb Hu Hex) as (Hu' & pr & Hpr & Hst & _).
  destruct (steady_writes _ _ _ Hst _ _ _ _ _ Hq Hpr Hu') as [_ Hmay].
  setoid_rewrite elem_of_app in Hl. setoid_rewrite elem_of_app in Hn.
  setoid_rewrite elem_of_app in Hc.
  etrans; [apply IH; auto|]. rewrite apply_puts_app.
  eapply written_respects; [exact Hmay|auto| |auto].
  apply Hn. right. by apply list_elem_of_singleton.
Qed.

(** It would do the same on a database that respects what it relies on. *)
Lemma executes_stable {A} now d d' (b p : tx A) ns ps ls cs :
  well_behaved b → schema d → schema d' →
  executes now d b ns ps ls cs p → respects ls (env_uuid <$> ns) cs d d' →
  executes now d' b ns ps ls cs p.
Proof.
  intros Hb Hu Hu'. induction 1 as [|ns ps ls cs u k _ IH
    |ns ps ls cs X g sql fp k n x d1 v c Hex IH Hq]; intros Hr; [constructor|by econstructor; auto|].
  assert (Hex' : executes now d' b ns ps ls cs (Statement g sql fp k)).
  { apply IH. eapply respects_mono; [..|exact Hr]; set_solver. }
  destruct (executes_behaves _ _ _ _ _ _ _ _ Hb Hu Hex) as (Huv & pr & Hpr & Hst & _).
  destruct (executes_behaves _ _ _ _ _ _ _ _ Hb Hu' Hex') as (Huv' & _).
  apply (respects_puts _ _ _ _ _ ps) in Hr. fold v in Huv, Hpr, Hr.
  destruct (steady_same _ _ _ Hst _ _ _ _ _ _ Hq Hpr Huv Huv') as (d1' & Hq' & Hw & Hl).
  { eapply respects_mono; [..|exact Hr]; set_solver. }
  rewrite <- Hw, <- Hl. by apply (executes_statement now d' b ns ps ls cs X g sql fp k n x d1').
Qed.
End Executes.

(** ** The same statements, all at once *)

(** The oracle as a transaction sees it that makes its [n]-th exchange as the [τ n]-th. *)
Definition renumbered `{Env} (τ : nat → nat) : Env := {|
  env_outcome _ := Fine;
  env_uuid n := env_uuid (τ n);
  env_now n := env_now (τ n);
  env_intn n := env_intn (τ n);
  env_float32 n := env_float32 (τ n);
  lua_ge := lua_ge;
  uuid_in := uuid_in;
|}.

#[export] Instance renumbered_laws `{UuidLaws} τ : UuidLaws (H := renumbered τ).
Proof.
  split; [exact (uuid_in_canonical (H := H))|].
  intros n. exact (env_uuid_canonical (H := H) (τ n)).
Qed.

Lemma executes_denote `{Env} {A} now d (b p : tx A) ns ps ls cs τ w :
  well_behaved b → schema d → executes now d b ns ps ls cs p →
  (∀ i n, ns !! i = Some n → τ i = n) → w_db w = d → w_tick w = O → w_now w = now →
  ∃ w', w_db w' = apply_puts d ps ∧ w_tick w' = length ns ∧ w_now w' = now ∧
    denote (H := renumbered τ) b w = denote (H := renumbered τ) p w'.
Proof.
  intros Hb Hu Hex Hτ Hd Ht Hn.
  induction Hex as [|ns ps ls cs u k Hex IH|ns ps ls cs X g sql fp k n x d1 v c Hex IH Hq].
  - by exists w.
  - destruct IH as (w' & Hd' & Ht' & Hn' & Heq); [done|].
    destruct (executes_behaves _ _ _ _ _ _ _ _ Hb Hu Hex) as (_ & pr & _ & Hi & _).
    destruct (Hi w') as (Hid & Hit & Hin). exists (u w'). rewrite Hid, Hit, Hin. done.
  - destruct IH as (w' & Hd' & Ht' & Hn' & Heq).
    { intros i m Hi. apply Hτ. by apply lookup_app_l_Some. }
    destruct (executes_behaves _ _ _ _ _ _ _ _ Hb Hu Hex) as (Hu' & pr & Hpr & Hst & _).
    destruct (steady_writes _ _ _ Hst _ _ _ _ _ Hq Hpr Hu') as [Hd1 _].
    assert (Hτn : τ (length ns) = n).
    { apply Hτ. rewrite lookup_app_r by lia. by rewrite Nat.sub_diag. }
    destruct (take_locks_ok (fp_locks fp (@ctx (renumbered τ) w') (w_db w'))
      (Runtime.set_db d1 (bump w'))) as [l Hl].
    exists (set_locks l (Runtime.set_db d1 (bump w'))).
    split; [by rewrite apply_puts_app|]. split; [rewrite length_app; simpl; lia|].
    split; [done|]. rewrite Heq. simpl. unfold bind, map_err, query. simpl.
    assert (Hc : @ctx (renumbered τ) w' = c).
    { unfold ctx, c. simpl. by rewrite Ht', Hτn, Hn'. }
    rewrite Ht', Hτn, Hd' in *. rewrite Hc in *. fold v in Hl |- *. rewrite Hq.
    by rewrite Hl.
Qed.

(** ** Several transactions over one database *)

(** An open transaction: the statements left, what it wrote, the rows it locked, the index
    entries it inserted, and its [NOW()]. *)
Record transaction (A : Type) := mkTransaction {
  t_rest : tx A;
  t_puts : list put;
  t_locks : list (string * string);
  t_claims : list (string * list string);
  t_now : Z;
}.
Arguments mkTransaction {A} _ _ _ _ _.
Arguments t_rest {A} _.
Arguments t_puts {A} _.
Arguments t_locks {A} _.
Arguments t_claims {A} _.
Arguments t_now {A} _.

(** A goroutine before, in and after its transaction. *)
Inductive session (A : Type) : Type :=
| Waiting (b : tx A)
| Open (t : transaction A)
| Ended (r : Res A).
Arguments Waiting {A} b.
Arguments Open {A} t.
Arguments Ended {A} r.

Definition held {A} (s : session A) : list (string * string) :=
  match s with Open t => t_locks t | _ => [] end.

Definition claimed {A} (s : session A) : list (string * list string) :=
  match s with Open t => t_claims t | _ => [] end.

(** The committed database with the rest of the shared state, and the goroutines. *)
Definition pool (A : Type) : Type := World * gmap nat (session A).

(** No other transaction is in the way. *)
Definition unblocked {A} (i : nat) (ls : list (string * string)) (cs : list (string * list string))
    (ss : gmap nat (session A)) : Prop :=
  map_Forall (λ j s, j = i ∨ Forall (λ l, l ∉ held s) ls ∧ Forall (λ c, c ∉ claimed s) cs) ss.

#[export] Instance unblocked_dec {A} i ls cs (ss : gmap nat (session A)) :
  Decision (unblocked i ls cs ss).
Proof. unfold unblocked. apply _. Defined.

(** The next exchange of a goroutine; [None] when it has none or has to wait. *)
Definition advance `{Env} {A} (i : nat) (P : pool A) : option (pool A) :=
  let '(w, ss) := P in
  match ss !! i with
  | Some (Waiting b) =>
    Some (bump w, <[i := match env_outcome (w_tick w) with
                         | Fine => Open (mkTransaction b [] [] [] (env_now (w_tick w)))
                         | FailBefore msg | FailAfter msg => Ended (Err (ext_error msg))
                         end]> ss)
  | Some (Open (mkTransaction p ps ls cs now)) =>
    match p with
    | Effect u k => Some (u w, <[i := Open (mkTransaction k ps ls cs now)]> ss)
    | Statement g sql fp k =>
      let c := mkCtx (env_uuid (w_tick w)) now in
      let v := apply_puts (w_db w) ps in
      match env_outcome (w_tick w) with
      | Fine =>
        if decide (unblocked i (fp_locks fp c v) (fp_claims fp) ss) then
          Some (bump w, <[i := match sql (env_now (w_tick w)) c v with
            | Ok (x, d1) => Open (mkTransaction (k x) (ps ++ written fp c d1)
                              (ls ++ fp_locks fp c v) (cs ++ fp_claims fp) now)
            | Err e => Ended (Err (g e))
            end]> ss)
        else None
      | FailBefore msg | FailAfter msg =>
        Some (bump w, <[i := Ended (Err (g (ext_error msg)))]> ss)
      end
    | Done (Err e) => Some (w, <[i := Ended (Err e)]> ss)
    | Done (Ok a) =>
      let d := apply_puts (w_db w) ps in
      match env_outcome (w_tick w) with
      | Fine => Some (set_db d (bump w), <[i := Ended (Ok a)]> ss)
      | FailBefore msg => Some (bump w, <[i := Ended (Err (ext_error msg))]> ss)
      | FailAfter msg => Some (set_db d (bump w), <[i := Ended (Err (ext_error msg))]> ss)
      end
    end
  | _ => None
  end.

Section Pool.
Context `{Env} {A : Type}.

(** What the rest of the program does meanwhile, one call at a time: it changes the database
    as [other] says, waits for what the open transactions have locked, and draws uuids of
    its own. *)
Inductive pool_moves (other : DB → DB → Prop) : pool A → pool A → Prop :=
| moves_session i P P' : advance i P = Some P' → pool_moves other P P'
| moves_other w w' ss :
    other (w_db w) (w_db w') → (w_tick w ≤ w_tick w')%nat → schema (w_db w') →
    (∀ i t, ss !! i = Some (Open t) →
       respects (t_locks t) (env_uuid <$> seq 0 (w_tick w)) (t_claims t) (w_db w) (w_db w')) →
    pool_moves other (w, ss) (w', ss).

(** ** The invariant *)

Variable bs : gmap nat (tx A).

(** What an open transaction has seen so far, it would also see if it ran alone on the
    database as it is now. *)
Definition session_ok (d : DB) (i : nat) (ns : list nat) (s : session A) : Prop :=
  match s with
  | Waiting b => bs !! i = Some b ∧ ns = []
  | Open t => ∃ b, bs !! i = Some b ∧
      executes (t_now t) d b ns (t_puts t) (t_locks t) (t_claims t) (t_rest t)
  | Ended _ => True
  end.

Definition apart (s s' : session A) : Prop :=
  (∀ l, l ∈ held s → l ∉ held s') ∧ (∀ c, c ∈ claimed s → c ∉ claimed s').

Record isolated (N : nat → list nat) (P : pool A) : Prop := {
  isolated_schema : schema (w_db P.1);
  isolated_past i n : n ∈ N i → (n < w_tick P.1)%nat;
  isolated_ids i j n : n ∈ N i → n ∈ N j → i = j;
  isolated_session i s : P.2 !! i = Some s → session_ok (w_db P.1) i (N i) s;
  isolated_apart i j s s' : i ≠ j → P.2 !! i = Some s → P.2 !! j = Some s' → apart s s';
}.

Lemma apart_sym s s' : apart s s' → apart s' s.
Proof. intros [Hl Hc]. split; [intros l ? ?; by eapply Hl|intros c ? ?; by eapply Hc]. Qed.

Lemma isolated_start w :
  schema (w_db w) → isolated (λ _, []) (w, Waiting <$> bs).
Proof.
  intros Hu. split; simpl; [done|set_solver|set_solver| |].
  - intros i s. rewrite lookup_fmap. intros (b & Hb & ->)%fmap_Some. done.
  - intros i j s s' _. rewrite !lookup_fmap.
    intros (b & _ & ->)%fmap_Some (b' & _ & ->)%fmap_Some. split; simpl; set_solver.
Qed.

(** One session moves and commits nothing. *)
Lemma isolated_update N w ss i s w' ns :
  isolated N (w, ss) → w_db w' = w_db w → (w_tick w ≤ w_tick w')%nat →
  (∀ n, n ∈ ns → n ∈ N i ∨ (n = w_tick w ∧ (w_tick w < w_tick w')%nat)) →
  session_ok (w_db w) i ns s →
  (∀ j s', j ≠ i → ss !! j = Some s' → apart s s') →
  isolated (<[i := ns]> N) (w', <[i := s]> ss).
Proof.
  intros [Hu Hp Hi Hs Ha] Hd Ht Hn Hok Hap. simpl in *.
  assert (HN : ∀ j n, n ∈ (<[i := ns]> N) j → n ∈ N j ∨
    (j = i ∧ n = w_tick w ∧ (w_tick w < w_tick w')%nat)).
  { intros j n. destruct (decide (j = i)) as [->|Hne].
    - rewrite fn_lookup_insert. intros [?|[? ?]]%Hn; auto.
    - rewrite fn_lookup_insert_ne by congruence. auto. }
  split; simpl; rewrite ?Hd; [done| | | |].
  - intros j n [Hj|(_ & -> & ?)]%HN; [|lia]. apply Hp in Hj. lia.
  - intros j k n [Hj|(-> & -> & _)]%HN [Hk|(-> & Hnw & _)]%HN; [by eapply Hi| | |done];
      [apply Hp in Hj|apply Hp in Hk]; lia.
  - intros j s'. destruct (decide (j = i)) as [->|Hne].
    + rewrite lookup_insert_eq, fn_lookup_insert. by intros [= <-].
    + rewrite lookup_insert_ne, fn_lookup_insert_ne by congruence. apply Hs.
  - intros j k s1 s2 Hne. destruct (decide (j = i)) as [->|Hj].
    + rewrite lookup_insert_eq, lookup_insert_ne by done. intros [= <-]. by apply Hap.
    + rewrite lookup_insert_ne by done. intros Hs1. destruct (decide (k = i)) as [->|Hk].
      * rewrite lookup_insert_eq. intros [= <-]. apply apart_sym. by eapply Hap.
      * rewrite lookup_insert_ne by done. intros Hs2. exact (Ha j k _ _ Hne Hs1 Hs2).
Qed.

Hypothesis Hbs : map_Forall (λ _ b, well_behaved b) bs.
Hypothesis Huuid : Inj (=) (=) env_uuid.

(** The committed database changes and the open transactions are respected. *)
Lemma isolated_commit N w ss w' :
  isolated N (w, ss) → (w_tick w ≤ w_tick w')%nat → schema (w_db w') →
  (∀ i t, ss !! i = Some (Open t) →
     respects (t_locks t) (env_uuid <$> N i) (t_claims t) (w_db w) (w_db w')) →
  isolated N (w', ss).
Proof.
  intros [Hu Hp Hi Hs Ha] Ht Hu' Hr. split; simpl in *; [done| |done| |done].
  - intros i n Hn%Hp. lia.
  - intros i [b|t|r] Hss; [by apply (Hs _ _ Hss)| |done].
    destruct (Hs _ _ Hss) as (b & Hb & Hex). exists b. split; [done|].
    eapply executes_stable; [exact (Hbs _ _ Hb)|exact Hu|exact Hu'|exact Hex|by apply (Hr i t)].
Qed.

(** A transaction run all at once on a database: its result and the database after it. *)
Definition at_once (b : tx A) (a : A) (d d' : DB) : Prop :=
  ∃ τ w w', w_db w = d ∧ denote (H := renumbered τ) b w = (Ok a, w') ∧ w_db w' = d'.

(** Whole transactions one after the other, with the calls of the others between them. *)
Inductive serial (other : DB → DB → Prop) (d0 : DB) : list (nat * A) → DB → Prop :=
| serial_start : serial other d0 [] d0
| serial_other h d d' : serial other d0 h d → other d d' → serial other d0 h d'
| serial_commit h d d' i b a :
    serial other d0 h d → bs !! i = Some b → at_once b a d d' →
    serial other d0 (h ++ [(i, a)]) d'.

(** The heart of the matter: at its commit a transaction does what it would do all at
    once, on the database as it is just before the commit. *)
Lemma commit_at_once N w ss i t a :
  isolated N (w, ss) → ss !! i = Some (Open t) → t_rest t = Done (Ok a) →
  ∃ b, bs !! i = Some b ∧ at_once b a (w_db w) (apply_puts (w_db w) (t_puts t)).
Proof.
  intros Hiso Hi Hr. destruct (isolated_session _ _ Hiso _ _ Hi) as (b & Hb & Hex).
  exists b. split; [done|]. rewrite Hr in Hex.
  set (w0 := mkWorld (w_db w) 0 (t_now t) [] ∅ ∅ [] ∅ ∅ ∅).
  destruct (executes_denote _ _ _ _ _ _ _ _ (λ k, default O (N i !! k)) w0 (Hbs _ _ Hb)
    (isolated_schema _ _ Hiso) Hex) as (w' & Hd' & _ & _ & Heq); [by intros k n ->|done..|].
  eexists _, w0, w'. split; [done|]. split; [exact Heq|exact Hd'].
Qed.

(** What a session may commit is respected by the others. *)
Lemma commit_respects N w ss i j t t' :
  isolated N (w, ss) → ss !! i = Some (Open t) → ss !! j = Some (Open t') → i ≠ j →
  respects (t_locks t') (env_uuid <$> N j) (t_claims t') (w_db w) (apply_puts (w_db w) (t_puts t)).
Proof.
  intros Hiso Hi Hj Hne. destruct (isolated_session _ _ Hiso _ _ Hi) as (b & Hb & Hex).
  destruct (isolated_apart _ _ Hiso _ _ _ _ Hne Hi Hj) as [Hl Hc].
  eapply executes_respects; [exact (Hbs _ _ Hb)|apply Hiso|exact Hex|exact Hl| |exact Hc].
  intros n Hn (m & Heq & Hm)%list_elem_of_fmap. apply Huuid in Heq as ->.
  apply Hne. by eapply isolated_ids.
Qed.

(** The history of the commits. *)
Record recorded_in (other : DB → DB → Prop) (d0 : DB) (h : list (nat * A)) (P : pool A) : Prop := {
  recorded_serial : serial other d0 h (w_db P.1);
  recorded_once : NoDup h.*1;
  recorded_ended i : i ∈ h.*1 → ∃ r, P.2 !! i = Some (Ended r);
  recorded_result i a : P.2 !! i = Some (Ended (Ok a)) → (i, a) ∈ h;
}.

(** A session that was not over moves without a commit. *)
Lemma recorded_update other d0 h w ss i s w' s' :
  recorded_in other d0 h (w, ss) → w_db w' = w_db w → ss !! i = Some s →
  (∀ r, s ≠ Ended r) → (∀ a, s' ≠ Ended (Ok a)) →
  recorded_in other d0 h (w', <[i := s']> ss).
Proof.
  intros [Hs Hn He Hr] Hd Hi Hne Hne'. simpl in *. split; simpl; [by rewrite Hd|done| |].
  - intros j [r Hj]%He. rewrite lookup_insert_ne; [by eexists|]. intros ->. naive_solver.
  - intros j a. destruct (decide (j = i)) as [->|Hji].
    + rewrite lookup_insert_eq. naive_solver.
    + rewrite lookup_insert_ne by done. apply Hr.
Qed.

(** A commit. *)
Lemma recorded_commit other d0 h w ss i t b a w' r :
  recorded_in other d0 h (w, ss) → ss !! i = Some (Open t) → bs !! i = Some b →
  at_once b a (w_db w) (w_db w') → (∀ a', r = Ok a' → a' = a) →
  recorded_in other d0 (h ++ [(i, a)]) (w', <[i := Ended r]> ss).
Proof.
  intros [Hs Hn He Hr] Hi Hb Ha Hres. simpl in *.
  assert (Hnot : i ∉ h.*1) by (intros [r' Hr']%He; congruence).
  split; simpl.
  - by eapply serial_commit.
  - rewrite fmap_app. apply NoDup_app. split; [done|]. split; [|apply NoDup_singleton].
    intros j Hj ->%list_elem_of_singleton. done.
  - intros j. rewrite fmap_app, elem_of_app. destruct (decide (j = i)) as [->|Hji].
    + rewrite lookup_insert_eq. eauto.
    + rewrite lookup_insert_ne by done. intros [Hj|Hj]; [by apply He|].
      apply list_elem_of_singleton in Hj. done.
  - intros j a'. rewrite elem_of_app, list_elem_of_singleton. destruct (decide (j = i)) as [->|Hji].
    + rewrite lookup_insert_eq. intros [= Hok]. right. f_equal. auto.
    + rewrite lookup_insert_ne by done. auto.
Qed.

(** ** Every move keeps the invariant *)

Definition sound (other : DB → DB → Prop) (d0 : DB) (P : pool A) : Prop :=
  ∃ N h, isolated N P ∧ recorded_in other d0 h P.

(** A session that moves without a commit. *)
Lemma sound_update other d0 N h w ss i s w' s' ns :
  isolated N (w, ss) → recorded_in other d0 h (w, ss) → ss !! i = Some s →
  (∀ r, s ≠ Ended r) → (∀ a, s' ≠ Ended (Ok a)) →
  w_db w' = w_db w → (w_tick w ≤ w_tick w')%nat →
  (∀ n, n ∈ ns → n ∈ N i ∨ (n = w_tick w ∧ (w_tick w < w_tick w')%nat)) →
  session_ok (w_db w) i ns s' →
  (∀ j s0, j ≠ i → ss !! j = Some s0 → apart s' s0) →
  sound other d0 (w', <[i := s']> ss).
Proof.
  intros Hiso Hrec Hi Hne Hne' Hd Ht Hns Hok Hap. exists (<[i := ns]> N), h.
  split; [by eapply isolated_update|by eapply recorded_update].
Qed.

Lemma apart_ended r (s : session A) : apart (Ended r) s.
Proof. split; simpl; set_solver. Qed.

(** A session that ends without a commit. *)
Lemma sound_abort other d0 N h w ss i s w' e :
  isolated N (w, ss) → recorded_in other d0 h (w, ss) → ss !! i = Some s →
  (∀ r, s ≠ Ended r) → w_db w' = w_db w → (w_tick w ≤ w_tick w')%nat →
  sound other d0 (w', <[i := Ended (Err e)]> ss).
Proof.
  intros. eapply (sound_update _ _ _ _ _ _ _ _ _ _ []); try done; [set_solver|].
  intros. apply apart_ended.
Qed.

(** A commit, whether or not its reply arrives. *)
Lemma sound_commit other d0 N h w ss i t a r :
  isolated N (w, ss) → recorded_in other d0 h (w, ss) → ss !! i = Some (Open t) →
  t_rest t = Done (Ok a) → (∀ a', r = Ok a' → a' = a) →
  sound other d0 (Runtime.set_db (apply_puts (w_db w) (t_puts t)) (bump w), <[i := Ended r]> ss).
Proof.
  intros Hiso Hrec Hi Hrest Hr.
  destruct (commit_at_once _ _ _ _ _ _ Hiso Hi Hrest) as (b & Hb & Ha).
  destruct (isolated_session _ _ Hiso _ _ Hi) as (b' & Hb' & Hex). simpl in Hb'. simplify_eq.
  exists (<[i := []]> N), (h ++ [(i, a)]). split.
  - apply (isolated_commit _ (bump w)); [|done| |].
    + eapply (isolated_update N w ss i (Ended r) (bump w) []); [done..|simpl; lia|set_solver|done|].
      intros. apply apart_ended.
    + by eapply (executes_behaves _ _ _ _ _ _ _ _ (Hbs _ _ Hb) (isolated_schema _ _ Hiso)).
    + intros j t'. destruct (decide (j = i)) as [->|Hji]; [by rewrite lookup_insert_eq|].
      rewrite lookup_insert_ne, fn_lookup_insert_ne by congruence. intros Hj.
      exact (commit_respects N w ss i j t t' Hiso Hi Hj (not_eq_sym Hji)).
  - by eapply recorded_commit.
Qed.

Lemma sound_advance other d0 i P P' : sound other d0 P → advance i P = Some P' → sound other d0 P'.
Proof.
  intros (N & h & Hiso & Hrec). destruct P as [w ss]. unfold advance.
  destruct (ss !! i) as [[b|t|r]|] eqn:Hi; [| |done..].
  - destruct (isolated_session _ _ Hiso _ _ Hi) as [Hb HN]. intros [= <-].
    destruct (env_outcome (w_tick w)); [|exact (sound_abort _ _ _ _ _ _ _ _ (bump w) _ Hiso Hrec Hi ltac:(done) eq_refl (Nat.le_succ_diag_r _))..].
    eapply (sound_update _ _ _ _ _ _ _ _ _ _ []); try done; [simpl; lia|set_solver| |].
    + exists b. split; [done|constructor].
    + intros j s _ _. split; simpl; set_solver.
  - destruct (isolated_session _ _ Hiso _ _ Hi) as (b & Hb & Hex). destruct t as [p ps ls cs now].
    simpl in Hex. destruct p as [[a|e]|u k|X g sql fp k].
    + destruct (env_outcome (w_tick w)); intros [= <-].
      * by apply (sound_commit _ _ _ _ _ _ _ (mkTransaction (Done (Ok a)) ps ls cs now) a
          (Ok a) Hiso Hrec Hi); [|intros ? [= ->]].
      * exact (sound_abort _ _ _ _ _ _ _ _ (bump w) _ Hiso Hrec Hi ltac:(done) eq_refl (Nat.le_succ_diag_r _)).
      * by apply (sound_commit _ _ _ _ _ _ _ (mkTransaction (Done (Ok a)) ps ls cs now) a
          (Err (ext_error msg)) Hiso Hrec Hi).
    + intros [= <-]. exact (sound_abort _ _ _ _ _ _ _ _ w _ Hiso Hrec Hi ltac:(done) eq_refl (le_n _)).
    + intros [= <-].
      destruct (executes_behaves _ _ _ _ _ _ _ _ (Hbs _ _ Hb) (isolated_schema _ _ Hiso) Hex)
        as (_ & pr & _ & Hu & _). destruct (Hu w) as (Hd & Ht & _).
      eapply (sound_update _ _ _ _ _ _ _ _ _ _ (N i)); try done; [lia|auto| |].
      * exists b. split; [done|]. by econstructor.
      * intros j s0 Hne Hj. exact (isolated_apart _ _ Hiso i j _ _ ltac:(congruence) Hi Hj).
    + destruct (env_outcome (w_tick w)); [|intros [= <-]; exact (sound_abort _ _ _ _ _ _ _ _ (bump w) _ Hiso Hrec Hi ltac:(done) eq_refl (Nat.le_succ_diag_r _))..].
      case_decide as Hfree; [|done]. intros [= <-].
      destruct (sql _ _ _) as [[x d1]|e] eqn:Hq; [|exact (sound_abort _ _ _ _ _ _ _ _ (bump w) _ Hiso Hrec Hi ltac:(done) eq_refl (Nat.le_succ_diag_r _))].
      eapply (sound_update _ _ _ _ _ _ _ _ _ _ (N i ++ [w_tick w])); try done; [simpl; lia| | |].
      * intros n [Hn|Hn%list_elem_of_singleton]%elem_of_app; [by left|]. right. simpl. lia.
      * exists b. split; [done|]. simpl. by apply (executes_statement now (w_db w) b (N i) ps ls cs X g sql).
      * intros j s0 Hne Hj. destruct (isolated_apart _ _ Hiso i j _ _ ltac:(congruence) Hi Hj) as [Hal Hac].
        destruct (Hfree _ _ Hj) as [->|[Hfl Hfc]]; [done|].
        pose proof (proj1 (Forall_forall _ _) Hfl) as Hl. pose proof (proj1 (Forall_forall _ _) Hfc) as Hc.
        simpl in Hal, Hac. split; simpl; intros y [Hy|Hy]%elem_of_app; auto.
Qed.

(** Whatever is interleaved, the committed database is where whole transactions and the
    other calls have led, one after the other; each transaction has committed at most once,
    and its answer is what it returned there. *)
Lemma sound_moves other d0 P P' :
  rtc (pool_moves other) P P' → sound other d0 P → sound other d0 P'.
Proof.
  induction 1 as [P|P P1 P' Hstep _ IH]; [done|]. intros Hs. apply IH.
  destruct Hstep as [i P P1 Ha|w w' ss Ho Ht Hu Hr]; [by eapply sound_advance|].
  destruct Hs as (N & h & Hiso & [H1 H2 H3 H4]). exists N, h. split.
  - eapply isolated_commit; [exact Hiso|done|done|]. intros i t Hi.
    eapply respects_mono; [done| |done|by eapply Hr].
    intros u (n & -> & Hn)%list_elem_of_fmap. apply list_elem_of_fmap_2, elem_of_seq.
    apply (isolated_past _ _ Hiso) in Hn. simpl in Hn. lia.
  - split; [by eapply serial_other|done..].
Qed.

Lemma sound_start other w :
  schema (w_db w) → sound other (w_db w) (w, Waiting <$> bs).
Proof.
  intros Hu. exists (λ _, []), []. split; [by apply isolated_start|].
  split; simpl; [constructor|constructor|set_solver|].
  intros i a. rewrite lookup_fmap. by intros (b & _ & ?)%fmap_Some.
Qed.

End Pool.

(** ** Schedules *)

(** A schedule of the goroutines; one that has to wait, or is done, loses its turn. *)
Fixpoint play `{Env} {A} (sched : list nat) (P : pool A) : pool A :=
  match sched with
  | [] => P
  | i :: sched' => play sched' (default P (advance i P))
  end.

Lemma play_moves `{Env} {A} other sched (P : pool A) : rtc (pool_moves other) P (play sched P).
Proof.
  revert P. induction sched as [|i sched IH]; intros P; simpl; [done|].
  destruct (advance i P) as [P'|] eqn:Ha; simpl; [|apply IH].
  eapply rtc_l; [by eapply moves_session|apply IH].
Qed.

(** ** A transaction that runs alone

    Without company the statements of a transaction do exactly what [with_tx] does with
    them in one step, whatever fails. *)

Section Alone.
Context `{Env} {A : Type}.
Variable i : nat.

Lemma unblocked_alone ls cs (s : session A) : unblocked i ls cs {[i := s]}.
Proof. intros j s' Hj. apply lookup_singleton_Some in Hj as [<- _]. by left. Qed.

Lemma play_step n (P P' : pool A) :
  advance i P = Some P' → play (repeat i (S n)) P = play (repeat i n) P'.
Proof. simpl. by intros ->. Qed.

(** The result of a body that has run, and what is committed then. *)
Definition committed (d : DB) (res : Res A * World) : Res A * DB * nat :=
  let '(r, w1) := res in
  match r with
  | Err e => (Err e, d, w_tick w1)
  | Ok a => match env_outcome (w_tick w1) with
            | Fine => (Ok a, w_db w1, S (w_tick w1))
            | FailBefore msg => (Err (ext_error msg), d, S (w_tick w1))
            | FailAfter msg => (Err (ext_error msg), w_db w1, S (w_tick w1))
            end
  end.

Lemma with_tx_committed (body : M A) w :
  env_outcome (w_tick w) = Fine →
  let '(r, w') := with_tx body w in
  committed (w_db w) (body (bump (start w))) = (r, w_db w', w_tick w').
Proof.
  intros Hf. unfold with_tx, committed. rewrite Hf.
  destruct (body _) as [[a|e] w1]; [|done]. by destruct (env_outcome (w_tick w1)).
Qed.

Lemma play_open (p : tx A) pr ps ls cs now w wd :
  behaves pr p (λ _ _, True) → all_there pr (w_db wd) → schema (w_db wd) →
  w_db wd = apply_puts (w_db w) ps → w_tick wd = w_tick w → w_now wd = now →
  ∃ n w' r,
    play (repeat i n) (w, {[i := Open (mkTransaction p ps ls cs now)]}) = (w', {[i := Ended r]}) ∧
    committed (w_db w) (denote p wd) = (r, w_db w', w_tick w').
Proof.
  revert pr ps ls cs w wd.
  induction p as [[a|e]|u k IH|X g sql fp k IH]; intros pr ps ls cs w wd Hb Hpr Hs Hd Ht Hn.
  - exists 1%nat. unfold committed. simpl. rewrite lookup_singleton_eq, Ht, Hd.
    destruct (env_outcome (w_tick w)); rewrite insert_singleton_eq; eauto.
  - exists 1%nat. simpl. rewrite lookup_singleton_eq, insert_singleton_eq. simpl.
    exists w, (Err e). by rewrite Ht.
  - destruct Hb as [Hu Hb]. destruct (Hu w) as (Hud & Hut & _). destruct (Hu wd) as (Hud' & Hut' & Hun').
    destruct (IH pr ps ls cs (u w) (u wd)) as (n & w' & r & Hp & Hc); [congruence..|].
    exists (S n), w', r. rewrite Hud in Hc. split; [|done]. rewrite <- Hp. apply play_step.
    simpl. by rewrite lookup_singleton_eq, insert_singleton_eq.
  - destruct Hb as [Hst Hk]. cbn [denote]. unfold bind, map_err, query. rewrite Ht.
    destruct (env_outcome (w_tick w)) eqn:Ho.
    2,3: exists 1%nat, (bump w); eexists; simpl; rewrite lookup_singleton_eq, Ho, insert_singleton_eq;
      split; [done|]; simpl; by rewrite Ht.
    assert (Hctx : ctx wd = mkCtx (env_uuid (w_tick w)) now) by (unfold ctx; by rewrite Ht, Hn).
    assert (Hadv : advance i (w, {[i := Open (mkTransaction (Statement g sql fp k) ps ls cs now)]}) =
      Some (bump w, {[i := match sql (env_now (w_tick w)) (ctx wd) (w_db wd) with
        | Ok (x, d1) => Open (mkTransaction (k x) (ps ++ written fp (ctx wd) d1)
                          (ls ++ fp_locks fp (ctx wd) (w_db wd)) (cs ++ fp_claims fp) now)
        | Err e => Ended (Err (g e)) end]})).
    { unfold advance. rewrite lookup_singleton_eq, Ho, decide_True by apply unblocked_alone.
      by rewrite insert_singleton_eq, <- Hd, <- Hctx. }
    destruct (sql (env_now (w_tick w)) (ctx wd) (w_db wd)) as [[x d1]|e] eqn:Hq.
    + destruct (steady_writes _ _ _ Hst _ _ _ _ _ Hq Hpr Hs) as [Hd1 Hmay].
      destruct (Hk _ _ _ _ _ Hq Hpr Hs) as (pr' & Hpr' & Hb').
      destruct (take_locks_ok (fp_locks fp (ctx wd) (w_db wd)) (Runtime.set_db d1 (bump wd)))
        as [l ->].
      destruct (IH x pr' (ps ++ written fp (ctx wd) d1) (ls ++ fp_locks fp (ctx wd) (w_db wd))
        (cs ++ fp_claims fp) (bump w) (set_locks l (Runtime.set_db d1 (bump wd))))
        as (n & w' & r & Hp & Hc); simpl.
      * done.
      * rewrite Hd1. eapply (all_there_mono [] [] []); [|exact Hpr'].
        eapply written_respects; [exact Hmay|set_solver..].
      * rewrite Hd1. by eapply written_schema.
      * rewrite apply_puts_app, <- Hd. exact Hd1.
      * by rewrite Ht.
      * done.
      * exists (S n), w', r. split; [|exact Hc]. rewrite <- Hp. by apply play_step.
    + exists 1%nat, (bump w), (Err (g e)). rewrite (play_step 0 _ _ Hadv). simpl.
      split; [done|]. by rewrite Ht.
Qed.

(** Given enough turns it ends, and its result, the database and the time are those of
    [with_tx]. *)
Lemma play_alone (b : tx A) w :
  well_behaved b → schema (w_db w) →
  let '(r, w1) := with_tx (denote b) w in
  ∃ n w', play (repeat i n) (w, {[i := Waiting b]}) = (w', {[i := Ended r]}) ∧
    w_db w' = w_db w1 ∧ w_tick w' = w_tick w1.
Proof.
  intros Hb Hs. destruct (env_outcome (w_tick w)) eqn:Ho.
  2,3: unfold with_tx; rewrite Ho; exists 1%nat, (bump w); simpl;
    rewrite lookup_singleton_eq, Ho; simpl; by rewrite insert_singleton_eq.
  pose proof (with_tx_committed (denote b) w Ho) as Hcom.
  destruct (with_tx (denote b) w) as [r w1].
  destruct (play_open b [] [] [] [] (env_now (w_tick w)) (bump w) (bump (start w)) Hb)
    as (n & w' & r' & Hp & Hc); [constructor|exact Hs|done..|].
  change (w_db (bump w)) with (w_db w) in Hc. rewrite Hcom in Hc. injection Hc as <- Hd Ht.
  exists (S n), w'. split; [|done]. rewrite <- Hp. apply play_step. simpl.
  by rewrite lookup_singleton_eq, Ho, insert_singleton_eq.
Qed.
End Alone.
