(* ===== verification/Sample.v ===== *)
(** * A concrete environment

    An outside world in which nothing fails, to evaluate the service on concrete
    inputs: the [n]-th UUID is ["u"] followed by [n] times ["a"], ids are compared
    without regard to case, as hexadecimal digits are, and the clock counts the
    exchanges. *)

From S2P Require Import Prelude Go Models Postgres Runtime.
From Stdlib Require Import Ascii QArith_base.
#[local] Open Scope Z_scope.

Definition lower_char (c : ascii) : ascii :=
  let n := nat_of_ascii c in
  if decide (65 ≤ n ≤ 90)%nat then ascii_of_nat (n + 32) else c.

Fixpoint lower (s : string) : string :=
  match s with
  | EmptyString => EmptyString
  | String c s' => String (lower_char c) (lower s')
  end.

Fixpoint repeat_a (n : nat) : string :=
  match n with O => EmptyString | S n' => String "a" (repeat_a n') end.

Definition sample_uuid (n : nat) : string := String "u" (repeat_a n).

Definition sample_uuid_in (s : string) : option string :=
  match s with EmptyString => None | _ => Some (lower s) end.

#[export] Instance sample_env : Env := {|
  env_outcome _ := Fine;
  env_uuid := sample_uuid;
  env_now n := Z.of_nat n;
  env_intn _ _ := 0;
  env_float32 _ := (1 # 2)%Q;
  lua_ge _ _ := None;
  uuid_in := sample_uuid_in;
|}.

Lemma lower_char_idem c : lower_char (lower_char c) = lower_char c.
Proof. by destruct c as [[] [] [] [] [] [] [] []]. Qed.

Lemma lower_idem s : lower (lower s) = lower s.
Proof. induction s as [|c s IH]; simpl; [done|]. by rewrite lower_char_idem, IH. Qed.

Lemma lower_repeat_a n : lower (repeat_a n) = repeat_a n.
Proof. induction n as [|n IH]; simpl; [done|]. by rewrite IH. Qed.

Lemma sample_uuid_inj i j : sample_uuid i = sample_uuid j → i = j.
Proof.
  intros [= Heq]. revert j Heq.
  induction i as [|i IH]; intros [|j] Heq; simplify_eq/=; [done|]. f_equal. auto.
Qed.

#[export] Instance sample_laws : UuidLaws.
Proof.
  split.
  - intros [|c s] u; simpl; [done|]. intros [= <-]. simpl.
    by rewrite lower_char_idem, lower_idem.
  - intros n. simpl. by rewrite lower_repeat_a.
Qed.

Lemma sample_no_faults n : no_faults n.
Proof. done. Qed.

(** The supply is intact when no row has an id of the form the generator will
    use. *)
Lemma sample_supply n d :
  (∀ i, (n ≤ i)%nat → unused (sample_uuid i) d) → uuid_supply n d.
Proof. intros Hu. split; [intros i j _ _; apply sample_uuid_inj|exact Hu]. Qed.

(** A world over a given database, its exchanges numbered from [0]. *)
Definition sample_world (d : DB) : World := Runtime.set_db d init_world.

(** Close [uuid_supply n d] for a database written as insertions of literal ids
    that do not begin with ["u"]. *)
Ltac solve_sample_supply :=
  apply sample_supply; intros ? _; unfold unused, sample_uuid; simpl;
  repeat split; rewrite ?lookup_insert_ne by discriminate; apply lookup_empty.

(** ** A small bank

    Two users with a dollar wallet each, and an idempotency key in progress. *)

Definition sample_wallet (id owner account : string) (balance : Z) : wallets.Wallet :=
  wallets.mkWallet id owner account "USD" balance 0 wallets.StatusActive 1 0 0.

Definition sample_bank : DB := mkDB
  (<["b1" := auth.mkUser "b1" "b1@test.com" "hash" auth.RoleUser 0 0]>
     (<["b2" := auth.mkUser "b2" "b2@test.com" "hash" auth.RoleUser 0 0]> ∅))
  (<["a1" := mkAccount "a1" "USER" "USD" 0]> (<["a2" := mkAccount "a2" "USER" "USD" 0]> ∅))
  (<["w1" := sample_wallet "w1" "b1" "a1" 1000]> (<["w2" := sample_wallet "w2" "b2" "a2" 500]> ∅))
  ∅ ∅
  (<["k1" := idempotency.mkKeyRow "k1" idempotency.StatusInProgress JNull None None (Some 0) 0]> ∅)
  ∅ ∅ ∅ ∅ ∅ ∅.

Lemma sample_bank_supply n : uuid_supply n sample_bank.
Proof. solve_sample_supply. Qed.
