(* ===== verification/Redis.v ===== *)
(** * The Redis client (internal/redis/client.go)

    The keys of the Redis server with their texts and expiry times, the commands that the
    client sends, the Lua script of [Allow], and the cache methods.  The server and the Lua
    language are outside; what the client relies on of them is written out for the commands it
    uses, and what Lua makes of a text that is no decimal integer, or of one that a double
    cannot hold, is the environment's. *)

From stdpp Require Import pretty.
From S2P Require Import Prelude Go Models Postgres Runtime Sample.
From Stdlib Require Import Ascii.
#[local] Open Scope go_scope.
#[local] Open Scope Z_scope.

(** ** Integers as texts *)

Definition digit (c : ascii) : option Z :=
  let n := Ascii.nat_of_ascii c in
  if decide (48 ≤ n < 58)%nat then Some (Z.of_nat n - 48) else None.

Fixpoint read_digits (acc : Z) (s : string) : option Z :=
  match s with
  | EmptyString => Some acc
  | String c s' => d ← digit c; read_digits (10 * acc + d) s'
  end.

(** Digits that do not begin with [0]. *)
Definition read_positive (s : string) : option Z :=
  match s with
  | EmptyString => None
  | String c s' => d ← digit c; if decide (d = 0) then None else read_digits d s'
  end.

(** What Redis takes for an integer: a signed 64-bit number in its shortest spelling. *)
Definition string2ll (s : string) : option Z :=
  n ← (if bool_decide (s = "0") then Some 0
       else match s with
            | String "-"%char s' => Z.opp <$> read_positive s'
            | _ => read_positive s
            end);
  if decide (in_int64 n) then Some n else None.

(** ** The code *)

Definition ErrRateLimitExceeded : error :=
  errors_New "redis.ErrRateLimitExceeded" "rate limit exceeded".

Definition err_not_integer : error := ext_error "ERR value is not an integer or out of range".
Definition err_overflow : error := ext_error "ERR increment or decrement would overflow".
Definition err_compare : error := ext_error "ERR attempt to compare nil with number".

Section Commands.
Context `{Env}.

(** A key that has expired is gone. *)
Definition redis_GET (now : Z) (key : string) (t : Keyspace) : option string :=
  match t !! key with
  | Some (s, Some expiry) => if expiry <=? now then None else Some s
  | Some (s, None) => Some s
  | None => None
  end.

(** [INCR] keeps the expiry of a live key and creates an absent one without. *)
Definition redis_INCR (now : Z) (key : string) (t : Keyspace) : Res (Z * Keyspace) :=
  match redis_GET now key t with
  | Some s =>
    match string2ll s with
    | None => Err err_not_integer
    | Some n =>
      if decide (n = int64_max) then Err err_overflow
      else Ok (n + 1, <[key := (pretty (n + 1), t !! key ≫= snd)]> t)
    end
  | None => Ok (1, <[key := (pretty 1, None)]> t)
  end.

Definition redis_EXPIRE (now : Z) (key : string) (secs : Z) (t : Keyspace) : Keyspace :=
  match redis_GET now key t with
  | Some s => <[key := (s, Some (now + secs * 1000000))]> t
  | None => t
  end.

(** The numbers of Lua are doubles: integers up to this size are exact. *)
Definition lua_exact : Z := 2 ^ 53.

(** [tonumber(s) >= n]; comparing [nil] is an error. *)
Definition lua_at_least (s : string) (n : Z) : Res bool :=
  let exact m := bool_decide (- lua_exact <= m <= lua_exact) in
  match string2ll s with
  | Some m => if exact m && exact n then Ok (n <=? m)
              else default (Err err_compare) (Ok <$> lua_ge s n)
  | None => default (Err err_compare) (Ok <$> lua_ge s n)
  end.

(** The Lua script: [1] when the request is admitted, [0] when not; an error of a command
    ends it, and what was written before stays. *)
Definition allow_script (key : string) (limit windowSeconds now : Z) (t : Keyspace)
  : Res Z * Keyspace :=
  let enter :=
    match redis_INCR now key t with
    | Err e => (Err e, t)
    | Ok (current, t1) =>
      (Ok 1, if current =? 1 then redis_EXPIRE now key windowSeconds t1 else t1)
    end in
  match redis_GET now key t with
  | Some current =>
    match lua_at_least current limit with
    | Err e => (Err e, t)
    | Ok true => (Ok 0, t)
    | Ok false => enter
    end
  | None => enter
  end.

(** A command or a script runs atomically on the server. *)
Definition redis_Eval {A} (script : Z → Keyspace → Res A * Keyspace) : M A := λ w,
  let '(res, t) := script (env_now (w_tick w)) (w_redis w) in
  match env_outcome (w_tick w) with
  | Fine => (res, set_redis t (bump w))
  | FailBefore msg => (Err (ext_error msg), bump w)
  | FailAfter msg => (Err (ext_error msg), set_redis t (bump w))
  end.

(** [Client.Allow]; [window] is a [time.Duration], in nanoseconds. *)
Definition Allow (key : string) (limit window : Z) : M unit := λ w,
  let windowSeconds := Z.quot window 1000000000 in
  let windowSeconds := if windowSeconds <=? 0 then 1 else windowSeconds in
  match redis_Eval (allow_script key limit windowSeconds) w with
  | (Err e, w') => (Err (fmt_Errorf "rate limiter script failed: " e ""), w')
  | (Ok allowed, w') => if allowed =? 0 then (Err ErrRateLimitExceeded, w') else (Ok tt, w')
  end.
End Commands.

(** [rdb.Set] of the client library: when a key that is stored at [now] for [exp] nanoseconds
    expires, given when it was to expire before. *)
Class GoRedis := set_expiry : Z → Z → option Z → option Z.

(** Its documented behaviour: no expiry for zero, else the time to the millisecond. *)
Class GoRedisLaws `{GoRedis} := {
  set_expiry_none now old : set_expiry now 0 old = None;
  set_expiry_some now ms old : 0 < ms → set_expiry now (ms * 1000000) old = Some (now + ms * 1000);
}.

Section Cache.
Context `{Env} `{GoRedis}.

Definition SetCache (key value : string) (exp : Z) : M unit :=
  redis_Eval (λ now t,
    let old := match redis_GET now key t with Some _ => t !! key ≫= snd | None => None end in
    (Ok tt, <[key := (value, set_expiry now exp old)]> t)).

(** [redis.Nil] is a cache miss: the empty text and no error. *)
Definition GetCache (key : string) : M string :=
  redis_Eval (λ now t, (Ok (default EmptyString (redis_GET now key t)), t)).
End Cache.

(** ** Printed integers are read back *)

Lemma digit_char n : (n < 10)%N → digit (pretty_N_char n) = Some (Z.of_N n).
Proof.
  intros Hn. assert (n = 0 ∨ n = 1 ∨ n = 2 ∨ n = 3 ∨ n = 4 ∨ n = 5 ∨ n = 6 ∨ n = 7 ∨ n = 8 ∨ n = 9)%N
    as Hd by lia.
  repeat destruct Hd as [->|Hd]; try reflexivity. by rewrite Hd.
Qed.

Lemma read_printed n s :
  (0 < n)%N → read_positive (pretty_N_go n s) = read_digits (Z.of_N n) s.
Proof.
  revert s. induction (N.lt_wf_0 n) as [n _ IH]; intros s Hn.
  rewrite pretty_N_go_step by done.
  destruct (decide (n < 10)%N) as [Hlt|Hge].
  - rewrite N.div_small, pretty_N_go_0, N.mod_small by done. simpl.
    rewrite digit_char by done. simpl. by rewrite decide_False by lia.
  - rewrite IH by (try apply N.div_lt; try apply N.div_str_pos; lia). simpl.
    rewrite digit_char by by apply N.mod_lt. simpl. f_equal.
    pose proof (N.div_mod n 10 ltac:(done)). lia.
Qed.

Lemma read_positive_first c s : read_positive (String c s) ≠ None → c ≠ "-"%char ∧ String c s ≠ "0".
Proof. intros Hr. split; intros Heq; apply Hr; [by rewrite Heq|by injection Heq as -> ->]. Qed.

Lemma string2ll_pretty n : 0 < n <= int64_max → string2ll (pretty n) = Some n.
Proof.
  intros Hn. destruct n as [|p|p]; [lia| |lia].
  change (pretty (Z.pos p)) with (pretty_N_go (N.pos p) EmptyString).
  pose proof (read_printed (N.pos p) EmptyString ltac:(lia)) as Hr. simpl in Hr.
  destruct (pretty_N_go (N.pos p) EmptyString) as [|c s]; [done|].
  destruct (read_positive_first c s) as [Hc H0]; [by rewrite Hr|].
  unfold string2ll. rewrite bool_decide_eq_false_2 by done.
  replace (match c with "-"%char => _ | _ => _ end) with (Some (Z.pos p)).
  - simpl. rewrite decide_True; [done|unfold in_int64, int64_min; lia].
  - rewrite <- Hr. by destruct c as [[] [] [] [] [] [] [] []].
Qed.

(** ** Calls of the client leave the database alone *)

Section Frame.
Context `{Env}.

Lemma redis_Eval_frame {A} (script : Z → Keyspace → Res A * Keyspace) w :
  w_db (redis_Eval script w).2 = w_db w ∧ w_tick (redis_Eval script w).2 = S (w_tick w) ∧
  w_http_requests_total (redis_Eval script w).2 = w_http_requests_total w.
Proof.
  unfold redis_Eval. destruct (script _ _) as [res t]. by destruct (env_outcome (w_tick w)).
Qed.

Lemma allow_eval key limit window w :
  (Allow key limit window w).2 =
  (redis_Eval (allow_script key limit
     (let s := Z.quot window 1000000000 in if s <=? 0 then 1 else s)) w).2.
Proof. unfold Allow. destruct (redis_Eval _ w) as [[n|e] w']; [by destruct (n =? 0)|done]. Qed.

Lemma allow_db key limit window w : w_db (Allow key limit window w).2 = w_db w.
Proof. rewrite allow_eval. apply redis_Eval_frame. Qed.

Lemma allow_tick key limit window w : w_tick (Allow key limit window w).2 = S (w_tick w).
Proof. rewrite allow_eval. apply redis_Eval_frame. Qed.

Lemma allow_requests key limit window w :
  w_http_requests_total (Allow key limit window w).2 = w_http_requests_total w.
Proof. rewrite allow_eval. apply redis_Eval_frame. Qed.
End Frame.

(** ** The fixed window *)

Section Window.
Context `{Env}.

(** Requests served one after the other, by the keys they are counted under. *)
Fixpoint serve (limit window : Z) (keys : list string) (w : World) : list (Res unit) * World :=
  match keys with
  | [] => ([], w)
  | key :: rest =>
    let '(r, w1) := Allow key limit window w in
    let '(rs, w2) := serve limit window rest w1 in (r :: rs, w2)
  end.


Definition requested (key : string) (keys : list string) : nat :=
  count_if (λ k, bool_decide (k = key)) keys.

(** [m] requests have been counted under [key] in the window that ends no earlier
    than [t_end]. *)
Definition counted (key : string) (m t0 t_end : Z) (t : Keyspace) : Prop :=
  if decide (m = 0) then ∀ now, t0 <= now → redis_GET now key t = None
  else ∃ expiry, t !! key = Some (pretty m, Some expiry) ∧ t_end <= expiry.

Lemma counted_GET key m t0 t_end t now :
  counted key m t0 t_end t → 0 <= m → t0 <= now < t_end →
  redis_GET now key t = if decide (m = 0) then None else Some (pretty m).
Proof.
  unfold counted. intros Hc Hm Hnow. case_decide; [apply Hc; lia|].
  destruct Hc as (expiry & Hk & ?). unfold redis_GET. rewrite Hk.
  destruct (Z.leb_spec expiry now); [lia|done].
Qed.

(** The script on the key, within the window. *)
Lemma allow_script_counted key limit secs m t0 t_end t now :
  counted key m t0 t_end t → 0 <= m <= limit → 1 <= limit <= lua_exact → t0 <= now < t_end →
  t_end <= t0 + secs * 1000000 →
  let '(res, t') := allow_script key limit secs now t in
  res = Ok (if decide (m < limit) then 1 else 0) ∧
  counted key (if decide (m < limit) then m + 1 else m) t0 t_end t'.
Proof.
  intros Hc Hm Hl Hnow Hend. pose proof (counted_GET _ _ _ _ _ _ Hc ltac:(lia) Hnow) as HG.
  unfold allow_script, redis_INCR. rewrite HG. destruct (decide (m = 0)) as [->|Hne].
  - rewrite !(decide_True (P := 0 < limit)) by lia. rewrite Z.eqb_refl. split; [done|].
    unfold redis_EXPIRE, redis_GET. rewrite lookup_insert_eq. unfold counted.
    rewrite decide_False by lia. exists (now + secs * 1000000).
    rewrite lookup_insert_eq. split; [done|lia].
  - unfold lua_at_least. unfold lua_exact, int64_max in *.
    rewrite string2ll_pretty by (unfold int64_max; lia).
    rewrite !bool_decide_eq_true_2 by lia. cbn [andb]. destruct (Z.leb_spec limit m).
    + rewrite !decide_False by lia. done.
    + rewrite decide_False, !decide_True by lia. replace (m + 1 =? 1) with false by lia.
      split; [done|]. unfold counted in *. rewrite decide_False in Hc by lia.
      rewrite decide_False by lia.
      destruct Hc as (expiry & Hk & ?). exists expiry. by rewrite Hk, lookup_insert_eq.
Qed.

(** The script on another key. *)
Lemma allow_script_same key k limit secs t now :
  k ≠ key → (allow_script k limit secs now t).2 !! key = t !! key.
Proof.
  intros Hne. unfold allow_script, redis_INCR, redis_EXPIRE.
  repeat (case_match; simplify_eq/=); by rewrite ?lookup_insert_ne.
Qed.

Lemma allow_script_other key k limit secs m t0 t_end t now :
  k ≠ key → counted key m t0 t_end t →
  counted key m t0 t_end (allow_script k limit secs now t).2.
Proof.
  intros Hne Hc. pose proof (allow_script_same key k limit secs t now Hne) as Hsame.
  unfold counted, redis_GET in *. by rewrite Hsame.
Qed.

Lemma Allow_fine key limit secs w :
  1 <= secs → env_outcome (w_tick w) = Fine →
  let '(res, t) := allow_script key limit secs (env_now (w_tick w)) (w_redis w) in
  Allow key limit (secs * 1000000000) w =
    (match res with
     | Err e => Err (fmt_Errorf "rate limiter script failed: " e "")
     | Ok n => if n =? 0 then Err ErrRateLimitExceeded else Ok tt
     end, set_redis t (bump w)).
Proof.
  intros Hs Hf. unfold Allow. rewrite Z.quot_mul by lia.
  destruct (Z.leb_spec secs 0); [lia|]. unfold redis_Eval. rewrite Hf.
  destruct (allow_script _ _ _ _ _) as [[n|e] t]; [by destruct (n =? 0)|done].
Qed.

(** Every answer under the key is decided by how many came before. *)
Lemma serve_counted key limit secs t0 keys m w :
  1 <= limit <= lua_exact → 1 <= secs → no_faults (w_tick w) → 0 <= m <= limit →
  counted key m t0 (t0 + secs * 1000000) (w_redis w) →
  (∀ i, (i < length keys)%nat →
     t0 <= env_now (w_tick w + i) < t0 + secs * 1000000) →
  ∀ i, keys !! i = Some key →
    (serve limit (secs * 1000000000) keys w).1 !! i =
      Some (if decide (m + Z.of_nat (requested key (take i keys)) < limit) then Ok tt
            else Err ErrRateLimitExceeded).
Proof.
  intros Hl Hs. revert m w. induction keys as [|k keys IH]; intros m w Hf Hm Hc Hnow i Hi; [done|].
  cbn [serve]. pose proof (Allow_fine k limit secs w Hs (no_faults_now _ Hf)) as Hall.
  pose proof (Hnow 0%nat ltac:(simpl; lia)) as Hnow0. rewrite Nat.add_0_r in Hnow0.
  pose proof (allow_script_counted key limit secs m t0 _ _ _ Hc Hm Hl Hnow0 ltac:(lia)) as Hkey.
  pose proof (λ Hne, allow_script_other key k limit secs m t0 _ _ (env_now (w_tick w)) Hne Hc) as Hother.
  assert (Hnow' : ∀ t i, (i < length keys)%nat →
     t0 <= env_now (w_tick (set_redis t (bump w)) + i) < t0 + secs * 1000000).
  { intros t i' Hi'. simpl. rewrite <- Nat.add_succ_r. apply Hnow. simpl. lia. }
  destruct (decide (k = key)) as [->|Hne].
  - clear Hother. destruct (allow_script key limit secs _ _) as [res t]. rewrite Hall.
    destruct Hkey as [-> Hc'].
    specialize (IH (if decide (m < limit) then m + 1 else m) (set_redis t (bump w))
                  ltac:(by apply no_faults_S) ltac:(case_decide; lia) Hc' (Hnow' t)).
    destruct (serve _ _ _ _) as [rs w2]. destruct i as [|i]; simpl in Hi, IH |- *.
    + rewrite Z.add_0_r. by case_decide.
    + rewrite (IH i Hi). unfold requested. simpl. rewrite (bool_decide_eq_true_2 (key = key)) by done.
      f_equal. repeat case_decide; (done || lia).
  - specialize (Hother Hne). clear Hkey. destruct (allow_script k limit secs _ _) as [res t].
    rewrite Hall. specialize (IH m (set_redis t (bump w)) ltac:(by apply no_faults_S) Hm
                                Hother (Hnow' t)).
    destruct (serve _ _ _ _) as [rs w2]. destruct i as [|i]; simpl in Hi, IH |- *; [congruence|].
    rewrite (IH i Hi). unfold requested. simpl. by rewrite (bool_decide_eq_false_2 (k = key)).
Qed.

(** ** Any period *)


(** From [t0] on, for the length of a window, no more than [b] requests can be admitted: the
    live counter may expire once, and the next one outlives the period. *)
Definition at_most (key : string) (limit t_end b : Z) (t : Keyspace) : Prop :=
  (t !! key = None ∧ limit <= b) ∨
  ∃ m expiry, t !! key = Some (pretty m, Some expiry) ∧ 1 <= m <= limit ∧
    ((t_end <= expiry ∧ limit - m <= b) ∨ limit - m + limit <= b).

Lemma at_most_le key limit t_end b b' t : b <= b' → at_most key limit t_end b t → at_most key limit t_end b' t.
Proof. unfold at_most. intros Hb. naive_solver lia. Qed.











End Window.

(** ** The cache *)

(** Operations of the client, each by its key. *)
Inductive operation : Set :=
| OpAllow (key : string) (limit window : Z)
| OpSetCache (key value : string) (exp : Z)
| OpGetCache (key : string).

Definition key_of (o : operation) : string :=
  match o with OpAllow key _ _ | OpSetCache key _ _ | OpGetCache key => key end.

Section Operations.
Context `{Env} `{GoRedis}.

Definition perform (w : World) (o : operation) : World :=
  match o with
  | OpAllow key limit window => (Allow key limit window w).2
  | OpSetCache key value exp => (SetCache key value exp w).2
  | OpGetCache key => (GetCache key w).2
  end.

Lemma redis_Eval_same {A} (script : Z → Keyspace → Res A * Keyspace) key w :
  (∀ now t, (script now t).2 !! key = t !! key) →
  w_redis (redis_Eval script w).2 !! key = w_redis w !! key.
Proof.
  intros Hs. specialize (Hs (env_now (w_tick w)) (w_redis w)). unfold redis_Eval.
  destruct (script _ _) as [res t]. by destruct (env_outcome (w_tick w)).
Qed.

(** An operation leaves the other keys alone. *)
Lemma perform_same o key w :
  key_of o ≠ key →
  w_redis (perform w o) !! key = w_redis w !! key ∧ w_tick (perform w o) = S (w_tick w).
Proof.
  destruct o as [k limit window|k value exp|k]; simpl; intros Hne.
  - split; [|apply allow_tick]. rewrite allow_eval. apply redis_Eval_same. intros now t.
    by apply allow_script_same.
  - split; [|apply redis_Eval_frame]. apply redis_Eval_same. intros now t. simpl.
    by rewrite lookup_insert_ne.
  - split; [|apply redis_Eval_frame]. by apply redis_Eval_same.
Qed.

Lemma perform_all_same os key w :
  Forall (λ o, key_of o ≠ key) os →
  w_redis (foldl perform w os) !! key = w_redis w !! key ∧
  w_tick (foldl perform w os) = (length os + w_tick w)%nat.
Proof.
  intros Hos. revert w. induction Hos as [|o os Ho _ IH]; intros w; [done|]. simpl.
  destruct (IH (perform w o)) as [-> ->]. destruct (perform_same o key w Ho) as [-> ->].
  split; [done|lia].
Qed.

(** Requests that share no key. *)
Lemma serve_fresh limit secs keys w :
  1 <= limit <= lua_exact → 1 <= secs → no_faults (w_tick w) → NoDup keys →
  Forall (λ key, w_redis w !! key = None) keys →
  Forall (λ r, r = Ok tt) (serve limit (secs * 1000000000) keys w).1.
Proof.
  intros Hl Hs. revert w. induction keys as [|key keys IH]; intros w Hf Hnd Hnew; [constructor|].
  apply NoDup_cons in Hnd as [Hni Hnd]. apply Forall_cons in Hnew as [Hk Hnew]. cbn [serve].
  pose proof (Allow_fine key limit secs w Hs (no_faults_now _ Hf)) as Ha.
  assert (Hadm : (allow_script key limit secs (env_now (w_tick w)) (w_redis w)).1 = Ok 1).
  { unfold allow_script, redis_INCR, redis_GET. by rewrite Hk. }
  pose proof (λ k Hne, allow_script_same k key limit secs (w_redis w) (env_now (w_tick w)) Hne) as Ho.
  destruct (allow_script _ _ _ _ _) as [res t]. simpl in Hadm, Ho. subst res. rewrite Ha.
  change (1 =? 0) with false. cbv iota.
  specialize (IH (set_redis t (bump w)) (no_faults_S _ Hf) Hnd).
  destruct (serve _ _ keys _) as [rs w2]. constructor; [done|]. apply IH.
  apply Forall_forall. intros k Hin. simpl. rewrite Ho by (intros ->; done).
  exact (proj1 (Forall_forall _ _) Hnew k Hin).
Qed.
End Operations.

(** ** Properties *)

(** C31. In the window that opens when no counter of [key] is live, the first [limit]
    requests counted under [key] are admitted and all later ones are refused with
    [ErrRateLimitExceeded], whatever requests under other keys come between them: for a limit
    from one to [2 ^ 53], a window of whole seconds, and when Redis answers every call. *)
Theorem rate_limit_window `{Env} key limit secs keys w :
  1 <= limit <= lua_exact → 1 <= secs → no_faults (w_tick w) →
  redis_GET (env_now (w_tick w)) key (w_redis w) = None →
  (∀ i, (i < length keys)%nat →
     env_now (w_tick w) <= env_now (w_tick w + i) < env_now (w_tick w) + secs * 1000000) →
  ∀ i, keys !! i = Some key →
    (serve limit (secs * 1000000000) keys w).1 !! i =
      Some (if decide (Z.of_nat (requested key (take i keys)) < limit) then Ok tt
            else Err ErrRateLimitExceeded).
Proof.
  intros Hl Hs Hf Hnone Hnow i Hi.
  rewrite (serve_counted key limit secs (env_now (w_tick w)) keys 0 w); try done; try lia.
  unfold counted. rewrite decide_True by done. intros now Hle. unfold redis_GET in *.
  destruct (_ !! key) as [[n [expiry|]]|]; [|done..].
  destruct (Z.leb_spec expiry (env_now (w_tick w))); [|done].
  destruct (Z.leb_spec expiry now); [done|lia].
Qed.

Lemma rate_limit_window_witness :
  (serve 2 (60 * 1000000000) ["a"; "b"; "a"; "a"] init_world).1 !! 3%nat =
    Some (Err ErrRateLimitExceeded).
Proof.
  rewrite (rate_limit_window "a" 2 60 ["a"; "b"; "a"; "a"] init_world);
    [reflexivity|unfold lua_exact; lia|lia|apply sample_no_faults|reflexivity| |done].
  intros i Hi. simpl in *. lia.
Defined.


(** C33. What is cached is read back until its time has passed, and not after: when Redis
    answers, whatever the client does under other keys in between, its rate limiting
    included, [GetCache] returns the text that [SetCache] stored for a positive number of
    milliseconds, and from its expiry on the empty text of a miss. *)
Theorem cache_round_trip `{Env} `{GoRedisLaws} key value ms os w :
  no_faults (w_tick w) → 0 < ms → Forall (λ o, key_of o ≠ key) os →
  let w1 := foldl perform (SetCache key value (ms * 1000000) w).2 os in
  (GetCache key w1).1 =
    Ok (if decide (env_now (w_tick w1) < env_now (w_tick w) + ms * 1000) then value
        else EmptyString).
Proof.
  intros Hf Hms Hos w1. unfold w1. clear w1.
  destruct (perform_all_same os key (SetCache key value (ms * 1000000) w).2 Hos) as [Hk Ht].
  set (w1 := foldl perform _ os) in *.
  assert (Hset : w_redis (SetCache key value (ms * 1000000) w).2 !! key =
            Some (value, Some (env_now (w_tick w) + ms * 1000)) ∧
          w_tick (SetCache key value (ms * 1000000) w).2 = S (w_tick w)).
  { split; [|apply redis_Eval_frame]. unfold SetCache, redis_Eval.
    rewrite (no_faults_now _ Hf). simpl. by rewrite lookup_insert_eq, set_expiry_some. }
  destruct Hset as [Hset Hst]. rewrite Hset in Hk. rewrite Hst in Ht.
  assert (Hf1 : env_outcome (w_tick w1) = Fine) by (apply Hf; lia).
  unfold GetCache, redis_Eval. rewrite Hf1. simpl. unfold redis_GET. rewrite Hk.
  destruct (Z.leb_spec (env_now (w_tick w) + ms * 1000) (env_now (w_tick w1)));
    case_decide; (done || lia).
Qed.

(** A clock on which the requests after the first arrive around the end of its window. *)
Definition late_env : Env := {|
  env_outcome _ := Fine;
  env_uuid := sample_uuid;
  env_now n := nth n [0; 999998; 999999; 1000000; 1000001; 1000002] 0;
  env_intn _ _ := 0;
  env_float32 := env_float32 (Env := sample_env);
  lua_ge _ _ := None;
  uuid_in := sample_uuid_in;
|}.


(** It is no token bucket: of a limit of three requests a second, five pass in four
    microseconds. *)
Theorem bursts_pass_at_the_end :
  (serve (H := late_env) 3 (1 * 1000000000) (repeat "a" 6) init_world).1 = repeat (Ok tt) 6.
Proof. vm_compute. reflexivity. Qed.

(** A client library to evaluate the cache on. *)
#[local] Instance sample_go_redis : GoRedis := λ now exp old,
  if exp <=? 0 then None else Some (now + exp / 1000).

#[local] Instance sample_go_redis_laws : GoRedisLaws.
Proof.
  split; [done|]. intros now ms old Hms. unfold set_expiry, sample_go_redis.
  destruct (Z.leb_spec (ms * 1000000) 0); [lia|]. do 2 f_equal.
  replace (ms * 1000000) with (ms * 1000 * 1000) by lia. by apply Z.div_mul.
Qed.

(** In the sample environment an exchange takes a microsecond: a text cached for a
    millisecond is there after two other operations. *)
Lemma cache_round_trip_witness :
  (GetCache "name" (foldl perform (SetCache "name" "value" (1 * 1000000) init_world).2
     [OpAllow "ratelimit:ip:a" 1 (60 * 1000000000); OpSetCache "other" "x" 0])).1 = Ok "value".
Proof.
  refine (eq_trans (cache_round_trip "name" "value" 1
    [OpAllow "ratelimit:ip:a" 1 (60 * 1000000000); OpSetCache "other" "x" 0] init_world
    (sample_no_faults _) eq_refl _) _); [|vm_compute; reflexivity].
  repeat (apply Forall_cons; split); [discriminate..|constructor].
Defined.
