(* ===== verification/Http.v ===== *)
(** * HTTP requests and handlers

    What the handlers see of a request, the shape of a handler, and the parameter that
    stands for the text parser of [encoding/json]. *)

From S2P Require Import Prelude Go Models Postgres Runtime.
#[local] Open Scope prog_scope.
#[local] Open Scope Z_scope.

(** ** Requests and handlers *)

(** What the handlers read of an [*http.Request]: [r.Method], [r.URL.Path], [r.Header.Get], [r.RemoteAddr],
    [chi.URLParam(r, "id")], what arrives of the body and whether it ends there without an
    error, and the claims the authentication middleware puts in the context. *)
Record Request := mkRequest {
  Method : string;
  URL_Path : string;
  Header : string → string;
  RemoteAddr : string;
  URLParam_id : string;
  Body : string;
  Body_complete : bool;
  ctx_claims : option auth.JWTClaims;
}.

Definition Handler := Request → prog Response.

(** The text parser of [encoding/json]: [json_first] is what [Decoder.Decode] reads,
    the first value of a stream, and [json_whole] what [Unmarshal] reads, a text that
    is exactly one value. *)
Class JsonText := {
  json_first : string → option json;
  json_whole : string → option json;
}.

(** [json.NewDecoder(r.Body).Decode(&req)].  It stops reading at the end of the first value,
    so that an error of the stream after it goes unnoticed; only a bare number needs the end
    of the stream to be complete, and no request is decoded from a number. *)
Definition decode_body `{JsonText} {R} (decode : json → option R) (r : Request) : option R :=
  json_first (Body r) ≫= decode.

(** ** Requests to evaluate handlers on *)

(** A text parser for bodies that are a bare currency, to evaluate handlers on. *)
#[export] Instance sample_text : JsonText := {|
  json_first s := Some (JObj [("currency", JStr s)]);
  json_whole s := Some (JObj [("currency", JStr s)]);
|}.

Definition as_user (user : string) (role : auth.Role) (id body : string) : Request :=
  mkRequest "GET" "/" (λ _, "") "10.0.0.1:80" id body true (Some (auth.mkClaims user role)).
