(* ===== verification/Auth.v ===== *)
(** * Registration, login and tokens (internal/auth)

    The service hashes passwords with bcrypt and signs tokens with a JWT library; both
    are parameters, with the documented behaviour the theorems rely on as named laws. *)

From S2P Require Import Prelude Go Models Postgres Runtime Sample Http.
From Stdlib Require Import Ascii.
Import auth.
#[local] Open Scope m_scope.
#[local] Open Scope go_scope.
#[local] Open Scope prog_scope.
#[local] Open Scope Z_scope.

(** ** The code: tokens (jwt.go) *)

(** [jwt.RegisteredClaims], a nil date being [None]; dates count microseconds. *)
Record RegisteredClaims := mkRegistered {
  Issuer : string;
  Subject : string;
  ExpiresAt : option Z;
  NotBefore : option Z;
  IssuedAt : option Z;
}.

(** The [JWTClaims] of a token: the two fields of the service and the embedded ones. *)
Record TokenClaims := mkTokenClaims {
  Token_Claims : JWTClaims;
  Token_Registered : RegisteredClaims;
}.

(** [token.Method]: of the family [*jwt.SigningMethodHMAC] or of another. *)
Inductive SigningMethod : Set :=
| SigningMethodHMAC (alg : string)
| OtherSigningMethod (alg : string).

Definition SigningMethodHS256 : SigningMethod := SigningMethodHMAC "HS256".

(** The library github.com/golang-jwt/jwt.  [ParseWithClaims now token keyfunc] gives the
    claims and [token.Valid]. *)
Class Jwt := {
  NewNumericDate : Z → Z;
  SignedString : SigningMethod → TokenClaims → string → Res string;
  Token_Method : string → option SigningMethod;
  ParseWithClaims : Z → string → (SigningMethod → Res string) → Res (TokenClaims * bool);
}.

(** The token is neither expired nor early at [now]. *)
Definition in_validity (now : Z) (tc : TokenClaims) : Prop :=
  match ExpiresAt (Token_Registered tc) with Some e => now < e | None => True end ∧
  match NotBefore (Token_Registered tc) with Some n => n <= now | None => True end.

(** [token.Claims] travels as JSON text; every ASCII string survives the trip. *)
Fixpoint is_ascii (s : string) : bool :=
  match s with
  | EmptyString => true
  | String c s' => (nat_of_ascii c <? 128)%nat && is_ascii s'
  end.

Definition portable `{Jwt} (tc : TokenClaims) : Prop :=
  is_ascii (Claims_UserID (Token_Claims tc)) = true ∧
  is_ascii (Claims_Role (Token_Claims tc)) = true ∧
  is_ascii (Issuer (Token_Registered tc)) = true ∧
  is_ascii (Subject (Token_Registered tc)) = true ∧
  ∀ date, date ∈ [ExpiresAt (Token_Registered tc); NotBefore (Token_Registered tc);
                  IssuedAt (Token_Registered tc)] →
    ∃ t, date = Some (NewNumericDate t).

(** The documented behaviour of the library: dates are cut to the second, a signed token
    parses under the key it was signed with while it is valid, and a token is accepted
    only in its validity and only with a key [keyfunc] gave for its method. *)
Class JwtLaws `{Jwt} : Prop := {
  numeric_date t : t - 1000000 < NewNumericDate t <= t;
  parse_signed now m tc key token keyfunc :
    SignedString m tc key = Ok token → keyfunc m = Ok key → portable tc → in_validity now tc →
    ParseWithClaims now token keyfunc = Ok (tc, true);
  parse_valid now token keyfunc tc valid :
    ParseWithClaims now token keyfunc = Ok (tc, valid) → in_validity now tc;
  parse_key now token keyfunc p :
    ParseWithClaims now token keyfunc = Ok p →
    ∃ m key, Token_Method token = Some m ∧ keyfunc m = Ok key;
}.

Definition err_method : error := errors_New "" "unexpected signing method".
Definition err_invalid_token : error := errors_New "" "invalid token".

(** The function that [ParseWithClaims] asks for the key. *)
Definition keyfunc (secret : string) (m : SigningMethod) : Res string :=
  match m with
  | SigningMethodHMAC _ => Ok secret
  | OtherSigningMethod _ => Err err_method
  end.

Section Tokens.
Context `{Env} `{Jwt}.

(** The claims of a new token, [duration] in nanoseconds. *)
Definition token_claims (user : User) (now duration : Z) : TokenClaims :=
  mkTokenClaims (mkClaims (User_ID user) (User_Role user))
    (mkRegistered "wallet-ledger" (User_ID user)
       (Some (NewNumericDate (now + duration / 1000)))
       (Some (NewNumericDate now)) (Some (NewNumericDate now))).

Definition GenerateToken (user : User) (secret : string) (duration : Z) : M string :=
  now <- time_Now ;;
  lift_res (SignedString SigningMethodHS256 (token_claims user now duration) secret).

Definition ValidateToken (tokenStr secret : string) : M JWTClaims :=
  now <- time_Now ;;
  token <- lift_res (ParseWithClaims now tokenStr (keyfunc secret)) ;;
  (let '(claims, valid) := token in
   if valid then ret (Token_Claims claims) else fail err_invalid_token).
End Tokens.

(** ** The code: repository *)

Definition ErrUserNotFound : error := errors_New "auth.ErrUserNotFound" "user not found".
Definition ErrUserExists : error := errors_New "auth.ErrUserExists" "user already exists".

Class AuthRepository := {
  CreateUser : User → M User;
  GetUserByEmail : string → M User;
}.

Section Repository.
Context `{Env}.

(** The users with an email, under the constraint at most one. *)
Definition users_with (email : string) (d : DB) : list User :=
  filter (λ u, User_Email u = email) (map_to_list (users d)).*2.

(** [INSERT INTO users ... RETURNING id, created_at, updated_at] *)
Definition sql_insert_user (user : User) (c : Ctx) (d : DB) : Res (string * Z * Z * DB) :=
  let? email := varchar 255 (User_Email user) in
  let? hash := varchar 255 (User_PasswordHash user) in
  let? role := varchar 50 (User_Role user) in
  let row := mkUser (c_uuid c) email hash role (c_now c) (c_now c) in
  let? t := insert_pk "users_pkey" (users d) (c_uuid c) row in
  let? _ := guard_res (bool_decide (users_with email d = []))
              (unique_violation "users_email_key") in
  Ok (c_uuid c, c_now c, c_now c, set_users t d).

Definition sql_select_user (email : string) (c : Ctx) (d : DB) : Res (User * DB) :=
  match users_with email d with
  | u :: _ => Ok (u, d)
  | [] => Err pgx_ErrNoRows
  end.

#[export] Instance postgresRepository : AuthRepository := {|
  CreateUser user :=
    row <- map_err (λ err, if bool_decide (errors_As_SQLState err = Some "23505")
                           then ErrUserExists else err)
             (exec (sql_insert_user user)) ;;
    (let '(id, created, updated) := row in
     ret (mkUser id (User_Email user) (User_PasswordHash user) (User_Role user) created updated));
  GetUserByEmail email :=
    map_err (λ err, if errors_Is err pgx_ErrNoRows then ErrUserNotFound else err)
      (exec (sql_select_user email));
|}.
End Repository.

(** ** The code: service *)

Definition ErrInvalidCredentials : error :=
  errors_New "auth.ErrInvalidCredentials" "invalid credentials".

(** golang.org/x/crypto/bcrypt; the salt of [GenerateFromPassword] is drawn anew each
    time, here as the argument that numbers the call. *)
Class Bcrypt := {
  GenerateFromPassword : nat → string → Res string;
  CompareHashAndPassword : string → string → bool;
}.

(** The documented behaviour of bcrypt: a hash is an ASCII text of 60 bytes that its
    password matches. *)
Class BcryptLaws `{Bcrypt} : Prop := {
  bcrypt_match n password hash :
    GenerateFromPassword n password = Ok hash → CompareHashAndPassword hash password = true;
  bcrypt_length n password hash :
    GenerateFromPassword n password = Ok hash → String.length hash = 60%nat;
}.

Class AuthService := {
  Register : RegisterRequest → prog (Res AuthResponse);
  Login : LoginRequest → prog (Res AuthResponse);
}.

(** [24*time.Hour] *)
Definition day : Z := 24 * 3600 * 1000000000.

Section Service.
Context `{Env} {R : AuthRepository} `{Bcrypt} `{Jwt}.

Definition bcrypt_hash (password : string) : M string := λ w,
  (GenerateFromPassword (w_tick w) password, w).

Definition answer_token (user : User) (jwtSecret : string) : prog (Res AuthResponse) :=
  let* token := call (GenerateToken user jwtSecret day) in
  Ret (Ok (mkAuthResponse token user)).

#[export] Instance serviceImpl (jwtSecret : string) : AuthService := {|
  Register req :=
    let role := if bool_decide (Register_Role req = "") then RoleUser else Register_Role req in
    let* hash := call (bcrypt_hash (Register_Password req)) in
    let* user := call (CreateUser (mkUser "" (Register_Email req) hash role 0 0)) in
    answer_token user jwtSecret;
  Login req :=
    let+ found := call (GetUserByEmail (Login_Email req)) in
    match found with
    | Err err => Ret (Err (if errors_Is err ErrUserNotFound then ErrInvalidCredentials else err))
    | Ok user =>
      if negb (CompareHashAndPassword (User_PasswordHash user) (Login_Password req))
      then Ret (Err ErrInvalidCredentials)
      else answer_token user jwtSecret
    end;
|}.
End Service.

(** ** The code: handlers *)

Section Handlers.
Context {S : AuthService} `{JsonText}.

Definition HandleRegister : Handler := λ r,
  match decode_body decode_RegisterRequest r with
  | None => Ret (http_Error "invalid request body" StatusBadRequest)
  | Some req =>
    if bool_decide (Register_Email req = "") || bool_decide (Register_Password req = "") then
      Ret (http_Error "email and password are required" StatusBadRequest)
    else
      let+ res := Register req in
      match res with
      | Err err =>
        if errors_Is err ErrUserExists then Ret (http_Error (Error err) StatusConflict)
        else Ret (http_Error "internal server error" StatusInternalServerError)
      | Ok resp => Ret (mkResponse StatusCreated (JsonBody (AuthResponse_json resp)))
      end
  end.

Definition HandleLogin : Handler := λ r,
  match decode_body decode_LoginRequest r with
  | None => Ret (http_Error "invalid request body" StatusBadRequest)
  | Some req =>
    if bool_decide (Login_Email req = "") || bool_decide (Login_Password req = "") then
      Ret (http_Error "email and password are required" StatusBadRequest)
    else
      let+ res := Login req in
      match res with
      | Err err =>
        if errors_Is err ErrInvalidCredentials then Ret (http_Error (Error err) StatusUnauthorized)
        else Ret (http_Error "internal server error" StatusInternalServerError)
      | Ok resp => Ret (mkResponse StatusOK (JsonBody (AuthResponse_json resp)))
      end
  end.

Inductive auth_route : Set := POST_register | POST_login.

Definition auth_RegisterRoutes (route : auth_route) : Handler :=
  match route with
  | POST_register => HandleRegister
  | POST_login => HandleLogin
  end.
End Handlers.

(** ** What the statements do *)

Lemma elem_of_users_with email d u :
  u ∈ users_with email d ↔ User_Email u = email ∧ ∃ id, users d !! id = Some u.
Proof.
  unfold users_with. rewrite list_elem_of_filter, list_elem_of_fmap. f_equiv. split.
  - intros ([id u'] & -> & Hin%elem_of_map_to_list). eauto.
  - intros (id & Hid). exists (id, u). by rewrite elem_of_map_to_list.
Qed.

Lemma users_with_nil email d :
  users_with email d = [] ↔ ∀ id u, users d !! id = Some u → User_Email u ≠ email.
Proof.
  split.
  - intros Hnil id u Hu He. assert (Hin : u ∈ users_with email d).
    { apply elem_of_users_with. eauto. }
    rewrite Hnil in Hin. by apply not_elem_of_nil in Hin.
  - intros Hnone. destruct (users_with email d) as [|u us] eqn:Hl; [done|].
    assert (Hin : u ∈ users_with email d) by (rewrite Hl; left).
    apply elem_of_users_with in Hin as (He & id & Hu). by destruct (Hnone id u Hu).
Qed.

(** No two rows have the same email: the [UNIQUE] of the column. *)
Definition unique_emails (d : DB) : Prop :=
  ∀ i j u v, users d !! i = Some u → users d !! j = Some v → User_Email u = User_Email v → i = j.

(** [d'] is [d] with the row of a new user. *)
Definition enrolled (user : User) (id : string) (now : Z) (d d' : DB) : Prop :=
  ∃ email hash role, varchar 255 (User_Email user) = Ok email ∧
    varchar 255 (User_PasswordHash user) = Ok hash ∧ varchar 50 (User_Role user) = Ok role ∧
    users d !! id = None ∧ users_with email d = [] ∧
    d' = set_users (<[id := mkUser id email hash role now now]> (users d)) d.

Lemma enrolled_unique user id now d d' :
  enrolled user id now d d' → unique_emails d → unique_emails d'.
Proof.
  intros (email & hash & role & _ & _ & _ & Hid & Hnil & ->) Huniq i j u v. simpl.
  rewrite users_with_nil in Hnil.
  intros [[<- <-]|[Hi Hu]]%lookup_insert_Some [[<- <-]|[Hj Hv]]%lookup_insert_Some; simpl.
  - done.
  - intros He. by destruct (Hnil _ _ Hv).
  - intros He. by destruct (Hnil _ _ Hu).
  - by apply Huniq.
Qed.

Section Statements.
Context `{Env}.

Lemma sql_insert_user_ok user c d id created updated d' :
  sql_insert_user user c d = Ok (id, created, updated, d') →
  id = c_uuid c ∧ created = c_now c ∧ updated = c_now c ∧ enrolled user id (c_now c) d d'.
Proof.
  unfold sql_insert_user. intros Hq. m_inv. bools. repeat split; try done.
  eexists _, _, _. by repeat split.
Qed.

Lemma sql_insert_user_fine user email hash role c d :
  varchar 255 (User_Email user) = Ok email → varchar 255 (User_PasswordHash user) = Ok hash →
  varchar 50 (User_Role user) = Ok role → users d !! c_uuid c = None → users_with email d = [] →
  sql_insert_user user c d = Ok (c_uuid c, c_now c, c_now c,
    set_users (<[c_uuid c := mkUser (c_uuid c) email hash role (c_now c) (c_now c)]> (users d)) d).
Proof.
  intros He Hh Hr Hid Hnil. unfold sql_insert_user. rewrite He, Hh, Hr. cbn [res_bind].
  by rewrite insert_pk_fresh, Hnil.
Qed.

(** The user [CreateUser] hands back. *)
Definition with_id (user : User) (id : string) (now : Z) : User :=
  mkUser id (User_Email user) (User_PasswordHash user) (User_Role user) now now.

Lemma create_user_cases user w r w' :
  CreateUser user w = (r, w') →
  (∃ e, r = Err e ∧ w_db w' = w_db w) ∨
  ∃ id now, enrolled user id now (w_db w) (w_db w') ∧
    (r = Ok (with_id user id now) ∨ ∃ e, r = Err e).
Proof.
  cbn [CreateUser postgresRepository]. unfold bind, map_err, ret.
  destruct (exec (sql_insert_user user) w) as [r0 w0] eqn:Hex. intros Heq.
  assert (Hw : w' = w0) by (destruct r0 as [[[? ?] ?]|]; cbv beta iota in Heq; by simplify_eq).
  subst w'. apply exec_cases in Hex as [(e & -> & Hd)|(a & d & Hq & Hd & Hr)].
  { left. simplify_eq. eauto. }
  right. destruct a as [[id created] updated].
  apply sql_insert_user_ok in Hq as (-> & -> & -> & Hen). rewrite <- Hd in Hen.
  eexists _, _. split; [exact Hen|].
  destruct Hr as [-> |[e ->]]; cbv beta iota in Heq; simplify_eq; eauto.
Qed.

Lemma get_user_reads email w : w_db (GetUserByEmail email w).2 = w_db w.
Proof.
  cbn [GetUserByEmail postgresRepository]. unfold map_err.
  destruct (exec (sql_select_user email) w) as [r w'] eqn:Hex.
  apply exec_read in Hex; [by destruct r|].
  intros c d a d' Hq. unfold sql_select_user in Hq. case_match; by simplify_eq.
Qed.

Lemma get_user_ok email w u w' :
  GetUserByEmail email w = (Ok u, w') → u ∈ users_with email (w_db w).
Proof.
  cbn [GetUserByEmail postgresRepository]. intros Hg%map_err_ok%exec_ok.
  destruct Hg as (d & Hq & _). unfold sql_select_user in Hq.
  destruct (users_with email (w_db w)); simplify_eq. left.
Qed.

Lemma get_user_fine email w :
  env_outcome (w_tick w) = Fine →
  (GetUserByEmail email w).1 = match users_with email (w_db w) with
                               | u :: _ => Ok u
                               | [] => Err ErrUserNotFound
                               end.
Proof.
  intros Hf. cbn [GetUserByEmail postgresRepository]. unfold map_err. rewrite exec_fine by done.
  unfold sql_select_user. by destruct (users_with email (w_db w)).
Qed.
End Statements.

(** ** Programs of the component *)

Section Programs.
Context `{Env} `{Bcrypt} `{Jwt}.

(** Neither operation on tokens changes anything. *)
Lemma generate_token_eq user secret duration w :
  GenerateToken user secret duration w =
    (SignedString SigningMethodHS256 (token_claims user (env_now (w_tick w)) duration) secret, w).
Proof. done. Qed.

Lemma validate_token_eq token secret w :
  ValidateToken token secret w =
    (match ParseWithClaims (env_now (w_tick w)) token (keyfunc secret) with
     | Ok (tc, valid) => if valid then Ok (Token_Claims tc) else Err err_invalid_token
     | Err e => Err e
     end, w).
Proof.
  unfold ValidateToken, bind, time_Now, lift_res.
  by destruct (ParseWithClaims _ _ _) as [[tc []]|e].
Qed.

(** A property of calls that a call which changes nothing has. *)
Definition passive (Q : ∀ X, M X → Prop) : Prop :=
  ∀ X (m : M X), (∀ w, (m w).2 = w) → Q X m.

Lemma answer_token_calls Q user secret : passive Q → calls Q (answer_token user secret).
Proof. intros HQ. apply calls_try; [|done]. apply calls_call, HQ. done. Qed.

(** What the two statements do, the handlers do. *)
Lemma auth_calls `{JsonText} Q secret route r :
  passive Q → (∀ user, Q _ (CreateUser user)) → (∀ email, Q _ (GetUserByEmail email)) →
  calls Q (auth_RegisterRoutes (S := serviceImpl secret) route r).
Proof.
  intros HQ Hcreate Hget. destruct route; cbn [auth_RegisterRoutes];
    unfold HandleRegister, HandleLogin.
  - destruct (decode_body _ r) as [req|]; [|done]. destruct (_ || _); [done|].
    apply calls_bind; [|intros [resp|e]; simpl; by repeat case_match].
    cbn [Register serviceImpl]. apply calls_try; [by apply calls_call, HQ|].
    intros hash. apply calls_try; [apply calls_call, Hcreate|]. intros user.
    by apply answer_token_calls.
  - destruct (decode_body _ r) as [req|]; [|done]. destruct (_ || _); [done|].
    apply calls_bind; [|intros [resp|e]; simpl; by repeat case_match].
    cbn [Login serviceImpl]. apply calls_bind; [apply calls_call, Hget|].
    intros [user|e]; [|done]. destruct (negb _); [done|]. by apply answer_token_calls.
Qed.

Lemma create_user_keeps_unique user :
  keeps (λ w, unique_emails (w_db w)) _ (CreateUser user).
Proof.
  intros w Hw. destruct (CreateUser user w) as [r w'] eqn:Hc. simpl.
  apply create_user_cases in Hc as [(e & _ & ->)|(id & now & Hen & _)]; [done|].
  by eapply enrolled_unique.
Qed.

(** The token of a user, as long as the library signs. *)
Lemma answer_token_run user secret token w :
  SignedString SigningMethodHS256 (token_claims user (env_now (w_tick w)) day) secret = Ok token →
  run (answer_token user secret) w = (Ok (mkAuthResponse token user), w).
Proof.
  intros Hs. unfold answer_token. rewrite run_try, run_call.
  unfold GenerateToken, bind, time_Now, lift_res. by rewrite Hs.
Qed.

(** The user a request asks for. *)
Definition requested_user (req : RegisterRequest) (hash : string) : User :=
  mkUser "" (Register_Email req) hash
    (if bool_decide (Register_Role req = "") then RoleUser else Register_Role req) 0 0.

(** What [Register] stores and answers when nothing fails. *)
Lemma register_run req secret hash token w :
  let user := requested_user req hash in
  let stored := with_id user (env_uuid (w_tick w)) (env_now (w_tick w)) in
  env_outcome (w_tick w) = Fine → users (w_db w) !! env_uuid (w_tick w) = None →
  varchar 255 (User_Email user) = Ok (User_Email user) → varchar 255 hash = Ok hash →
  varchar 50 (User_Role user) = Ok (User_Role user) → users_with (User_Email user) (w_db w) = [] →
  GenerateFromPassword (w_tick w) (Register_Password req) = Ok hash →
  SignedString SigningMethodHS256 (token_claims stored (env_now (S (w_tick w))) day) secret
    = Ok token →
  run (Register (AuthService := serviceImpl secret) req) w =
    (Ok (mkAuthResponse token stored),
     set_db (set_users (<[User_ID stored := stored]> (users (w_db w))) (w_db w)) (bump (start w))).
Proof.
  intros user stored Hf Hid He Hh Hr Hnil Hhash Hs. cbn [Register serviceImpl].
  rewrite run_try, run_call. unfold bcrypt_hash at 1. rewrite Hhash, run_try, run_call.
  fold (requested_user req hash). fold user.
  cbn [CreateUser postgresRepository]. unfold bind at 1, map_err at 1. rewrite exec_fine by done.
  rewrite (sql_insert_user_fine user (User_Email user) hash (User_Role user)) by done.
  exact (answer_token_run stored secret token (set_db _ (bump (start w))) Hs).
Qed.
End Programs.

(** A token is accepted under the secret it was made with. *)
Lemma generate_then_validate `{Env} `{JwtLaws} user secret duration token w w' v :
  GenerateToken user secret duration w = (Ok token, w') →
  is_ascii (User_ID user) = true → is_ascii (User_Role user) = true →
  env_now (w_tick w) <= env_now (w_tick v) < env_now (w_tick w) + duration / 1000 - 1000000 →
  ValidateToken token secret v = (Ok (mkClaims (User_ID user) (User_Role user)), v).
Proof.
  rewrite generate_token_eq, validate_token_eq. intros [= Hg <-] Hid Hrole Hnow.
  rewrite (parse_signed _ SigningMethodHS256 (token_claims user (env_now (w_tick w)) duration)
             secret); try done.
  - split; [done|]. split; [done|]. split; [done|]. split; [done|]. simpl. intros date Hd.
    repeat (apply elem_of_cons in Hd as [->|Hd]; [by eexists|]). by apply elem_of_nil in Hd.
  - pose proof (numeric_date (env_now (w_tick w))) as Hn1.
    pose proof (numeric_date (env_now (w_tick w) + duration / 1000)) as Hn2.
    unfold in_validity. simpl. lia.
Qed.

(** ** Properties *)

(** C35. A token the service issued is accepted, with the user's id and role, by a server
    with the same secret, at any time from the moment of issue until a second before its
    duration is over; the id and the role are of ASCII characters. *)
Theorem issued_token_is_accepted `{Env} `{JwtLaws} user secret duration token w w' v :
  GenerateToken user secret duration w = (Ok token, w') →
  is_ascii (User_ID user) = true → is_ascii (User_Role user) = true →
  env_now (w_tick w) <= env_now (w_tick v) < env_now (w_tick w) + duration / 1000 - 1000000 →
  ValidateToken token secret v = (Ok (mkClaims (User_ID user) (User_Role user)), v).
Proof. apply generate_then_validate. Qed.

(** [ValidateToken] accepts no token signed by a method outside the HMAC family (the
    "none" algorithm and public-key algorithms included) and none that is expired or not
    valid yet. *)
Theorem validate_token_sound `{Env} `{JwtLaws} token secret claims w w' :
  ValidateToken token secret w = (Ok claims, w') →
  w' = w ∧ (∃ alg, Token_Method token = Some (SigningMethodHMAC alg)) ∧
  ∃ tc, Token_Claims tc = claims ∧ in_validity (env_now (w_tick w)) tc.
Proof.
  rewrite validate_token_eq. intros [= Hv <-]. split; [done|].
  destruct (ParseWithClaims _ _ _) as [[tc valid]|e] eqn:Hp; [|done].
  destruct valid; simplify_eq.
  split; [|exists tc; split; [done|by eapply parse_valid]].
  destruct (parse_key _ _ _ _ Hp) as ([alg|alg] & key & Hm & Hk); [by exists alg|done].
Qed.

(** However registrations and logins interleave and whatever fails on the way, no two
    users share an email. *)
Theorem emails_stay_unique `{Env} `{Bcrypt} `{Jwt} `{JsonText} secret reqs w ps' w' :
  unique_emails (w_db w) →
  interleaving ((λ rr : auth_route * Request,
      auth_RegisterRoutes (S := serviceImpl secret) rr.1 rr.2) <$> reqs, w) (ps', w') →
  unique_emails (w_db w').
Proof.
  intros Hw Hrun. refine (proj1 (interleaving_keeps (λ w, unique_emails (w_db w)) _ _ _ _ _ Hw Hrun)).
  apply Forall_fmap, Forall_true. intros [route r]. simpl.
  apply auth_calls; [|apply create_user_keeps_unique|].
  - intros X m Hm w0 Hu. by rewrite Hm.
  - intros email w0 Hu. by rewrite get_user_reads.
Qed.

(** A token signed for a user with HS256: it carries the user's id and role, names the
    user as its subject, and expires a day after it was issued. *)
Definition signed_for `{Jwt} (secret : string) (user : User) (issued : Z) (token : string) : Prop :=
  ∃ tc, SignedString (SigningMethodHMAC "HS256") tc secret = Ok token ∧
    Token_Claims tc = mkClaims (User_ID user) (User_Role user) ∧
    Subject (Token_Registered tc) = User_ID user ∧
    ExpiresAt (Token_Registered tc) = Some (NewNumericDate (issued + 24 * 3600 * 1000000)).

(** C34. When no exchange fails, bcrypt and the signature succeed, and the email (new, not
    empty, stored as it is) and the role (50 bytes at most) fit their columns, a
    registration with a password answers 201 and stores one user under a fresh id, with the
    email of the request and whatever role the request named ([USER] when it named none); a
    login with the same email and password then answers 200 with that user, and changes
    nothing.  Both answers come with a token signed for that user: it carries the user's id
    and role and expires a day later. *)
Theorem register_then_login `{Env} `{BcryptLaws} `{Jwt} `{JsonText} secret r login req w :
  no_faults (w_tick w) → users (w_db w) !! env_uuid (w_tick w) = None →
  decode_body decode_RegisterRequest r = Some req →
  decode_body decode_LoginRequest login =
    Some (mkLoginRequest (Register_Email req) (Register_Password req)) →
  Register_Email req ≠ "" → Register_Password req ≠ "" →
  varchar 255 (Register_Email req) = Ok (Register_Email req) →
  (String.length (Register_Role req) ≤ 50)%nat →
  users_with (Register_Email req) (w_db w) = [] →
  (∀ n, is_ok (GenerateFromPassword n (Register_Password req))) →
  let role := if decide (Register_Role req = "") then RoleUser else Register_Role req in
  (∀ user n, (n ≤ 2 + w_tick w)%nat → User_Role user = role →
     is_ok (SignedString SigningMethodHS256 (token_claims user (env_now n) day) secret)) →
  ∃ user token1 token2 w1 w2,
    run (HandleRegister (S := serviceImpl secret) r) w =
      (mkResponse StatusCreated (JsonBody (AuthResponse_json (mkAuthResponse token1 user))), w1) ∧
    run (HandleLogin (S := serviceImpl secret) login) w1 =
      (mkResponse StatusOK (JsonBody (AuthResponse_json (mkAuthResponse token2 user))), w2) ∧
    User_ID user = env_uuid (w_tick w) ∧ User_Email user = Register_Email req ∧
    User_Role user = role ∧
    signed_for secret user (env_now (w_tick w1)) token1 ∧
    signed_for secret user (env_now (w_tick w2)) token2 ∧
    w_db w1 = set_users (<[User_ID user := user]> (users (w_db w))) (w_db w) ∧ w_db w2 = w_db w1.
Proof.
  intros Hf Hid Hr Hl Hne Hnp He Hrole Hnil Hgen role Hsign.
  destruct (is_ok_inv _ (Hgen (w_tick w))) as [hash Hhash].
  set (user := requested_user req hash).
  set (stored := with_id user (env_uuid (w_tick w)) (env_now (w_tick w))).
  assert (Hstored : User_Role stored = role).
  { unfold role. simpl. case_bool_decide; by case_decide. }
  destruct (is_ok_inv _ (Hsign stored (S (w_tick w)) ltac:(lia) Hstored)) as [t1 Ht1].
  destruct (is_ok_inv _ (Hsign stored (S (S (w_tick w))) ltac:(lia) Hstored)) as [t2 Ht2].
  set (w1 := set_db (set_users (<[User_ID stored := stored]> (users (w_db w))) (w_db w))
               (bump (start w))).
  assert (Hnew : users_with (Register_Email req) (w_db w1) = [stored]).
  { apply Permutation_singleton_r. unfold users_with. simpl.
    rewrite map_to_list_insert by done. rewrite fmap_cons, filter_cons. simpl.
    rewrite decide_True by done. unfold users_with in Hnil. by rewrite Hnil. }
  exists stored, t1, t2, w1, (bump (start w1)).
  split; [|split; [|split_and!; try done; by eexists; split_and!]].
  - unfold HandleRegister. rewrite Hr, !bool_decide_eq_false_2 by done.
    cbn [orb]. rewrite run_bind, (register_run req secret hash t1 w); try done.
    + by apply Hf.
    + apply varchar_short. erewrite bcrypt_length by done. lia.
    + apply varchar_short. simpl. case_bool_decide; [simpl; lia|done].
  - unfold HandleLogin. rewrite Hl. cbn [Login_Email Login_Password].
    rewrite !bool_decide_eq_false_2 by done.
    cbn [orb Login serviceImpl]. rewrite run_bind, run_bind, run_call.
    cbn [GetUserByEmail postgresRepository Login_Email]. unfold map_err.
    rewrite exec_fine by (apply Hf; simpl; lia). unfold sql_select_user.
    change (w_db w1) with (w_db w1) in Hnew. rewrite Hnew. simpl.
    rewrite (bcrypt_match (w_tick w) (Register_Password req) hash Hhash). cbn [negb].
    by rewrite (answer_token_run stored secret t2).
Qed.

(** Registering an email that is taken answers 409 and changes nothing, when nothing
    fails on the way. *)
Theorem taken_email_conflicts `{Env} `{BcryptLaws} `{Jwt} `{JsonText} secret r req w :
  no_faults (w_tick w) → users (w_db w) !! env_uuid (w_tick w) = None →
  decode_body decode_RegisterRequest r = Some req →
  Register_Email req ≠ "" → Register_Password req ≠ "" →
  varchar 255 (Register_Email req) = Ok (Register_Email req) →
  (String.length (Register_Role req) ≤ 50)%nat →
  users_with (Register_Email req) (w_db w) ≠ [] →
  (∀ n, is_ok (GenerateFromPassword n (Register_Password req))) →
  let '(resp, w') := run (HandleRegister (S := serviceImpl secret) r) w in
  resp = http_Error "user already exists" StatusConflict ∧ w_db w' = w_db w.
Proof.
  intros Hf Hid Hr Hne Hnp He Hrole Htaken Hgen.
  destruct (is_ok_inv _ (Hgen (w_tick w))) as [hash Hhash].
  unfold HandleRegister. rewrite Hr, !bool_decide_eq_false_2 by done. cbn [orb Register serviceImpl].
  rewrite run_bind, run_try, run_call. unfold bcrypt_hash at 1. rewrite Hhash, run_try, run_call.
  cbn [CreateUser postgresRepository]. unfold bind at 1, map_err at 1.
  rewrite exec_fine by (by apply Hf). unfold sql_insert_user. cbn [User_Email User_PasswordHash User_Role].
  rewrite He, varchar_short by (erewrite bcrypt_length by done; lia). cbn [res_bind].
  rewrite varchar_short by (case_bool_decide; [simpl; lia|done]). cbn [res_bind].
  rewrite insert_pk_fresh by done. cbn [res_bind]. rewrite bool_decide_eq_false_2 by done. done.
Qed.

(** C37. Logging in never changes the database, and it succeeds, whatever fails on the way,
    only for the email of a user and a password that matches this user's hash; when
    nothing fails, an unknown email and a wrong password, neither of them empty, get the same
    answer, 401. *)
Theorem login_needs_password `{Env} `{Bcrypt} `{Jwt} `{JsonText} secret r req w :
  decode_body decode_LoginRequest r = Some req →
  let matches u := CompareHashAndPassword (User_PasswordHash u) (Login_Password req) in
  let '(resp, w') := run (HandleLogin (S := serviceImpl secret) r) w in
  w_db w' = w_db w ∧
  (resp_status resp = StatusOK →
   ∃ u token, u ∈ users_with (Login_Email req) (w_db w) ∧ matches u = true ∧
     resp = mkResponse StatusOK (JsonBody (AuthResponse_json (mkAuthResponse token u)))) ∧
  (Login_Email req ≠ "" → Login_Password req ≠ "" → env_outcome (w_tick w) = Fine →
   Forall (λ u, matches u = false) (users_with (Login_Email req) (w_db w)) →
   resp = http_Error "invalid credentials" StatusUnauthorized).
Proof.
  intros Hr matches. unfold HandleLogin. rewrite Hr.
  destruct (_ || _) eqn:Hempty; [simpl; split; [done|split; [done|]]|].
  { intros He Hp. by rewrite !bool_decide_eq_false_2 in Hempty. }
  cbn [Login serviceImpl]. rewrite run_bind, run_bind, run_call.
  pose proof (get_user_reads (Login_Email req) w) as Hdb.
  pose proof (get_user_fine (Login_Email req) w) as Hfine.
  destruct (GetUserByEmail (Login_Email req) w) as [[u|e] w'] eqn:Hg; simpl in Hdb, Hfine.
  - apply get_user_ok in Hg. fold (matches u). destruct (matches u) eqn:Hm; cbn [negb].
    + unfold answer_token. rewrite run_try, run_call, generate_token_eq.
      assert (Hno : Forall (λ u, matches u = false) (users_with (Login_Email req) (w_db w)) → False).
      { intros Hall. rewrite Forall_forall in Hall. rewrite Hall in Hm by done. done. }
      destruct (SignedString _ _ _) as [token|e]; cbn [run].
      * split; [done|]. split; [intros _; by exists u, token|tauto].
      * destruct (errors_Is e ErrInvalidCredentials); cbn [run]; (split; [done|]);
          (split; [discriminate|tauto]).
    + split; [done|]. by split.
  - cbn [run]. destruct (errors_Is e ErrUserNotFound) eqn:He; cbn [run].
    + split; [done|]. by split.
    + destruct (errors_Is e ErrInvalidCredentials); cbn [run]; (split; [done|]);
        (split; [discriminate|]); intros _ _ Hf _; specialize (Hfine Hf);
        destruct (users_with (Login_Email req) (w_db w)); simplify_eq.
Qed.

(** ** Concrete inputs *)

(** A hash that is the password, padded or cut to sixty bytes. *)
Fixpoint pad (n : nat) (s : string) : string :=
  match n, s with
  | O, _ => EmptyString
  | S n, EmptyString => String " " (pad n EmptyString)
  | S n, String c s => String c (pad n s)
  end.

#[export] Instance sample_bcrypt : Bcrypt := {|
  GenerateFromPassword _ password := Ok (pad 60 password);
  CompareHashAndPassword hash password := bool_decide (hash = pad 60 password);
|}.

Lemma pad_length n s : String.length (pad n s) = n.
Proof. revert s. induction n as [|n IH]; intros [|c s]; simpl; auto. Qed.

#[export] Instance sample_bcrypt_laws : BcryptLaws.
Proof.
  split.
  - intros n password hash Hg. change (Ok (pad 60 password) = Ok hash) in Hg.
    assert (hash = pad 60 password) as -> by congruence.
    by apply bool_decide_eq_true_2.
  - intros n password hash Hg. change (Ok (pad 60 password) = Ok hash) in Hg.
    assert (hash = pad 60 password) as -> by congruence.
    apply pad_length.
Qed.

(** A token that is the key, a letter for the role and the user's id; it is signed in the
    first second of the clock, for a day. *)
Definition role_letter (role : Role) : option ascii :=
  if bool_decide (role = RoleUser) then Some "U"%char
  else if bool_decide (role = RoleAdmin) then Some "A"%char else None.

Definition letter_role (c : ascii) : option Role :=
  if bool_decide (c = "U"%char) then Some RoleUser
  else if bool_decide (c = "A"%char) then Some RoleAdmin else None.

Definition sample_claims (id : string) (role : Role) : TokenClaims :=
  mkTokenClaims (mkClaims id role)
    (mkRegistered "wallet-ledger" id (Some 86400000000) (Some 0) (Some 0)).

Fixpoint strip (p s : string) : option string :=
  match p, s with
  | EmptyString, _ => Some s
  | String c p, String c' s => if decide (c = c') then strip p s else None
  | _, _ => None
  end.

Definition err_sample : error := errors_New "" "token".

#[export] Instance signing_method_eq_dec : EqDecision SigningMethod.
Proof. solve_decision. Defined.
#[export] Instance jwt_claims_eq_dec : EqDecision JWTClaims.
Proof. solve_decision. Defined.
#[export] Instance registered_claims_eq_dec : EqDecision RegisteredClaims.
Proof. solve_decision. Defined.
#[export] Instance token_claims_eq_dec : EqDecision TokenClaims.
Proof. solve_decision. Defined.

Definition sample_sign (m : SigningMethod) (tc : TokenClaims) (key : string) : Res string :=
  let id := Claims_UserID (Token_Claims tc) in
  let role := Claims_Role (Token_Claims tc) in
  match role_letter role with
  | Some c => if decide (m = SigningMethodHS256 ∧ tc = sample_claims id role)
              then Ok (key +:+ String c id) else Err err_sample
  | None => Err err_sample
  end.

Definition sample_parse (now : Z) (token : string) (kf : SigningMethod → Res string)
  : Res (TokenClaims * bool) :=
  let? key := kf SigningMethodHS256 in
  match strip key token with
  | Some (String c id) =>
    match letter_role c with
    | Some role => if decide (0 <= now < 86400000000) then Ok (sample_claims id role, true)
                   else Err err_sample
    | None => Err err_sample
    end
  | _ => Err err_sample
  end.

#[export] Instance sample_jwt : Jwt := {|
  NewNumericDate t := t / 1000000 * 1000000;
  SignedString := sample_sign;
  Token_Method _ := Some SigningMethodHS256;
  ParseWithClaims := sample_parse;
|}.

Lemma strip_app p s : strip p (p +:+ s) = Some s.
Proof. induction p as [|c p IH]; [by destruct s|]. simpl. by rewrite decide_True. Qed.

Lemma letter_of_role role c : role_letter role = Some c → letter_role c = Some role.
Proof.
  unfold role_letter. case_bool_decide; [by intros [= <-]; subst|].
  case_bool_decide; [by intros [= <-]; subst|done].
Qed.

Lemma sample_parse_ok now token kf tc valid :
  sample_parse now token kf = Ok (tc, valid) →
  ∃ key id role, kf SigningMethodHS256 = Ok key ∧ tc = sample_claims id role ∧
    0 <= now < 86400000000.
Proof.
  unfold sample_parse. intros Hp. m_inv. destruct (strip _ _) as [[|c id]|]; [done| |done].
  destruct (letter_role c) as [role|]; [|done]. case_decide; [|done]. simplify_eq. eauto 10.
Qed.

#[export] Instance sample_jwt_laws : JwtLaws.
Proof.
  split; simpl.
  - intros t. pose proof (Z.div_mod t 1000000). pose proof (Z.mod_pos_bound t 1000000). lia.
  - intros now m tc key token kf. unfold sample_sign.
    destruct (role_letter _) as [c|] eqn:Hc; [|done]. case_decide as Hd; [|done].
    destruct Hd as [-> ->]. intros [= <-] Hkf _ Hval. unfold sample_parse. rewrite Hkf.
    cbn [res_bind]. rewrite strip_app, (letter_of_role _ _ Hc). rewrite decide_True; [done|].
    unfold in_validity in Hval. simpl in Hval. lia.
  - intros now token kf tc valid (key & id & role & _ & -> & Hn)%sample_parse_ok.
    unfold in_validity. simpl. lia.
  - intros now token kf [tc valid] (key & id & role & Hk & _)%sample_parse_ok. eauto.
Qed.

(** A text parser for which every body is the registration of [a@b.c] as an
    administrator, which is the body of a login too. *)
Definition auth_text : JsonText := {|
  json_first _ := Some (JObj [("email", JStr "a@b.c"); ("password", JStr "pw");
                              ("role", JStr "ADMIN")]);
  json_whole _ := None;
|}.

Definition post : Request := mkRequest "POST" "/api/v1/auth/register" (λ _, "") "10.0.0.1:80" "" "" true None.

Lemma issued_token_is_accepted_witness :
  GenerateToken (mkUser "b1" "" "" RoleUser 0 0) "secret" day init_world =
    (Ok "secretUb1", init_world) ∧
  ValidateToken "secretUb1" "secret" (bump init_world) =
    (Ok (mkClaims "b1" RoleUser), bump init_world).
Proof.
  split; [vm_compute; reflexivity|].
  apply (issued_token_is_accepted (mkUser "b1" "" "" RoleUser 0 0) "secret" day "secretUb1"
           init_world init_world); [vm_compute; reflexivity|done|done|].
  split; [discriminate|reflexivity].
Defined.

Lemma validate_token_sound_witness :
  ∃ tc, Token_Claims tc = mkClaims "b1" RoleUser ∧ in_validity 0 tc.
Proof.
  destruct (validate_token_sound "secretUb1" "secret" (mkClaims "b1" RoleUser) init_world
    init_world) as (_ & _ & Htc); [vm_compute; reflexivity|exact Htc].
Defined.

Lemma emails_stay_unique_witness :
  unique_emails (w_db (schedule [0; 1; 0; 1; 1; 0]%nat
    ((λ rr : auth_route * Request,
        auth_RegisterRoutes (S := serviceImpl "secret") (H := auth_text) rr.1 rr.2) <$>
       [(POST_register, post); (POST_register, post)], init_world)).2).
Proof.
  refine (emails_stay_unique (H2 := auth_text) "secret" _ init_world _ _ _ _).
  - intros i j u v Hu. by destruct (lookup_empty_Some (M := gmap string) i u Hu).
  - rewrite <- surjective_pairing. apply schedule_interleaving.
Defined.

Lemma sample_signs user secret n :
  (n ≤ 2)%nat → User_Role user = RoleAdmin →
  is_ok (SignedString SigningMethodHS256 (token_claims user (env_now n) day) secret).
Proof.
  intros Hn Hrole. assert (Hc : token_claims user (env_now n) day =
    sample_claims (User_ID user) RoleAdmin).
  { unfold token_claims. rewrite Hrole. by do 3 (destruct n as [|n]; [done|]); lia. }
  rewrite Hc. cbn [SignedString sample_jwt]. unfold sample_sign.
  change (role_letter _) with (Some "A"%char). cbv iota beta. by rewrite decide_True.
Qed.

Lemma register_then_login_witness :
  ∃ user token1 token2 w1 w2,
    run (HandleRegister (S := serviceImpl "secret") (H := auth_text) post) init_world =
      (mkResponse StatusCreated (JsonBody (AuthResponse_json (mkAuthResponse token1 user))), w1) ∧
    run (HandleLogin (S := serviceImpl "secret") (H := auth_text) post) w1 =
      (mkResponse StatusOK (JsonBody (AuthResponse_json (mkAuthResponse token2 user))), w2) ∧
    User_Role user = RoleAdmin ∧ signed_for "secret" user (env_now (w_tick w2)) token2.
Proof.
  destruct (register_then_login (H3 := auth_text) "secret" post post
    (mkRegisterRequest "a@b.c" "pw" "ADMIN") init_world)
    as (user & t1 & t2 & w1 & w2 & H1 & H2 & _ & _ & H3 & _ & H4 & _);
    try reflexivity; try done; [simpl; lia| |by exists user, t1, t2, w1, w2].
  intros user n Hn Hrole. by apply sample_signs.
Defined.

Lemma taken_email_conflicts_witness :
  let w := sample_world (set_users {["b1" := mkUser "b1" "a@b.c" "" RoleUser 0 0]} empty_db) in
  let '(resp, w') := run (HandleRegister (S := serviceImpl "secret") (H := auth_text) post) w in
  resp = http_Error "user already exists" StatusConflict ∧ w_db w' = w_db w.
Proof.
  apply (taken_email_conflicts (H3 := auth_text) "secret" post
    (mkRegisterRequest "a@b.c" "pw" "ADMIN")); try reflexivity; try done; simpl; lia.
Defined.

Lemma login_needs_password_witness :
  let '(resp, w') := run (HandleLogin (S := serviceImpl "secret") (H := auth_text) post)
                       init_world in
  w_db w' = empty_db ∧ resp = http_Error "invalid credentials" StatusUnauthorized.
Proof.
  pose proof (login_needs_password (H2 := auth_text) "secret" post (mkLoginRequest "a@b.c" "pw")
    init_world eq_refl) as Hp.
  destruct (run _ _) as [resp w']. destruct Hp as (Hdb & _ & Hresp). split; [exact Hdb|].
  apply Hresp; try reflexivity; try discriminate. apply Forall_nil_2.
Defined.
