(* ===== verification/Middleware.v ===== *)
(** * Authentication, roles and rate limiting (internal/middleware)

    The middlewares that guard the routes are functions on handlers, as in the
    code. *)

From S2P Require Import Prelude Go Models Postgres Runtime Sample Redis Http Auth.
From Stdlib Require Import Ascii.
#[local] Open Scope prog_scope.
#[local] Open Scope Z_scope.

(** ** internal/middleware/auth.go *)

Definition with_claims (claims : auth.JWTClaims) (r : Request) : Request :=
  mkRequest (Method r) (URL_Path r) (Header r) (RemoteAddr r) (URLParam_id r) (Body r)
    (Body_complete r) (Some claims).

(** [strings.Split(s, " ")] *)
Fixpoint split_spaces (s : string) : list string :=
  match s with
  | EmptyString => [EmptyString]
  | String " "%char s' => EmptyString :: split_spaces s'
  | String c s' =>
    match split_spaces s' with
    | part :: parts => String c part :: parts
    | [] => [String c EmptyString]
    end
  end.

Definition AuthMiddleware `{Env} `{Jwt} (secret : string) (next : Handler) : Handler := λ r,
  let authHeader := Header r "Authorization" in
  if bool_decide (authHeader = "") then
    Ret (http_Error "missing authorization header" StatusUnauthorized)
  else
    match split_spaces authHeader with
    | [scheme; token] =>
      if bool_decide (scheme ≠ "Bearer") then
        Ret (http_Error "invalid authorization header format" StatusUnauthorized)
      else
        let+ claims := call (ValidateToken token secret) in
        match claims with
        | Err _ => Ret (http_Error "invalid token" StatusUnauthorized)
        | Ok claims => next (with_claims claims r)
        end
    | _ => Ret (http_Error "invalid authorization header format" StatusUnauthorized)
    end.

Definition RequireRole (roles : list auth.Role) (next : Handler) : Handler := λ r,
  match ctx_claims r with
  | None => Ret (http_Error "unauthorized" StatusUnauthorized)
  | Some claims =>
    let hasRole := existsb (λ role, bool_decide (auth.Claims_Role claims = role)) roles in
    if negb hasRole then
      Ret (http_Error "forbidden: insufficient permissions" StatusForbidden)
    else next r
  end.

Definition GetClaims (r : Request) : option auth.JWTClaims := ctx_claims r.

(** ** internal/middleware/rate_limiter.go *)

Section RateLimit.
Context `{Env}.

Definition client_ip (r : Request) : string :=
  let ip := Header r "X-Real-IP" in
  let ip := if bool_decide (ip = "") then Header r "X-Forwarded-For" else ip in
  if bool_decide (ip = "") then RemoteAddr r else ip.

Definition minute : Z := 60 * 1000000000.

(** [answer] is what becomes of a response that does not come from [next]. *)
Definition RateLimiter {A} (requestsPerMinute : Z) (answer : Response → A)
    (next : Request → prog A) : Request → prog A := λ r,
  let+ err := call (Allow ("ratelimit:ip:" +:+ client_ip r) requestsPerMinute minute) in
  match err with
  | Err e => if bool_decide (e = ErrRateLimitExceeded)
             then Ret (answer (http_Error "Too Many Requests" StatusTooManyRequests))
             else next r
  | Ok _ => next r
  end.
End RateLimit.

(** ** Who passes the guards *)

Fixpoint has_space (s : string) : Prop :=
  match s with
  | EmptyString => False
  | String c s' => c = " "%char ∨ has_space s'
  end.

(** The header carries a token the server accepts at this moment. *)
Definition authenticated `{Env} `{Jwt} (secret : string) (r : Request) (w : World)
    (claims : auth.JWTClaims) : Prop :=
  ∃ token, ¬ has_space token ∧ Header r "Authorization" = "Bearer" +:+ " " +:+ token ∧
    (ValidateToken token secret w).1 = Ok claims.

Lemma split_spaces_cons c s :
  split_spaces (String c s) =
  if decide (c = " "%char) then EmptyString :: split_spaces s
  else match split_spaces s with
       | part :: parts => String c part :: parts
       | [] => [String c EmptyString]
       end.
Proof. by destruct c as [[] [] [] [] [] [] [] []]. Qed.

Lemma split_spaces_nonempty s : split_spaces s ≠ [].
Proof.
  destruct s as [|c s]; [done|]. rewrite split_spaces_cons. case_decide; [done|].
  by destruct (split_spaces s).
Qed.

Lemma split_spaces_none s : ¬ has_space s → split_spaces s = [s].
Proof.
  induction s as [|c s IH]; [done|]. intros Hs. simpl in Hs.
  rewrite split_spaces_cons, decide_False, IH; tauto.
Qed.

Lemma split_spaces_app a b :
  ¬ has_space a → split_spaces (a +:+ String " " b) = a :: split_spaces b.
Proof.
  induction a as [|c a IH]; [done|]. intros Ha. simpl in Ha.
  change (String c a +:+ String " " b) with (String c (a +:+ String " " b)).
  rewrite split_spaces_cons, decide_False by tauto. by rewrite IH by tauto.
Qed.

Lemma split_two_intro a b :
  ¬ has_space a → ¬ has_space b → split_spaces (a +:+ " " +:+ b) = [a; b].
Proof. intros Ha Hb. change (" " +:+ b) with (String " " b). by rewrite split_spaces_app, split_spaces_none. Qed.

Lemma split_spaces_elim s a parts :
  split_spaces s = a :: parts →
  ¬ has_space a ∧ ((parts = [] ∧ s = a) ∨ ∃ s', s = a +:+ " " +:+ s' ∧ split_spaces s' = parts).
Proof.
  revert a parts. induction s as [|c s IH]; intros a parts.
  - intros [= <- <-]. split; [simpl; tauto|auto].
  - rewrite split_spaces_cons. case_decide as Hc.
    + intros [= <- <-]. split; [simpl; tauto|]. right. exists s. by rewrite Hc.
    + destruct (split_spaces s) as [|p ps] eqn:Hs; [by destruct (split_spaces_nonempty s)|].
      intros [= <- <-]. destruct (IH _ _ eq_refl) as (Hp & Hcase).
      split; [simpl; tauto|]. destruct Hcase as [[-> ->]|(s' & -> & Hs')]; [by auto|].
      right. by exists s'.
Qed.

Lemma split_two_elim s a b :
  split_spaces s = [a; b] → s = a +:+ " " +:+ b ∧ ¬ has_space a ∧ ¬ has_space b.
Proof.
  intros (Ha & [[? _]|(s' & -> & Hs')])%split_spaces_elim; [done|].
  apply split_spaces_elim in Hs' as (Hb & [[_ ->]|(s'' & _ & Hs'')]); [done|].
  by destruct (split_spaces_nonempty s'').
Qed.

Lemma has_role_true (role : auth.Role) (roles : list auth.Role) :
  role ∈ roles → existsb (λ x, bool_decide (role = x)) roles = true.
Proof.
  intros Hr. apply existsb_exists. exists role. rewrite bool_decide_eq_true_2 by done.
  split; [by apply list_elem_of_In|done].
Qed.

Lemma has_role_false (role : auth.Role) (roles : list auth.Role) :
  role ∉ roles → existsb (λ x, bool_decide (role = x)) roles = false.
Proof.
  intros Hr. apply not_true_iff_false. rewrite existsb_exists.
  intros (x & Hx%list_elem_of_In & He). bools. congruence.
Qed.

Section Guards.
Context `{Env} `{Jwt}.

Lemma auth_passes secret next r w claims :
  authenticated secret r w claims →
  run (AuthMiddleware secret next r) w = run (next (with_claims claims r)) w.
Proof.
  intros (token & Hns & Hh & Hv). unfold AuthMiddleware.
  rewrite Hh, bool_decide_eq_false_2, split_two_intro by (done || (simpl; intuition discriminate)).
  simpl. rewrite validate_token_eq in Hv |- *. simpl in Hv |- *. by rewrite Hv.
Qed.

Lemma auth_refuses secret next r w :
  (∀ claims, ¬ authenticated secret r w claims) →
  ∃ msg, run (AuthMiddleware secret next r) w = (http_Error msg StatusUnauthorized, w).
Proof.
  intros Hno. unfold AuthMiddleware. case_bool_decide; [simpl; eauto|].
  destruct (split_spaces _) as [|scheme [|token [|]]] eqn:Hsp; [simpl; eauto..| |simpl; eauto].
  apply split_two_elim in Hsp as (Hh & _ & Hns).
  case_bool_decide as Hb; [simpl; eauto|]. subst scheme.
  rewrite run_bind, run_call.
  destruct (ValidateToken token secret w) as [[claims|e] w'] eqn:Hv;
    pose proof Hv as Hw; rewrite validate_token_eq in Hw; injection Hw as _ <-; [|simpl; eauto].
  destruct (Hno claims). exists token. by rewrite Hv.
Qed.

(** What holds of the calls of the guarded handler, whatever the claims, holds of the
    calls of the guard. *)
Lemma auth_calls_next Q secret next r :
  passive Q → (∀ claims, calls Q (next (with_claims claims r))) →
  calls Q (AuthMiddleware secret next r).
Proof.
  intros HQ Hn. unfold AuthMiddleware. case_bool_decide; [done|].
  destruct (split_spaces _) as [|scheme [|token [|]]]; [done..| |done].
  case_bool_decide; [done|]. apply calls_bind; [|by intros [claims|e]].
  apply calls_call, HQ. intros w. by rewrite validate_token_eq.
Qed.

Lemma role_calls_next Q roles next r :
  calls Q (next r) → calls Q (RequireRole roles next r).
Proof.
  intros Hn. unfold RequireRole. destruct (ctx_claims r); [|done]. by destruct (negb _).
Qed.
End Guards.

(** ** Properties *)

(** The limit is evaded by whoever likes: the key is taken from headers that the client
    writes, so that requests from one address which claim a new address each time are all
    admitted, however many they are. *)
Theorem claimed_addresses_evade_the_limit `{Env} limit secs rs w :
  1 <= limit <= lua_exact → 1 <= secs → no_faults (w_tick w) →
  NoDup ((λ r, Header r "X-Real-IP") <$> rs) → Forall (λ r, Header r "X-Real-IP" ≠ "") rs →
  (∀ ip, w_redis w !! ("ratelimit:ip:" +:+ ip) = None) →
  Forall (λ res, res = Ok tt)
    (serve limit (secs * 1000000000) ((λ r, "ratelimit:ip:" +:+ client_ip r) <$> rs) w).1.
Proof.
  intros Hl Hs Hf Hnd Hne Hnew.
  assert (Hip : (λ r, "ratelimit:ip:" +:+ client_ip r) <$> rs =
                (λ ip, "ratelimit:ip:" +:+ ip) <$> ((λ r, Header r "X-Real-IP") <$> rs)).
  { rewrite <- list_fmap_compose. clear -Hne. induction Hne as [|r rs Hr _ IH]; [done|].
    rewrite !fmap_cons, IH. f_equal. unfold client_ip, compose.
    by rewrite (bool_decide_eq_false_2 _ Hr), (bool_decide_eq_false_2 _ Hr). }
  rewrite Hip. apply serve_fresh; try done.
  - apply NoDup_fmap_2; [apply _|done].
  - apply Forall_fmap, Forall_true. intros ip. apply Hnew.
Qed.

Lemma claimed_addresses_evade_the_limit_witness :
  let claim ip := mkRequest "POST" "/api/v1/auth/login"
    (λ h, if bool_decide (h = "X-Real-IP") then ip else EmptyString) "10.0.0.1:80" "" "" true None in
  Forall (λ res, res = Ok tt)
    (serve 1 (60 * 1000000000)
       ((λ r, "ratelimit:ip:" +:+ client_ip r) <$> [claim "a"; claim "b"; claim "c"]) init_world).1.
Proof.
  intros claim. apply (claimed_addresses_evade_the_limit 1 60); [done|done|apply sample_no_faults|..].
  - apply (bool_decide_eq_true_1 (NoDup _)). vm_compute. reflexivity.
  - repeat (apply Forall_cons; split); [discriminate..|constructor].
  - intros ip. apply lookup_empty.
Defined.

(** A route behind [AuthMiddleware] and [RequireRole] runs its handler exactly for
    a request whose [Authorization] header is [Bearer] and a token the server accepts
    whose role is listed, with that token's claims; any other request is refused with
    401 or 403 and touches nothing. *)
Theorem guarded_route_spec `{Env} `{Jwt} secret roles next r w :
  let route := AuthMiddleware secret (RequireRole roles next) r in
  (∀ claims, authenticated secret r w claims →
     run route w = if decide (auth.Claims_Role claims ∈ roles)
                   then run (next (with_claims claims r)) w
                   else (http_Error "forbidden: insufficient permissions" StatusForbidden, w)) ∧
  ((∀ claims, ¬ authenticated secret r w claims) →
     ∃ msg, run route w = (http_Error msg StatusUnauthorized, w)).
Proof.
  intros route. split; [|apply auth_refuses]. intros claims Ha. unfold route.
  rewrite (auth_passes _ _ _ _ _ Ha). unfold RequireRole. simpl.
  destruct (decide (auth.Claims_Role claims ∈ roles)) as [Hr|Hr].
  - by rewrite has_role_true.
  - by rewrite has_role_false.
Qed.

(** A request with the token of a system user, under the tokens of the sample library. *)
Definition sample_request : Request :=
  mkRequest "GET" "/" (λ h, if bool_decide (h = "Authorization") then "Bearer secretAb1" else "")
    "10.0.0.1:80" "w1" "" true None.

Lemma guarded_route_spec_witness :
  let next : Handler := λ r, Ret (mkResponse StatusOK (TextBody (URLParam_id r))) in
  run (AuthMiddleware "secret" (RequireRole [auth.RoleAdmin] next) sample_request) init_world =
    (mkResponse StatusOK (TextBody "w1"), init_world) ∧
  run (AuthMiddleware "secret" (RequireRole [auth.RoleSystem] next) sample_request) init_world =
    (http_Error "forbidden: insufficient permissions" StatusForbidden, init_world).
Proof.
  intros next.
  assert (Ha : authenticated "secret" sample_request init_world (auth.mkClaims "b1" auth.RoleAdmin)).
  { exists "secretAb1". split; [simpl; intuition discriminate|]. by split. }
  pose proof (proj1 (guarded_route_spec "secret" [auth.RoleAdmin] next sample_request init_world)
    _ Ha) as H1.
  pose proof (proj1 (guarded_route_spec "secret" [auth.RoleSystem] next sample_request init_world)
    _ Ha) as H2.
  rewrite decide_True in H1 by (vm_compute; left). rewrite decide_False in H2; [exact (conj H1 H2)|].
  intros Hin%list_elem_of_singleton. discriminate Hin.
Defined.
