(* ===== verification/Metrics.v ===== *)
(** * HTTP metrics (internal/observability/metrics.go, internal/middleware/metrics.go)

    The collectors with their label names, and the middleware around the whole router that
    counts every answered request and observes how long it took.  The store of the client
    library is a map from label values; the buckets of its histograms are left to it, and
    every observed duration is kept. *)

From S2P Require Import Prelude Go Models Postgres Runtime Sample Http.
From stdpp Require Import pretty.
#[local] Open Scope prog_scope.
#[local] Open Scope Z_scope.

(** ** internal/observability/metrics.go *)

(** [prometheus.CounterOpts] and [prometheus.HistogramOpts] with the label names. *)
Record Collector := mkCollector {
  Collector_Name : string;
  Collector_Help : string;
  Collector_Labels : list string;
}.

Definition HTTPRequestsTotal : Collector := mkCollector "http_requests_total"
  "Total number of HTTP requests processed, partitioned by status code and HTTP method."
  ["method"; "path"; "status"].

Definition HTTPRequestDuration : Collector := mkCollector "http_request_duration_seconds"
  "Latency of HTTP requests in seconds." ["method"; "path"].

Definition TransfersTotal : Collector := mkCollector "transfers_total"
  "Total number of transfer attempts partitioned by status (success/failure)." ["status"].

Definition PaymentsTotal : Collector := mkCollector "payments_total"
  "Total number of payments partitioned by status." ["status"].

(** [WithLabelValues] panics ([None]) unless there is a value for each label. *)
Definition WithLabelValues (c : Collector) (values : list string) : option (list string) :=
  if decide (length values = length (Collector_Labels c)) then Some values else None.

(** The two business counters are given the value of their one label ([RecordTransfer] in
    [Transfers], [RecordPayment] in [Payments]), and so never panic. *)
Lemma business_labels label :
  WithLabelValues TransfersTotal [label] = Some [label] ∧
  WithLabelValues PaymentsTotal [label] = Some [label].
Proof. done. Qed.

(** [HTTPRequestsTotal.WithLabelValues(...).Inc()] and
    [HTTPRequestDuration.WithLabelValues(...).Observe(duration)]; [None] is a panic. *)
Definition Inc (values : list string) (t : gmap (list string) Z) : option (gmap (list string) Z) :=
  k ← WithLabelValues HTTPRequestsTotal values; Some (<[k := default 0 (t !! k) + 1]> t).

Definition Observe (values : list string) (duration : Z) (t : gmap (list string) (list Z))
  : option (gmap (list string) (list Z)) :=
  k ← WithLabelValues HTTPRequestDuration values; Some (<[k := default [] (t !! k) ++ [duration]]> t).

(** ** internal/middleware/metrics.go *)

Section Middleware.
Context `{Env}.

(** What is recorded after the answer; durations are in microseconds. *)
Definition record_http (method path status : string) (start : Z) : M unit := λ w,
  let duration := env_now (w_tick w) - start in
  match Inc [method; path; status] (w_http_requests_total w),
        Observe [method; path] duration (w_http_request_duration w) with
  | Some t, Some h => (Ok tt, set_http t h w)
  | _, _ => (Err (errors_New "" "panic: inconsistent label cardinality"), w)
  end.

(** [next] is the rest of the chain: its response, and what [routeContext.RoutePattern()]
    is when it returns, which is empty as long as the request was not routed. *)
Definition MetricsMiddleware (next : Request → prog (Response * string)) : Handler := λ r,
  let+ start := call time_Now in
  let start := match start with Ok t => t | Err _ => 0 end in
  let+ answer := next r in
  let '(resp, pattern) := answer in
  let path := if bool_decide (pattern ≠ "") then pattern else URL_Path r in
  let status := pretty (resp_status resp) in
  let+ _ := call (record_http (Method r) path status start) in
  Ret resp.

(** ** What the middleware does *)

(** One more request with these labels. *)
Definition counted (labels : list string) (w w' : World) : Prop :=
  w_http_requests_total w' =
    <[labels := default 0 (w_http_requests_total w !! labels) + 1]> (w_http_requests_total w).

(** One more duration with these labels. *)
Definition observed (labels : list string) (duration : Z) (w w' : World) : Prop :=
  w_http_request_duration w' =
    <[labels := default [] (w_http_request_duration w !! labels) ++ [duration]]>
      (w_http_request_duration w).

Lemma record_http_run method path status start w :
  ∃ t h, record_http method path status start w = (Ok tt, set_http t h w) ∧
    t = <[[method; path; status] :=
           default 0 (w_http_requests_total w !! [method; path; status]) + 1]>
          (w_http_requests_total w) ∧
    h = <[[method; path] := default [] (w_http_request_duration w !! [method; path])
           ++ [env_now (w_tick w) - start]]> (w_http_request_duration w).
Proof. by do 2 eexists. Qed.

Lemma metrics_run next r w :
  let '(resp, pattern, w1) := run (next r) w in
  let path := if bool_decide (pattern ≠ "") then pattern else URL_Path r in
  let labels := [Method r; path; pretty (resp_status resp)] in
  ∃ t h, run (MetricsMiddleware next r) w = (resp, set_http t h w1) ∧
    counted labels w1 (set_http t h w1) ∧
    observed [Method r; path] (env_now (w_tick w1) - env_now (w_tick w)) w1 (set_http t h w1).
Proof.
  unfold MetricsMiddleware. rewrite run_bind, run_call. simpl. rewrite run_bind.
  destruct (run (next r) w) as [[resp pattern] w1]. by do 2 eexists.
Qed.
End Middleware.
