(* ===== verification/Ledger.v ===== *)
(** * The double-entry ledger (internal/ledger/repository.go)

    [CreateTransaction] checks that a transaction is balanced and inserts its
    header and entries through the caller's transaction.  [LedgerRepository] is
    the Go interface, [LedgerContract] what its clients rely on, and the
    repository on PostgreSQL is shown to keep that contract. *)

From S2P Require Import Prelude Go Models Postgres Runtime Sample.
Import ledger.
#[local] Open Scope m_scope.
#[local] Open Scope go_scope.
#[local] Open Scope Z_scope.

(** ** The code *)

Definition ErrImbalancedLedger : error :=
  errors_New "ledger.ErrImbalancedLedger" "ledger transaction is imbalanced (debits != credits)".
Definition ErrEmptyEntries : error :=
  errors_New "ledger.ErrEmptyEntries" "ledger transaction requires at least 2 entries".
Definition err_multi_currency : error :=
  errors_New "" "multi-currency ledger transactions are not supported".
Definition err_entry_amount : error := errors_New "" "entry amount must be positive".
Definition err_entry_direction : error := errors_New "" "invalid entry direction".

(** The interface [ledger.Repository]; the transaction comes back with the ids and
    times the database gave it. *)
Class LedgerRepository := CreateTransaction : Transaction → M Transaction.

(** The loop over [txn.Entries]; the totals are [int64]. *)
Fixpoint sum_entries (currency : string) (es : list Entry) (totalDebits totalCredits : Z)
  : Res (Z * Z) :=
  match es with
  | [] => Ok (totalDebits, totalCredits)
  | entry :: rest =>
    if bool_decide (Entry_Currency entry ≠ currency) then Err err_multi_currency
    else if Entry_Amount entry <=? 0 then Err err_entry_amount
    else if bool_decide (Entry_Direction entry = DirectionDebit) then
      sum_entries currency rest (add64 totalDebits (Entry_Amount entry)) totalCredits
    else if bool_decide (Entry_Direction entry = DirectionCredit) then
      sum_entries currency rest totalDebits (add64 totalCredits (Entry_Amount entry))
    else Err err_entry_direction
  end.

(** Everything before the first statement: the balance invariant. *)
Definition check_balanced (es : list Entry) : Res unit :=
  match es with
  | e0 :: _ :: _ =>
    let? (totalDebits, totalCredits) := sum_entries (Entry_Currency e0) es 0 0 in
    if totalDebits =? totalCredits then Ok tt else Err ErrImbalancedLedger
  | _ => Err ErrEmptyEntries
  end.

Section Repository.
Context `{Env}.

(** [INSERT INTO ledger_transactions ... RETURNING id, created_at] *)
Definition sql_insert_transaction (txn : Transaction) (c : Ctx) (d : DB)
  : Res (string * Z * DB) :=
  let? ref := varchar 255 (Transaction_ReferenceID txn) in
  let? ty := varchar 50 (Transaction_ReferenceType txn) in
  let? st := varchar 50 (Transaction_Status txn) in
  let? t := insert_pk "ledger_transactions_pkey" (ledger_transactions d) (c_uuid c)
              (mkLedgerTxnRow (c_uuid c) ref ty st (c_now c)) in
  Ok (c_uuid c, c_now c, set_ledger_transactions t d).

(** [INSERT INTO ledger_entries ... RETURNING id, created_at] *)
Definition sql_insert_entry (e : Entry) (c : Ctx) (d : DB) : Res (string * Z * DB) :=
  let? txn := uuid_param (Entry_TransactionID e) in
  let? account := uuid_param (Entry_AccountID e) in
  let? amount := bigint (Entry_Amount e) in
  let? direction := varchar 10 (Entry_Direction e) in
  let? currency := varchar 3 (Entry_Currency e) in
  let? _ := check_constraint "positive_amount" (0 <? amount) in
  let? t := insert_pk "ledger_entries_pkey" (ledger_entries d) (c_uuid c)
              (mkEntry (c_uuid c) txn account amount direction currency (c_now c)) in
  let? _ := references "ledger_transactions" (ledger_transactions d) txn in
  let? _ := references "accounts" (accounts d) account in
  Ok (c_uuid c, c_now c, set_ledger_entries t d).

Definition with_transaction_id (id : string) (e : Entry) : Entry :=
  mkEntry (Entry_ID e) id (Entry_AccountID e) (Entry_Amount e) (Entry_Direction e)
    (Entry_Currency e) (Entry_CreatedAt e).

Definition with_id_time (id : string) (at_ : Z) (e : Entry) : Entry :=
  mkEntry id (Entry_TransactionID e) (Entry_AccountID e) (Entry_Amount e)
    (Entry_Direction e) (Entry_Currency e) at_.

(** The batch: its statements run in order and the first failure ends it. *)
Fixpoint insert_entries (es : list Entry) : M (list Entry) :=
  match es with
  | [] => ret []
  | e :: rest =>
    r <- query (sql_insert_entry e) ;;
    rest' <- insert_entries rest ;;
    ret (with_id_time r.1 r.2 e :: rest')
  end.

#[export] Instance postgresRepository : LedgerRepository := λ txn,
  _ <- lift_res (check_balanced (Transaction_Entries txn)) ;;
  r <- query (sql_insert_transaction txn) ;;
  es <- insert_entries (with_transaction_id r.1 <$> Transaction_Entries txn) ;;
  ret (mkTransaction r.1 (Transaction_ReferenceID txn) (Transaction_ReferenceType txn)
         (Transaction_Status txn) r.2 es).
End Repository.

(** ** The balance check *)

(** What the entries of one direction add up to, exactly. *)
Definition total (dir : Direction) (es : list Entry) : Z :=
  foldr (λ e acc, (if decide (Entry_Direction e = dir) then Entry_Amount e else 0) + acc) 0 es.

Definition valid_entry (currency : string) (e : Entry) : Prop :=
  Entry_Currency e = currency ∧ 0 < Entry_Amount e ∧
  (Entry_Direction e = DirectionDebit ∨ Entry_Direction e = DirectionCredit).

Lemma wrap64_add_l x y : wrap64 (wrap64 x + y) = wrap64 (x + y).
Proof.
  unfold wrap64.
  replace ((x + 2 ^ 63) mod 2 ^ 64 - 2 ^ 63 + y + 2 ^ 63)
    with ((x + 2 ^ 63) mod 2 ^ 64 + y) by lia.
  rewrite Z.add_mod_idemp_l by lia. f_equal. f_equal. lia.
Qed.

Lemma sum_entries_spec currency es d c d' c' :
  sum_entries currency es (wrap64 d) (wrap64 c) = Ok (d', c') ↔
  Forall (valid_entry currency) es ∧
  d' = wrap64 (d + total DirectionDebit es) ∧ c' = wrap64 (c + total DirectionCredit es).
Proof.
  revert d c. induction es as [|e es IH]; intros d c; simpl.
  { rewrite !Z.add_0_r. split; [intros [= <- <-]; auto|intros (_ & -> & ->); done]. }
  rewrite Forall_cons. unfold valid_entry at 1, add64.
  repeat case_bool_decide; bools; try (destruct (Z.leb_spec (Entry_Amount e) 0));
    repeat case_decide; try (split; [done|]; naive_solver lia).
  all: try (exfalso; unfold DirectionDebit, DirectionCredit in *; congruence).
  all: rewrite wrap64_add_l, IH, ?Z.add_0_l, ?Z.add_assoc; naive_solver.
Qed.

Definition balanced (es : list Entry) : Prop :=
  (2 ≤ length es)%nat ∧ (∃ currency, Forall (valid_entry currency) es) ∧
  wrap64 (total DirectionDebit es) = wrap64 (total DirectionCredit es).

Lemma check_balanced_ok es u : check_balanced es = Ok u ↔ balanced es.
Proof.
  destruct u. unfold balanced.
  destruct es as [|e0 [|e1 es]]; simpl length;
    [split; [done|intros [? _]; lia]..|].
  unfold check_balanced. generalize (e1 :: es) as rest. intros rest.
  pose proof (sum_entries_spec (Entry_Currency e0) (e0 :: rest) 0 0) as Hs.
  rewrite !Z.add_0_l in Hs. change (wrap64 0) with 0 in Hs. split.
  - intros ([d c] & H1 & H2)%res_bind_ok. apply Hs in H1 as (Hv & -> & ->).
    destruct (_ =? _) eqn:Heq; [|done]. bools. split; [simpl; lia|]. eauto.
  - intros (_ & (cur & Hv) & Heq).
    assert (Entry_Currency e0 = cur) as <- by (apply Forall_cons in Hv as [[? _] _]; done).
    rewrite (proj2 (Hs _ _) (conj Hv (conj eq_refl eq_refl))).
    cbn [res_bind]. by rewrite Heq, Z.eqb_refl.
Qed.

(** ** Rows added to the ledger *)

(** Inserting rows under fresh ids, first to last. *)
Inductive entries_added : list Entry → gmap string Entry → gmap string Entry → Prop :=
| added_nil t : entries_added [] t t
| added_cons e rows t t' :
    t !! Entry_ID e = None → entries_added rows (<[Entry_ID e := e]> t) t' →
    entries_added (e :: rows) t t'.

Lemma entries_added_sum f rows t t' :
  entries_added rows t t' →
  map_sum f t' = map_sum f t + foldr (λ e acc, f e + acc) 0 rows.
Proof.
  induction 1 as [t|e rows t t' Hn _ IH]; simpl; [lia|].
  rewrite IH, map_sum_insert_new by done. lia.
Qed.

Lemma entries_added_lookup rows t t' k e :
  entries_added rows t t' → t' !! k = Some e →
  t !! k = Some e ∨ (e ∈ rows ∧ Entry_ID e = k).
Proof.
  induction 1 as [t|e' rows t t' Hn _ IH]; [auto|].
  intros [H|[? ?]]%IH; [|right; by split; [right|]].
  destruct (decide (Entry_ID e' = k)) as [<-|]; simplify_map_eq; [|auto].
  right. by split; [left|].
Qed.

Lemma entries_added_mono rows t t' : entries_added rows t t' → t ⊆ t'.
Proof.
  induction 1; [done|]. etrans; [|eassumption]. by apply insert_subseteq.
Qed.

(** The signed effect of an entry on its account's balance, as the reconciliation
    query counts it. *)
Definition signed_amount (e : Entry) : Z :=
  (if decide (Entry_Direction e = DirectionCredit) then Entry_Amount e else 0) -
  (if decide (Entry_Direction e = DirectionDebit) then Entry_Amount e else 0).

(** What the ledger says an account holds. *)
Definition net_ledger (account : string) (d : DB) : Z :=
  map_sum (λ e, if decide (Entry_AccountID e = account) then signed_amount e else 0)
    (ledger_entries d).

(** The totals over the whole ledger. *)
Definition ledger_total (dir : Direction) (d : DB) : Z :=
  map_sum (λ e, if decide (Entry_Direction e = dir) then Entry_Amount e else 0)
    (ledger_entries d).

(** ** What the ledger promises *)

Section Contract.
Context `{Env}.

(** Row [r] records entry [e] under the header [id]. *)
Definition records (d : DB) (id : string) (e r : Entry) : Prop :=
  Entry_TransactionID r = id ∧ uuid_in (Entry_AccountID e) = Some (Entry_AccountID r) ∧
  is_Some (accounts d !! Entry_AccountID r) ∧ Entry_Amount r = Entry_Amount e ∧
  Entry_Direction r = Entry_Direction e ∧ varchar 3 (Entry_Currency e) = Ok (Entry_Currency r).

(** The transaction [txn] is in [d'] and was not in [d]: one header, a row per
    entry, and nothing else changed. *)
Definition posted (txn : Transaction) (d d' : DB) : Prop :=
  ∃ hdr rows t,
    ledger_transactions d !! LTxn_ID hdr = None ∧
    varchar 255 (Transaction_ReferenceID txn) = Ok (LTxn_ReferenceID hdr) ∧
    varchar 50 (Transaction_ReferenceType txn) = Ok (LTxn_ReferenceType hdr) ∧
    varchar 50 (Transaction_Status txn) = Ok (LTxn_Status hdr) ∧
    Forall2 (records d (LTxn_ID hdr)) (Transaction_Entries txn) rows ∧
    entries_added rows (ledger_entries d) t ∧
    d' = set_ledger_entries t
           (set_ledger_transactions (<[LTxn_ID hdr := hdr]> (ledger_transactions d)) d).

(** Double entry, as a specification: the transaction that moves [amount] from one
    account to the other is a completed one with a debit of the first account and a
    credit of the second one. *)
Definition double_entry (reference type debited credited currency : string) (amount : Z)
  : Transaction :=
  mkTransaction "" reference type StatusCompleted 0
    [mkEntry "" "" debited amount DirectionDebit currency 0;
     mkEntry "" "" credited amount DirectionCredit currency 0].

(** A transaction the schema accepts. *)
Definition postable (d : DB) (txn : Transaction) : Prop :=
  balanced (Transaction_Entries txn) ∧
  is_ok (varchar 255 (Transaction_ReferenceID txn)) ∧
  is_ok (varchar 50 (Transaction_ReferenceType txn)) ∧
  is_ok (varchar 50 (Transaction_Status txn)) ∧
  Forall (λ e, in_int64 (Entry_Amount e) ∧ is_ok (varchar 3 (Entry_Currency e)) ∧
               ∃ a, uuid_in (Entry_AccountID e) = Some a ∧ is_Some (accounts d !! a))
    (Transaction_Entries txn).

Class LedgerContract (L : LedgerRepository) : Prop := {
  (** Success: the transaction was balanced and it is posted. *)
  ledger_ok txn w txn' w' :
    CreateTransaction txn w = (Ok txn', w') →
    balanced (Transaction_Entries txn) ∧ posted txn (w_db w) (w_db w') ∧ silent w w';
  (** Availability: nothing but the outside makes a postable transaction fail; it takes
      one exchange for the header and one for each entry. *)
  ledger_available txn w :
    no_faults (w_tick w) → supplied w → postable (w_db w) txn →
    ∃ txn' w', CreateTransaction txn w = (Ok txn', w') ∧ supplied w' ∧
      w_tick w' = (1 + length (Transaction_Entries txn) + w_tick w)%nat;
  (** Refusal: an unbalanced transaction is rejected before any exchange. *)
  ledger_refuses txn w :
    ¬ balanced (Transaction_Entries txn) →
    ∃ e, CreateTransaction txn w = (Err e, w);
}.
End Contract.

(** ** The repository on PostgreSQL keeps the contract *)

Lemma varchar_direction dir :
  dir = DirectionDebit ∨ dir = DirectionCredit → varchar 10 dir = Ok dir.
Proof. by intros [-> | ->]. Qed.

Lemma valid_entry_direction cur e :
  valid_entry cur e → Entry_Direction e = DirectionDebit ∨ Entry_Direction e = DirectionCredit.
Proof. by intros (_ & _ & ?). Qed.

Section Implementation.
Context `{UuidLaws}.

(** The [n]-th statement of the batch inserts one row. *)
Lemma sql_insert_entry_ok cur e c d id at_ d' :
  valid_entry cur e → sql_insert_entry e c d = Ok (id, at_, d') →
  ∃ r txn, uuid_in (Entry_TransactionID e) = Some txn ∧ records d txn e r ∧
    Entry_ID r = id ∧ id = c_uuid c ∧
    ledger_entries d !! id = None ∧ d' = set_ledger_entries (<[id:=r]> (ledger_entries d)) d.
Proof.
  intros Hv%valid_entry_direction Hq. unfold sql_insert_entry in Hq.
  rewrite (varchar_direction _ Hv) in Hq. m_inv.
  eexists (mkEntry _ _ _ _ _ _ _), _. repeat split; simpl; eauto.
Qed.

Lemma insert_entries_ok cur id es w es' w' :
  Forall (valid_entry cur) es → Forall (λ e, uuid_in (Entry_TransactionID e) = Some id) es →
  insert_entries es w = (Ok es', w') →
  silent w w' ∧ ∃ rows t,
    Forall2 (records (w_db w) id) es rows ∧ entries_added rows (ledger_entries (w_db w)) t ∧
    w_db w' = set_ledger_entries t (w_db w).
Proof.
  revert w es' w'. induction es as [|e es IH]; intros w es' w' Hv Hid Hrun; simpl in Hrun.
  { m_inv. split; [done|]. exists [], (ledger_entries (w_db w)).
    repeat split; [constructor..|]. by destruct (w_db w). }
  apply Forall_cons in Hv as [Hve Hv], Hid as [Hide Hid]. m_inv.
  match goal with H : query _ _ = _ |- _ => apply query_ok in H as (d & Hq & ->) end.
  destruct x as [eid at_].
  destruct (sql_insert_entry_ok _ _ _ _ _ _ _ Hve Hq) as (r & txn & ? & ? & ? & ? & ? & ->).
  simplify_eq.
  match goal with H : insert_entries _ _ = _ |- _ =>
    apply IH in H as (Hs & rows & t & Hrows & Hadd & Hdb); [|done..] end.
  split; [etrans; [apply silent_bump|exact Hs]|].
  exists (r :: rows), t. split; [by constructor|]. split.
  - constructor; [congruence|]. simpl in Hadd. congruence.
  - rewrite Hdb. by destruct (w_db w).
Qed.

Lemma postgres_ok txn w txn' w' :
  postgresRepository txn w = (Ok txn', w') →
  balanced (Transaction_Entries txn) ∧ posted txn (w_db w) (w_db w') ∧ silent w w'.
Proof.
  intros Hrun. unfold postgresRepository in Hrun. m_inv.
  match goal with H : check_balanced _ = _ |- _ => apply check_balanced_ok in H as Hbal end.
  match goal with H : query _ _ = _ |- _ => apply query_ok in H as (d & Hq & ->) end.
  destruct Hbal as (Hlen & (cur & Hval) & Htot).
  unfold sql_insert_transaction in Hq. m_inv. simpl in *.
  match goal with H : insert_entries _ _ = _ |- _ =>
    apply (insert_entries_ok cur (env_uuid (w_tick w))) in H
      as (Hs & rows & t & Hrows & Hadd & Hdb) end.
  - split; [by unfold balanced; eauto|].
    split; [|by etrans; [apply silent_bump|exact Hs]].
    eexists (mkLedgerTxnRow _ _ _ _ _), rows, t. simpl.
    repeat (split; [eassumption|]). split; [|split; [exact Hadd|exact Hdb]].
    apply (Forall2_fmap_l (with_transaction_id _)) in Hrows. eapply Forall2_impl; [exact Hrows|].
    intros e r Hr. exact Hr.
  - apply Forall_fmap. eapply Forall_impl; [exact Hval|]. intros e He. exact He.
  - apply Forall_fmap, Forall_true. intros. simpl. apply env_uuid_canonical.
Qed.

Definition insertable (d : DB) (id : string) (e : Entry) : Prop :=
  uuid_in (Entry_TransactionID e) = Some id ∧ is_Some (ledger_transactions d !! id) ∧
  (∃ cur, valid_entry cur e) ∧ in_int64 (Entry_Amount e) ∧
  is_ok (varchar 3 (Entry_Currency e)) ∧
  ∃ a, uuid_in (Entry_AccountID e) = Some a ∧ is_Some (accounts d !! a).

Lemma sql_insert_entry_fine d id e c :
  insertable d id e → ledger_entries d !! c_uuid c = None →
  ∃ r, sql_insert_entry e c d =
    Ok (c_uuid c, c_now c, set_ledger_entries (<[c_uuid c := r]> (ledger_entries d)) d).
Proof.
  intros (Hid & Ht & (cur & Hv) & Ham & (cu & Hcu)%is_ok_inv & a & Ha & Hacc) Hn.
  pose proof (valid_entry_direction _ _ Hv) as Hdir. destruct Hv as (_ & Hpos & _).
  eexists. unfold sql_insert_entry.
  rewrite (uuid_param_some _ _ Hid), (uuid_param_some _ _ Ha). simpl.
  rewrite (bigint_in _ Ham). simpl. rewrite (varchar_direction _ Hdir), Hcu. simpl.
  unfold check_constraint. rewrite (proj2 (Z.ltb_lt _ _) Hpos). simpl.
  rewrite (insert_pk_fresh _ _ _ _ Hn). simpl.
  rewrite (references_some _ _ _ Ht). simpl. by rewrite (references_some _ _ _ Hacc).
Qed.

Lemma insert_entries_available id es w :
  no_faults (w_tick w) → supplied w → Forall (insertable (w_db w) id) es →
  ∃ es' w', insert_entries es w = (Ok es', w') ∧ supplied w' ∧
    w_tick w' = (length es + w_tick w)%nat.
Proof.
  revert w. induction es as [|e es IH]; intros w Hf Hs Hall; [by eexists _, _|].
  apply Forall_cons in Hall as [He Hall]. simpl.
  destruct (sql_insert_entry_fine _ _ _ (ctx w) He) as (r & Hq);
    [by apply supplied_now in Hs as (?&?&?&?&?&_)|].
  destruct (query_insert (sql_insert_entry e) w _ _ (no_faults_now _ Hf) Hs Hq)
    as [Hrun Hs']; [solve_unused|].
  destruct (IH (set_db _ (bump w)) (no_faults_S _ Hf) Hs')
    as (es' & w' & Hrun' & Hs'' & Ht); [exact Hall|].
  eexists _, w'. split; [|split; [exact Hs''|rewrite Ht; simpl; lia]]. unfold bind at 1. rewrite Hrun.
  unfold bind. rewrite Hrun'. done.
Qed.

Lemma postgres_available txn w :
  no_faults (w_tick w) → supplied w → postable (w_db w) txn →
  ∃ txn' w', postgresRepository txn w = (Ok txn', w') ∧ supplied w' ∧
    w_tick w' = (1 + length (Transaction_Entries txn) + w_tick w)%nat.
Proof.
  intros Hf Hs (Hbal & (ref & Href)%is_ok_inv & (ty & Hty)%is_ok_inv &
    (st & Hst)%is_ok_inv & Hes).
  pose proof (supplied_now _ Hs) as (_&_&_&Hn&_).
  assert (Hq : ∃ hdr, sql_insert_transaction txn (ctx w) (w_db w) =
    Ok (env_uuid (w_tick w), w_now w, set_ledger_transactions
      (<[env_uuid (w_tick w) := hdr]> (ledger_transactions (w_db w))) (w_db w))).
  { eexists. unfold sql_insert_transaction. rewrite Href, Hty, Hst. simpl.
    by rewrite (insert_pk_fresh _ _ _ _ Hn). }
  destruct Hq as (hdr & Hq).
  destruct (query_insert _ w _ _ (no_faults_now _ Hf) Hs Hq) as [Hrun Hs']; [solve_unused|].
  destruct (insert_entries_available (env_uuid (w_tick w))
    (with_transaction_id (env_uuid (w_tick w)) <$> Transaction_Entries txn)
    (set_db _ (bump w)) (no_faults_S _ Hf) Hs') as (es' & w' & Hrun' & Hs'' & Htick).
  - apply Forall_fmap. destruct Hbal as (_ & (cur & Hv) & _).
    eapply Forall_impl; [exact (proj2 (Forall_and _ _) (conj Hv Hes))|].
    intros e [He (? & ? & ?)]. split; [apply env_uuid_canonical|]. simpl.
    split; [rewrite lookup_insert_eq; eauto|]. split; [exists cur; exact He|]. eauto.
  - eexists _, w'. split; [|split; [exact Hs''|rewrite Htick, length_fmap; simpl; lia]].
    unfold postgresRepository, bind, lift_res.
    rewrite (proj2 (check_balanced_ok _ tt) Hbal), Hrun. simpl in Hrun'. simpl.
    by rewrite Hrun'.
Qed.

#[export] Instance ledger_contract_postgres : LedgerContract postgresRepository.
Proof.
  split; [apply postgres_ok|apply postgres_available|].
  intros txn w Hn. destruct (check_balanced (Transaction_Entries txn)) as [u|e] eqn:Hc.
  - by apply check_balanced_ok in Hc.
  - exists e. unfold CreateTransaction, postgresRepository, bind, lift_res. by rewrite Hc.
Qed.
End Implementation.

(** ** Consequences of a posting *)

Section Posted.
Context `{Env}.

(** What a list of entries adds to an account. *)
Definition net_of (account : string) (es : list Entry) : Z :=
  foldr (λ e acc, (if decide (uuid_in (Entry_AccountID e) = Some account)
                   then signed_amount e else 0) + acc) 0 es.

Lemma records_total d id dir es rows :
  Forall2 (records d id) es rows →
  foldr (λ e acc, (if decide (Entry_Direction e = dir) then Entry_Amount e else 0) + acc) 0 rows
  = total dir es.
Proof.
  induction 1 as [|e r es rows (_ & _ & _ & Ha & Hd & _) _ IH]; simpl; [done|].
  by rewrite IH, Ha, Hd.
Qed.

Lemma records_net d id account es rows :
  Forall2 (records d id) es rows →
  foldr (λ e acc, (if decide (Entry_AccountID e = account) then signed_amount e else 0) + acc)
    0 rows = net_of account es.
Proof.
  induction 1 as [|e r es rows (_ & Hu & _ & Ha & Hd & _) _ IH]; simpl; [done|].
  rewrite IH. unfold signed_amount. rewrite Hu, Ha, Hd. f_equal.
  repeat case_decide; congruence.
Qed.

Lemma posted_total dir txn d d' :
  posted txn d d' → ledger_total dir d' = ledger_total dir d + total dir (Transaction_Entries txn).
Proof.
  intros (hdr & rows & t & _ & _ & _ & _ & Hr & Hadd & ->). unfold ledger_total. simpl.
  rewrite (entries_added_sum _ _ _ _ Hadd). f_equal. by eapply records_total.
Qed.

Lemma posted_net account txn d d' :
  posted txn d d' →
  net_ledger account d' = net_ledger account d + net_of account (Transaction_Entries txn).
Proof.
  intros (hdr & rows & t & _ & _ & _ & _ & Hr & Hadd & ->). unfold net_ledger. simpl.
  rewrite (entries_added_sum _ _ _ _ Hadd). f_equal. by eapply records_net.
Qed.

(** Every table but the two of the ledger. *)
Lemma posted_frame txn d d' :
  posted txn d d' →
  users d' = users d ∧ accounts d' = accounts d ∧ wallets_t d' = wallets_t d ∧
  idempotency_keys d' = idempotency_keys d ∧ transfers_t d' = transfers_t d ∧
  payments_t d' = payments_t d ∧ webhook_events d' = webhook_events d ∧
  outbox_events d' = outbox_events d ∧ reconciliation_runs d' = reconciliation_runs d ∧
  reconciliation_items d' = reconciliation_items d.
Proof. intros (hdr & rows & t & _ & _ & _ & _ & _ & _ & ->). by repeat split. Qed.
End Posted.

Lemma wrap64_eq x y : wrap64 x = wrap64 y ↔ (x - y) mod 2 ^ 64 = 0.
Proof.
  unfold wrap64. split; intros Hxy.
  - assert ((x + 2 ^ 63) mod 2 ^ 64 = (y + 2 ^ 63) mod 2 ^ 64) as Hm by lia.
    replace (x - y) with ((x + 2 ^ 63) - (y + 2 ^ 63)) by lia.
    by rewrite Zminus_mod, Hm, Z.sub_diag.
  - apply Z.mod_divide in Hxy as [k Hk]; [|lia].
    replace (x + 2 ^ 63) with (y + 2 ^ 63 + k * 2 ^ 64) by lia. by rewrite Z_mod_plus_full.
Qed.

Lemma wrap64_inj x y : in_int64 x → in_int64 y → wrap64 x = wrap64 y → x = y.
Proof. intros Hx Hy. by rewrite !wrap64_id. Qed.

(** ** Properties *)

(** C18. Double entry: a transaction [CreateTransaction] answers with success had at
    least two entries, all in one currency, positive, debits or credits, and it is
    posted whole: one new header with its reference, type and status, a new row under
    that header for each entry with its account, amount, direction and currency, in
    order; no other table and nothing outside the database changes.  So the debits and
    the credits of the ledger grow by the sums of its entries of each direction, and
    by the same amount when these two sums fit an [int64]. *)
Theorem create_transaction_double_entry `{UuidLaws} txn w txn' w' :
  CreateTransaction (LedgerRepository := postgresRepository) txn w = (Ok txn', w') →
  let es := Transaction_Entries txn in
  (2 ≤ length es)%nat ∧ (∃ currency, Forall (valid_entry currency) es) ∧
  posted txn (w_db w) (w_db w') ∧ silent w w' ∧
  ledger_total DirectionDebit (w_db w') =
    ledger_total DirectionDebit (w_db w) + total DirectionDebit es ∧
  ledger_total DirectionCredit (w_db w') =
    ledger_total DirectionCredit (w_db w) + total DirectionCredit es ∧
  (in_int64 (total DirectionDebit es) → in_int64 (total DirectionCredit es) →
   total DirectionDebit es = total DirectionCredit es).
Proof.
  intros (Hb & Hp & Hs)%ledger_ok es. destruct Hb as (Hlen & Hv & Heq).
  rewrite !(posted_total _ _ _ _ Hp). split_and!; auto.
  intros Hd Hc. by apply wrap64_inj in Heq.
Qed.

(** C19. The loop over the entries decides exactly this: at least two entries, all
    in one currency, all positive, all debits or credits, and the totals of the two
    directions equal modulo [2 ^ 64], as [int64] sums are.  When the two totals fit
    an [int64], they are accepted exactly when they are equal. *)
Theorem check_balanced_spec es :
  let well_formed :=
    (2 ≤ length es)%nat ∧ ∃ currency, Forall (valid_entry currency) es in
  (check_balanced es = Ok tt ↔
    well_formed ∧
    (total DirectionDebit es - total DirectionCredit es) mod 2 ^ 64 = 0) ∧
  (in_int64 (total DirectionDebit es) → in_int64 (total DirectionCredit es) →
    check_balanced es = Ok tt ↔
    well_formed ∧ total DirectionDebit es = total DirectionCredit es).
Proof.
  intros well_formed. rewrite check_balanced_ok, <- wrap64_eq. unfold balanced, well_formed.
  split; [tauto|]. intros Hd Hc. rewrite (wrap64_id _ Hd), (wrap64_id _ Hc). tauto.
Qed.

(** The error of the loop is the one of the first bad entry. *)
Lemma sum_entries_err cur es d c e :
  sum_entries cur es d c = Err e →
  ∃ pre bad post, es = pre ++ bad :: post ∧ Forall (valid_entry cur) pre ∧
    ((e = err_multi_currency ∧ Entry_Currency bad ≠ cur) ∨
     (e = err_entry_amount ∧ Entry_Currency bad = cur ∧ Entry_Amount bad <= 0) ∨
     (e = err_entry_direction ∧ Entry_Currency bad = cur ∧ 0 < Entry_Amount bad ∧
      Entry_Direction bad ≠ DirectionDebit ∧ Entry_Direction bad ≠ DirectionCredit)).
Proof.
  revert d c. induction es as [|x es IH]; intros d c; simpl; [done|].
  destruct (bool_decide (Entry_Currency x ≠ cur)) eqn:E1.
  { intros [= <-]. bools. exists [], x, es. split; [done|]. split; [constructor|]. auto. }
  bools. apply dec_stable in E1.
  destruct (Entry_Amount x <=? 0) eqn:E2.
  { intros [= <-]. bools. exists [], x, es. split; [done|]. split; [constructor|]. auto. }
  bools.
  assert (Hrec : ∀ d c, (Entry_Direction x = DirectionDebit ∨ Entry_Direction x = DirectionCredit) →
    sum_entries cur es d c = Err e → ∃ pre bad post, x :: es = pre ++ bad :: post ∧
      Forall (valid_entry cur) pre ∧ _) by
    (intros d' c' Hdir (pre & bad & post & -> & Hpre & Hc)%IH;
     exists (x :: pre), bad, post; split; [done|]; split; [|exact Hc];
     constructor; [split_and!; auto with lia|done]).
  case_bool_decide as E3; [intros ?; eapply Hrec; eauto|].
  case_bool_decide as E4; [intros ?; eapply Hrec; eauto|].
  intros [= <-]. exists [], x, es. split; [done|]. split; [constructor|]. auto 8.
Qed.

(** C23. A refused transaction costs nothing and says why: no statement is sent,
    and exactly one of these holds.  There are fewer than two entries; every entry is
    valid in the currency of the first one and the 64-bit totals differ; or, in list
    order, some entry is the first that is not valid in that currency, and the error
    names its currency when that differs, else its amount when that is not positive,
    else its direction, which is neither of the two. *)
Theorem create_transaction_refusals `{Env} txn w e :
  check_balanced (Transaction_Entries txn) = Err e →
  CreateTransaction (LedgerRepository := postgresRepository) txn w = (Err e, w) ∧
  let es := Transaction_Entries txn in
  match es with
  | e0 :: _ :: _ =>
    let cur := Entry_Currency e0 in
    (e = ErrImbalancedLedger ∧ Forall (valid_entry cur) es ∧
     wrap64 (total DirectionDebit es) ≠ wrap64 (total DirectionCredit es)) ∨
    (∃ pre bad post, es = pre ++ bad :: post ∧ Forall (valid_entry cur) pre ∧
      ((e = err_multi_currency ∧ Entry_Currency bad ≠ cur) ∨
       (e = err_entry_amount ∧ Entry_Currency bad = cur ∧ Entry_Amount bad <= 0) ∨
       (e = err_entry_direction ∧ Entry_Currency bad = cur ∧ 0 < Entry_Amount bad ∧
        Entry_Direction bad ≠ DirectionDebit ∧ Entry_Direction bad ≠ DirectionCredit)))
  | _ => e = ErrEmptyEntries
  end.
Proof.
  intros Hc. split.
  { unfold CreateTransaction, postgresRepository, bind, lift_res. by rewrite Hc. }
  destruct txn as [id ref ty st at_ es]. simpl in *. clear w.
  destruct es as [|e0 [|e1 rest]]; [simpl in Hc; by simplify_eq..|].
  unfold check_balanced in Hc.
  pose proof (sum_entries_spec (Entry_Currency e0) (e0 :: e1 :: rest) 0 0) as Hs.
  rewrite !Z.add_0_l in Hs. change (wrap64 0) with 0 in Hs. cbv zeta.
  destruct (sum_entries _ _ _ _) as [[d c]|e'] eqn:Hsum; cbn [res_bind] in Hc.
  - left. destruct (proj1 (Hs _ _) eq_refl) as (Hv & -> & ->).
    destruct (_ =? _) eqn:Hne; simplify_eq. bools. auto.
  - right. simplify_eq. by apply sum_entries_err in Hsum.
Qed.

(** The totals are 64-bit: four entries whose debits exceed the credits by
    [2 ^ 64] pass the balance check. *)
Theorem check_balanced_overflow :
  ∃ es, check_balanced es = Ok tt ∧
    total DirectionDebit es = total DirectionCredit es + 2 ^ 64 ∧
    Forall (λ e, in_int64 (Entry_Amount e)) es.
Proof.
  set (e := λ amount dir, mkEntry "" "" "a1" amount dir "USD" 0).
  exists [e int64_max DirectionDebit; e int64_max DirectionDebit; e 3 DirectionDebit;
          e 1 DirectionCredit].
  split; [by vm_compute|]. split; [by vm_compute|].
  repeat constructor; by vm_compute.
Qed.

(** Only the outside can make a well-formed transaction fail: when the schema
    accepts it, its accounts exist and no exchange fails, it is posted. *)
Theorem create_transaction_available `{UuidLaws} txn w :
  no_faults (w_tick w) → supplied w → postable (w_db w) txn →
  ∃ txn' w', CreateTransaction (LedgerRepository := postgresRepository) txn w = (Ok txn', w') ∧
    posted txn (w_db w) (w_db w').
Proof.
  intros Hf Hs Hp. destruct (ledger_available txn w Hf Hs Hp) as (txn' & w' & Hrun & _).
  exists txn', w'. split; [done|]. by apply ledger_ok in Hrun as (_ & ? & _).
Qed.

(** ** Witnesses *)

Definition sample_ledger_db : DB :=
  set_accounts (<["a1" := mkAccount "a1" "USER" "USD" 0]>
    (<["a2" := mkAccount "a2" "USER" "USD" 0]> ∅)) empty_db.

Definition sample_txn : Transaction :=
  mkTransaction "" "t1" TxTypeTransfer StatusCompleted 0
    [mkEntry "" "" "a1" 25 DirectionDebit "USD" 0;
     mkEntry "" "" "A2" 25 DirectionCredit "USD" 0].

Lemma create_transaction_double_entry_witness :
  ∃ w', posted sample_txn sample_ledger_db (w_db w') ∧
    ledger_total DirectionDebit (w_db w') = 25 ∧ ledger_total DirectionCredit (w_db w') = 25.
Proof.
  destruct (postgresRepository sample_txn (sample_world sample_ledger_db)) as [[txn'|e] w'] eqn:Hrun;
    [|exfalso; revert Hrun; vm_compute; discriminate].
  pose proof (create_transaction_double_entry _ _ _ _ Hrun) as (_ & _ & Hp & _ & Hd & Hc & Heq).
  exists w'. split; [exact Hp|]. rewrite Hd, Hc, <- Heq by (by vm_compute). by vm_compute.
Defined.

Lemma check_balanced_spec_witness :
  check_balanced (Transaction_Entries sample_txn) = Ok tt.
Proof.
  apply (proj2 (check_balanced_spec (Transaction_Entries sample_txn))); [by vm_compute..|].
  split; [split; [simpl; lia|]|by vm_compute].
  exists "USD". repeat constructor; by vm_compute.
Defined.

(** A debit in dollars and a credit in euros. *)
Definition sample_mixed_txn : Transaction :=
  mkTransaction "" "t1" TxTypeTransfer StatusCompleted 0
    [mkEntry "" "" "a1" 25 DirectionDebit "USD" 0;
     mkEntry "" "" "a2" 25 DirectionCredit "EUR" 0].

Lemma create_transaction_refusals_witness :
  CreateTransaction (LedgerRepository := postgresRepository) sample_mixed_txn init_world
  = (Err err_multi_currency, init_world).
Proof.
  refine (proj1 (create_transaction_refusals sample_mixed_txn init_world err_multi_currency _)).
  reflexivity.
Defined.

Lemma sample_txn_postable : postable sample_ledger_db sample_txn.
Proof.
  split_and!; [apply (check_balanced_ok _ tt); by vm_compute|done..|].
  assert (He : ∀ e a, in_int64 (Entry_Amount e) → is_ok (varchar 3 (Entry_Currency e)) →
    uuid_in (Entry_AccountID e) = Some a → is_Some (accounts sample_ledger_db !! a) →
    in_int64 (Entry_Amount e) ∧ is_ok (varchar 3 (Entry_Currency e)) ∧
    ∃ a, uuid_in (Entry_AccountID e) = Some a ∧ is_Some (accounts sample_ledger_db !! a)) by eauto.
  repeat (apply Forall_cons; split); [eapply (He _ "a1")|eapply (He _ "a2")|apply Forall_nil];
    first [done|by vm_compute|by eexists].
Qed.

Lemma create_transaction_available_witness :
  ∃ w', posted sample_txn sample_ledger_db (w_db w').
Proof.
  destruct (create_transaction_available sample_txn (sample_world sample_ledger_db))
    as (txn' & w' & _ & Hp); [apply sample_no_faults|solve_sample_supply|
                              exact sample_txn_postable|].
  exists w'. exact Hp.
Defined.
