(* ===== verification/Outbox.v ===== *)
(** * The transactional outbox (internal/outbox, internal/kafka/producer.go)

    Events are inserted by the transaction they describe and published to Kafka by
    a background worker.  [OutboxRepository] and [Producer] are the Go interfaces;
    [OutboxContract] is what the services that insert events rely on. *)

From S2P Require Import Prelude Go Models Postgres Runtime Sample.
Import outbox.
#[local] Open Scope m_scope.
#[local] Open Scope go_scope.
#[local] Open Scope prog_scope.
#[local] Open Scope Z_scope.

(** ** The code *)

Class OutboxRepository := {
  InsertEvent : string → json → M unit;
  FetchPendingEvents : Z → M (list Event);
  MarkPublished : string → M unit;
  MarkFailed : string → error → M unit;
}.

(** [kafka.Producer]; [Close] only releases the client. *)
Class Producer := Publish : string → json → M unit.

(** Times are microseconds since 2000-01-01, as PostgreSQL keeps them. *)
Definition seconds (n : Z) : Z := n * 1000000.
Definition timestamp_max : Z := 9223371331200000000.

Definition interval_out_of_range : error := pg_error "22008" "interval out of range".
Definition timestamp_out_of_range : error := pg_error "22008" "timestamp out of range".

(** [NOW() + INTERVAL '10 seconds' * power(2, attempts)] *)
Definition next_retry_at (now attempts : Z) : Res Z :=
  let interval := seconds 10 * 2 ^ attempts in
  let? _ := guard_res (bool_decide (in_int64 interval)) interval_out_of_range in
  let? _ := guard_res (now + interval <? timestamp_max) timestamp_out_of_range in
  Ok (now + interval).

(** The assignments of [MarkFailed]'s [UPDATE]: every right-hand side sees the row
    as it was. *)
Definition mark_failed_row (msg : string) (now : Z) (ev : Event) : Res Event :=
  let? attempts := int4 (Event_Attempts ev + 1) in
  let? retry := next_retry_at now (Event_Attempts ev) in
  Ok (mkEvent (Event_ID ev) (Event_Topic ev) (Event_Payload ev)
        (if 5 <=? Event_Attempts ev then StatusFailed else StatusPending)
        attempts retry (Some msg) (Event_CreatedAt ev) now).

(** The assignments of [MarkPublished]'s [UPDATE]. *)
Definition mark_published_row (now : Z) (ev : Event) : Event :=
  mkEvent (Event_ID ev) (Event_Topic ev) (Event_Payload ev) StatusPublished
    (Event_Attempts ev) (Event_NextRetryAt ev) (Event_ErrorMsg ev) (Event_CreatedAt ev) now.

(** [WHERE status = 'PENDING' AND next_retry_at <= NOW()] *)
Definition due (now : Z) (ev : Event) : Prop :=
  Event_Status ev = StatusPending ∧ Event_NextRetryAt ev <= now.

#[export] Instance due_dec now ev : Decision (due now ev).
Proof. unfold due. apply _. Defined.

(** [ORDER BY created_at ASC] *)
Definition created_before (e1 e2 : Event) : Prop := Event_CreatedAt e1 <= Event_CreatedAt e2.

#[export] Instance created_before_dec : RelDecision created_before.
Proof. intros e1 e2. unfold created_before. apply _. Defined.

(** The columns [FetchPendingEvents] scans: not [error_msg]. *)
Definition scan_event (ev : Event) : Event :=
  mkEvent (Event_ID ev) (Event_Topic ev) (Event_Payload ev) (Event_Status ev)
    (Event_Attempts ev) (Event_NextRetryAt ev) None (Event_CreatedAt ev) (Event_UpdatedAt ev).

Section Repository.
Context `{Env}.

(** [INSERT INTO outbox_events (topic, payload)] with the column defaults. *)
Definition sql_insert_event (topic : string) (payload : json) (c : Ctx) (d : DB)
  : Res (unit * DB) :=
  let? topic := varchar 255 topic in
  let? t := insert_pk "outbox_events_pkey" (outbox_events d) (c_uuid c)
              (mkEvent (c_uuid c) topic payload StatusPending 0 (c_now c) None
                 (c_now c) (c_now c)) in
  Ok (tt, set_outbox_events t d).

Definition sql_fetch_pending (limit : Z) (c : Ctx) (d : DB) : Res (list Event * DB) :=
  let pending := filter (due (c_now c)) (map_to_list (outbox_events d)).*2 in
  Ok (scan_event <$> take (Z.to_nat limit) (merge_sort created_before pending), d).

(** [UPDATE outbox_events SET ... WHERE id = $n]: no row, no change, no error. *)
Definition sql_update_event (id : string) (f : Z → Event → Res Event) (c : Ctx) (d : DB)
  : Res (unit * DB) :=
  let? id := uuid_param id in
  match outbox_events d !! id with
  | None => Ok (tt, d)
  | Some ev => let? ev' := f (c_now c) ev in
               Ok (tt, set_outbox_events (<[id := ev']> (outbox_events d)) d)
  end.

#[export] Instance postgresRepository : OutboxRepository := {|
  InsertEvent topic payload := query (sql_insert_event topic payload);
  FetchPendingEvents limit := exec (sql_fetch_pending limit);
  MarkPublished id := exec (sql_update_event id (λ now ev, Ok (mark_published_row now ev)));
  MarkFailed id publishErr :=
    exec (sql_update_event id (mark_failed_row (Error publishErr)));
|}.

(** [franzProducer.Publish]: the broker acknowledges, or an error is returned,
    after which the record may be there or not. *)
#[export] Instance franzProducer : Producer := λ topic payload w,
  let published := set_topics (w_topics w ++ [(topic, payload)]) (bump w) in
  match env_outcome (w_tick w) with
  | Fine => (Ok tt, published)
  | FailBefore msg => (Err (ext_error msg), bump w)
  | FailAfter msg => (Err (ext_error msg), published)
  end.
End Repository.

Section Worker.
Context {R : OutboxRepository} {P : Producer}.

(** The loop of [processBatch]. *)
Fixpoint process_events (events : list Event) : prog unit :=
  match events with
  | [] => Ret tt
  | ev :: rest =>
    let+ err := call (Publish (Event_Topic ev) (Event_Payload ev)) in
    match err with
    | Err e => let+ _ := call (MarkFailed (Event_ID ev) e) in process_events rest
    | Ok _ => let+ _ := call (MarkPublished (Event_ID ev)) in process_events rest
    end
  end.

Definition processBatch : prog unit :=
  let+ r := call (FetchPendingEvents 50) in
  match r with
  | Err _ => Ret tt
  | Ok events => process_events events
  end.

(** [Start] until its context is cancelled, after [n] ticks of the ticker. *)
Fixpoint Start (n : nat) : prog unit :=
  match n with
  | O => Ret tt
  | S n' => let+ _ := processBatch in Start n'
  end.
End Worker.

(** ** What the outbox promises to a transaction *)

Section Contract.
Context `{Env}.

(** One new event, to be published at once, and nothing else changed. *)
Definition enqueued (topic : string) (payload : json) (now : Z) (d d' : DB) : Prop :=
  ∃ ev, outbox_events d !! Event_ID ev = None ∧ varchar 255 topic = Ok (Event_Topic ev) ∧
    Event_Payload ev = payload ∧ Event_Status ev = StatusPending ∧ Event_Attempts ev = 0 ∧
    Event_NextRetryAt ev = now ∧ Event_CreatedAt ev = now ∧
    canonical (Event_ID ev) ∧
    d' = set_outbox_events (<[Event_ID ev := ev]> (outbox_events d)) d.

Class OutboxContract (O : OutboxRepository) : Prop := {
  insert_event_ok topic payload w u w' :
    InsertEvent topic payload w = (Ok u, w') →
    enqueued topic payload (w_now w) (w_db w) (w_db w') ∧ silent w w';
  insert_event_available topic payload w :
    no_faults (w_tick w) → supplied w → is_ok (varchar 255 topic) →
    ∃ w', InsertEvent topic payload w = (Ok tt, w') ∧ supplied w' ∧ w_tick w' = S (w_tick w);
}.
End Contract.

Section Implementation.
Context `{UuidLaws}.

Lemma sql_insert_event_ok topic payload c d u d' :
  uuid_in (c_uuid c) = Some (c_uuid c) →
  sql_insert_event topic payload c d = Ok (u, d') → enqueued topic payload (c_now c) d d'.
Proof.
  intros Hc Hq. unfold sql_insert_event in Hq. m_inv.
  eexists (mkEvent _ _ _ _ _ _ _ _ _). simpl. repeat (split; [eassumption || reflexivity || exact Hc|]). reflexivity.
Qed.

#[export] Instance outbox_contract_postgres : OutboxContract postgresRepository.
Proof.
  split.
  - intros topic payload w u w' Hrun. split; [|exact (query_silent _ _ _ _ Hrun)].
    apply query_ok in Hrun as (d & Hq & ->). simpl.
    exact (sql_insert_event_ok _ _ (ctx w) _ _ _ (env_uuid_canonical _) Hq).
  - intros topic payload w Hf Hs (t & Ht)%is_ok_inv.
    pose proof (supplied_now _ Hs) as (_&_&_&_&_&_&_&_&Hn&_).
    edestruct (query_insert (sql_insert_event topic payload) w) as [Hrun Hs'];
      [by apply no_faults_now|done| | |eexists; split; [exact Hrun|by split]].
    + unfold sql_insert_event. rewrite Ht. simpl.
      by rewrite (insert_pk_fresh _ _ _ _ Hn).
    + solve_unused.
Qed.
End Implementation.

(** ** Fetching *)

#[export] Instance created_before_total : Total created_before.
Proof. intros e1 e2. unfold created_before. lia. Qed.

#[export] Instance created_before_trans : Transitive created_before.
Proof. intros e1 e2 e3. unfold created_before. lia. Qed.

Definition pending_due (now : Z) (d : DB) : list Event :=
  filter (due now) (map_to_list (outbox_events d)).*2.

Lemma elem_of_pending_due now d ev :
  ev ∈ pending_due now d ↔ due now ev ∧ ∃ id, outbox_events d !! id = Some ev.
Proof.
  unfold pending_due. rewrite list_elem_of_filter, list_elem_of_fmap. f_equiv. split.
  - intros ([id ev'] & -> & Hin%elem_of_map_to_list). eauto.
  - intros (id & Hid). exists (id, ev). by rewrite elem_of_map_to_list.
Qed.

(** The events of a table keyed by their ids. *)
Definition keyed (d : DB) : Prop :=
  ∀ id ev, outbox_events d !! id = Some ev → Event_ID ev = id.

Lemma NoDup_pending_due now d : keyed d → NoDup (Event_ID <$> pending_due now d).
Proof.
  intros Hk. unfold pending_due.
  assert (Hids : Event_ID <$> (map_to_list (outbox_events d)).*2 = (map_to_list (outbox_events d)).*1).
  { rewrite <- list_fmap_compose. apply list_fmap_ext. intros i [id ev] Hi%list_elem_of_lookup_2.
    apply elem_of_map_to_list in Hi. simpl. eauto. }
  eapply sublist_NoDup; [|apply fmap_sublist, sublist_filter].
  rewrite Hids. apply NoDup_fst_map_to_list.
Qed.

(** What [FetchPendingEvents] returns when it succeeds. *)
Definition fetched (limit now : Z) (d : DB) : list Event :=
  scan_event <$> take (Z.to_nat limit) (merge_sort created_before (pending_due now d)).

Lemma fetch_ok `{Env} limit w evs w' :
  FetchPendingEvents limit w = (Ok evs, w') →
  evs = fetched limit (w_now w') (w_db w) ∧ w_db w' = w_db w.
Proof.
  intros (d & Hq & ->)%exec_ok. unfold sql_fetch_pending in Hq. simpl in *. by simplify_eq.
Qed.

Lemma elem_of_fetched limit now d ev :
  ev ∈ fetched limit now d →
  ∃ id ev0, outbox_events d !! id = Some ev0 ∧ due now ev0 ∧ ev = scan_event ev0.
Proof.
  intros (ev0 & -> & Hin)%list_elem_of_fmap.
  apply (subseteq_take _ _ _) in Hin. rewrite merge_sort_Permutation in Hin.
  apply elem_of_pending_due in Hin as (Hd & id & Hid). eauto.
Qed.

(** The fetched events are the oldest of those that are due. *)
Lemma fetched_oldest limit now d :
  let evs := fetched limit now d in
  StronglySorted created_before evs ∧ (length evs ≤ Z.to_nat limit)%nat ∧
  (∀ ev0, ev0 ∈ pending_due now d → Event_ID ev0 ∉ Event_ID <$> evs →
     length evs = Z.to_nat limit ∧ Forall (λ ev, created_before ev ev0) evs).
Proof.
  unfold fetched. set (sorted := merge_sort created_before (pending_due now d)).
  assert (Hs : StronglySorted created_before sorted) by (apply StronglySorted_merge_sort; apply _).
  rewrite <- (take_drop (Z.to_nat limit) sorted) in Hs. apply StronglySorted_app in Hs as (Hle & Hs & _).
  split; [apply (StronglySorted_fmap scan_event created_before); [by unfold created_before|done]|].
  rewrite length_fmap, length_take. split; [lia|].
  intros ev0 Hin Hout.
  assert (Hdrop : ev0 ∈ drop (Z.to_nat limit) sorted).
  { unfold sorted in Hout |- *. rewrite <- (merge_sort_Permutation created_before) in Hin.
    rewrite <- (take_drop (Z.to_nat limit) (merge_sort _ _)) in Hin.
    apply elem_of_app in Hin as [Hin|Hin]; [|done]. destruct Hout.
    rewrite <- list_fmap_compose. apply (list_elem_of_fmap_2 (Event_ID ∘ scan_event) _ _ Hin). }
  split.
  - assert (length (drop (Z.to_nat limit) sorted) ≠ 0%nat).
    { intros Hl%nil_length_inv. rewrite Hl in Hdrop. by apply not_elem_of_nil in Hdrop. }
    rewrite length_drop in *. lia.
  - apply Forall_fmap, Forall_forall. intros ev Hev. apply (Hle ev ev0); done.
Qed.

(** ** At least once *)

Section AtLeastOnce.
Context `{UuidLaws}.

(** An event marked published was accepted by the broker. *)
Definition delivered (w : World) : Prop :=
  ∀ id ev, outbox_events (w_db w) !! id = Some ev →
    Event_ID ev = id ∧ canonical id ∧
    (Event_Status ev = StatusPublished → (Event_Topic ev, Event_Payload ev) ∈ w_topics w).

(** What every component does to the outbox: the broker forgets nothing, and an
    event keeps its topic and payload. *)
Definition evolves (w w' : World) : Prop :=
  (∀ m, m ∈ w_topics w → m ∈ w_topics w') ∧
  ∀ id ev, outbox_events (w_db w) !! id = Some ev →
    ∃ ev', outbox_events (w_db w') !! id = Some ev' ∧
      Event_Topic ev' = Event_Topic ev ∧ Event_Payload ev' = Event_Payload ev.

(** The worker's copy of an event agrees with the table. *)
Definition tracked (w : World) (ev : Event) : Prop :=
  ∃ stored, outbox_events (w_db w) !! Event_ID ev = Some stored ∧
    Event_Topic stored = Event_Topic ev ∧ Event_Payload stored = Event_Payload ev.

Lemma evolves_refl w w' :
  w_topics w' = w_topics w → w_db w' = w_db w → evolves w w'.
Proof. intros Ht Hd. split; [by rewrite Ht|]. rewrite Hd. eauto. Qed.

Lemma stable_tracked evs : stable delivered evolves (λ w, Forall (tracked w) evs).
Proof.
  intros w w' _ Hall [_ He] _. eapply Forall_impl; [exact Hall|].
  intros ev (st & Hst & Ht & Hp). destruct (He _ _ Hst) as (st' & ? & ? & ?).
  exists st'. split; [done|]. split; congruence.
Qed.

Lemma delivered_same w w' :
  w_db w' = w_db w → (∀ m, m ∈ w_topics w → m ∈ w_topics w') → delivered w → delivered w'.
Proof. intros Hd Ht Hw id ev. rewrite Hd. intros Hid. destruct (Hw _ _ Hid) as (?&?&?). eauto 6. Qed.

Lemma publish_step topic payload w :
  let w' := (Publish topic payload w).2 in
  w_db w' = w_db w ∧ (∀ m, m ∈ w_topics w → m ∈ w_topics w') ∧
  (is_ok (Publish topic payload w).1 → (topic, payload) ∈ w_topics w').
Proof.
  unfold Publish, franzProducer. destruct (env_outcome (w_tick w)); simpl;
    repeat split; auto; try done; intros; rewrite elem_of_app, ?list_elem_of_singleton; auto.
Qed.

(** An update of one row that keeps its topic and payload. *)
Lemma update_event_step id f w :
  (∀ now ev ev', outbox_events (w_db w) !! id = Some ev → f now ev = Ok ev' →
     Event_ID ev' = Event_ID ev ∧ Event_Topic ev' = Event_Topic ev ∧
     Event_Payload ev' = Event_Payload ev ∧
     (Event_Status ev' = StatusPublished → (Event_Topic ev, Event_Payload ev) ∈ w_topics w)) →
  canonical id → delivered w →
  let w' := (exec (sql_update_event id f) w).2 in delivered w' ∧ evolves w w'.
Proof.
  intros Hf Hid Hw w'.
  pose proof (exec_topics (sql_update_event id f) w) as Ht. fold w' in Ht.
  destruct (exec (sql_update_event id f) w) as [r w''] eqn:Hrun. subst w'. simpl in *.
  apply exec_cases in Hrun as [(e & _ & Hdb)|([] & d & Hq & <- & _)].
  { split; [eapply delivered_same; eauto; by rewrite Ht|by apply evolves_refl]. }
  unfold sql_update_event, uuid_param in Hq. unfold canonical in Hid. rewrite Hid in Hq. simpl in Hq.
  destruct (outbox_events (w_db w) !! id) as [ev|] eqn:Hev;
    [|injection Hq as Hdb; symmetry in Hdb].
  2: { split; [eapply delivered_same; eauto; by rewrite Ht|by apply evolves_refl]. }
  destruct (Hw _ _ Hev) as (Hk & _ & _).
  apply res_bind_ok in Hq as (ev' & Hfx & [= Hdb]).
  destruct (Hf _ _ _ eq_refl Hfx) as (Hi & Htp & Hpl & Hpub).
  split.
  - intros k ev0 Hk0. rewrite <- Hdb in Hk0. simpl in Hk0. rewrite Ht.
    destruct (decide (k = id)) as [->|Hne]; simplify_map_eq; [|by apply Hw].
    split; [congruence|]. split; [done|]. intros Hs. rewrite Htp, Hpl. auto.
  - split; [by rewrite Ht|]. intros k ev0 Hk0. rewrite <- Hdb. simpl.
    destruct (decide (k = id)) as [->|Hne]; simplify_map_eq; eauto.
Qed.

Lemma safe_process_events evs :
  safe delivered evolves (process_events evs) (λ w, Forall (tracked w) evs).
Proof.
  induction evs as [|ev evs IH]; [done|]. simpl.
  exists (λ r w, Forall (tracked w) (ev :: evs) ∧
    (is_ok r → (Event_Topic ev, Event_Payload ev) ∈ w_topics w)).
  split; [|split].
  - intros w Hw Htr.
    destruct (publish_step (Event_Topic ev) (Event_Payload ev) w) as (Hdb & Hmono & Hok).
    split; [by eapply delivered_same|].
    split; [split; [done|]; rewrite Hdb; eauto|]. split; [|done].
    unfold tracked. by rewrite Hdb.
  - intros r w w' HI [Htr Hok] HR HI'. split; [exact (stable_tracked _ _ _ HI Htr HR HI')|].
    intros Hr. apply HR. auto.
  - intros r. assert (Hnext : ∀ w f, Forall (tracked w) (ev :: evs) → delivered w →
      (∀ now st st', tracked w ev → Event_ID st = Event_ID ev →
         Event_Topic st = Event_Topic ev → Event_Payload st = Event_Payload ev →
         f now st = Ok st' → Event_ID st' = Event_ID st ∧ Event_Topic st' = Event_Topic st ∧
           Event_Payload st' = Event_Payload st ∧ (Event_Status st' = StatusPublished →
             (Event_Topic st, Event_Payload st) ∈ w_topics w)) →
      let w' := (exec (sql_update_event (Event_ID ev) f) w).2 in
      delivered w' ∧ evolves w w' ∧ Forall (tracked w') evs).
    { intros w f Htr Hw Hf w'. pose proof Htr as [Hev Hevs]%Forall_cons.
      destruct Hev as (st & Hst & Ht & Hp). destruct (Hw _ _ Hst) as (Hkey & Hcan & _).
      destruct (update_event_step (Event_ID ev) f w) as [HI HR]; [|done..|].
      { intros now e e' He. assert (e = st) as -> by congruence. apply Hf; [by exists st|done..]. }
      split; [exact HI|]. split; [exact HR|]. exact (stable_tracked _ _ _ Hw Hevs HR HI). }
    destruct r as [u|e]; exists (λ _ w, Forall (tracked w) evs);
      (split; [|split; [intros _; apply stable_tracked|intros _; exact IH]]);
      intros w Hw [Htr Hok]; apply Hnext; try done.
    + intros now st st' _ _ Ht Hp [= <-]. simpl. rewrite Ht, Hp. by auto.
    + intros now st st' _ _ Ht Hp Hm. unfold mark_failed_row in Hm. m_inv. simpl.
      repeat split. by destruct (5 <=? _).
Qed.

Lemma fetched_tracked limit now w :
  delivered w → Forall (tracked w) (fetched limit now (w_db w)).
Proof.
  intros Hw. apply Forall_forall. intros ev (id & ev0 & Hid & _ & ->)%elem_of_fetched.
  destruct (Hw _ _ Hid) as (<- & _ & _). by exists ev0.
Qed.

Lemma safe_processBatch : safe delivered evolves processBatch (λ _, True).
Proof.
  exists (λ r w, match r with Ok evs => Forall (tracked w) evs | Err _ => True end).
  split; [|split].
  - intros w Hw _. destruct (FetchPendingEvents 50 w) as [r w'] eqn:Hrun.
    pose proof (exec_topics (sql_fetch_pending 50) w) as Ht. simpl in Hrun.
    rewrite Hrun in Ht. simpl in Ht.
    assert (Hdb : w_db w' = w_db w).
    { apply exec_cases in Hrun as [(?&_&?)|(a&d&Hq&Hdb&_)]; [done|].
      unfold sql_fetch_pending in Hq. congruence. }
    simpl. split; [eapply delivered_same; eauto; by rewrite Ht|].
    split; [by apply evolves_refl|]. destruct r as [evs|e]; [|done].
    apply fetch_ok in Hrun as [-> _]. rewrite <- Hdb. apply fetched_tracked.
    eapply delivered_same; eauto. by rewrite Ht.
  - intros [evs|e]; [apply stable_tracked|done].
  - intros [evs|e]; [apply safe_process_events|done].
Qed.

Lemma safe_Start n : safe delivered evolves (Start n) (λ _, True).
Proof.
  induction n as [|n IH]; [done|]. apply safe_bind; [apply safe_processBatch|].
  intros _. exact IH.
Qed.

(** A transaction that only inserts an event, as the services end theirs. *)
Definition insert_in_tx (topic : string) (payload : json) : prog unit :=
  let+ _ := call (with_tx (InsertEvent topic payload)) in Ret tt.

Lemma enqueued_delivered topic payload w w' :
  enqueued topic payload (w_now w) (w_db w) (w_db w') → w_topics w' = w_topics w →
  delivered w → delivered w' ∧ evolves w w'.
Proof.
  intros (ev & Hnew & _ & _ & Hst & _ & _ & _ & Hcan & Hdb) Ht Hw. split.
  - intros id ev0. rewrite Hdb, Ht. simpl.
    destruct (decide (id = Event_ID ev)) as [->|Hne]; intros Hid; simplify_map_eq; [|by apply Hw].
    split; [done|]. split; [done|]. by rewrite Hst.
  - split; [by rewrite Ht|]. intros id ev0 Hid. rewrite Hdb. simpl.
    exists ev0. rewrite lookup_insert_ne by congruence. auto.
Qed.

Lemma safe_insert_in_tx topic payload :
  safe delivered evolves (insert_in_tx topic payload) (λ _, True).
Proof.
  exists (λ _ _, True). split; [|done]. intros w Hw _.
  assert (Ht : w_topics (with_tx (InsertEvent topic payload) w).2 = w_topics w)
    by (apply with_tx_topics; intros; apply query_topics).
  destruct (with_tx (InsertEvent topic payload) w) as [r w'] eqn:Hrun. cbn [fst snd] in *.
  apply with_tx_cases in Hrun as [(e & _ & Hdb)|(u & w1 & Hbody & -> & _)].
  - split; [|split; [|done]]; [|by apply evolves_refl].
    eapply delivered_same; eauto. by rewrite Ht.
  - apply insert_event_ok in Hbody as [Henq Hs].
    destruct (enqueued_delivered topic payload (bump (start w)) w1) as [HI HR]; [done|apply Hs|done|].
    split; [exact HI|]. split; [exact HR|done].
Qed.
End AtLeastOnce.

(** ** Delivery when nothing fails *)

Section Delivery.
Context `{Env}.

Definition message (ev : Event) : string * json := (Event_Topic ev, Event_Payload ev).

(** The events of [ids] are published, the others untouched. *)
Definition published_exactly (ids : list string) (d d' : DB) : Prop :=
  ∀ id ev, outbox_events d !! id = Some ev →
    ∃ ev', outbox_events d' !! id = Some ev' ∧
      if decide (id ∈ ids) then Event_Status ev' = StatusPublished else ev' = ev.

Lemma publish_fine topic payload w :
  env_outcome (w_tick w) = Fine →
  Publish topic payload w = (Ok tt, set_topics (w_topics w ++ [(topic, payload)]) (bump w)).
Proof. unfold Publish, franzProducer. by intros ->. Qed.

Lemma process_events_fine evs w :
  no_faults (w_tick w) → Forall (λ ev, canonical (Event_ID ev) ∧
    is_Some (outbox_events (w_db w) !! Event_ID ev)) evs →
  let w' := (run (process_events evs) w).2 in
  w_topics w' = w_topics w ++ (message <$> evs) ∧
  published_exactly (Event_ID <$> evs) (w_db w) (w_db w').
Proof.
  revert w. induction evs as [|ev evs IH]; intros w Hf Hall; simpl.
  { rewrite app_nil_r. split; [done|]. intros id ev0 Hid. exists ev0.
    by rewrite decide_False by apply not_elem_of_nil. }
  apply Forall_cons in Hall as [[Hc [st Hst]] Hall].
  rewrite publish_fine by by apply no_faults_now. simpl.
  rewrite exec_fine by apply (no_faults_now _ (no_faults_S _ Hf)).
  unfold sql_update_event, uuid_param. rewrite Hc. simpl. rewrite Hst. simpl.
  match goal with |- context [run _ ?w1] => destruct (IH w1) as [Ht Hp] end.
  { apply no_faults_S, no_faults_S, Hf. }
  { eapply Forall_impl; [exact Hall|]. intros e [? Hs]. simpl. split; [done|].
    destruct (decide (Event_ID e = Event_ID ev)) as [->|]; simplify_map_eq; eauto. }
  rewrite Ht. simpl. split; [by rewrite <- app_assoc|].
  intros id ev0 Hid. destruct (decide (id = Event_ID ev)) as [->|Hne].
  - simplify_eq. destruct (Hp (Event_ID ev) (mark_published_row (env_now (S (w_tick w))) st))
      as (ev' & Hev' & Hst'); [by simplify_map_eq|].
    exists ev'. split; [done|]. rewrite decide_True by (by left).
    case_decide; [done|]. by subst.
  - destruct (Hp id ev0) as (ev' & Hev' & Hst'); [by simplify_map_eq|].
    exists ev'. split; [done|]. revert Hst'. repeat case_decide; set_solver.
Qed.
End Delivery.


(** ** Properties *)

(** C22. An event is marked published only after the broker accepted it: whatever
    number of workers and inserting transactions run interleaved, and whatever
    fails, every event the table shows as published is among the records of the
    broker. *)
Theorem published_was_delivered `{UuidLaws} (ps ps' : list (prog unit)) w w' :
  Forall (λ p, (∃ n, p = Start n) ∨ (∃ topic payload, p = insert_in_tx topic payload)) ps →
  delivered w → interleaving (ps, w) (ps', w') →
  ∀ id ev, outbox_events (w_db w') !! id = Some ev → Event_Status ev = StatusPublished →
    (Event_Topic ev, Event_Payload ev) ∈ w_topics w'.
Proof.
  intros Hps Hw Hi id ev Hid. assert (Hw' : delivered w'); [|by apply (Hw' _ _ Hid)].
  eapply interleaving_safe; [|exact Hw|exact Hi].
  eapply Forall_impl; [exact Hps|]. intros p Hp. exists (λ _, True). split; [|done].
  destruct Hp as [[n ->]|(topic & payload & ->)]; [apply safe_Start|apply safe_insert_in_tx].
Qed.

(** C29. When nothing fails, a batch sends exactly the oldest fifty events that are
    due, in the order of their creation, marks each of them published and leaves
    every other event as it was. *)
Theorem process_batch_delivers `{UuidLaws} w :
  no_faults (w_tick w) → delivered w →
  let evs := fetched 50 (env_now (w_tick w)) (w_db w) in
  let w' := (run processBatch w).2 in
  w_topics w' = w_topics w ++ (message <$> evs) ∧
  published_exactly (Event_ID <$> evs) (w_db w) (w_db w') ∧
  StronglySorted created_before evs ∧ (length evs ≤ 50)%nat ∧
  (∀ ev0, ev0 ∈ pending_due (env_now (w_tick w)) (w_db w) → Event_ID ev0 ∉ Event_ID <$> evs →
     length evs = 50%nat ∧ Forall (λ ev, created_before ev ev0) evs).
Proof.
  intros Hf Hw evs w'. unfold w', processBatch. rewrite run_bind, run_call.
  assert (Hfetch : FetchPendingEvents 50 w =
    (Ok evs, Runtime.set_db (w_db w) (bump (start w)))).
  { simpl. rewrite exec_fine by by apply no_faults_now. done. }
  rewrite Hfetch.
  destruct (process_events_fine evs (Runtime.set_db (w_db w) (bump (start w)))) as [Ht Hp].
  - apply no_faults_S, Hf.
  - apply Forall_forall. intros ev (id & ev0 & Hid & _ & ->)%elem_of_fetched. simpl.
    destruct (Hw _ _ Hid) as (-> & Hc & _). eauto.
  - split; [exact Ht|]. split; [exact Hp|]. apply fetched_oldest.
Qed.

(** The row after a failure, while the dates stay in range. *)
Lemma mark_failed_row_fine msg now ev :
  0 <= Event_Attempts ev <= 5 → 0 <= now < timestamp_max - seconds 320 →
  mark_failed_row msg now ev = Ok (mkEvent (Event_ID ev) (Event_Topic ev) (Event_Payload ev)
    (if 5 <=? Event_Attempts ev then StatusFailed else StatusPending) (Event_Attempts ev + 1)
    (now + seconds 10 * 2 ^ Event_Attempts ev) (Some msg) (Event_CreatedAt ev) now) ∧
  1 <= 2 ^ Event_Attempts ev.
Proof.
  intros Ha Hn. unfold timestamp_max, seconds in *.
  unfold mark_failed_row, next_retry_at, int4, timestamp_max, seconds.
  assert (Hpow : 1 <= 2 ^ Event_Attempts ev <= 32).
  { split; [apply (Z.pow_le_mono_r 2 0); lia|].
    change 32 with (2 ^ 5). apply Z.pow_le_mono_r; lia. }
  rewrite decide_True by lia. simpl.
  rewrite bool_decide_eq_true_2 by (unfold in_int64, int64_min, int64_max; lia). simpl.
  destruct (Z.ltb_spec (now + 10 * 1000000 * 2 ^ Event_Attempts ev) 9223371331200000000);
    simpl; [split; [done|apply Hpow]|lia].
Qed.

(** A failed publication costs one attempt and postpones the event by ten
    seconds doubled at each previous attempt; the event is given up when it had
    five failures already. *)
Theorem mark_failed_backoff msg now ev :
  0 <= Event_Attempts ev <= 5 → 0 <= now < timestamp_max - seconds 320 →
  ∃ ev', mark_failed_row msg now ev = Ok ev' ∧
    Event_Attempts ev' = Event_Attempts ev + 1 ∧
    Event_NextRetryAt ev' = now + seconds 10 * 2 ^ Event_Attempts ev ∧
    (Event_Status ev' = StatusFailed ↔ Event_Attempts ev = 5) ∧
    ¬ due now ev'.
Proof.
  intros Ha Hn. destruct (mark_failed_row_fine msg now ev Ha Hn) as [-> Hpow].
  eexists. split; [done|]. simpl. split_and!; [done|done| |].
  - destruct (Z.leb_spec 5 (Event_Attempts ev)); split; intros; try lia; done.
  - unfold due, seconds. simpl. lia.
Qed.

(** Two workers may select the same event, and it is then published twice:
    there is a schedule of two batches in which nothing fails and the broker
    receives the only event two times. *)
Theorem two_workers_publish_twice :
  ∃ w sched ev, delivered w ∧ outbox_events (w_db w) = {[Event_ID ev := ev]} ∧
    w_topics (schedule sched ([processBatch; processBatch], w)).2 = [message ev; message ev].
Proof.
  set (ev := mkEvent "e1" "transfer.events" JNull StatusPending 0 0 None 0 0).
  exists (sample_world (set_outbox_events {["e1" := ev]} empty_db)), [0; 1; 0; 0; 1; 1]%nat, ev.
  split; [|split; [done|by vm_compute]].
  intros id ev0 Hid. simpl in Hid. apply lookup_singleton_Some in Hid as [<- <-]. done.
Qed.

(** [MarkFailed] does not look at the status: an event that was published is
    pending again after it, and due for another publication. *)
Theorem mark_failed_reopens_published `{UuidLaws} id ev e w :
  no_faults (w_tick w) → canonical id → outbox_events (w_db w) !! id = Some ev →
  Event_Status ev = StatusPublished → 0 <= Event_Attempts ev < 5 →
  0 <= env_now (w_tick w) < timestamp_max - seconds 320 →
  ∃ ev', outbox_events (w_db (MarkFailed id e w).2) !! id = Some ev' ∧
    Event_Status ev' = StatusPending.
Proof.
  intros Hf Hc Hid Hst Ha Hn. simpl. rewrite exec_fine by by apply no_faults_now.
  unfold sql_update_event, uuid_param. rewrite Hc. simpl. rewrite Hid. simpl.
  destruct (mark_failed_row_fine (Error e) (env_now (w_tick w)) ev) as [-> _]; [lia|done|].
  simpl. eexists. rewrite lookup_insert_eq. split; [done|]. simpl.
  destruct (Z.leb_spec 5 (Event_Attempts ev)); [lia|done].
Qed.

(** ** Witnesses *)

Definition sample_event : Event :=
  mkEvent "e1" "transfer.events" JNull StatusPending 0 0 None 0 0.

Definition sample_outbox_db : DB := set_outbox_events {["e1" := sample_event]} empty_db.

Lemma sample_delivered : delivered (sample_world sample_outbox_db).
Proof.
  intros id ev Hid. simpl in Hid. apply lookup_singleton_Some in Hid as [<- <-]. done.
Qed.

Lemma published_was_delivered_witness :
  ∃ w', Event_Status <$> (outbox_events (w_db w') !! "e1") = Some StatusPublished ∧
    ("transfer.events", JNull) ∈ w_topics w'.
Proof.
  set (ps := [Start 1; insert_in_tx "payment.events" JNull; Start 1]).
  set (c := schedule [0; 2; 1; 0; 0]%nat (ps, sample_world sample_outbox_db)).
  exists c.2. split; [by vm_compute|].
  assert (Hi : interleaving (ps, sample_world sample_outbox_db) (c.1, c.2)).
  { rewrite <- surjective_pairing. apply schedule_interleaving. }
  assert (Hps : Forall (λ p, (∃ n, p = Start n) ∨
    (∃ topic payload, p = insert_in_tx topic payload)) ps).
  { unfold ps. repeat (apply Forall_cons; split); eauto 6. }
  refine (published_was_delivered ps c.1 _ c.2 Hps sample_delivered Hi "e1"
    (default sample_event (outbox_events (w_db c.2) !! "e1")) _ _); vm_compute; reflexivity.
Defined.

Lemma process_batch_delivers_witness :
  w_topics (run processBatch (sample_world sample_outbox_db)).2 = [("transfer.events", JNull)].
Proof.
  destruct (process_batch_delivers (sample_world sample_outbox_db)) as [-> _];
    [apply sample_no_faults|apply sample_delivered|]. vm_compute. reflexivity.
Defined.

Lemma mark_failed_backoff_witness :
  ∃ ev', mark_failed_row "broker down" 0
      (mkEvent "e1" "transfer.events" JNull StatusPending 5 0 None 0 0) = Ok ev' ∧
    Event_Status ev' = StatusFailed ∧ Event_NextRetryAt ev' = seconds 320.
Proof.
  destruct (mark_failed_backoff "broker down" 0
    (mkEvent "e1" "transfer.events" JNull StatusPending 5 0 None 0 0))
    as (ev' & Hm & _ & Hr & Hf & _); [simpl; lia|unfold timestamp_max, seconds; lia|].
  exists ev'. split; [exact Hm|]. split; [by apply Hf|exact Hr].
Defined.

Lemma mark_failed_reopens_published_witness :
  ∃ ev', outbox_events (w_db (MarkFailed "e1" (ext_error "broker down") (sample_world
      (set_outbox_events {["e1" := mark_published_row 0 sample_event]} empty_db))).2) !! "e1"
    = Some ev' ∧ Event_Status ev' = StatusPending.
Proof.
  apply (mark_failed_reopens_published "e1" (mark_published_row 0 sample_event));
    [apply sample_no_faults|reflexivity|reflexivity|reflexivity|simpl; lia|
     simpl; unfold timestamp_max, seconds; lia].
Defined.
