(* ===== verification/Idempotency.v ===== *)
(** * Idempotency keys (internal/idempotency/repository.go)

    A request's key is claimed by inserting it; the primary key makes the claim
    exclusive.  The stored response is replayed to later requests with the key. *)

From S2P Require Import Prelude Go Models Postgres Runtime Sample.
Import idempotency.
#[local] Open Scope go_scope.
#[local] Open Scope prog_scope.
#[local] Open Scope Z_scope.

(** ** The code *)

Definition ErrKeyInProgress : error :=
  errors_New "idempotency.ErrKeyInProgress" "request is currently in progress".

Class IdempotencyRepository := {
  TryAcquire : string → json → prog (Res (option KeyRecord));
  Complete : string → json → Z → M unit;
}.

Section Repository.
Context `{Env}.

(** [INSERT INTO idempotency_keys (key, status, request_payload, locked_at)] *)
Definition sql_insert_key (key : string) (requestPayload : json) (c : Ctx) (d : DB)
  : Res (unit * DB) :=
  let? key := varchar 255 key in
  let? st := varchar 50 StatusInProgress in
  let? t := insert_pk "idempotency_keys_pkey" (idempotency_keys d) key
              (mkKeyRow key st requestPayload None None (Some (c_now c)) (c_now c)) in
  Ok (tt, set_idempotency_keys t d).

(** [SELECT key, status, request_payload, response_payload, response_status] *)
Definition sql_select_key (key : string) (c : Ctx) (d : DB) : Res (KeyRow * DB) :=
  match idempotency_keys d !! key with
  | Some row => Ok (row, d)
  | None => Err pgx_ErrNoRows
  end.

(** [UPDATE idempotency_keys SET status = $1, response_payload = $2,
    response_status = $3 WHERE key = $4] *)
Definition sql_complete_key (key : string) (responsePayload : json) (statusCode : Z)
    (c : Ctx) (d : DB) : Res (unit * DB) :=
  match idempotency_keys d !! key with
  | None => Ok (tt, d)
  | Some row =>
    let? st := varchar 50 StatusCompleted in
    let? code := int4 statusCode in
    Ok (tt, set_idempotency_keys
      (<[key := mkKeyRow (Row_Key row) st (Row_RequestPayload row) (Some responsePayload)
                  (Some code) (Row_LockedAt row) (Row_CreatedAt row)]> (idempotency_keys d)) d)
  end.

(** The record as scanned: a NULL column leaves the zero value. *)
Definition scan_record (row : KeyRow) : KeyRecord :=
  mkKeyRecord (Row_Key row) (Row_Status row) (Row_RequestPayload row)
    (Row_ResponsePayload row) (default 0 (Row_ResponseStatus row)).

(** After the insert failed: fetch the existing record. *)
Definition fetch_existing (key : string) : prog (Res (option KeyRecord)) :=
  let* row := call (exec (sql_select_key key)) in
  let rec := scan_record row in
  if bool_decide (Rec_Status rec = StatusInProgress) then Ret (Err ErrKeyInProgress)
  else Ret (Ok (Some rec)).

#[export] Instance postgresRepository : IdempotencyRepository := {|
  TryAcquire key requestPayload :=
    let+ err := call (exec (sql_insert_key key requestPayload)) in
    match err with
    | Ok _ => Ret (Ok None)
    | Err _ => fetch_existing key
    end;
  Complete key responsePayload statusCode :=
    exec (sql_complete_key key responsePayload statusCode);
|}.
End Repository.

(** ** One statement at a time *)

Section Statements.
Context `{Env}.

Lemma sql_insert_key_ok key payload c d u d' :
  sql_insert_key key payload c d = Ok (u, d') →
  ∃ k, varchar 255 key = Ok k ∧ idempotency_keys d !! k = None ∧
    d' = set_idempotency_keys (<[k := mkKeyRow k StatusInProgress payload None None
           (Some (c_now c)) (c_now c)]> (idempotency_keys d)) d.
Proof. unfold sql_insert_key. intros Hq. m_inv. eexists. split; [done|]. split; [done|]. done. Qed.

Lemma sql_insert_key_fresh key payload c d :
  varchar 255 key = Ok key → idempotency_keys d !! key = None →
  sql_insert_key key payload c d = Ok (tt, set_idempotency_keys
    (<[key := mkKeyRow key StatusInProgress payload None None (Some (c_now c)) (c_now c)]>
       (idempotency_keys d)) d).
Proof. intros Hv Hn. unfold sql_insert_key. rewrite Hv. simpl. by rewrite insert_pk_fresh. Qed.

Lemma sql_insert_key_taken key payload c d row :
  varchar 255 key = Ok key → idempotency_keys d !! key = Some row →
  sql_insert_key key payload c d = Err (unique_violation "idempotency_keys_pkey").
Proof. intros Hv Hn. unfold sql_insert_key, insert_pk. rewrite Hv. simpl. by rewrite Hn. Qed.
End Statements.

(** ** Claiming a key *)

Section Exclusion.
Context `{Env}.

(** The key has a row (under the spelling the column stores). *)
Definition present (key : string) (d : DB) : Prop :=
  ∃ k, varchar 255 key = Ok k ∧ is_Some (idempotency_keys d !! k).

#[export] Instance present_dec key d : Decision (present key d).
Proof.
  unfold present. destruct (varchar 255 key) as [k|e].
  - destruct (decide (is_Some (idempotency_keys d !! k))) as [Hs|Hn]; [left; eauto|].
    right. intros (k' & [= <-] & Hs). done.
  - right. by intros (k' & ? & _).
Defined.

(** A goroutine that was told to process the request. *)
Definition winner {A} (p : prog (Res (option A))) : bool :=
  match p with Ret (Ok None) => true | _ => false end.

(** The points of [TryAcquire] between two statements. *)
Inductive acquiring (key : string) : prog (Res (option KeyRecord)) → Prop :=
| at_insert payload : acquiring key (TryAcquire key payload)
| at_select : acquiring key (fetch_existing key)
| at_end r : acquiring key (Ret r).

Lemma exec_select_db key w r w' : exec (sql_select_key key) w = (r, w') → w_db w' = w_db w.
Proof.
  intros [(e & _ & Hd)|(row & d & Hq & -> & _)]%exec_cases; [done|].
  unfold sql_select_key in Hq. destruct (_ !! _); by simplify_eq.
Qed.

(** One step of a claiming goroutine: it wins only by inserting the key. *)
Lemma acquiring_step key p p' w w' :
  acquiring key p → prog_step p w = Some (p', w') →
  acquiring key p' ∧ winner p = false ∧
  (present key (w_db w) → present key (w_db w')) ∧
  (winner p' = true → ¬ present key (w_db w) ∧ present key (w_db w')).
Proof.
  destruct 1 as [payload| |r]; simpl.
  - destruct (exec (sql_insert_key key payload) w) as [r w1] eqn:Hrun. intros [= <- <-].
    apply exec_cases in Hrun as [(e & -> & Hdb)|(u & d & Hq & Hdb & Hr)].
    + split; [constructor|]. rewrite Hdb. done.
    + apply sql_insert_key_ok in Hq as (k & Hk & Hn & Hd).
      assert (Hp : present key (w_db w1)).
      { exists k. split; [done|]. rewrite Hdb, Hd. simpl. rewrite lookup_insert_eq. eauto. }
      split; [destruct Hr as [->|[e ->]]; constructor|]. split; [done|]. split; [done|].
      intros _. split; [|done]. intros (k' & Hk' & [row Hrow]). congruence.
  - destruct (exec (sql_select_key key) w) as [r w1] eqn:Hrun. intros [= <- <-].
    rewrite (exec_select_db _ _ _ _ Hrun).
    split; [|split; [done|split; [done|]]].
    + destruct r as [row|e]; [case_bool_decide|]; constructor.
    + destruct r as [row|e]; [case_bool_decide|]; done.
  - done.
Qed.

Lemma acquiring_invariant key ps w ps' w' :
  Forall (acquiring key) ps ∧ (count_if winner ps ≤ if decide (present key (w_db w)) then 1 else 0)%nat →
  interleaving (ps, w) (ps', w') →
  Forall (acquiring key) ps' ∧
  (count_if winner ps' ≤ if decide (present key (w_db w')) then 1 else 0)%nat.
Proof.
  intros Hw. refine (interleaving_invariant (λ ps w, Forall (acquiring key) ps ∧
    (count_if winner ps ≤ if decide (present key (w_db w)) then 1 else 0)%nat) _ _ _ _ _ Hw).
  clear. intros ps w i p p' w' [Hall Hc] Hi Hp.
  destruct (acquiring_step key p p' w w' (Forall_lookup_1 _ _ _ _ Hall Hi) Hp)
    as (Hp' & Hwin & Hmono & Hnew).
  split; [by apply Forall_insert|].
  pose proof (count_if_insert winner ps i p p' Hi) as Heq. rewrite Hwin in Heq.
  destruct (winner p') eqn:Hwin'.
  - destruct (Hnew eq_refl) as [Hn Hy]. rewrite decide_False in Hc by done.
    rewrite decide_True by done. lia.
  - repeat case_decide; try lia. tauto.
Qed.
End Exclusion.

(** ** Replaying a response *)

Section Replay.
Context `{Env}.

(** The claim as a row. *)
Lemma acquired_row key payload w w1 :
  varchar 255 key = Ok key → run (TryAcquire key payload) w = (Ok None, w1) →
  ∃ now, idempotency_keys (w_db w1) !! key =
           Some (mkKeyRow key StatusInProgress payload None None (Some now) now).
Proof.
  intros Hkey. simpl.
  destruct (exec (sql_insert_key key payload) w) as [[u|e] w'] eqn:Hins; simpl.
  - intros [= <-]. apply exec_ok in Hins as (d & Hq & ->).
    apply sql_insert_key_ok in Hq as (k & Hk & _ & ->).
    rewrite Hkey in Hk. injection Hk as <-. simpl. rewrite lookup_insert_eq. eauto.
  - destruct (exec (sql_select_key key) w') as [[row|e'] w2]; simpl; [case_bool_decide|]; done.
Qed.

Lemma completed_row key resp code w w' row :
  idempotency_keys (w_db w) !! key = Some row → Complete key resp code w = (Ok tt, w') →
  idempotency_keys (w_db w') !! key =
    Some (mkKeyRow (Row_Key row) StatusCompleted (Row_RequestPayload row) (Some resp) (Some code)
            (Row_LockedAt row) (Row_CreatedAt row)).
Proof.
  intros Hrow (d & Hq & ->)%exec_ok. unfold sql_complete_key in Hq. rewrite Hrow in Hq.
  change (varchar 50 StatusCompleted) with (Ok StatusCompleted) in Hq. simpl in Hq.
  unfold int4 in Hq. case_decide; [|done]. simplify_eq/=. by rewrite lookup_insert_eq.
Qed.

(** A row that is not in progress answers for its key. *)
Lemma replayed key payload w row :
  varchar 255 key = Ok key → idempotency_keys (w_db w) !! key = Some row →
  Row_Status row ≠ StatusInProgress → env_outcome (S (w_tick w)) = Fine →
  ∃ w', run (TryAcquire key payload) w = (Ok (Some (scan_record row)), w') ∧
        w_db w' = w_db w.
Proof.
  intros Hkey Hrow Hst Hfine. simpl.
  assert (Hins : ∃ e w1, exec (sql_insert_key key payload) w = (Err e, w1) ∧
            w_db w1 = w_db w ∧ w_tick w1 = S (w_tick w)).
  { unfold exec. rewrite (sql_insert_key_taken _ _ _ _ _ Hkey Hrow).
    destruct (env_outcome (w_tick w)); eauto. }
  destruct Hins as (e & w1 & -> & Hdb & Htick). simpl.
  rewrite exec_fine by congruence. unfold sql_select_key. rewrite Hdb, Hrow. simpl.
  rewrite bool_decide_eq_false_2 by done. simpl. eauto.
Qed.
End Replay.

(** ** Properties *)

(** However many requests with the same key run at once, and whatever fails, at
    most one of them is told to process the request. *)
Theorem try_acquire_exclusive `{Env} key payloads w ps' w' :
  interleaving (TryAcquire (IdempotencyRepository := postgresRepository) key <$> payloads, w)
    (ps', w') →
  ∀ i j, ps' !! i = Some (Ret (Ok None)) → ps' !! j = Some (Ret (Ok None)) → i = j.
Proof.
  intros Hi i j Hpi Hpj. destruct (decide (i = j)) as [|Hne]; [done|].
  destruct (acquiring_invariant key (TryAcquire key <$> payloads) w ps' w') as [_ Hc]; [|done|].
  - split.
    + apply Forall_fmap, Forall_forall. intros payload _. constructor.
    + rewrite count_if_zero; [lia|]. by apply Forall_fmap, Forall_forall.
  - pose proof (count_if_two winner ps' i j _ _ Hne Hpi Hpj eq_refl eq_refl).
    case_decide; lia.
Qed.

(** What each answer of [TryAcquire] means, whatever fails: told to process,
    the caller has just inserted the key, in progress and with its request; given
    a record, that row is in the table, with a status other than in progress, and
    nothing was written; told that the key is in progress, the table says so. *)
Theorem try_acquire_answers `{Env} key payload w r w' :
  varchar 255 key = Ok key → run (TryAcquire key payload) w = (r, w') →
  match r with
  | Ok None => ∃ now, idempotency_keys (w_db w) !! key = None ∧
      w_db w' = set_idempotency_keys (<[key := mkKeyRow key StatusInProgress payload None None
        (Some now) now]> (idempotency_keys (w_db w))) (w_db w)
  | Ok (Some rec) => w_db w' = w_db w ∧ Rec_Status rec ≠ StatusInProgress ∧
      scan_record <$> (idempotency_keys (w_db w) !! key) = Some rec
  | Err e => e = ErrKeyInProgress →
      Row_Status <$> (idempotency_keys (w_db w') !! key) = Some StatusInProgress
  end.
Proof.
  intros Hkey. simpl.
  destruct (exec (sql_insert_key key payload) w) as [[u|e] w1] eqn:Hins; simpl.
  { intros [= <- <-]. apply exec_ok in Hins as (d & Hq & ->).
    apply sql_insert_key_ok in Hq as (k & Hk & Hn & ->).
    rewrite Hkey in Hk. injection Hk as <-. eauto. }
  destruct (exec (sql_select_key key) w1) as [[row|e'] w2] eqn:Hsel; simpl.
  - pose proof (exec_select_db _ _ _ _ Hsel) as Hdb.
    apply exec_ok in Hsel as (d & Hq & ->). unfold sql_select_key in Hq.
    destruct (idempotency_keys (w_db w1) !! key) as [row'|] eqn:Hrow; [|done].
    injection Hq as Hr Hd. subst row' d. case_bool_decide as Hst; intros [= <- <-].
    + intros _. simpl. rewrite Hrow. simpl. by rewrite <- Hst.
    + simpl. apply exec_cases in Hins as [(_ & _ & Hdb')|(? & d' & Hq & Hd' & _)].
      * rewrite Hdb' in Hrow |- *. by rewrite Hrow.
      * apply sql_insert_key_ok in Hq as (k & Hk & Hn & Hd''). rewrite Hkey in Hk.
        injection Hk as <-. rewrite Hd', Hd'' in Hrow. simpl in Hrow.
        rewrite lookup_insert_eq in Hrow. by injection Hrow as <-.
  - intros [= <- <-] ->. exfalso. revert Hsel. unfold exec, sql_select_key.
    destruct (env_outcome _); [|done|]; by destruct (_ !! _).
Qed.

(** A completed request is replayed: once the goroutine that claimed the key has
    stored its response, every later [TryAcquire] with the key, whatever its request,
    returns that response and changes nothing.  Only the second statement's outcome
    matters: the insertion is refused or fails. *)
Theorem complete_then_replay `{Env} key payload resp code w w1 w2 payload' w3 :
  varchar 255 key = Ok key →
  run (TryAcquire key payload) w = (Ok None, w1) →
  Complete (IdempotencyRepository := postgresRepository) key resp code w1 = (Ok tt, w2) →
  idempotency_keys (w_db w3) !! key = idempotency_keys (w_db w2) !! key →
  env_outcome (S (w_tick w3)) = Fine →
  ∃ w4, run (TryAcquire key payload') w3 =
          (Ok (Some (mkKeyRecord key StatusCompleted payload (Some resp) code)), w4) ∧
        w_db w4 = w_db w3.
Proof.
  intros Hkey Hacq Hcomp Hsame Hfine.
  assert (Hrow : ∃ now, idempotency_keys (w_db w1) !! key =
            Some (mkKeyRow key StatusInProgress payload None None (Some now) now)).
  { by eapply acquired_row. }
  destruct Hrow as [now Hrow].
  rewrite (completed_row _ _ _ _ _ _ Hrow Hcomp) in Hsame.
  exact (replayed key payload' w3 _ Hkey Hsame ltac:(done) Hfine).
Qed.

(** ** Witnesses *)

Definition race : list (prog (Res (option KeyRecord))) * World :=
  schedule [1; 0; 0]%nat (TryAcquire "k1" <$> [JNum 1; JNum 2], sample_world empty_db).

Lemma try_acquire_exclusive_witness :
  race.1 !! 1%nat = Some (Ret (Ok None)) ∧
  ∀ j, race.1 !! j = Some (Ret (Ok None)) → 1%nat = j.
Proof.
  assert (Hwon : race.1 !! 1%nat = Some (Ret (Ok None))) by (vm_compute; reflexivity).
  split; [exact Hwon|]. intros j Hj.
  refine (try_acquire_exclusive "k1" [JNum 1; JNum 2] (sample_world empty_db) race.1 race.2
            _ 1%nat j Hwon Hj).
  exact (schedule_interleaving [1; 0; 0]%nat _).
Defined.

Lemma try_acquire_answers_witness :
  idempotency_keys (w_db race.2) !! "k1" ≠ None ∧
  (run (TryAcquire "k1" JNull) race.2).1 = Err ErrKeyInProgress ∧
  Row_Status <$> (idempotency_keys (w_db (run (TryAcquire "k1" JNull) race.2).2) !! "k1") =
    Some StatusInProgress.
Proof.
  split; [by vm_compute|]. split; [vm_compute; reflexivity|].
  apply (try_acquire_answers "k1" JNull race.2 (Err ErrKeyInProgress)
           (run (TryAcquire "k1" JNull) race.2).2); [| |reflexivity]; vm_compute; reflexivity.
Defined.

Definition acquired : World := (run (TryAcquire "k1" (JNum 7)) (sample_world empty_db)).2.
Definition completed : World := (Complete "k1" (JStr "done") 200 acquired).2.

Lemma complete_then_replay_witness :
  ∃ w4, run (TryAcquire "k1" JNull) completed =
    (Ok (Some (mkKeyRecord "k1" StatusCompleted (JNum 7) (Some (JStr "done")) 200)), w4) ∧
    w_db w4 = w_db completed.
Proof.
  apply (complete_then_replay "k1" (JNum 7) (JStr "done") 200 (sample_world empty_db) acquired
           completed JNull completed); vm_compute; reflexivity.
Defined.
