(* ===== verification/Wallets.v ===== *)
(** * Wallets (internal/wallets)

    A wallet is created together with its ledger account; its owner, and the
    system's roles, may look at it; the system may freeze it.  [WalletsRepository]
    is the Go interface and [postgresRepository] its implementation; the service and
    the handlers are written against the interface. *)

From S2P Require Import Prelude Go Models Postgres Runtime Sample Http Middleware.
Import wallets.
#[local] Open Scope m_scope.
#[local] Open Scope go_scope.
#[local] Open Scope prog_scope.
#[local] Open Scope Z_scope.

(** ** The code: repository *)

Definition ErrWalletNotFound : error :=
  errors_New "wallets.ErrWalletNotFound" "wallet not found".
Definition ErrUnauthorizedWalletAccess : error :=
  errors_New "wallets.ErrUnauthorizedWalletAccess" "unauthorized to access this wallet".
Definition err_currency_required : error := errors_New "" "currency is required".

Class WalletsRepository := {
  CreateWalletAndAccount : string → string → string → M Wallet;
  GetWalletByID : string → M Wallet;
  UpdateWalletStatus : string → WalletStatus → M unit;
  repo_GetTransactions : string → M (list Transaction);
  GetWalletsByOwner : string → M (list Wallet);
}.

(** [ORDER BY created_at] *)
Definition wallet_before (w1 w2 : Wallet) : Prop := Wallet_CreatedAt w1 <= Wallet_CreatedAt w2.
#[export] Instance wallet_before_dec : RelDecision wallet_before.
Proof. intros w1 w2. unfold wallet_before. apply _. Defined.

(** [ORDER BY e.created_at DESC] *)
Definition txn_after (t1 t2 : Transaction) : Prop :=
  Transaction_CreatedAt t2 <= Transaction_CreatedAt t1.
#[export] Instance txn_after_dec : RelDecision txn_after.
Proof. intros t1 t2. unfold txn_after. apply _. Defined.

(** A joined row of [ledger_entries e JOIN ledger_transactions t]. *)
Definition joined_row (e : ledger.Entry) (t : LedgerTxnRow) : Transaction :=
  mkTransaction (ledger.Entry_ID e) (LTxn_ReferenceID t) (LTxn_ReferenceType t)
    (ledger.Entry_Amount e) (ledger.Entry_Direction e) (ledger.Entry_Currency e)
    (LTxn_Status t) (ledger.Entry_CreatedAt e).

Section Repository.
Context `{Env}.

(** [INSERT INTO accounts (type, currency) ... RETURNING id] *)
Definition sql_insert_account (accountType currency : string) (c : Ctx) (d : DB)
  : Res (string * DB) :=
  let? ty := varchar 50 accountType in
  let? cur := varchar 3 currency in
  let? t := insert_pk "accounts_pkey" (accounts d) (c_uuid c)
              (mkAccount (c_uuid c) ty cur (c_now c)) in
  Ok (c_uuid c, set_accounts t d).

(** [INSERT INTO wallets ... VALUES ($1, $2, $3, 0, 0, $4, 1) RETURNING ...] *)
Definition sql_insert_wallet (ownerID accountID currency : string) (c : Ctx) (d : DB)
  : Res (Wallet * DB) :=
  let? owner := uuid_param ownerID in
  let? account := uuid_param accountID in
  let? cur := varchar 3 currency in
  let? st := varchar 50 StatusActive in
  let row := mkWallet (c_uuid c) owner account cur 0 0 st 1 (c_now c) (c_now c) in
  let? _ := check_constraint "positive_available_balance" (0 <=? Wallet_AvailableBalance row) in
  let? _ := check_constraint "positive_locked_balance" (0 <=? Wallet_LockedBalance row) in
  let? t := insert_pk "wallets_pkey" (wallets_t d) (c_uuid c) row in
  let? _ := references "users" (users d) owner in
  let? _ := references "accounts" (accounts d) account in
  Ok (row, set_wallets t d).

Definition sql_select_wallet (id : string) (c : Ctx) (d : DB) : Res (Wallet * DB) :=
  let? id := uuid_param id in
  match wallets_t d !! id with
  | Some w => Ok (w, d)
  | None => Err pgx_ErrNoRows
  end.

(** [UPDATE wallets SET status = $1, updated_at = NOW() WHERE id = $2]; the result is
    [RowsAffected]. *)
Definition sql_update_status (id : string) (status : WalletStatus) (c : Ctx) (d : DB)
  : Res (Z * DB) :=
  let? id := uuid_param id in
  match wallets_t d !! id with
  | None => Ok (0, d)
  | Some w => let? st := varchar 50 status in
              Ok (1, set_wallets (<[id := set_status st (c_now c) w]> (wallets_t d)) d)
  end.

Definition sql_select_transactions (accountID : string) (c : Ctx) (d : DB)
  : Res (list Transaction * DB) :=
  let? account := uuid_param accountID in
  let rows := omap (λ e,
      if decide (ledger.Entry_AccountID e = account) then
        joined_row e <$> ledger_transactions d !! ledger.Entry_TransactionID e
      else None) (map_to_list (ledger_entries d)).*2 in
  Ok (take 100 (merge_sort txn_after rows), d).

Definition sql_select_by_owner (ownerID : string) (c : Ctx) (d : DB) : Res (list Wallet * DB) :=
  let? owner := uuid_param ownerID in
  let rows := filter (λ w, Wallet_OwnerID w = owner) (map_to_list (wallets_t d)).*2 in
  Ok (merge_sort wallet_before rows, d).

#[export] Instance postgresRepository : WalletsRepository := {|
  CreateWalletAndAccount ownerID accountType currency :=
    with_tx (
      accountID <- query (sql_insert_account accountType currency) ;;
      wallet <- query (sql_insert_wallet ownerID accountID currency) ;;
      ret wallet);
  GetWalletByID id :=
    map_err (λ e, if errors_Is e pgx_ErrNoRows then ErrWalletNotFound else e)
      (exec (sql_select_wallet id));
  UpdateWalletStatus id status :=
    rows_affected <- exec (sql_update_status id status) ;;
    guard (negb (rows_affected =? 0)) ErrWalletNotFound;
  repo_GetTransactions accountID := exec (sql_select_transactions accountID);
  GetWalletsByOwner ownerID := exec (sql_select_by_owner ownerID);
|}.
End Repository.

(** ** The code: service *)

Class WalletsService := {
  CreateWallet : CreateWalletRequest → string → auth.Role → prog (Res Wallet);
  GetWallet : string → string → auth.Role → prog (Res Wallet);
  GetBalance : string → string → auth.Role → prog (Res BalanceResponse);
  FreezeWallet : string → prog (Res unit);
  UnfreezeWallet : string → prog (Res unit);
  GetTransactions : string → string → auth.Role → prog (Res (list Transaction));
  GetWallets : string → prog (Res (list Wallet));
}.

(** "Only owner or admin/system can view" *)
Definition denied (w : Wallet) (callerID : string) (role : auth.Role) : bool :=
  bool_decide (Wallet_OwnerID w ≠ callerID) && bool_decide (role ≠ auth.RoleSystem) &&
  bool_decide (role ≠ auth.RoleAdmin).

Section Service.
Context `{R : WalletsRepository}.

Definition service_GetWallet (id callerID : string) (role : auth.Role) : prog (Res Wallet) :=
  let* wallet := call (GetWalletByID id) in
  if denied wallet callerID role then Ret (Err ErrUnauthorizedWalletAccess)
  else Ret (Ok wallet).

#[export] Instance serviceImpl : WalletsService := {|
  CreateWallet req ownerID role :=
    if bool_decide (CreateWalletRequest_Currency req = "") then Ret (Err err_currency_required)
    else call (CreateWalletAndAccount ownerID role (CreateWalletRequest_Currency req));
  GetWallet := service_GetWallet;
  GetBalance id callerID role :=
    let* w := service_GetWallet id callerID role in
    Ret (Ok (mkBalanceResponse (Wallet_ID w) (Wallet_Currency w) (Wallet_AvailableBalance w)
               (Wallet_LockedBalance w)
               (add64 (Wallet_AvailableBalance w) (Wallet_LockedBalance w))));
  FreezeWallet id := call (UpdateWalletStatus id StatusFrozen);
  UnfreezeWallet id := call (UpdateWalletStatus id StatusActive);
  GetTransactions id callerID role :=
    let* w := service_GetWallet id callerID role in
    call (repo_GetTransactions (Wallet_AccountID w));
  GetWallets callerID := call (GetWalletsByOwner callerID);
|}.
End Service.

(** ** The code: handlers *)

Section Handlers.
Context `{S : WalletsService} `{JsonText}.

(** How the handlers answer an error of the service. *)
Definition lookup_error (err : error) : Response :=
  if errors_Is err ErrWalletNotFound then http_Error "wallet not found" StatusNotFound
  else if errors_Is err ErrUnauthorizedWalletAccess then http_Error "forbidden" StatusForbidden
  else http_Error "internal server error" StatusInternalServerError.

Definition HandleCreateWallet : Handler := λ r,
  match GetClaims r with
  | None => Ret (http_Error "unauthorized" StatusUnauthorized)
  | Some claims =>
    match decode_body decode_CreateWalletRequest r with
    | None => Ret (http_Error "invalid request body" StatusBadRequest)
    | Some req =>
      let+ res := CreateWallet req (auth.Claims_UserID claims) (auth.Claims_Role claims) in
      match res with
      | Err err => Ret (http_Error (Error err) StatusBadRequest)
      | Ok wallet => Ret (mkResponse StatusCreated (JsonBody (Wallet_json wallet)))
      end
    end
  end.

Definition HandleGetWallet : Handler := λ r,
  match GetClaims r with
  | None => Ret (http_Error "unauthorized" StatusUnauthorized)
  | Some claims =>
    let+ res := GetWallet (URLParam_id r) (auth.Claims_UserID claims) (auth.Claims_Role claims) in
    match res with
    | Err err => Ret (lookup_error err)
    | Ok wallet => Ret (mkResponse StatusOK (JsonBody (Wallet_json wallet)))
    end
  end.

Definition HandleGetBalance : Handler := λ r,
  match GetClaims r with
  | None => Ret (http_Error "unauthorized" StatusUnauthorized)
  | Some claims =>
    let+ res := GetBalance (URLParam_id r) (auth.Claims_UserID claims) (auth.Claims_Role claims) in
    match res with
    | Err err => Ret (lookup_error err)
    | Ok balance => Ret (mkResponse StatusOK (JsonBody (BalanceResponse_json balance)))
    end
  end.

(** How the two administrative handlers answer. *)
Definition status_response (res : Res unit) : Response :=
  match res with
  | Err err => if errors_Is err ErrWalletNotFound then http_Error "wallet not found" StatusNotFound
               else http_Error "internal server error" StatusInternalServerError
  | Ok _ => mkResponse StatusOK NoBody
  end.

Definition HandleFreezeWallet : Handler := λ r,
  let+ res := FreezeWallet (URLParam_id r) in Ret (status_response res).

Definition HandleUnfreezeWallet : Handler := λ r,
  let+ res := UnfreezeWallet (URLParam_id r) in Ret (status_response res).

Definition HandleGetTransactions : Handler := λ r,
  match GetClaims r with
  | None => Ret (http_Error "unauthorized" StatusUnauthorized)
  | Some claims =>
    let+ res := GetTransactions (URLParam_id r) (auth.Claims_UserID claims)
                  (auth.Claims_Role claims) in
    match res with
    | Err err => Ret (lookup_error err)
    | Ok transactions =>
      Ret (mkResponse StatusOK (JsonBody (JArr (Transaction_json <$> transactions))))
    end
  end.

Definition HandleGetWallets : Handler := λ r,
  match GetClaims r with
  | None => Ret (http_Error "unauthorized" StatusUnauthorized)
  | Some claims =>
    let+ res := GetWallets (auth.Claims_UserID claims) in
    match res with
    | Err _ => Ret (http_Error "internal server error" StatusInternalServerError)
    | Ok ws => Ret (mkResponse StatusOK (JsonBody (JArr (Wallet_json <$> ws))))
    end
  end.

(** The routes of [RegisterRoutes] under [/wallets]. *)
Inductive wallets_route : Set :=
| POST_wallets | GET_wallets | GET_wallet | GET_balance | GET_transactions
| POST_freeze | POST_unfreeze.

Definition wallets_RegisterRoutes (route : wallets_route) : Handler :=
  match route with
  | POST_wallets => HandleCreateWallet
  | GET_wallets => HandleGetWallets
  | GET_wallet => HandleGetWallet
  | GET_balance => HandleGetBalance
  | GET_transactions => HandleGetTransactions
  | POST_freeze => RequireRole [auth.RoleSystem; auth.RoleAdmin] HandleFreezeWallet
  | POST_unfreeze => RequireRole [auth.RoleSystem; auth.RoleAdmin] HandleUnfreezeWallet
  end.
End Handlers.

(** ** Opening a wallet *)

Section Opening.
Context `{UuidLaws}.

(** [wlt] and its account are new in [d'], empty and active; nothing else changed. *)
Definition opened (ownerID accountType currency : string) (wlt : Wallet) (d d' : DB) : Prop :=
  ∃ acct, accounts d !! Account_ID acct = None ∧ wallets_t d !! Wallet_ID wlt = None ∧
    varchar 50 accountType = Ok (Account_Type acct) ∧
    varchar 3 currency = Ok (Account_Currency acct) ∧
    uuid_in ownerID = Some (Wallet_OwnerID wlt) ∧ is_Some (users d !! Wallet_OwnerID wlt) ∧
    Wallet_AccountID wlt = Account_ID acct ∧ Wallet_Currency wlt = Account_Currency acct ∧
    Wallet_AvailableBalance wlt = 0 ∧ Wallet_LockedBalance wlt = 0 ∧
    Wallet_Status wlt = StatusActive ∧ canonical (Wallet_ID wlt) ∧
    (∃ n, Account_ID acct = env_uuid n) ∧
    d' = set_wallets (<[Wallet_ID wlt := wlt]> (wallets_t d))
           (set_accounts (<[Account_ID acct := acct]> (accounts d)) d).

Lemma sql_insert_account_ok accountType currency c d id d' :
  sql_insert_account accountType currency c d = Ok (id, d') →
  ∃ acct, Account_ID acct = id ∧ id = c_uuid c ∧ accounts d !! id = None ∧
    varchar 50 accountType = Ok (Account_Type acct) ∧
    varchar 3 currency = Ok (Account_Currency acct) ∧
    d' = set_accounts (<[id := acct]> (accounts d)) d.
Proof.
  intros Hq. unfold sql_insert_account in Hq. m_inv.
  eexists (mkAccount _ _ _ _). simpl. eauto 10.
Qed.

Lemma sql_insert_wallet_ok ownerID accountID currency c d wlt d' :
  sql_insert_wallet ownerID accountID currency c d = Ok (wlt, d') →
  Wallet_ID wlt = c_uuid c ∧ uuid_in ownerID = Some (Wallet_OwnerID wlt) ∧
  uuid_in accountID = Some (Wallet_AccountID wlt) ∧
  varchar 3 currency = Ok (Wallet_Currency wlt) ∧ Wallet_AvailableBalance wlt = 0 ∧
  Wallet_LockedBalance wlt = 0 ∧ Wallet_Status wlt = StatusActive ∧
  wallets_t d !! Wallet_ID wlt = None ∧ is_Some (users d !! Wallet_OwnerID wlt) ∧
  d' = set_wallets (<[Wallet_ID wlt := wlt]> (wallets_t d)) d.
Proof. intros Hq. unfold sql_insert_wallet in Hq. m_inv. simpl. naive_solver. Qed.

Lemma open_statements ownerID accountType currency w wlt w' :
  (accountID <- query (sql_insert_account accountType currency) ;;
   wallet <- query (sql_insert_wallet ownerID accountID currency) ;;
   ret wallet)%m w = (Ok wlt, w') →
  opened ownerID accountType currency wlt (w_db w) (w_db w').
Proof.
  intros Hrun. m_inv.
  match goal with
  | H1 : query (sql_insert_account _ _) _ = _, H2 : query (sql_insert_wallet _ _ _) _ = _ |- _ =>
    apply query_ok in H1 as (d1 & Hq1 & ->); apply query_ok in H2 as (d2 & Hq2 & ->)
  end.
  apply sql_insert_account_ok in Hq1 as (acct & ? & -> & ? & ? & ? & ->).
  apply sql_insert_wallet_ok in Hq2 as (Hid & ? & Hacc & Hcur & ? & ? & ? & ? & ? & ->).
  simpl in Hid, Hacc. rewrite env_uuid_canonical in Hacc. injection Hacc as Hacc.
  exists acct. simpl in *. repeat split; try congruence.
  - rewrite Hid. apply env_uuid_canonical.
  - by eexists.
Qed.

(** With an existing owner and a currency that fits, opening succeeds. *)
Lemma open_available ownerID owner accountType currency w :
  no_faults (w_tick w) → supplied w → uuid_in ownerID = Some owner →
  is_Some (users (w_db w) !! owner) → is_ok (varchar 50 accountType) →
  is_ok (varchar 3 currency) →
  ∃ wlt w', (accountID <- query (sql_insert_account accountType currency) ;;
             wallet <- query (sql_insert_wallet ownerID accountID currency) ;;
             ret wallet)%m w = (Ok wlt, w') ∧ (w_tick w ≤ w_tick w')%nat ∧ supplied w'.
Proof.
  intros Hf Hs Ho Hu (ty & Hty)%is_ok_inv (cur & Hcur)%is_ok_inv.
  pose proof (supplied_now _ Hs) as (_&Ha&_).
  destruct (query_insert (sql_insert_account accountType currency) w (env_uuid (w_tick w))
    (set_accounts (<[env_uuid (w_tick w) := mkAccount (env_uuid (w_tick w)) ty cur (w_now w)]>
       (accounts (w_db w))) (w_db w))) as [H1 Hs1]; [by apply no_faults_now|done| |solve_unused|].
  { unfold sql_insert_account. rewrite Hty. simpl. rewrite Hcur. simpl.
    by rewrite (insert_pk_fresh _ _ _ _ Ha). }
  set (w1 := Runtime.set_db _ _) in *.
  pose proof (supplied_now _ Hs1) as (_&_&Hw&_).
  edestruct (query_insert (sql_insert_wallet ownerID (env_uuid (w_tick w)) currency) w1)
    as [H2 Hs2]; [apply no_faults_now, no_faults_S, Hf|done| | |].
  { unfold sql_insert_wallet. rewrite (uuid_param_some _ _ Ho). simpl.
    rewrite (uuid_param_some _ _ (env_uuid_canonical _)). simpl. rewrite Hcur. simpl.
    rewrite (insert_pk_fresh _ _ _ _ Hw). simpl.
    rewrite references_some by done. simpl.
    rewrite references_some by (rewrite lookup_insert_eq; eauto). reflexivity. }
  { unfold w1. simpl. solve_unused. }
  eexists _, _. unfold bind. rewrite H1. simpl. rewrite H2. simpl. split; [reflexivity|].
  split; [unfold w1; simpl; lia|exact Hs2].
Qed.
End Opening.

(** ** Looking at a wallet *)

Section Access.
Context `{Env}.

(** Who may look at a wallet. *)
Definition may_view (w : Wallet) (callerID : string) (role : auth.Role) : Prop :=
  Wallet_OwnerID w = callerID ∨ role = auth.RoleSystem ∨ role = auth.RoleAdmin.

#[export] Instance may_view_dec w c r : Decision (may_view w c r).
Proof. unfold may_view. apply _. Defined.

Lemma denied_spec w callerID role : denied w callerID role = true ↔ ¬ may_view w callerID role.
Proof. unfold denied, may_view. rewrite !andb_true_iff, !bool_decide_eq_true. tauto. Qed.

Lemma denied_may w callerID role : denied w callerID role = false → may_view w callerID role.
Proof.
  intros Hd. apply dec_stable. rewrite <- denied_spec. congruence.
Qed.

(** What [GetWallet] answers, from the table. *)
Definition view (d : DB) (id callerID : string) (role : auth.Role) : Res Wallet :=
  match uuid_in id with
  | None => Err invalid_uuid
  | Some u =>
    match wallets_t d !! u with
    | None => Err ErrWalletNotFound
    | Some w => if decide (may_view w callerID role) then Ok w
                else Err ErrUnauthorizedWalletAccess
    end
  end.

Lemma get_wallet_fine id callerID role w :
  env_outcome (w_tick w) = Fine →
  run (service_GetWallet id callerID role) w =
    (view (w_db w) id callerID role, bump (start w)).
Proof.
  intros Hf. unfold service_GetWallet. rewrite run_try, run_call. cbn [GetWalletByID postgresRepository].
  unfold map_err. rewrite exec_fine by done. unfold sql_select_wallet, view, uuid_param.
  destruct (uuid_in id) as [u|]; simpl; [|done].
  destruct (wallets_t (w_db w) !! u) as [row|]; simpl; [|done].
  destruct (denied row callerID role) eqn:Hd; case_decide as Hm; simpl;
    destruct w as [[]]; try done.
  - by apply denied_spec in Hd.
  - by apply denied_may in Hd.
Qed.

(** Whatever fails, a wallet is only returned to who may view it. *)
Lemma get_wallet_private id callerID role w row w' :
  run (service_GetWallet id callerID role) w = (Ok row, w') →
  may_view row callerID role ∧ w_db w' = w_db w ∧
  ∃ u, uuid_in id = Some u ∧ wallets_t (w_db w) !! u = Some row.
Proof.
  unfold service_GetWallet. rewrite run_try, run_call.
  destruct (GetWalletByID id w) as [[row'|e] w1] eqn:Hget; [|done].
  apply map_err_ok, exec_ok in Hget as (d & Hq & ->). unfold sql_select_wallet in Hq.
  m_inv. destruct (wallets_t (w_db w) !! _) as [row0|] eqn:Hrow; [|done]. simplify_eq.
  destruct (denied row' callerID role) eqn:Hd; simpl; [done|]. intros [= <- <-].
  split; [by apply denied_may|]. eauto.
Qed.

Lemma select_wallet_reads id : reads (sql_select_wallet id).
Proof.
  intros c d a d'. unfold sql_select_wallet. intros Hq. m_inv.
  destruct (_ !! _); by simplify_eq.
Qed.

Lemma select_transactions_reads id : reads (sql_select_transactions id).
Proof. intros c d a d' Hq. unfold sql_select_transactions in Hq. by m_inv. Qed.

Lemma select_by_owner_reads id : reads (sql_select_by_owner id).
Proof. intros c d a d' Hq. unfold sql_select_by_owner in Hq. by m_inv. Qed.

Lemma get_wallet_by_id_reads id w : w_db (GetWalletByID id w).2 = w_db w.
Proof.
  cbn [GetWalletByID postgresRepository]. unfold map_err.
  destruct (exec (sql_select_wallet id) w) as [[a|e] w'] eqn:Hex;
    exact (exec_read _ _ _ _ (select_wallet_reads id) Hex).
Qed.

Lemma get_wallet_reads id callerID role w :
  w_db (run (service_GetWallet id callerID role) w).2 = w_db w.
Proof.
  unfold service_GetWallet. rewrite run_try, run_call.
  pose proof (get_wallet_by_id_reads id w) as Hdb.
  destruct (GetWalletByID id w) as [[a|e] w'] eqn:Hget; [|done].
  by destruct (denied a callerID role).
Qed.
End Access.

(** ** Changing a wallet's status *)

Lemma update_status_cases `{Env} id st w res w' :
  varchar 50 st = Ok st → UpdateWalletStatus id st w = (res, w') →
  (w_db w' = w_db w ∧ ¬ is_ok res) ∨
  ∃ u row now, uuid_in id = Some u ∧ wallets_t (w_db w) !! u = Some row ∧
    w_db w' = set_wallets (<[u := set_status st now row]> (wallets_t (w_db w))) (w_db w).
Proof.
  intros Hst. cbn [UpdateWalletStatus postgresRepository]. unfold bind.
  destruct (exec (sql_update_status id st) w) as [r w1] eqn:Hex.
  apply exec_cases in Hex as [(e & -> & Hdb)|(n & d & Hq & Hdb & Hr)].
  { intros [= <- <-]. left. split; [done|]. by intros ?. }
  unfold sql_update_status in Hq. m_inv.
  match goal with H : match ?t !! ?u with _ => _ end = _ |- _ =>
    destruct (t !! u) as [row|] eqn:Hrow; [rewrite Hst in H|] end; simpl in *; simplify_eq.
  - intros Hrun. right. eexists _, row, _. split; [done|]. split; [done|].
    destruct Hr as [->|[e ->]]; simpl in Hrun; injection Hrun as <- <-; symmetry; eassumption.
  - destruct Hr as [->|[e ->]]; simpl; intros [= <- <-]; left; (split; [done|by intros ?]).
Qed.

(** ** Sorted answers *)

#[export] Instance wallet_before_total : Total wallet_before.
Proof. intros w1 w2. unfold wallet_before. lia. Qed.
#[export] Instance wallet_before_trans : Transitive wallet_before.
Proof. intros w1 w2 w3. unfold wallet_before. lia. Qed.
#[export] Instance txn_after_total : Total txn_after.
Proof. intros t1 t2. unfold txn_after. lia. Qed.
#[export] Instance txn_after_trans : Transitive txn_after.
Proof. intros t1 t2 t3. unfold txn_after. lia. Qed.

(** Every entry of an account with its transaction. *)
Definition account_history (account : string) (d : DB) : list Transaction :=
  omap (λ e,
    if decide (ledger.Entry_AccountID e = account) then
      joined_row e <$> ledger_transactions d !! ledger.Entry_TransactionID e
    else None) (map_to_list (ledger_entries d)).*2.

Lemma newest_first all :
  let ts := take 100 (merge_sort txn_after all) in
  StronglySorted txn_after ts ∧ (length ts ≤ 100)%nat ∧
  ∃ older, ts ++ older ≡ₚ all ∧ (older ≠ [] → length ts = 100%nat) ∧
    ∀ t t', t ∈ ts → t' ∈ older → Transaction_CreatedAt t' <= Transaction_CreatedAt t.
Proof.
  cbn zeta. set (sorted := merge_sort txn_after all).
  assert (Hs : StronglySorted txn_after sorted) by (apply StronglySorted_merge_sort; apply _).
  rewrite <- (take_drop 100 sorted) in Hs. apply StronglySorted_app in Hs as (Hle & Hs & _).
  split; [done|]. rewrite length_take. split; [lia|]. exists (drop 100 sorted).
  rewrite take_drop. split; [apply merge_sort_Permutation|]. split; [|exact Hle].
  intros Hd. assert (length (drop 100 sorted) ≠ 0%nat) by (intros ?%nil_length_inv; done).
  rewrite length_drop in *. lia.
Qed.

(** ** Properties *)

(** C40. Creating a wallet is all or nothing: either an error is returned and nothing
    has changed, or a new active wallet of the caller with zero balances and its new
    account are there together, and the wallet is returned unless the reply of the
    commit was lost. *)
Theorem create_wallet_atomic `{UuidLaws} req ownerID role w :
  let '(r, w') := run (CreateWallet req ownerID role) w in
  (∃ e, r = Err e ∧ w_db w' = w_db w) ∨
  ∃ wlt, opened ownerID role (CreateWalletRequest_Currency req) wlt (w_db w) (w_db w') ∧
         (r = Ok wlt ∨ ∃ msg, r = Err (ext_error msg)).
Proof.
  cbn [CreateWallet serviceImpl]. case_bool_decide; [left; by eexists|].
  rewrite run_call. destruct (CreateWalletAndAccount _ _ _ w) as [r w'] eqn:Hrun.
  apply with_tx_cases in Hrun as [Herr|(wlt & w1 & Hb & -> & Hr)]; [by left|right].
  exists wlt. split; [exact (open_statements _ _ _ _ _ _ Hb)|naive_solver].
Qed.

(** When nothing outside fails, a caller who exists can open a wallet in any
    currency the column can hold, and the handler answers 201 with the new wallet. *)
Theorem create_wallet_available `{UuidLaws} `{JsonText} r claims req owner w :
  no_faults (w_tick w) → supplied w → ctx_claims r = Some claims →
  decode_body decode_CreateWalletRequest r = Some req →
  CreateWalletRequest_Currency req ≠ "" →
  is_ok (varchar 3 (CreateWalletRequest_Currency req)) → is_ok (varchar 50 (auth.Claims_Role claims)) →
  uuid_in (auth.Claims_UserID claims) = Some owner → is_Some (users (w_db w) !! owner) →
  ∃ wlt w', run (HandleCreateWallet r) w =
      (mkResponse StatusCreated (JsonBody (Wallet_json wlt)), w') ∧
    opened (auth.Claims_UserID claims) (auth.Claims_Role claims)
      (CreateWalletRequest_Currency req) wlt (w_db w) (w_db w').
Proof.
  intros Hf Hs Hc Hreq Hne Hcur Hty Ho Hu.
  destruct (open_available (auth.Claims_UserID claims) owner (auth.Claims_Role claims)
    (CreateWalletRequest_Currency req) (bump (start w))) as (wlt & w1 & Hb & Hle & _); try done.
  { by apply no_faults_S. }
  { by apply (uuid_supply_le (w_tick w)); [simpl; lia|]. }
  exists wlt, (bump w1). split; [|exact (open_statements _ _ _ _ _ _ Hb)].
  unfold HandleCreateWallet, GetClaims. rewrite Hc, Hreq.
  cbn [CreateWallet serviceImpl CreateWalletAndAccount postgresRepository].
  rewrite bool_decide_eq_false_2 by done. rewrite run_bind, run_call.
  rewrite (with_tx_fine _ _ _ _ (no_faults_now _ Hf) Hb); [done|].
  apply Hf. simpl in Hle. lia.
Qed.

(** C39. [GetWallet], [GetBalance] and [GetTransactions] answer with success only to the
    owner, the system or an administrator, whatever fails on the way, and no request
    to them changes the database. *)
Theorem wallet_reads_are_private `{Env} `{JsonText} route r w :
  route = GET_wallet ∨ route = GET_balance ∨ route = GET_transactions →
  let '(resp, w') := run (wallets_RegisterRoutes route r) w in
  w_db w' = w_db w ∧
  (resp_status resp = StatusOK → ∃ claims u row, ctx_claims r = Some claims ∧
     uuid_in (URLParam_id r) = Some u ∧ wallets_t (w_db w) !! u = Some row ∧
     may_view row (auth.Claims_UserID claims) (auth.Claims_Role claims)).
Proof.
  intros Hroute. destruct (ctx_claims r) as [claims|] eqn:Hc.
  2:{ destruct Hroute as [->|[->| ->]]; cbn [wallets_RegisterRoutes];
        unfold HandleGetWallet, HandleGetBalance, HandleGetTransactions, GetClaims;
        rewrite Hc; simpl; split; done. }
  destruct (run (service_GetWallet (URLParam_id r) (auth.Claims_UserID claims)
              (auth.Claims_Role claims)) w) as [[row|e] w1] eqn:Hget.
  - destruct (get_wallet_private _ _ _ _ _ _ Hget) as (Hmay & Hdb & u & Hu & Hrow).
    assert (Hok : ∃ claims0 u0 row0, Some claims = Some claims0 ∧
       uuid_in (URLParam_id r) = Some u0 ∧ wallets_t (w_db w) !! u0 = Some row0 ∧
       may_view row0 (auth.Claims_UserID claims0) (auth.Claims_Role claims0)) by eauto 10.
    destruct Hroute as [->|[->| ->]]; cbn [wallets_RegisterRoutes];
      unfold HandleGetWallet, HandleGetBalance, HandleGetTransactions, GetClaims; rewrite Hc;
      cbn [GetWallet GetBalance GetTransactions serviceImpl];
      rewrite !run_bind, ?run_try, Hget; simpl; [by auto..|].
    destruct (exec _ w1) as [[ts|e] w2] eqn:Hex; simpl;
      rewrite (exec_read _ _ _ _ (select_transactions_reads _) Hex); auto.
  - pose proof (get_wallet_reads (URLParam_id r) (auth.Claims_UserID claims)
      (auth.Claims_Role claims) w) as Hdb. rewrite Hget in Hdb. simpl in Hdb.
    destruct Hroute as [->|[->| ->]]; cbn [wallets_RegisterRoutes];
      unfold HandleGetWallet, HandleGetBalance, HandleGetTransactions, GetClaims; rewrite Hc;
      cbn [GetWallet GetBalance GetTransactions serviceImpl];
      rewrite !run_bind, ?run_try, Hget; simpl; (split; [done|]);
      unfold lookup_error; repeat case_match; done.
Qed.

(** What the three reads answer when nothing fails: 404 for an unknown wallet, 403
    for a stranger, and to the others the wallet as it is in the table and its
    balance, whose ledger part is the exact sum as long as it is an [int64]. *)
Theorem wallet_reads_answer `{Env} `{JsonText} r claims u w :
  no_faults (w_tick w) → ctx_claims r = Some claims → uuid_in (URLParam_id r) = Some u →
  let found := wallets_t (w_db w) !! u in
  let answer route := (run (wallets_RegisterRoutes route r) w).1 in
  match found with
  | None => answer GET_wallet = http_Error "wallet not found" StatusNotFound ∧
            answer GET_balance = http_Error "wallet not found" StatusNotFound
  | Some row =>
    if decide (may_view row (auth.Claims_UserID claims) (auth.Claims_Role claims)) then
      answer GET_wallet = mkResponse StatusOK (JsonBody (Wallet_json row)) ∧
      (in_int64 (Wallet_AvailableBalance row + Wallet_LockedBalance row) →
       answer GET_balance = mkResponse StatusOK (JsonBody (BalanceResponse_json
         (mkBalanceResponse (Wallet_ID row) (Wallet_Currency row) (Wallet_AvailableBalance row)
            (Wallet_LockedBalance row)
            (Wallet_AvailableBalance row + Wallet_LockedBalance row)))))
    else answer GET_wallet = http_Error "forbidden" StatusForbidden ∧
         answer GET_balance = http_Error "forbidden" StatusForbidden
  end.
Proof.
  intros Hf Hc Hu. cbn zeta. cbn [wallets_RegisterRoutes].
  unfold HandleGetWallet, HandleGetBalance, GetClaims. rewrite Hc.
  cbn [GetWallet GetBalance serviceImpl].
  rewrite !run_bind, !run_try, !(get_wallet_fine _ _ _ _ (no_faults_now _ Hf)).
  unfold view. rewrite Hu. destruct (wallets_t (w_db w) !! u) as [row|]; [|done].
  case_decide; [|done]. split; [done|]. intros Hin. simpl. by rewrite (add64_exact _ _ Hin).
Qed.

(** Only the system or an administrator changes a wallet's status, and only the
    status and the update time; a success means that it happened, whatever fails. *)
Theorem freeze_is_restricted `{Env} `{JsonText} route st r w :
  (route = POST_freeze ∧ st = StatusFrozen) ∨ (route = POST_unfreeze ∧ st = StatusActive) →
  let '(resp, w') := run (wallets_RegisterRoutes route r) w in
  (w_db w' = w_db w ∧ resp_status resp ≠ StatusOK) ∨
  ∃ claims u row now, ctx_claims r = Some claims ∧
    auth.Claims_Role claims ∈ [auth.RoleSystem; auth.RoleAdmin] ∧
    uuid_in (URLParam_id r) = Some u ∧ wallets_t (w_db w) !! u = Some row ∧
    w_db w' = set_wallets (<[u := set_status st now row]> (wallets_t (w_db w))) (w_db w).
Proof.
  intros Hroute.
  assert (Heq : wallets_RegisterRoutes route r =
    RequireRole [auth.RoleSystem; auth.RoleAdmin]
      (λ r, let+ res := call (UpdateWalletStatus (URLParam_id r) st) in
            Ret (status_response res)) r) by by destruct Hroute as [[-> ->]|[-> ->]].
  assert (Hst : varchar 50 st = Ok st) by by destruct Hroute as [[_ ->]|[_ ->]].
  rewrite Heq. unfold RequireRole. destruct (ctx_claims r) as [claims|]; [|by left].
  destruct (decide (auth.Claims_Role claims ∈ [auth.RoleSystem; auth.RoleAdmin])) as [Hr|Hr].
  2:{ rewrite has_role_false by done. by left. }
  rewrite has_role_true by done. simpl negb. cbn iota. rewrite run_bind, run_call.
  destruct (UpdateWalletStatus (URLParam_id r) st w) as [res w'] eqn:Hupd. simpl.
  destruct (update_status_cases _ _ _ _ _ Hst Hupd) as [[Hdb Hres]|(u & row & now & ? & ? & ?)].
  - left. split; [done|]. destruct res; [done|]. unfold status_response. by case_match.
  - right. eauto 10.
Qed.

(** What the system gets when nothing fails: 404 for an unknown wallet, otherwise
    200 and the new status, whatever the status was (so a closed wallet is active
    again after [unfreeze]). *)
Theorem freeze_answers `{Env} `{JsonText} route st r claims u w :
  (route = POST_freeze ∧ st = StatusFrozen) ∨ (route = POST_unfreeze ∧ st = StatusActive) →
  env_outcome (w_tick w) = Fine → ctx_claims r = Some claims →
  auth.Claims_Role claims ∈ [auth.RoleSystem; auth.RoleAdmin] →
  uuid_in (URLParam_id r) = Some u →
  let '(resp, w') := run (wallets_RegisterRoutes route r) w in
  match wallets_t (w_db w) !! u with
  | None => resp = http_Error "wallet not found" StatusNotFound ∧ w_db w' = w_db w
  | Some row => resp = mkResponse StatusOK NoBody ∧
      w_db w' = set_wallets (<[u := set_status st (env_now (w_tick w)) row]>
                               (wallets_t (w_db w))) (w_db w)
  end.
Proof.
  intros Hroute Hf Hc Hr Hu.
  assert (Heq : wallets_RegisterRoutes route r =
    RequireRole [auth.RoleSystem; auth.RoleAdmin]
      (λ r, let+ res := call (UpdateWalletStatus (URLParam_id r) st) in
            Ret (status_response res)) r) by by destruct Hroute as [[-> ->]|[-> ->]].
  assert (Hst : varchar 50 st = Ok st) by by destruct Hroute as [[_ ->]|[_ ->]].
  rewrite Heq. unfold RequireRole. rewrite Hc, has_role_true by done. simpl negb. cbn iota.
  rewrite run_bind, run_call. cbn [UpdateWalletStatus postgresRepository].
  unfold bind. rewrite exec_fine by done. unfold sql_update_status.
  rewrite (uuid_param_some _ _ Hu). cbn [res_bind]. change (w_db w) with (w_db (start w)).
  destruct (wallets_t (w_db (start w)) !! u) as [row|]; [|done]. by rewrite Hst.
Qed.

(** The history a caller gets is the newest entries of the wallet's account with
    their transactions: at most 100, newest first, nothing from another account, and
    nothing older while something newer is left out. *)
Theorem wallet_history `{Env} id callerID role w ts w' :
  run (GetTransactions id callerID role) w = (Ok ts, w') →
  ∃ row account, may_view row callerID role ∧ uuid_in (Wallet_AccountID row) = Some account ∧
    let all := account_history account (w_db w) in
    StronglySorted txn_after ts ∧ (length ts ≤ 100)%nat ∧
    ∃ older, ts ++ older ≡ₚ all ∧ (older ≠ [] → length ts = 100%nat) ∧
      ∀ t t', t ∈ ts → t' ∈ older → Transaction_CreatedAt t' <= Transaction_CreatedAt t.
Proof.
  cbn [GetTransactions serviceImpl]. rewrite run_try.
  destruct (run _ w) as [[row|e] w1] eqn:Hget; [|done].
  destruct (get_wallet_private _ _ _ _ _ _ Hget) as (Hmay & Hdb & _).
  rewrite run_call. intros (d & Hq & ->)%exec_ok. unfold sql_select_transactions in Hq.
  m_inv. eexists row, _. split; [done|]. split; [done|]. cbn zeta.
  change (omap _ (map_to_list (ledger_entries (w_db w1))).*2)
    with (account_history x (w_db w1)).
  rewrite Hdb. apply newest_first.
Qed.

(** [GetWallets] lists exactly the caller's wallets, oldest first. *)
Theorem wallets_of_owner `{Env} callerID w ws w' :
  run (GetWallets callerID) w = (Ok ws, w') →
  StronglySorted wallet_before ws ∧ w_db w' = w_db w ∧
  ∃ owner, uuid_in callerID = Some owner ∧
    ∀ row, row ∈ ws ↔ Wallet_OwnerID row = owner ∧ ∃ id, wallets_t (w_db w) !! id = Some row.
Proof.
  cbn [GetWallets serviceImpl]. rewrite run_call. intros Hex.
  pose proof (exec_read _ _ _ _ (select_by_owner_reads _) Hex) as Hdb.
  apply exec_ok in Hex as (d & Hq & ->). unfold sql_select_by_owner in Hq. m_inv.
  split; [apply StronglySorted_merge_sort; apply _|]. split; [done|].
  eexists. split; [done|]. intros row.
  rewrite merge_sort_Permutation, list_elem_of_filter, list_elem_of_fmap. f_equiv. split.
  - intros ([id row'] & -> & Hin%elem_of_map_to_list). eauto.
  - intros (id & Hid). exists (id, row). by rewrite elem_of_map_to_list.
Qed.

(** ** Witnesses *)

Lemma create_wallet_available_witness :
  ∃ wlt w', run (HandleCreateWallet (as_user "b1" auth.RoleUser "" "EUR")) (sample_world sample_bank)
    = (mkResponse StatusCreated (JsonBody (Wallet_json wlt)), w') ∧
    opened "b1" auth.RoleUser "EUR" wlt sample_bank (w_db w').
Proof.
  apply (create_wallet_available (as_user "b1" auth.RoleUser "" "EUR")
    (auth.mkClaims "b1" auth.RoleUser) (mkCreateWalletRequest "EUR") "b1" (sample_world sample_bank));
    try reflexivity; try done.
  apply sample_bank_supply.
Defined.

Lemma wallet_reads_are_private_witness :
  resp_status (run (wallets_RegisterRoutes GET_wallet (as_user "b1" auth.RoleUser "W1" ""))
                 (sample_world sample_bank)).1 = StatusOK ∧
  ∃ claims u row, Some (auth.mkClaims "b1" auth.RoleUser) = Some claims ∧
     uuid_in "W1" = Some u ∧ wallets_t sample_bank !! u = Some row ∧
     may_view row (auth.Claims_UserID claims) (auth.Claims_Role claims).
Proof.
  assert (Hok : resp_status (run (wallets_RegisterRoutes GET_wallet
    (as_user "b1" auth.RoleUser "W1" "")) (sample_world sample_bank)).1 = StatusOK)
    by (vm_compute; reflexivity).
  split; [exact Hok|].
  pose proof (wallet_reads_are_private GET_wallet (as_user "b1" auth.RoleUser "W1" "")
    (sample_world sample_bank) (or_introl eq_refl)) as Hp.
  destruct (run _ _) as [resp w']. exact (proj2 Hp Hok).
Defined.

Lemma wallet_reads_answer_witness :
  (run (wallets_RegisterRoutes GET_wallet (as_user "b2" auth.RoleUser "w1" ""))
     (sample_world sample_bank)).1 = http_Error "forbidden" StatusForbidden.
Proof.
  apply (wallet_reads_answer (as_user "b2" auth.RoleUser "w1" "")
    (auth.mkClaims "b2" auth.RoleUser) "w1" (sample_world sample_bank));
    [apply sample_no_faults|reflexivity|reflexivity].
Defined.

Lemma freeze_is_restricted_witness :
  let '(resp, w') := run (wallets_RegisterRoutes POST_freeze (as_user "b1" auth.RoleUser "w1" ""))
                       (sample_world sample_bank) in
  resp_status resp = StatusForbidden ∧ w_db w' = sample_bank.
Proof.
  pose proof (freeze_is_restricted POST_freeze StatusFrozen (as_user "b1" auth.RoleUser "w1" "")
    (sample_world sample_bank) (or_introl (conj eq_refl eq_refl))) as Hp.
  simpl in Hp |- *. split; [reflexivity|]. destruct Hp as [[Hdb _]|(c & u & row & now & Hc & Hr & _)].
  - exact Hdb.
  - injection Hc as <-. simpl in Hr. exfalso. set_solver.
Defined.

Lemma freeze_answers_witness :
  let '(resp, w') := run (wallets_RegisterRoutes POST_freeze (as_user "b9" auth.RoleAdmin "w1" ""))
                       (sample_world sample_bank) in
  resp = mkResponse StatusOK NoBody.
Proof.
  pose proof (freeze_answers POST_freeze StatusFrozen (as_user "b9" auth.RoleAdmin "w1" "")
    (auth.mkClaims "b9" auth.RoleAdmin) "w1" (sample_world sample_bank)
    (or_introl (conj eq_refl eq_refl)) eq_refl eq_refl ltac:(right; left) eq_refl) as Hp.
  destruct (run _ _) as [resp w']. exact (proj1 Hp).
Defined.

Lemma wallet_history_witness :
  ∃ row account, may_view row "b1" auth.RoleUser ∧ uuid_in (Wallet_AccountID row) = Some account.
Proof.
  destruct (wallet_history "w1" "b1" auth.RoleUser (sample_world sample_bank) []
    (run (GetTransactions "w1" "b1" auth.RoleUser) (sample_world sample_bank)).2)
    as (row & account & Hm & Hu & _); [vm_compute; reflexivity|].
  exists row, account. exact (conj Hm Hu).
Defined.

Lemma wallets_of_owner_witness :
  (run (GetWallets "b1") (sample_world sample_bank)).1 = Ok [sample_wallet "w1" "b1" "a1" 1000] ∧
  ∀ row, row ∈ [sample_wallet "w1" "b1" "a1" 1000] ↔
    Wallet_OwnerID row = "b1" ∧ ∃ id, wallets_t sample_bank !! id = Some row.
Proof.
  split; [vm_compute; reflexivity|].
  destruct (wallets_of_owner "b1" (sample_world sample_bank) [sample_wallet "w1" "b1" "a1" 1000]
    (run (GetWallets "b1") (sample_world sample_bank)).2) as (_ & _ & owner & Ho & Hiff);
    [vm_compute; reflexivity|].
  injection Ho as <-. exact Hiff.
Defined.

Lemma create_wallet_atomic_witness :
  ∃ wlt, opened "b1" auth.RoleUser "EUR" wlt sample_bank
    (w_db (run (CreateWallet (mkCreateWalletRequest "EUR") "b1" auth.RoleUser)
             (sample_world sample_bank)).2).
Proof.
  pose proof (create_wallet_atomic (mkCreateWalletRequest "EUR") "b1" auth.RoleUser
    (sample_world sample_bank)) as Hp.
  assert (Hok : is_ok (run (CreateWallet (mkCreateWalletRequest "EUR") "b1" auth.RoleUser)
    (sample_world sample_bank)).1 = true) by (vm_compute; reflexivity).
  destruct (run _ _) as [r w'].
  destruct Hp as [(e & -> & _)|(wlt & Ho & _)]; [discriminate|]. exists wlt. exact Ho.
Defined.
