(* ===== verification/Transfers.v ===== *)
(** * Transfers (internal/transfers)

    [ExecuteTransfer] moves money between two wallets in one transaction: it locks
    the wallets in the order of their ids, checks them, updates the balances, and
    records the transfer, its ledger transaction and its event.  It is written
    against the interfaces [LedgerRepository] and [OutboxRepository], and its
    theorems use their contracts.  The handler is in [TransferHandler]. *)

From S2P Require Import Prelude Go Models Postgres Runtime Sample Http Middleware.
From S2P Require Import Ledger Outbox Idempotency Wallets.
Import transfers.
#[local] Open Scope m_scope.
#[local] Open Scope go_scope.
#[local] Open Scope prog_scope.
#[local] Open Scope Z_scope.

(** ** The code: service *)

Definition ErrInsufficientFunds : error :=
  errors_New "transfers.ErrInsufficientFunds" "insufficient funds".
Definition ErrSameWallet : error :=
  errors_New "transfers.ErrSameWallet" "source and destination wallets must be different".
Definition ErrCurrencyMismatch : error :=
  errors_New "transfers.ErrCurrencyMismatch" "currency mismatch between wallets".
Definition err_amount : error := errors_New "" "amount must be positive".
Definition err_not_active : error := errors_New "" "one or both wallets are not active".

Class TransfersService :=
  ExecuteTransfer : CreateTransferRequest → string → prog (Res Transfer).

(** "Order wallet IDs to ensure consistent lock acquisition": Go compares strings
    byte by byte. *)
Definition lock_order (req : CreateTransferRequest) : string * string :=
  let firstLock := Req_SourceWalletID req in
  let secondLock := Req_DestinationWalletID req in
  if String.ltb secondLock firstLock then (secondLock, firstLock) else (firstLock, secondLock).

(** The columns scanned; the other fields keep their zero values. *)
Definition scan_locked (id : string) (w : wallets.Wallet) : wallets.Wallet :=
  wallets.mkWallet id (wallets.Wallet_OwnerID w) (wallets.Wallet_AccountID w)
    (wallets.Wallet_Currency w) (wallets.Wallet_AvailableBalance w) 0 (wallets.Wallet_Status w)
    0 0 0.

(** "Map them back to source/dest for business logic" *)
Definition assign (req : CreateTransferRequest) (firstWallet secondWallet : wallets.Wallet)
  : wallets.Wallet * wallets.Wallet :=
  if bool_decide (wallets.Wallet_ID firstWallet = Req_SourceWalletID req)
  then (firstWallet, secondWallet) else (secondWallet, firstWallet).

Definition ledger_txn (transfer : Transfer) (sourceWallet destWallet : wallets.Wallet)
    (req : CreateTransferRequest) : ledger.Transaction :=
  ledger.mkTransaction "" (Transfer_ID transfer) ledger.TxTypeTransfer ledger.StatusCompleted 0
    [ledger.mkEntry "" "" (wallets.Wallet_AccountID sourceWallet) (Req_Amount req)
       ledger.DirectionDebit (Req_Currency req) 0;
     ledger.mkEntry "" "" (wallets.Wallet_AccountID destWallet) (Req_Amount req)
       ledger.DirectionCredit (Req_Currency req) 0].

(** [json.Marshal] of a map orders the keys. *)
Definition event_payload (transfer : Transfer) (now : Z) : json := JObj [
  ("amount", JNum (Transfer_Amount transfer)); ("currency", JStr (Transfer_Currency transfer));
  ("status", JStr (Transfer_Status transfer)); ("timestamp", JTime RFC3339 now);
  ("transfer_id", JStr (Transfer_ID transfer))].

Section Statements.
Context `{Env}.

(** [SELECT id, owner_id, ... FROM wallets WHERE id = $1 FOR UPDATE] *)
Definition sql_lock_wallet (id : string) (c : Ctx) (d : DB) : Res (wallets.Wallet * DB) :=
  let? id := uuid_param id in
  match wallets_t d !! id with
  | Some w => Ok (scan_locked id w, d)
  | None => Err pgx_ErrNoRows
  end.

Definition lock_wallet (id : string) : M wallets.Wallet :=
  w <- query (sql_lock_wallet id) ;;
  take_lock ("wallets", wallets.Wallet_ID w) ;;
  ret w.

(** [UPDATE wallets SET available_balance = available_balance - $1 WHERE id = $2] and
    the same with [+]: BIGINT arithmetic, then the CHECK of the table. *)
Definition sql_update_balance (op : Z → Z → Z) (amount : Z) (id : string) (c : Ctx) (d : DB)
  : Res (unit * DB) :=
  let? amount := bigint amount in
  let? id := uuid_param id in
  match wallets_t d !! id with
  | None => Ok (tt, d)
  | Some w =>
    let? balance := bigint (op (wallets.Wallet_AvailableBalance w) amount) in
    let? _ := check_constraint "positive_available_balance" (0 <=? balance) in
    Ok (tt, set_wallets (<[id := wallets.set_available balance w]> (wallets_t d)) d)
  end.

(** An [UPDATE] locks the row it changes. *)
Definition update_balance (op : Z → Z → Z) (amount : Z) (id : string) : M unit :=
  query (sql_update_balance op amount id) ;;
  take_lock ("wallets", id).

(** [INSERT INTO transfers ... RETURNING id, created_at] *)
Definition sql_insert_transfer (t : Transfer) (c : Ctx) (d : DB) : Res (string * Z * DB) :=
  let? source := uuid_param (Transfer_SourceWalletID t) in
  let? dest := uuid_param (Transfer_DestinationWalletID t) in
  let? amount := bigint (Transfer_Amount t) in
  let? currency := varchar 3 (Transfer_Currency t) in
  let? status := varchar 50 (Transfer_Status t) in
  let? key := varchar 255 (Transfer_IdempotencyKey t) in
  let? _ := check_constraint "positive_transfer_amount" (0 <? amount) in
  let? _ := check_constraint "different_wallets" (bool_decide (source ≠ dest)) in
  let? table := insert_pk "transfers_pkey" (transfers_t d) (c_uuid c)
                  (mkTransfer (c_uuid c) source dest amount currency status key (c_now c)) in
  let? _ := references "wallets" (wallets_t d) source in
  let? _ := references "wallets" (wallets_t d) dest in
  let? _ := references "idempotency_keys" (idempotency_keys d) key in
  Ok (c_uuid c, c_now c, set_transfers table d).

End Statements.

(** ** internal/observability/metrics.go *)

(** [TransfersTotal.WithLabelValues(status).Inc()] *)
Definition RecordTransfer (success : bool) : M unit := λ w,
  let label := if success then "success" else "failure" in
  let n := default 0 (w_transfers_total w !! label) in
  (Ok tt, set_transfers_total (<[label := n + 1]> (w_transfers_total w)) w).

Section Service.
Context `{Env} {L : LedgerRepository} {X : OutboxRepository}.

(** The transfer's row, its ledger transaction and its event. *)
Definition record_transfer (req : CreateTransferRequest) (idempotencyKey : string)
    (sourceWallet destWallet : wallets.Wallet) : M Transfer :=
  let transfer := mkTransfer "" (Req_SourceWalletID req) (Req_DestinationWalletID req)
                    (Req_Amount req) (Req_Currency req) StatusCompleted idempotencyKey 0 in
  r <- query (sql_insert_transfer transfer) ;;
  let transfer := mkTransfer r.1 (Req_SourceWalletID req) (Req_DestinationWalletID req)
                    (Req_Amount req) (Req_Currency req) StatusCompleted idempotencyKey r.2 in
  wrap_err "failed to create ledger transaction: "
    (CreateTransaction (ledger_txn transfer sourceWallet destWallet req)) ;;
  now <- time_Now ;;
  wrap_err "failed to insert outbox event: "
    (InsertEvent "transfer.events" (event_payload transfer now)) ;;
  ret transfer.

(** Validation, the two updates, and the records. *)
Definition validate_and_move (req : CreateTransferRequest) (idempotencyKey : string)
    (sourceWallet destWallet : wallets.Wallet) : M Transfer :=
  guard (bool_decide (wallets.Wallet_Status sourceWallet = wallets.StatusActive) &&
         bool_decide (wallets.Wallet_Status destWallet = wallets.StatusActive)) err_not_active ;;
  guard (bool_decide (wallets.Wallet_Currency sourceWallet = Req_Currency req) &&
         bool_decide (wallets.Wallet_Currency destWallet = Req_Currency req)) ErrCurrencyMismatch ;;
  guard (negb (wallets.Wallet_AvailableBalance sourceWallet <? Req_Amount req))
    ErrInsufficientFunds ;;
  update_balance Z.sub (Req_Amount req) (wallets.Wallet_ID sourceWallet) ;;
  update_balance Z.add (Req_Amount req) (wallets.Wallet_ID destWallet) ;;
  record_transfer req idempotencyKey sourceWallet destWallet.

(** The statements between [BeginTx] and [Commit]. *)
Definition transfer_statements (req : CreateTransferRequest) (idempotencyKey : string)
  : M Transfer :=
  let '(firstLock, secondLock) := lock_order req in
  firstWallet <- wrap_err ("failed to lock wallet " +:+ firstLock +:+ ": ")
                   (lock_wallet firstLock) ;;
  secondWallet <- wrap_err ("failed to lock wallet " +:+ secondLock +:+ ": ")
                    (lock_wallet secondLock) ;;
  let '(sourceWallet, destWallet) := assign req firstWallet secondWallet in
  validate_and_move req idempotencyKey sourceWallet destWallet.

(** Up to the deferred [RecordTransfer]. *)
Definition transfer_body (req : CreateTransferRequest) (idempotencyKey : string)
  : prog (Res Transfer) :=
  if bool_decide (Req_SourceWalletID req = Req_DestinationWalletID req)
  then Ret (Err ErrSameWallet)
  else if Req_Amount req <=? 0 then Ret (Err err_amount)
  else call (with_tx (transfer_statements req idempotencyKey)).

#[export] Instance serviceImpl : TransfersService := λ req idempotencyKey,
  let+ result := transfer_body req idempotencyKey in
  let+ _ := call (RecordTransfer (is_ok result)) in
  Ret result.
End Service.

(** ** What a transfer does *)

Section Effect.
Context `{Env}.

(** The balances after [amount] moved from one wallet to the other; the debited
    wallet had it, and the credited one has room for it. *)
Definition moved (amount : Z) (debited credited : string) (d d' : DB) : Prop :=
  ∃ src dst, wallets_t d !! debited = Some src ∧ wallets_t d !! credited = Some dst ∧
    debited ≠ credited ∧ 0 < amount <= wallets.Wallet_AvailableBalance src ∧
    in_int64 (wallets.Wallet_AvailableBalance dst + amount) ∧
    d' = set_wallets
      (<[credited := wallets.set_available (wallets.Wallet_AvailableBalance dst + amount) dst]>
        (<[debited := wallets.set_available (wallets.Wallet_AvailableBalance src - amount) src]>
           (wallets_t d))) d.

(** The row of the transfer, with the request's ids as the database reads them. *)
Definition recorded (req : CreateTransferRequest) (key : string) (t : Transfer) (d d' : DB)
  : Prop :=
  ∃ row, transfers_t d !! Transfer_ID t = None ∧ Transfer_ID row = Transfer_ID t ∧
    uuid_in (Req_SourceWalletID req) = Some (Transfer_SourceWalletID row) ∧
    uuid_in (Req_DestinationWalletID req) = Some (Transfer_DestinationWalletID row) ∧
    Transfer_Amount row = Req_Amount req ∧ Transfer_Status row = StatusCompleted ∧
    varchar 3 (Req_Currency req) = Ok (Transfer_Currency row) ∧
    varchar 255 key = Ok (Transfer_IdempotencyKey row) ∧
    is_Some (idempotency_keys d !! Transfer_IdempotencyKey row) ∧
    Transfer_CreatedAt row = Transfer_CreatedAt t ∧
    d' = set_transfers (<[Transfer_ID t := row]> (transfers_t d)) d.

(** Both wallets may take part. *)
Definition eligible (req : CreateTransferRequest) (w : wallets.Wallet) : Prop :=
  wallets.Wallet_Status w = wallets.StatusActive ∧ wallets.Wallet_Currency w = Req_Currency req.

(** What the outbox announces: the request's amount and currency, the id of the
    transfer and the time. *)
Definition announced (req : CreateTransferRequest) (id : string) (now : Z) : json :=
  JObj [("amount", JNum (Req_Amount req)); ("currency", JStr (Req_Currency req));
        ("status", JStr "COMPLETED"); ("timestamp", JTime RFC3339 now);
        ("transfer_id", JStr id)].

(** The whole effect of a transfer that debits one wallet and credits the other: the
    balances, the row of the transfer, a ledger transaction that debits the account of
    the debited wallet and credits the account of the credited one, and the event. *)
Definition booked (req : CreateTransferRequest) (key debited credited : string) (t : Transfer)
    (d d' : DB) : Prop :=
  ∃ src dst now enq_now d1 d2 d3,
    wallets_t d !! debited = Some src ∧ wallets_t d !! credited = Some dst ∧
    eligible req src ∧ eligible req dst ∧
    moved (Req_Amount req) debited credited d d1 ∧ recorded req key t d1 d2 ∧
    posted (double_entry (Transfer_ID t) ledger.TxTypeTransfer (wallets.Wallet_AccountID src)
              (wallets.Wallet_AccountID dst) (Req_Currency req) (Req_Amount req)) d2 d3 ∧
    enqueued "transfer.events" (announced req (Transfer_ID t) now) enq_now d3 d'.

(** The source and the destination of a request, as the code takes them: they are
    exchanged when the source is not spelled as the database prints it and is not
    above the destination in byte order. *)
Definition reversed (req : CreateTransferRequest) : Prop :=
  ¬ canonical (Req_SourceWalletID req) ∧
  String.ltb (Req_DestinationWalletID req) (Req_SourceWalletID req) = false.

#[export] Instance reversed_dec req : Decision (reversed req).
Proof. unfold reversed. apply _. Defined.

Definition roles (req : CreateTransferRequest) (source dest : string) : string * string :=
  if decide (reversed req) then (dest, source) else (source, dest).

(** The transfer as it is returned. *)
Definition returned (req : CreateTransferRequest) (key : string) (t : Transfer) : Prop :=
  Transfer_SourceWalletID t = Req_SourceWalletID req ∧
  Transfer_DestinationWalletID t = Req_DestinationWalletID req ∧
  Transfer_Amount t = Req_Amount req ∧ Transfer_Currency t = Req_Currency req ∧
  Transfer_Status t = StatusCompleted ∧ Transfer_IdempotencyKey t = key.
End Effect.

(** ** One statement at a time *)

(** A world that differs at most in the database, the time and the locks. *)
Definition quiet (w w' : World) : Prop :=
  (w_tick w ≤ w_tick w')%nat ∧ w_now w' = w_now w ∧
  w_transfers_total w' = w_transfers_total w ∧ w_payments_total w' = w_payments_total w ∧
  w_topics w' = w_topics w ∧ w_redis w' = w_redis w.

#[global] Instance quiet_preorder : PreOrder quiet.
Proof.
  split; [intros w; unfold quiet; naive_solver lia|].
  intros w1 w2 w3 (?&?&?&?&?&?) (?&?&?&?&?&?). unfold quiet. repeat split; (lia || congruence).
Qed.

Lemma silent_quiet w w' : silent w w' → quiet w w'.
Proof. unfold silent, quiet. naive_solver. Qed.

(** A lock taken or held before. *)
Definition add_lock (l : string * string) (ls : list (string * string)) : list (string * string) :=
  if decide (l ∈ ls) then ls else ls ++ [l].

Lemma take_lock_run l w :
  take_lock l w = (Ok tt, set_locks (add_lock l (w_locks w)) w).
Proof. unfold take_lock, add_lock. case_decide; by destruct w. Qed.

Lemma elem_of_add_lock l k ls : k ∈ add_lock l ls ↔ k = l ∨ k ∈ ls.
Proof. unfold add_lock. case_decide; set_solver. Qed.

Lemma add_lock_held l ls : l ∈ ls → add_lock l ls = ls.
Proof. intros ?. unfold add_lock. by rewrite decide_True. Qed.

Section Steps.
Context `{UuidLaws}.

Lemma lock_wallet_ok id w x w' :
  lock_wallet id w = (Ok x, w') →
  ∃ u row, uuid_in id = Some u ∧ wallets_t (w_db w) !! u = Some row ∧ x = scan_locked u row ∧
    w' = set_locks (add_lock ("wallets", u) (w_locks w)) (bump w).
Proof.
  unfold lock_wallet. intros (y & w1 & Hq & Hrest)%bind_ok.
  unfold bind in Hrest. rewrite take_lock_run in Hrest. injection Hrest as <- <-.
  apply query_ok in Hq as (d & Hq & ->). unfold sql_lock_wallet in Hq. m_inv.
  destruct (wallets_t (w_db w) !! _) as [row|] eqn:Hrow; [|done]. simplify_eq.
  eexists _, row. split; [done|]. split; [done|]. split; [done|]. by destruct w.
Qed.

Lemma update_balance_ok op amount u row w r w' :
  canonical u → wallets_t (w_db w) !! u = Some row →
  update_balance op amount u w = (Ok r, w') →
  let balance := op (wallets.Wallet_AvailableBalance row) amount in
  in_int64 amount ∧ in_int64 balance ∧ 0 <= balance ∧
  w' = set_locks (add_lock ("wallets", u) (w_locks w))
         (Runtime.set_db (set_wallets (<[u := wallets.set_available balance row]>
            (wallets_t (w_db w))) (w_db w)) (bump w)).
Proof.
  intros Hu Hrow. unfold update_balance. intros (y & w1 & Hq & Hrest)%bind_ok.
  rewrite take_lock_run in Hrest. injection Hrest as <- <-.
  apply query_ok in Hq as (d & Hq & ->). unfold sql_update_balance in Hq.
  rewrite (uuid_param_some _ _ Hu) in Hq. m_inv. cbn [res_bind] in *. rewrite Hrow in *.
  m_inv. bools. done.
Qed.

Lemma sql_insert_transfer_ok req key c d id at_ d' :
  sql_insert_transfer (mkTransfer "" (Req_SourceWalletID req) (Req_DestinationWalletID req)
    (Req_Amount req) (Req_Currency req) StatusCompleted key 0) c d = Ok (id, at_, d') →
  id = c_uuid c ∧ uuid_in (Req_SourceWalletID req) ≠ uuid_in (Req_DestinationWalletID req) ∧
  0 < Req_Amount req ∧
  recorded req key (mkTransfer id (Req_SourceWalletID req) (Req_DestinationWalletID req)
    (Req_Amount req) (Req_Currency req) StatusCompleted key at_) d d'.
Proof.
  intros Hq. unfold sql_insert_transfer in Hq.
  cbn [Transfer_SourceWalletID Transfer_DestinationWalletID Transfer_Amount Transfer_Currency
       Transfer_Status Transfer_IdempotencyKey] in Hq. m_inv. bools.
  split; [done|]. split; [congruence|]. split; [done|].
  eexists (mkTransfer _ _ _ _ _ _ _ _). simpl.
  repeat (split; [eassumption || reflexivity|]). reflexivity.
Qed.
End Steps.

(** ** The statements of a transfer, backwards *)

Section Statements_ok.
Context `{UuidLaws} {L : LedgerRepository} {X : OutboxRepository}
  `{LC : !LedgerContract L} `{OC : !OutboxContract X}.

(** Which wallet is debited, from the order of locking. *)
Lemma assign_roles req x1 x2 first second source dest row1 row2 :
  lock_order req = (x1, x2) → uuid_in x1 = Some first → uuid_in x2 = Some second →
  uuid_in (Req_SourceWalletID req) = Some source →
  uuid_in (Req_DestinationWalletID req) = Some dest → source ≠ dest →
  ∃ (rows : wallets.Wallet * wallets.Wallet),
    assign req (scan_locked first row1) (scan_locked second row2) =
      (scan_locked (roles req source dest).1 rows.1, scan_locked (roles req source dest).2 rows.2) ∧
    (((roles req source dest).1 = first ∧ (roles req source dest).2 = second ∧
      rows = (row1, row2)) ∨
     ((roles req source dest).1 = second ∧ (roles req source dest).2 = first ∧
      rows = (row2, row1))).
Proof.
  unfold lock_order, assign, roles. intros Ho H1 H2 Hs Hd Hne. cbn [wallets.Wallet_ID scan_locked].
  destruct (decide (reversed req)) as [[Hnc Hlt]|Hnr]; [|destruct (String.ltb _ _) eqn:Hlt].
  - rewrite Hlt in Ho. injection Ho as <- <-.
    assert (first = source) as -> by congruence. assert (second = dest) as -> by congruence.
    rewrite bool_decide_eq_false_2 by (unfold canonical in Hnc; congruence).
    exists (row2, row1). auto.
  - injection Ho as <- <-.
    assert (first = dest) as -> by congruence. assert (second = source) as -> by congruence.
    rewrite bool_decide_eq_false_2; [exists (row2, row1); auto|].
    intros Heq. rewrite <- Heq in Hs. apply uuid_in_canonical in Hd. congruence.
  - injection Ho as <- <-.
    assert (first = source) as -> by congruence. assert (second = dest) as -> by congruence.
    rewrite bool_decide_eq_true_2; [exists (row1, row2); auto|].
    assert (Hc : canonical (Req_SourceWalletID req)).
    { apply dec_stable. intros Hn. apply Hnr. by split. }
    unfold canonical in Hc. congruence.
Qed.

(** The two updates. *)
Lemma updates_ok amount a b ra rb w u1 w1 u2 w2 :
  update_balance Z.sub amount a w = (Ok u1, w1) → update_balance Z.add amount b w1 = (Ok u2, w2) →
  canonical a → canonical b → a ≠ b → wallets_t (w_db w) !! a = Some ra →
  wallets_t (w_db w) !! b = Some rb → 0 < amount <= wallets.Wallet_AvailableBalance ra →
  moved amount a b (w_db w) (w_db w2) ∧ quiet w w2 ∧
  w_locks w2 = add_lock ("wallets", b) (add_lock ("wallets", a) (w_locks w)).
Proof.
  intros Hu1 Hu2 Ha Hb Hne Hra Hrb Ham.
  apply (update_balance_ok _ _ _ ra) in Hu1 as (_ & _ & _ & ->); [|done..].
  apply (update_balance_ok _ _ _ rb) in Hu2 as (_ & Hin & _ & ->);
    [|done|simpl; by rewrite lookup_insert_ne].
  split; [|split; [unfold quiet; simpl; repeat split; lia|done]].
  exists ra, rb. simpl. by destruct (w_db w).
Qed.

(** The three records of the transfer. *)
Lemma records_ok req key src dst w r w1 txn w2 now w3 u w4 :
  let t := mkTransfer r.1 (Req_SourceWalletID req) (Req_DestinationWalletID req)
             (Req_Amount req) (Req_Currency req) StatusCompleted key r.2 in
  query (sql_insert_transfer (mkTransfer "" (Req_SourceWalletID req)
    (Req_DestinationWalletID req) (Req_Amount req) (Req_Currency req) StatusCompleted key 0)) w
    = (Ok r, w1) →
  CreateTransaction (ledger_txn t src dst req) w1 = (Ok txn, w2) →
  time_Now w2 = (Ok now, w3) →
  InsertEvent "transfer.events" (event_payload t now) w3 = (Ok u, w4) →
  uuid_in (Req_SourceWalletID req) ≠ uuid_in (Req_DestinationWalletID req) ∧
  0 < Req_Amount req ∧ silent w w4 ∧
  ∃ enq_now d2 d3, recorded req key t (w_db w) d2 ∧
    posted (double_entry (Transfer_ID t) ledger.TxTypeTransfer (wallets.Wallet_AccountID src)
              (wallets.Wallet_AccountID dst) (Req_Currency req) (Req_Amount req)) d2 d3 ∧
    enqueued "transfer.events" (announced req (Transfer_ID t) now) enq_now d3 (w_db w4).
Proof.
  intros t Hins Htxn Hnow Hev. destruct r as [id at_].
  pose proof (query_silent _ _ _ _ Hins) as Hs1.
  apply query_ok in Hins as (d & Hq & ->).
  apply sql_insert_transfer_ok in Hq as (_ & Hne & Hpos & Hrec).
  apply ledger_ok in Htxn as (_ & Hpost & Hs2).
  injection Hnow as _ <-. apply insert_event_ok in Hev as (Henq & Hs3).
  split; [done|]. split; [done|]. split; [by rewrite Hs1, Hs2|]. eauto 10.
Qed.

Lemma transfer_statements_ok req key w t w' :
  transfer_statements req key w = (Ok t, w') →
  ∃ source dest, uuid_in (Req_SourceWalletID req) = Some source ∧
    uuid_in (Req_DestinationWalletID req) = Some dest ∧ source ≠ dest ∧
    booked req key (roles req source dest).1 (roles req source dest).2 t (w_db w) (w_db w') ∧
    returned req key t ∧ quiet w w' ∧
    ∃ first second, uuid_in (lock_order req).1 = Some first ∧
      uuid_in (lock_order req).2 = Some second ∧
      w_locks w' = add_lock ("wallets", second) (add_lock ("wallets", first) (w_locks w)).
Proof.
  unfold transfer_statements. destruct (lock_order req) as [x1 x2] eqn:Hord.
  intros (wa & w1 & Hla%wrap_err_ok & Hrun)%bind_ok.
  apply bind_ok in Hrun as (wb & w2 & Hlb%wrap_err_ok & Hrun).
  apply lock_wallet_ok in Hla as (first & row1 & Hx1 & Hrow1 & -> & ->).
  apply lock_wallet_ok in Hlb as (second & row2 & Hx2 & Hrow2 & -> & ->).
  destruct (assign _ _ _) as [src dst] eqn:Hass. unfold validate_and_move, record_transfer in Hrun. m_inv. bools.
  match goal with
  | H1 : query _ _ = _, H2 : CreateTransaction _ _ = _, H3 : time_Now _ = _,
    H4 : InsertEvent _ _ _ = _ |- _ =>
    destruct (records_ok _ _ _ _ _ _ _ _ _ _ _ _ _ H1 H2 H3 H4)
      as (Hne & Hpos & Hsil & enq & d2 & d3 & Hrec & Hpost & Henq)
  end.
  assert (∃ source dest, uuid_in (Req_SourceWalletID req) = Some source ∧
    uuid_in (Req_DestinationWalletID req) = Some dest) as (source & dest & Hsrc & Hdst).
  { destruct Hrec as (row & _ & _ & ? & ? & _). eauto. }
  assert (source ≠ dest) as Hsd by congruence.
  destruct (assign_roles req x1 x2 first second source dest row1 row2 Hord Hx1 Hx2 Hsrc Hdst Hsd)
    as (rows & Heq & Hroles).
  rewrite Heq in Hass. injection Hass as <- <-. simpl in Hrow2.
  set (a := (roles req source dest).1) in *. set (b := (roles req source dest).2) in *.
  assert (Hab : canonical a ∧ canonical b ∧ a ≠ b ∧ wallets_t (w_db w) !! a = Some rows.1 ∧
    wallets_t (w_db w) !! b = Some rows.2 ∧
    (("wallets", a) = ("wallets", first) ∨ ("wallets", a) = ("wallets", second)) ∧
    (("wallets", b) = ("wallets", first) ∨ ("wallets", b) = ("wallets", second))).
  { assert (a ≠ b) by (unfold a, b, roles; case_decide; simpl; congruence).
    apply uuid_in_canonical in Hx1, Hx2. clearbody a b.
    destruct Hroles as [(-> & -> & ->)|(-> & -> & ->)]; simpl; auto 10. }
  destruct Hab as (Hca & Hcb & Hne' & Hra & Hrb & Hla & Hlb).
  assert (Hfunds : 0 < Req_Amount req <= wallets.Wallet_AvailableBalance rows.1)
    by (split; assumption).
  match goal with
  | H1 : update_balance Z.sub _ _ _ = _, H2 : update_balance Z.add _ _ _ = _ |- _ =>
    destruct (updates_ok (Req_Amount req) a b rows.1 rows.2 _ _ _ _ _ H1 H2 Hca Hcb Hne'
                Hra Hrb Hfunds) as (Hmov & Hq & Hlocks)
  end.
  exists source, dest. split; [done|]. split; [done|]. split; [done|]. split.
  { exists rows.1, rows.2. do 5 eexists. repeat (split; [eassumption || done|]). exact Henq. }
  split; [done|].
  destruct Hsil as (Ht & Hn & Hl & Hm). split.
  { transitivity x10; [|by apply silent_quiet; repeat split; naive_solver].
    etrans; [|exact Hq]. unfold quiet. simpl. repeat split; lia. }
  exists first, second. split; [done|]. split; [done|]. rewrite Hl, Hlocks. simpl.
  rewrite (add_lock_held ("wallets", a)), (add_lock_held ("wallets", b));
    [done|rewrite !elem_of_add_lock; tauto..].
Qed.
End Statements_ok.

(** ** The bank the service implements

    The abstract machine: wallets as a currency, a status and a balance, and a
    transfer as one step, or a reason not to make it. *)

Record BankWallet := mkBankWallet {
  bank_currency : string;
  bank_status : string;
  bank_balance : Z;
}.

Definition Bank := gmap string BankWallet.

Definition bank_wallet (w : wallets.Wallet) : BankWallet :=
  mkBankWallet (wallets.Wallet_Currency w) (wallets.Wallet_Status w)
    (wallets.Wallet_AvailableBalance w).

Definition bank_of (d : DB) : Bank := bank_wallet <$> wallets_t d.

Lemma bank_of_lookup d id : bank_of d !! id = bank_wallet <$> wallets_t d !! id.
Proof. apply lookup_fmap. Qed.

Inductive refusal : Set :=
| SameWallet | BadAmount | UnknownWallet | NotActive | WrongCurrency | NoFunds | NoRoom.

Definition with_balance (b : Z) (w : BankWallet) : BankWallet :=
  mkBankWallet (bank_currency w) (bank_status w) b.

Definition bank_transfer (bank : Bank) (source dest : string) (amount : Z) (currency : string)
  : refusal + Bank :=
  if decide (source = dest) then inl SameWallet
  else if decide (amount <= 0) then inl BadAmount
  else match bank !! source, bank !! dest with
  | Some src, Some dst =>
    if decide (¬ (bank_status src = wallets.StatusActive ∧ bank_status dst = wallets.StatusActive))
    then inl NotActive
    else if decide (¬ (bank_currency src = currency ∧ bank_currency dst = currency))
    then inl WrongCurrency
    else if decide (bank_balance src < amount) then inl NoFunds
    else if decide (int64_max < bank_balance dst + amount) then inl NoRoom
    else inr (<[dest := with_balance (bank_balance dst + amount) dst]>
               (<[source := with_balance (bank_balance src - amount) src]> bank))
  | _, _ => inl UnknownWallet
  end.

(** The errors that report each reason. *)
Definition reports (why : refusal) (e : error) : Prop :=
  match why with
  | SameWallet => e = ErrSameWallet
  | BadAmount => e = err_amount
  | UnknownWallet => ∃ id, e = fmt_Errorf ("failed to lock wallet " +:+ id +:+ ": ") pgx_ErrNoRows ""
  | NotActive => e = err_not_active
  | WrongCurrency => e = ErrCurrencyMismatch
  | NoFunds => e = ErrInsufficientFunds
  | NoRoom => e = bigint_out_of_range
  end.

(** ** Consequences of a booked transfer *)

Lemma ltb_total a b : a ≠ b → String.ltb b a = false → String.ltb a b = true.
Proof.
  unfold String.ltb. intros Hne. rewrite (String.compare_antisym a b).
  destruct (String.compare b a) eqn:Hc; simpl; try done.
  apply String.compare_eq_iff in Hc. congruence.
Qed.

Section Booked.
Context `{UuidLaws}.

(** The money in the wallets of a currency. *)
Definition wallet_total (currency : string) (d : DB) : Z :=
  map_sum (λ w, if decide (wallets.Wallet_Currency w = currency)
                then wallets.Wallet_AvailableBalance w + wallets.Wallet_LockedBalance w else 0)
    (wallets_t d).

Definition solvent (d : DB) : Prop :=
  ∀ id w, wallets_t d !! id = Some w → 0 <= wallets.Wallet_AvailableBalance w.

Lemma enqueued_frame topic payload now d d' :
  enqueued topic payload now d d' →
  users d' = users d ∧ accounts d' = accounts d ∧ wallets_t d' = wallets_t d ∧
  ledger_transactions d' = ledger_transactions d ∧ ledger_entries d' = ledger_entries d ∧
  idempotency_keys d' = idempotency_keys d ∧ transfers_t d' = transfers_t d ∧
  payments_t d' = payments_t d ∧ webhook_events d' = webhook_events d ∧
  reconciliation_runs d' = reconciliation_runs d ∧
  reconciliation_items d' = reconciliation_items d.
Proof. intros (ev & _ & _ & _ & _ & _ & _ & _ & _ & ->). by repeat split. Qed.

Lemma booked_frame req key a b t d d' :
  booked req key a b t d d' →
  users d' = users d ∧ accounts d' = accounts d ∧ idempotency_keys d' = idempotency_keys d ∧
  payments_t d' = payments_t d ∧ webhook_events d' = webhook_events d ∧
  reconciliation_runs d' = reconciliation_runs d ∧
  reconciliation_items d' = reconciliation_items d.
Proof.
  intros (src & dst & now & enq & d1 & d2 & d3 & _ & _ & _ & _ & Hm & Hr & Hp & He).
  apply enqueued_frame in He as (?&?&?&?&?&?&?&?&?&?&?).
  apply posted_frame in Hp as (?&?&?&?&?&?&?&?&?&?).
  destruct Hr as (row & _ & _ & _ & _ & _ & _ & _ & _ & _ & _ & ->).
  destruct Hm as (? & ? & _ & _ & _ & _ & _ & ->). simpl in *. repeat split; congruence.
Qed.

Lemma booked_wallets req key a b t d d' :
  booked req key a b t d d' →
  ∃ src dst, wallets_t d !! a = Some src ∧ wallets_t d !! b = Some dst ∧ a ≠ b ∧
    eligible req src ∧ eligible req dst ∧
    0 < Req_Amount req <= wallets.Wallet_AvailableBalance src ∧
    in_int64 (wallets.Wallet_AvailableBalance dst + Req_Amount req) ∧
    wallets_t d' =
      <[b := wallets.set_available (wallets.Wallet_AvailableBalance dst + Req_Amount req) dst]>
        (<[a := wallets.set_available (wallets.Wallet_AvailableBalance src - Req_Amount req) src]>
           (wallets_t d)).
Proof.
  intros (src & dst & now & enq & d1 & d2 & d3 & ? & ? & ? & ? & Hm & Hr & Hp & He).
  apply enqueued_frame in He as (_&_&He&_). apply posted_frame in Hp as (_&_&Hp&_).
  destruct Hr as (row & _ & _ & _ & _ & _ & _ & _ & _ & _ & _ & ->).
  destruct Hm as (src' & dst' & ? & ? & ? & ? & ? & ->). simplify_eq. simpl in *.
  exists src, dst. rewrite He, Hp. auto 10.
Qed.

Lemma booked_transfers req key a b t d d' :
  booked req key a b t d d' →
  ∃ row, transfers_t d !! Transfer_ID t = None ∧
    varchar 255 key = Ok (Transfer_IdempotencyKey row) ∧
    is_Some (idempotency_keys d !! Transfer_IdempotencyKey row) ∧
    transfers_t d' = <[Transfer_ID t := row]> (transfers_t d).
Proof.
  intros (src & dst & now & enq & d1 & d2 & d3 & ? & ? & ? & ? & Hm & Hr & Hp & He).
  apply enqueued_frame in He as (_&_&_&_&_&_&He&_). apply posted_frame in Hp as (_&_&_&_&Hp&_).
  destruct Hr as (row & Hn & _ & _ & _ & _ & _ & _ & Hk & Hs & _ & ->).
  destruct Hm as (src' & dst' & _ & _ & _ & _ & _ & ->). simpl in *.
  exists row. rewrite He, Hp. auto.
Qed.

Lemma booked_total currency req key a b t d d' :
  booked req key a b t d d' → wallet_total currency d' = wallet_total currency d.
Proof.
  intros (src & dst & Ha & Hb & Hne & [_ Hcs] & [_ Hcd] & _ & _ & Hw)%booked_wallets.
  unfold wallet_total. rewrite Hw.
  rewrite (map_sum_update _ _ b dst) by (by rewrite lookup_insert_ne).
  rewrite (map_sum_update _ _ a src) by done. simpl. rewrite Hcs, Hcd.
  case_decide; lia.
Qed.

Lemma booked_ledger_total dir req key a b t d d' :
  booked req key a b t d d' →
  ledger_total dir d' = ledger_total dir d
    + (if decide (ledger.DirectionDebit = dir) then Req_Amount req else 0)
    + (if decide (ledger.DirectionCredit = dir) then Req_Amount req else 0).
Proof.
  intros (src & dst & now & enq & d1 & d2 & d3 & ? & ? & ? & ? & Hm & Hr & Hp & He).
  apply enqueued_frame in He as (_&_&_&_&He&_). unfold ledger_total at 1. rewrite He.
  fold (ledger_total dir d3). rewrite (posted_total dir _ _ _ Hp).
  destruct Hr as (row & _ & _ & _ & _ & _ & _ & _ & _ & _ & _ & ->).
  destruct Hm as (src' & dst' & _ & _ & _ & _ & _ & ->). unfold ledger_total at 1. simpl.
  fold (ledger_total dir d). lia.
Qed.

Lemma booked_solvent req key a b t d d' : booked req key a b t d d' → solvent d → solvent d'.
Proof.
  intros (src & dst & Ha & Hb & Hne & _ & _ & Ham & _ & Hw)%booked_wallets Hs id w.
  rewrite Hw. pose proof (Hs _ _ Hb). intros [[<- <-]|[_ [[<- <-]|[_ Hid]]%lookup_insert_Some]]%lookup_insert_Some;
    simpl; [lia..|]. by eapply Hs.
Qed.

(** The ledger follows the balances: the debited wallet's account loses what the
    credited wallet's account gains. *)
Lemma booked_net account req key a b t d d' :
  booked req key a b t d d' →
  ∃ src dst, wallets_t d !! a = Some src ∧ wallets_t d !! b = Some dst ∧
    net_ledger account d' = net_ledger account d
      - (if decide (uuid_in (wallets.Wallet_AccountID src) = Some account) then Req_Amount req else 0)
      + (if decide (uuid_in (wallets.Wallet_AccountID dst) = Some account) then Req_Amount req else 0).
Proof.
  intros (src & dst & now & enq & d1 & d2 & d3 & ? & ? & ? & ? & Hm & Hr & Hp & He).
  exists src, dst. split; [done|]. split; [done|].
  apply enqueued_frame in He as (_&_&_&_&He&_). unfold net_ledger at 1. rewrite He.
  fold (net_ledger account d3). rewrite (posted_net account _ _ _ Hp).
  destruct Hr as (row & _ & _ & _ & _ & _ & _ & _ & _ & _ & _ & ->).
  destruct Hm as (src' & dst' & _ & _ & _ & _ & _ & ->). unfold net_ledger at 1. simpl.
  fold (net_ledger account d). unfold signed_amount. simpl.
  repeat case_decide; lia.
Qed.
End Booked.

Lemma booked_bank `{UuidLaws} req key a b t d d' :
  booked req key a b t d d' →
  bank_transfer (bank_of d) a b (Req_Amount req) (Req_Currency req) = inr (bank_of d').
Proof.
  intros (src & dst & Ha & Hb & Hne & [Hs1 Hs2] & [Hd1 Hd2] & Ham & Hin & Hw)%booked_wallets.
  unfold bank_transfer. rewrite decide_False, decide_False by (done || lia).
  rewrite !bank_of_lookup, Ha, Hb. simpl. unfold in_int64 in Hin.
  rewrite !decide_False by (tauto || lia). f_equal. unfold bank_of. rewrite Hw, !fmap_insert. done.
Qed.

(** ** The whole operation *)

Section Operation.
Context `{UuidLaws} {L : LedgerRepository} {X : OutboxRepository}
  `{LC : !LedgerContract L} `{OC : !OutboxContract X}.

Lemma transfer_body_cases req key w r w' :
  run (transfer_body req key) w = (r, w') →
  (∃ e, r = Err e ∧ w_db w' = w_db w) ∨
  ∃ source dest t, uuid_in (Req_SourceWalletID req) = Some source ∧
    uuid_in (Req_DestinationWalletID req) = Some dest ∧
    booked req key (roles req source dest).1 (roles req source dest).2 t (w_db w) (w_db w') ∧
    returned req key t ∧ (r = Ok t ∨ ∃ msg, r = Err (ext_error msg)).
Proof.
  unfold transfer_body. case_bool_decide; [intros [= <- <-]; left; by eexists|].
  destruct (Z.leb_spec (Req_Amount req) 0); [intros [= <- <-]; left; by eexists|].
  rewrite run_call. intros [Herr|(t & w1 & Hb & -> & Hr)]%with_tx_cases; [by left|right].
  apply transfer_statements_ok in Hb as (source & dest & ? & ? & _ & Hbk & Hret & _).
  exists source, dest, t. naive_solver.
Qed.

Lemma execute_transfer_run req key w :
  run (ExecuteTransfer req key) w =
  let '(r, w1) := run (transfer_body req key) w in (r, (RecordTransfer (is_ok r) w1).2).
Proof.
  unfold ExecuteTransfer, serviceImpl. rewrite run_bind.
  destruct (run (transfer_body req key) w) as [r w1]. by rewrite run_bind, run_call.
Qed.

Lemma execute_transfer_within req key : within 2 (ExecuteTransfer req key).
Proof.
  apply (within_bind 1 1); [|done]. unfold transfer_body.
  by case_bool_decide; [|destruct (_ <=? _)].
Qed.

Lemma execute_transfer_cases req key w r w' :
  run (ExecuteTransfer req key) w = (r, w') →
  (∃ e, r = Err e ∧ w_db w' = w_db w) ∨
  ∃ source dest t, uuid_in (Req_SourceWalletID req) = Some source ∧
    uuid_in (Req_DestinationWalletID req) = Some dest ∧
    booked req key (roles req source dest).1 (roles req source dest).2 t (w_db w) (w_db w') ∧
    returned req key t ∧ (r = Ok t ∨ ∃ msg, r = Err (ext_error msg)).
Proof.
  rewrite execute_transfer_run. destruct (run (transfer_body req key) w) as [r0 w1] eqn:Hrun.
  intros [= <- <-]. exact (transfer_body_cases _ _ _ _ _ Hrun).
Qed.

Lemma roles_canonical req source dest :
  canonical (Req_SourceWalletID req) → roles req source dest = (source, dest).
Proof. intros Hc. unfold roles. rewrite decide_False; [done|]. by intros [? _]. Qed.

(** With the outbox and the ledger on PostgreSQL or any that keep the contracts: the
    locks of a successful transfer. *)
Lemma transfer_locks req key w t w' :
  run (transfer_body req key) w = (Ok t, w') →
  ∃ first second, uuid_in (lock_order req).1 = Some first ∧
    uuid_in (lock_order req).2 = Some second ∧ w_locks w' =
      add_lock ("wallets", second) [("wallets", first)].
Proof.
  unfold transfer_body. case_bool_decide; [done|].
  destruct (Z.leb_spec (Req_Amount req) 0); [done|].
  rewrite run_call. intros (w1 & Hb & ->)%with_tx_ok.
  apply transfer_statements_ok in Hb as (_ & _ & _ & _ & _ & _ & _ & _ & first & second & ? & ? & Hl).
  exists first, second. split; [done|]. split; [done|]. simpl. by rewrite Hl.
Qed.
End Operation.

(** ** The statements of a transfer, forwards *)

Section Forward.
Context `{UuidLaws} {L : LedgerRepository} {X : OutboxRepository}
  `{LC : !LedgerContract L} `{OC : !OutboxContract X}.

(** What the columns and foreign keys of [wallets] guarantee of every row. *)
Definition wallets_ok (d : DB) : Prop :=
  ∀ id w, wallets_t d !! id = Some w →
    canonical (wallets.Wallet_AccountID w) ∧ is_Some (accounts d !! wallets.Wallet_AccountID w) ∧
    varchar 3 (wallets.Wallet_Currency w) = Ok (wallets.Wallet_Currency w) ∧
    0 <= wallets.Wallet_AvailableBalance w <= int64_max.

(** The UUIDs of the next exchanges print on fewer than 255 characters. *)
Definition short_uuids (w : World) : Prop :=
  ∀ k, (k < 16)%nat → is_ok (varchar 255 (env_uuid (w_tick w + k))).

Lemma lock_wallet_fine id w :
  canonical id → env_outcome (w_tick w) = Fine →
  lock_wallet id w =
  match wallets_t (w_db w) !! id with
  | Some row => (Ok (scan_locked id row), set_locks (add_lock ("wallets", id) (w_locks w)) (bump w))
  | None => (Err pgx_ErrNoRows, bump w)
  end.
Proof.
  intros Hc Hf. unfold lock_wallet, bind at 1. rewrite query_fine by done.
  unfold sql_lock_wallet. rewrite (uuid_param_some _ _ Hc). simpl.
  destruct (wallets_t (w_db w) !! id); [|done].
  unfold bind. rewrite take_lock_run. by destruct w.
Qed.

Lemma update_balance_fine op amount u row w :
  canonical u → env_outcome (w_tick w) = Fine → in_int64 amount →
  wallets_t (w_db w) !! u = Some row →
  let balance := op (wallets.Wallet_AvailableBalance row) amount in
  update_balance op amount u w =
  if decide (in_int64 balance) then
    if decide (0 <= balance) then
      (Ok tt, set_locks (add_lock ("wallets", u) (w_locks w))
         (Runtime.set_db (set_wallets (<[u := wallets.set_available balance row]>
            (wallets_t (w_db w))) (w_db w)) (bump w)))
    else (Err (check_violation "positive_available_balance"), bump w)
  else (Err bigint_out_of_range, bump w).
Proof.
  intros Hc Hf Ha Hrow balance. unfold update_balance, bind. rewrite query_fine by done.
  unfold sql_update_balance. rewrite (bigint_in _ Ha), (uuid_param_some _ _ Hc). cbn [res_bind].
  rewrite Hrow. fold balance. unfold bigint. destruct (decide (in_int64 balance)); [|done].
  cbn [res_bind]. unfold check_constraint, guard_res.
  destruct (Z.leb_spec 0 balance); case_decide; try lia; [|done].
  cbn [res_bind]. by rewrite take_lock_run.
Qed.

(** Updating a row of a table does not use up an id. *)
Lemma supplied_update_wallet u row row' w ls :
  supplied w → wallets_t (w_db w) !! u = Some row →
  supplied (set_locks ls (Runtime.set_db (set_wallets (<[u := row']> (wallets_t (w_db w)))
              (w_db w)) (bump w))).
Proof.
  intros [Hi Hu] Hrow. split; simpl; [intros i j ??; apply Hi; lia|].
  intros i Hle. specialize (Hu i ltac:(lia)). unfold unused in *. simpl.
  destruct Hu as (?&?&Hw&?&?&?&?&?&?&?&?). repeat split; try done.
  rewrite lookup_insert_ne; [done|]. intros ->. congruence.
Qed.

Lemma insert_transfer_fine req key k source dest w :
  env_outcome (w_tick w) = Fine → supplied w →
  uuid_in (Req_SourceWalletID req) = Some source →
  uuid_in (Req_DestinationWalletID req) = Some dest → source ≠ dest →
  0 < Req_Amount req → in_int64 (Req_Amount req) → is_ok (varchar 3 (Req_Currency req)) →
  varchar 255 key = Ok k → is_Some (idempotency_keys (w_db w) !! k) →
  is_Some (wallets_t (w_db w) !! source) → is_Some (wallets_t (w_db w) !! dest) →
  ∃ d, query (sql_insert_transfer (mkTransfer "" (Req_SourceWalletID req)
      (Req_DestinationWalletID req) (Req_Amount req) (Req_Currency req) StatusCompleted key 0)) w =
    (Ok (env_uuid (w_tick w), w_now w), Runtime.set_db d (bump w)) ∧
    supplied (Runtime.set_db d (bump w)) ∧ accounts d = accounts (w_db w).
Proof.
  intros Hf Hs Hsrc Hdst Hne Hpos Hin (cur & Hcur)%is_ok_inv Hk Hkey Hws Hwd.
  pose proof (supplied_now _ Hs) as (_&_&_&_&_&Hn&_).
  edestruct (query_insert (sql_insert_transfer (mkTransfer "" (Req_SourceWalletID req)
      (Req_DestinationWalletID req) (Req_Amount req) (Req_Currency req) StatusCompleted key 0)) w)
    as [Hq Hs']; [done|done| | |].
  { unfold sql_insert_transfer.
    cbn [Transfer_SourceWalletID Transfer_DestinationWalletID Transfer_Amount Transfer_Currency
         Transfer_Status Transfer_IdempotencyKey].
    rewrite (uuid_param_some _ _ Hsrc), (uuid_param_some _ _ Hdst), (bigint_in _ Hin), Hcur, Hk.
    cbn [res_bind]. change (varchar 50 StatusCompleted) with (Ok StatusCompleted). cbn [res_bind].
    unfold check_constraint. rewrite (proj2 (Z.ltb_lt _ _) Hpos), (bool_decide_eq_true_2 _ Hne).
    cbn [guard_res res_bind c_uuid ctx]. rewrite (insert_pk_fresh _ _ _ _ Hn). cbn [res_bind].
    rewrite (references_some _ _ _ Hws). cbn [res_bind].
    rewrite (references_some _ _ _ Hwd). cbn [res_bind].
    rewrite (references_some _ _ _ Hkey). cbn [res_bind]. reflexivity. }
  { solve_unused. }
  eexists. split; [exact Hq|]. split; [exact Hs'|]. done.
Qed.
End Forward.

Section Refinement.
Context `{UuidLaws} {L : LedgerRepository} {X : OutboxRepository}
  `{LC : !LedgerContract L} `{OC : !OutboxContract X}.

Lemma transfer_postable t src dst req d :
  is_ok (varchar 255 (Transfer_ID t)) → 0 < Req_Amount req → in_int64 (Req_Amount req) →
  is_ok (varchar 3 (Req_Currency req)) →
  canonical (wallets.Wallet_AccountID src) → is_Some (accounts d !! wallets.Wallet_AccountID src) →
  canonical (wallets.Wallet_AccountID dst) → is_Some (accounts d !! wallets.Wallet_AccountID dst) →
  postable d (ledger_txn t src dst req).
Proof.
  intros Hid Hpos Hin Hcur Hs1 Hs2 Hd1 Hd2. split; [split; [simpl; lia|split]|].
  - exists (Req_Currency req). unfold valid_entry.
    repeat (apply Forall_cons; split); [simpl; auto..|done].
  - simpl. reflexivity.
  - split; [done|]. split; [done|]. split; [done|].
    repeat (apply Forall_cons; split); [simpl; eauto..|done].
Qed.

Lemma record_transfer_fine req key k source dest src dst w :
  no_faults (w_tick w) → supplied w → is_ok (varchar 255 (env_uuid (w_tick w))) →
  uuid_in (Req_SourceWalletID req) = Some source →
  uuid_in (Req_DestinationWalletID req) = Some dest → source ≠ dest →
  0 < Req_Amount req → in_int64 (Req_Amount req) → is_ok (varchar 3 (Req_Currency req)) →
  varchar 255 key = Ok k → is_Some (idempotency_keys (w_db w) !! k) →
  is_Some (wallets_t (w_db w) !! source) → is_Some (wallets_t (w_db w) !! dest) →
  canonical (wallets.Wallet_AccountID src) →
  is_Some (accounts (w_db w) !! wallets.Wallet_AccountID src) →
  canonical (wallets.Wallet_AccountID dst) →
  is_Some (accounts (w_db w) !! wallets.Wallet_AccountID dst) →
  ∃ t w', record_transfer req key src dst w = (Ok t, w') ∧
    w_tick w' = (5 + w_tick w)%nat ∧ supplied w'.
Proof.
  intros Hf Hs Hshort Hsrc Hdst Hne Hpos Hin Hcur Hk Hkey Hws Hwd Hca Hac Hcb Hbc.
  destruct (insert_transfer_fine req key k source dest w (no_faults_now _ Hf) Hs Hsrc Hdst Hne
              Hpos Hin Hcur Hk Hkey Hws Hwd) as (d & Hq & Hs1 & Hacc).
  set (w1 := Runtime.set_db d (bump w)) in *.
  assert (Hf1 : no_faults (w_tick w1)) by exact (no_faults_S _ Hf).
  unfold record_transfer. unfold bind at 1. rewrite Hq. cbn [fst snd].
  destruct (ledger_available (ledger_txn (mkTransfer (env_uuid (w_tick w))
    (Req_SourceWalletID req) (Req_DestinationWalletID req) (Req_Amount req) (Req_Currency req)
    StatusCompleted key (w_now w)) src dst req) w1 Hf1 Hs1) as (txn & w2 & Hl & Hs2 & Ht2).
  { apply transfer_postable; try done; simpl; by rewrite Hacc. }
  pose proof (ledger_ok _ _ _ _ Hl) as (_ & _ & Hsil & _).
  assert (Hf2 : no_faults (w_tick w2)) by (eapply no_faults_le; [|exact Hf1]; done).
  unfold bind at 1, wrap_err at 1. rewrite Hl. cbn [res_wrap].
  unfold bind at 1, time_Now at 1.
  destruct (insert_event_available "transfer.events" (event_payload (mkTransfer (env_uuid (w_tick w))
    (Req_SourceWalletID req) (Req_DestinationWalletID req) (Req_Amount req) (Req_Currency req)
    StatusCompleted key (w_now w)) (env_now (w_tick w2))) w2 Hf2 Hs2) as (w3 & He & Hs3 & Ht3); [done|].
  pose proof (insert_event_ok _ _ _ _ _ He) as (_ & Hsil3 & _).
  unfold bind, wrap_err. rewrite He. cbn [res_wrap]. eexists _, w3. split; [reflexivity|].
  split; [rewrite Ht3, Ht2; simpl; lia|exact Hs3].
Qed.

(** Locking two wallets with canonical ids, in order. *)
Lemma lock_both_fine {A} x1 x2 (k : wallets.Wallet → wallets.Wallet → M A) w :
  canonical x1 → canonical x2 → no_faults (w_tick w) →
  (firstWallet <- wrap_err ("failed to lock wallet " +:+ x1 +:+ ": ") (lock_wallet x1) ;;
   secondWallet <- wrap_err ("failed to lock wallet " +:+ x2 +:+ ": ") (lock_wallet x2) ;;
   k firstWallet secondWallet)%m w =
  match wallets_t (w_db w) !! x1, wallets_t (w_db w) !! x2 with
  | Some r1, Some r2 => k (scan_locked x1 r1) (scan_locked x2 r2)
      (set_locks (add_lock ("wallets", x2) (add_lock ("wallets", x1) (w_locks w))) (bump (bump w)))
  | None, _ => (Err (fmt_Errorf ("failed to lock wallet " +:+ x1 +:+ ": ") pgx_ErrNoRows ""), bump w)
  | Some _, None => (Err (fmt_Errorf ("failed to lock wallet " +:+ x2 +:+ ": ") pgx_ErrNoRows ""),
      bump (set_locks (add_lock ("wallets", x1) (w_locks w)) (bump w)))
  end.
Proof.
  intros Hc1 Hc2 Hf. unfold bind at 1, wrap_err at 1.
  rewrite (lock_wallet_fine _ _ Hc1 (no_faults_now _ Hf)).
  destruct (wallets_t (w_db w) !! x1) as [r1|]; [|done]. cbn [res_wrap].
  unfold bind at 1, wrap_err at 1.
  rewrite (lock_wallet_fine _ _ Hc2) by (simpl; apply no_faults_now, no_faults_S, Hf).
  simpl. by destruct (wallets_t (w_db w) !! x2) as [r2|].
Qed.

(** Both wallets locked, whichever order. *)
Lemma transfer_statements_locked req key w :
  let source := Req_SourceWalletID req in let dest := Req_DestinationWalletID req in
  canonical source → canonical dest → source ≠ dest → no_faults (w_tick w) →
  match wallets_t (w_db w) !! source, wallets_t (w_db w) !! dest with
  | Some src, Some dst => ∃ ls, transfer_statements req key w =
      validate_and_move req key (scan_locked source src) (scan_locked dest dst)
        (set_locks ls (bump (bump w)))
  | _, _ => ∃ e w', transfer_statements req key w = (Err e, w') ∧ reports UnknownWallet e
  end.
Proof.
  intros source dest Hcs Hcd Hne Hf. unfold transfer_statements, lock_order.
  fold source dest. destruct (String.ltb dest source); rewrite lock_both_fine by done;
    destruct (wallets_t (w_db w) !! dest) as [dst|], (wallets_t (w_db w) !! source) as [src|];
    simpl; eauto; unfold assign; fold source; cbn [wallets.Wallet_ID scan_locked].
  - rewrite bool_decide_eq_false_2 by congruence. eauto.
  - rewrite bool_decide_eq_true_2 by done. eauto.
Qed.

(** Validation decides as the bank does, and then everything succeeds. *)
Lemma validate_and_move_fine req key k src dst w :
  let source := Req_SourceWalletID req in let dest := Req_DestinationWalletID req in
  canonical source → canonical dest → source ≠ dest → no_faults (w_tick w) → supplied w →
  is_ok (varchar 255 (env_uuid (S (S (w_tick w))))) → wallets_ok (w_db w) →
  0 < Req_Amount req <= int64_max → varchar 255 key = Ok k →
  is_Some (idempotency_keys (w_db w) !! k) →
  wallets_t (w_db w) !! source = Some src → wallets_t (w_db w) !! dest = Some dst →
  match bank_transfer (bank_of (w_db w)) source dest (Req_Amount req) (Req_Currency req) with
  | inl why => ∃ e w', validate_and_move req key (scan_locked source src) (scan_locked dest dst) w
                 = (Err e, w') ∧ reports why e
  | inr _ => ∃ t w', validate_and_move req key (scan_locked source src) (scan_locked dest dst) w
                 = (Ok t, w') ∧ w_tick w' = (7 + w_tick w)%nat ∧ supplied w'
  end.
Proof.
  intros source dest Hcs Hcd Hne Hf Hs Hshort Hok Hamt Hk Hkey Hsrc Hdst.
  destruct (Hok _ _ Hsrc) as (Hsa & Hsx & Hsc & Hsb), (Hok _ _ Hdst) as (Hda & Hdx & Hdc & Hdb).
  assert (Hin : in_int64 (Req_Amount req)) by (unfold in_int64, int64_min; lia).
  unfold bank_transfer. rewrite decide_False, decide_False by (done || lia).
  rewrite !bank_of_lookup, Hsrc, Hdst. simpl. unfold validate_and_move, guard. simpl.
  case_decide as Hst.
  { exists err_not_active, w. split; [|done]. unfold bind at 1.
    repeat case_bool_decide; simpl; tauto. }
  destruct Hst as [Hst1 Hst2]. rewrite !(bool_decide_eq_true_2 (_ = wallets.StatusActive)) by done.
  cbn [andb]. rewrite !bind_ret. case_decide as Hcu.
  { exists ErrCurrencyMismatch, w. split; [|done]. unfold bind at 1.
    repeat case_bool_decide; simpl; tauto. }
  destruct Hcu as [Hcu1 Hcu2]. rewrite !(bool_decide_eq_true_2 (_ = Req_Currency req)) by done.
  cbn [andb]. rewrite !bind_ret. case_decide as Hfu.
  { exists ErrInsufficientFunds, w. split; [|done]. unfold bind at 1.
    by rewrite (proj2 (Z.ltb_lt _ _) Hfu). }
  rewrite (proj2 (Z.ltb_ge _ _)) by lia. cbn [negb]. rewrite !bind_ret.
  pose proof (update_balance_fine Z.sub (Req_Amount req) source src w Hcs (no_faults_now _ Hf)
                Hin Hsrc) as Hu1.
  cbn zeta in Hu1. rewrite !decide_True in Hu1 by (unfold in_int64, int64_min; lia).
  set (w1 := set_locks _ _) in Hu1.
  assert (Hf1 : no_faults (w_tick w1)) by exact (no_faults_S _ Hf).
  assert (Hdst1 : wallets_t (w_db w1) !! dest = Some dst) by (simpl; by rewrite lookup_insert_ne).
  pose proof (update_balance_fine Z.add (Req_Amount req) dest dst w1 Hcd (no_faults_now _ Hf1)
                Hin Hdst1) as Hu2. cbn zeta in Hu2.
  rewrite !(bind_eq _ _ _ _ _ Hu1).
  destruct (decide (int64_max < wallets.Wallet_AvailableBalance dst + Req_Amount req)) as [Hroom|Hroom].
  { exists bigint_out_of_range, (bump w1). split; [|done].
    rewrite decide_False in Hu2 by (unfold in_int64; lia). by rewrite (bind_err _ _ _ _ _ Hu2). }
  rewrite !decide_True in Hu2 by (unfold in_int64, int64_min; lia).
  set (w2 := set_locks _ _) in Hu2. rewrite !(bind_eq _ _ _ _ _ Hu2).
  assert (Hs2 : supplied w2).
  { apply (supplied_update_wallet dest dst); [|exact Hdst1].
    by apply (supplied_update_wallet source src). }
  destruct (record_transfer_fine req key k source dest (scan_locked source src)
    (scan_locked dest dst) w2 (no_faults_S _ Hf1) Hs2) as (t & w3 & Hrun & Hle & Hs3); try done.
  - lia.
  - by rewrite <- Hcu1, Hsc.
  - simpl. rewrite lookup_insert_ne, lookup_insert_eq by done. eauto.
  - simpl. rewrite lookup_insert_eq. eauto.
  - exists t, w3. split; [exact Hrun|]. split; [rewrite Hle; simpl; lia|exact Hs3].
Qed.

(** The decision of the whole body. *)
Lemma transfer_body_fine req key k w :
  let source := Req_SourceWalletID req in let dest := Req_DestinationWalletID req in
  canonical source → canonical dest → no_faults (w_tick w) → supplied w → short_uuids w →
  wallets_ok (w_db w) → Req_Amount req <= int64_max →
  varchar 255 key = Ok k → is_Some (idempotency_keys (w_db w) !! k) →
  match bank_transfer (bank_of (w_db w)) source dest (Req_Amount req) (Req_Currency req) with
  | inl why => ∃ e, (run (transfer_body req key) w).1 = Err e ∧ reports why e
  | inr _ => is_ok (run (transfer_body req key) w).1 ∧ supplied (run (transfer_body req key) w).2 ∧
      w_tick (run (transfer_body req key) w).2 = (11 + w_tick w)%nat
  end.
Proof.
  intros source dest Hcs Hcd Hf Hs Hsh Hok Hmax Hk Hkey. unfold transfer_body.
  fold source dest. case_bool_decide as Hne.
  { unfold bank_transfer. rewrite decide_True by done. simpl. eauto. }
  destruct (Z.leb_spec (Req_Amount req) 0).
  { unfold bank_transfer. rewrite decide_False, decide_True by (done || lia). simpl. eauto. }
  set (w0 := bump (start w)).
  assert (Hf0 : no_faults (w_tick w0)) by exact (no_faults_S _ Hf).
  assert (Hs0 : supplied w0) by (apply (uuid_supply_le (w_tick w)); [simpl; lia|exact Hs]).
  assert (Herr : ∀ why e w1, transfer_statements req key w0 = (Err e, w1) → reports why e →
     ∃ e, (run (call (with_tx (transfer_statements req key))) w).1 = Err e ∧ reports why e).
  { intros why e w1 Hr Hw. rewrite run_call, (with_tx_err _ _ _ _ (no_faults_now _ Hf) Hr). eauto. }
  pose proof (transfer_statements_locked req key w0 Hcs Hcd Hne Hf0) as Hlock.
  fold source dest in Hlock. change (w_db w0) with (w_db w) in Hlock.
  destruct (wallets_t (w_db w) !! source) as [src|] eqn:Hsrc;
    [destruct (wallets_t (w_db w) !! dest) as [dst|] eqn:Hdst|].
  - destruct Hlock as [ls Hlock].
    pose proof (validate_and_move_fine req key k src dst (set_locks ls (bump (bump w0)))
      Hcs Hcd Hne (no_faults_S _ (no_faults_S _ Hf0))
      (uuid_supply_le (w_tick w0) (S (S (w_tick w0))) _ ltac:(lia) Hs0)) as Hval.
    cbn zeta in Hval. fold source dest in Hval. rewrite <- Hlock in Hval.
    pose proof (Hsh 5%nat ltac:(lia)) as Hshort. rewrite Nat.add_comm in Hshort.
    specialize (Hval Hshort Hok ltac:(lia) Hk Hkey Hsrc Hdst).
    destruct (bank_transfer _ _ _ _ _) as [why|bank']; [naive_solver|].
    destruct Hval as (t & w1 & Hrun & Hle & Hs1). simpl in Hle. rewrite run_call.
    rewrite (with_tx_fine _ _ _ _ (no_faults_now _ Hf) Hrun) by (apply Hf; lia).
    split; [done|]. split; [|simpl; lia].
    by apply (uuid_supply_le (w_tick w1)); [simpl; lia|].
  - unfold bank_transfer. rewrite decide_False, decide_False by (done || lia).
    rewrite !bank_of_lookup, Hsrc, Hdst. destruct Hlock as (e & w1 & Hr & Hw).
    exact (Herr UnknownWallet e w1 Hr Hw).
  - unfold bank_transfer. rewrite decide_False, decide_False by (done || lia).
    rewrite !bank_of_lookup, Hsrc. destruct Hlock as (e & w1 & Hr & Hw).
    exact (Herr UnknownWallet e w1 Hr Hw).
Qed.
End Refinement.

(** ** Properties of [ExecuteTransfer] *)

(** C6. A successful transfer whose source is spelled canonically has exactly the
    requested effect: it debits the source and credits the destination by the amount,
    both active and in the request's currency, adds the row of the transfer, one ledger
    transaction that debits the account of the source wallet and credits the account of
    the destination wallet with the amount ([double_entry]), and one pending event that
    announces it, and changes nothing else. *)
Theorem execute_transfer_effect `{UuidLaws} {L : LedgerRepository} {X : OutboxRepository}
  `{!LedgerContract L} `{!OutboxContract X} req key w t w' :
  canonical (Req_SourceWalletID req) → run (ExecuteTransfer req key) w = (Ok t, w') →
  ∃ dest, uuid_in (Req_DestinationWalletID req) = Some dest ∧
    booked req key (Req_SourceWalletID req) dest t (w_db w) (w_db w') ∧ returned req key t.
Proof.
  intros Hc [(e & ? & _)|(source & dest & t' & Hs & Hd & Hb & Hr & [?|(? & ? )])]%execute_transfer_cases;
    [done| |done].
  simplify_eq. rewrite (roles_canonical _ _ _ Hc) in Hb. simpl in Hb.
  assert (source = Req_SourceWalletID req) as -> by (unfold canonical in Hc; congruence). eauto.
Qed.


(** Transfers neither create nor destroy money: whatever the request and whatever
    fails, the total in each currency is the same, no balance becomes negative, and
    the debits and credits of the ledger grow by the same amount. *)
Theorem execute_transfer_conserves `{UuidLaws} {L : LedgerRepository} {X : OutboxRepository}
  `{!LedgerContract L} `{!OutboxContract X} req key w :
  let '(_, w') := run (ExecuteTransfer req key) w in
  (∀ currency, wallet_total currency (w_db w') = wallet_total currency (w_db w)) ∧
  (solvent (w_db w) → solvent (w_db w')) ∧
  ledger_total ledger.DirectionDebit (w_db w') - ledger_total ledger.DirectionDebit (w_db w) =
  ledger_total ledger.DirectionCredit (w_db w') - ledger_total ledger.DirectionCredit (w_db w).
Proof.
  destruct (run (ExecuteTransfer req key) w) as [r w'] eqn:Hrun.
  apply execute_transfer_cases in Hrun as [(e & _ & ->)|(s & d & t & _ & _ & Hb & _ & _)].
  { split; [done|]. split; [done|lia]. }
  split; [intros cur; exact (booked_total cur _ _ _ _ _ _ _ Hb)|].
  split; [exact (booked_solvent _ _ _ _ _ _ _ Hb)|].
  pose proof (booked_ledger_total ledger.DirectionDebit _ _ _ _ _ _ _ Hb) as Hd.
  pose proof (booked_ledger_total ledger.DirectionCredit _ _ _ _ _ _ _ Hb) as Hc.
  rewrite decide_True, decide_False in Hd by done.
  rewrite decide_False, decide_True in Hc by done. lia.
Qed.

(** C8. Refinement: [ExecuteTransfer] decides and acts as the bank does on the wallets of
    the database.  It succeeds and the wallets are those of the bank after the step, or it
    returns the error that reports the bank's reason and the database is unchanged.  This
    holds when no exchange fails, both wallet ids are spelled as the database prints them
    (otherwise see [noncanonical_source_is_credited]), the key fits its column and has its
    row, the amount is an [int64], the rows of the wallets satisfy the constraints of the
    schema, and the uuids drawn are new and not longer than 255 characters. *)
Theorem execute_transfer_refines_bank `{UuidLaws} {L : LedgerRepository} {X : OutboxRepository}
  `{!LedgerContract L} `{!OutboxContract X} req key k w :
  let source := Req_SourceWalletID req in let dest := Req_DestinationWalletID req in
  canonical source → canonical dest → no_faults (w_tick w) → supplied w → short_uuids w →
  wallets_ok (w_db w) → Req_Amount req <= int64_max →
  varchar 255 key = Ok k → is_Some (idempotency_keys (w_db w) !! k) →
  let '(r, w') := run (ExecuteTransfer req key) w in
  match bank_transfer (bank_of (w_db w)) source dest (Req_Amount req) (Req_Currency req) with
  | inr bank' => is_ok r ∧ bank_of (w_db w') = bank'
  | inl why => (∃ e, r = Err e ∧ reports why e) ∧ w_db w' = w_db w
  end.
Proof.
  intros source dest Hcs Hcd Hf Hs Hsh Hok Hmax Hk Hkey. rewrite execute_transfer_run.
  pose proof (transfer_body_fine req key k w Hcs Hcd Hf Hs Hsh Hok Hmax Hk Hkey) as Hfine.
  destruct (run (transfer_body req key) w) as [r w1] eqn:Hrun. cbn [RecordTransfer].
  change (w_db (RecordTransfer (is_ok r) w1).2) with (w_db w1).
  apply transfer_body_cases in Hrun as [(e & -> & Hdb)|(s & d & t & Hs' & Hd' & Hb & _ & Hr)].
  - destruct (bank_transfer _ _ _ _ _) as [why|bank'] eqn:Hbank; [|by destruct Hfine as [? _]]. eauto.
  - rewrite (roles_canonical _ _ _ Hcs) in Hb. simpl in Hb.
    fold source in Hs'. fold dest in Hd'.
    assert (s = source) as -> by (unfold canonical in Hcs; congruence).
    assert (d = dest) as -> by (unfold canonical in Hcd; congruence).
    pose proof (booked_bank _ _ _ _ _ _ _ Hb) as Hbank.
    rewrite Hbank. cbn zeta in Hfine. fold source dest in Hfine. rewrite Hbank in Hfine.
    by split; [apply Hfine|].
Qed.

(** A successful transfer between canonically spelled wallets has locked exactly
    those two rows, the smaller id first, whichever is the source. *)
Theorem execute_transfer_lock_order `{UuidLaws} {L : LedgerRepository} {X : OutboxRepository}
  `{!LedgerContract L} `{!OutboxContract X} req key w t w' :
  canonical (Req_SourceWalletID req) → canonical (Req_DestinationWalletID req) →
  run (ExecuteTransfer req key) w = (Ok t, w') →
  ∃ lo hi, w_locks w' = [("wallets", lo); ("wallets", hi)] ∧ String.ltb lo hi = true ∧
    [lo; hi] ≡ₚ [Req_SourceWalletID req; Req_DestinationWalletID req].
Proof.
  intros Hcs Hcd. rewrite execute_transfer_run.
  destruct (run (transfer_body req key) w) as [r w1] eqn:Hrun. intros [= -> <-].
  assert (Hne : Req_SourceWalletID req ≠ Req_DestinationWalletID req).
  { intros He. revert Hrun. unfold transfer_body. by rewrite bool_decide_eq_true_2. }
  apply transfer_locks in Hrun as (first & second & Hx & Hy & Hl). unfold lock_order in *.
  unfold canonical in *. destruct (String.ltb _ _) eqn:Hlt; simpl in Hx, Hy; simplify_eq.
  - exists (Req_DestinationWalletID req), (Req_SourceWalletID req).
    simpl. rewrite Hl. unfold add_lock. rewrite decide_False by set_solver.
    split; [done|]. split; [done|]. apply perm_swap.
  - exists (Req_SourceWalletID req), (Req_DestinationWalletID req).
    simpl. rewrite Hl. unfold add_lock. rewrite decide_False by set_solver.
    split; [done|]. split; [by apply ltb_total|done].
Qed.

(** The roles are exchanged when the source's id is not spelled as the database
    prints it and does not sort above the destination: a transfer from such a source
    takes the amount from the destination wallet and gives it to the source wallet. *)
Theorem noncanonical_source_is_credited `{UuidLaws} {L : LedgerRepository} {X : OutboxRepository}
  `{!LedgerContract L} `{!OutboxContract X} req key w t w' :
  reversed req → run (ExecuteTransfer req key) w = (Ok t, w') →
  ∃ source dest s d s' d', uuid_in (Req_SourceWalletID req) = Some source ∧
    uuid_in (Req_DestinationWalletID req) = Some dest ∧
    wallets_t (w_db w) !! source = Some s ∧ wallets_t (w_db w') !! source = Some s' ∧
    wallets_t (w_db w) !! dest = Some d ∧ wallets_t (w_db w') !! dest = Some d' ∧
    wallets.Wallet_AvailableBalance s' = wallets.Wallet_AvailableBalance s + Req_Amount req ∧
    wallets.Wallet_AvailableBalance d' = wallets.Wallet_AvailableBalance d - Req_Amount req.
Proof.
  intros Hrev [(e & ? & _)|(source & dest & t' & Hs & Hd & Hb & _ & _)]%execute_transfer_cases;
    [done|].
  unfold roles in Hb. rewrite decide_True in Hb by done. simpl in Hb.
  apply booked_wallets in Hb as (d & s & Hda & Hsa & Hne & _ & _ & _ & _ & Hw).
  exists source, dest, s, d. rewrite Hw. rewrite lookup_insert_eq.
  rewrite lookup_insert_ne, lookup_insert_eq by done. do 2 eexists. repeat split; eauto.
Qed.

(** ** Witnesses *)

Lemma sample_canonical : canonical "w1" ∧ canonical "w2".
Proof. by vm_compute. Qed.

(** A hundred dollars from [source] to the second wallet of the sample bank. *)
Definition sample_req (source : string) : CreateTransferRequest := mkReq source "w2" 100 "USD".

Definition sample_transfer (source : string) : Res Transfer * World :=
  run (ExecuteTransfer (TransfersService := serviceImpl) (sample_req source) "k1")
    (sample_world sample_bank).

Definition sample_result (source : string) : Transfer :=
  mkTransfer "uaaaaa" source "w2" 100 "USD" StatusCompleted "k1" 0.

Lemma sample_transfer_run source :
  source = "w1" ∨ source = "W1" →
  sample_transfer source = (Ok (sample_result source), (sample_transfer source).2).
Proof. intros [-> | ->]; vm_compute; reflexivity. Qed.

Lemma sample_short_uuids : short_uuids (sample_world sample_bank).
Proof. intros k Hk. do 16 (destruct k as [|k]; [done|]). lia. Qed.

Lemma sample_wallets_ok : wallets_ok sample_bank.
Proof.
  intros id w Hid. cbn [wallets_t sample_bank] in Hid.
  apply lookup_insert_Some in Hid as [[<- <-]|[_ [[<- <-]|[_ Hn]]%lookup_insert_Some]]; [..|done];
    (split; [done|]; split; [by eexists|]; split; [done|vm_compute; split; discriminate]).
Qed.

Lemma execute_transfer_effect_witness :
  ∃ dest, uuid_in "w2" = Some dest ∧
    booked (sample_req "w1") "k1" "w1" dest (sample_result "w1") sample_bank
      (w_db (sample_transfer "w1").2).
Proof.
  destruct (execute_transfer_effect (sample_req "w1") "k1" (sample_world sample_bank)
    (sample_result "w1") (sample_transfer "w1").2 (proj1 sample_canonical)) as (dest & Hd & Hb & _);
    [exact (sample_transfer_run "w1" (or_introl eq_refl))|].
  exists dest. exact (conj Hd Hb).
Defined.

Lemma execute_transfer_refines_bank_witness :
  bank_of (w_db (sample_transfer "w1").2) =
    <["w2" := mkBankWallet "USD" "ACTIVE" 600]> (<["w1" := mkBankWallet "USD" "ACTIVE" 900]>
      (bank_of sample_bank)).
Proof.
  pose proof (execute_transfer_refines_bank (sample_req "w1") "k1" "k1" (sample_world sample_bank)
    (proj1 sample_canonical) (proj2 sample_canonical) (sample_no_faults _) (sample_bank_supply _) sample_short_uuids
    sample_wallets_ok ltac:(vm_compute; discriminate) eq_refl ltac:(by eexists)) as Hp.
  change (run _ _) with (sample_transfer "w1") in Hp.
  rewrite (sample_transfer_run "w1" (or_introl eq_refl)) in Hp. exact (proj2 Hp).
Defined.

Lemma execute_transfer_lock_order_witness :
  ∃ lo hi, w_locks (sample_transfer "w1").2 = [("wallets", lo); ("wallets", hi)] ∧
    String.ltb lo hi = true.
Proof.
  destruct (execute_transfer_lock_order (sample_req "w1") "k1" (sample_world sample_bank)
    (sample_result "w1") (sample_transfer "w1").2 (proj1 sample_canonical) (proj2 sample_canonical)) as (lo & hi & Hl & Hlt & _);
    [exact (sample_transfer_run "w1" (or_introl eq_refl))|].
  exists lo, hi. exact (conj Hl Hlt).
Defined.

Lemma noncanonical_source_is_credited_witness :
  ∃ source dest s d s' d', uuid_in "W1" = Some source ∧ uuid_in "w2" = Some dest ∧
    wallets_t sample_bank !! source = Some s ∧
    wallets_t (w_db (sample_transfer "W1").2) !! source = Some s' ∧
    wallets_t sample_bank !! dest = Some d ∧
    wallets_t (w_db (sample_transfer "W1").2) !! dest = Some d' ∧
    wallets.Wallet_AvailableBalance s' = wallets.Wallet_AvailableBalance s + 100 ∧
    wallets.Wallet_AvailableBalance d' = wallets.Wallet_AvailableBalance d - 100.
Proof.
  apply (noncanonical_source_is_credited (sample_req "W1") "k1" (sample_world sample_bank)
    (sample_result "W1") (sample_transfer "W1").2).
  - split; [discriminate|reflexivity].
  - exact (sample_transfer_run "W1" (or_intror eq_refl)).
Defined.


Lemma execute_transfer_conserves_witness :
  wallet_total "USD" (w_db (sample_transfer "w1").2) = 1500 ∧
  wallet_total "USD" (w_db (sample_transfer "W1").2) = 1500.
Proof.
  pose proof (execute_transfer_conserves (sample_req "w1") "k1" (sample_world sample_bank)) as Hp.
  pose proof (execute_transfer_conserves (sample_req "W1") "k1" (sample_world sample_bank)) as Hq.
  change (run (ExecuteTransfer _ _) _) with (sample_transfer "w1") in Hp.
  change (run (ExecuteTransfer _ _) _) with (sample_transfer "W1") in Hq.
  destruct (sample_transfer "w1") as [r w'], (sample_transfer "W1") as [r1 w1'].
  exact (conj (proj1 Hp "USD") (proj1 Hq "USD")).
Defined.
