(* ===== verification/Concurrency.v ===== *)
(** * Concurrent transfers (internal/transfers/service_test.go)

    The integration test of the service fires a hundred transfers at once, in both
    directions between two wallets, and expects every one to succeed and the balances to
    be exact.  Here that is a theorem about any set of transfers that the wallets can
    afford, under every scheduling. *)

From S2P Require Import Prelude Go Models Postgres Runtime.
From S2P Require Import Ledger Outbox Transfers.
From Stdlib Require Import QArith_base.
From stdpp Require Import pretty.
Import transfers.
#[local] Open Scope prog_scope.
#[local] Open Scope Z_scope.

(** ** Jobs *)

(** A transfer to be made: the request and its idempotency key. *)
Definition job : Type := CreateTransferRequest * string.

(** What a job takes from a wallet and what it brings to it. *)
Definition outflow (id : string) (j : job) : Z :=
  if decide (Req_SourceWalletID j.1 = id) then Req_Amount j.1 else 0.
Definition inflow (id : string) (j : job) : Z :=
  if decide (Req_DestinationWalletID j.1 = id) then Req_Amount j.1 else 0.

(** The jobs at once, each in a goroutine of its own. *)
Definition fire `{Env} {L : LedgerRepository} {X : OutboxRepository} (jobs : list job)
  : list (prog (Res Transfer)) := (λ j : job, ExecuteTransfer j.1 j.2) <$> jobs.

(** The wallet may take part in a transfer of the currency. *)
Definition takes_part (d : DB) (currency id : string) : Prop :=
  match bank_of d !! id with
  | Some w => bank_status w = wallets.StatusActive ∧ bank_currency w = currency
  | None => False
  end.

(** A job between two active wallets of its currency, with a key that was acquired. *)
Definition acceptable `{Env} (d : DB) (j : job) : Prop :=
  let source := Req_SourceWalletID j.1 in let dest := Req_DestinationWalletID j.1 in
  canonical source ∧ canonical dest ∧ source ≠ dest ∧ 0 < Req_Amount j.1 <= int64_max ∧
  match varchar 255 j.2 with Ok k => is_Some (idempotency_keys d !! k) | Err _ => False end ∧
  takes_part d (Req_Currency j.1) source ∧ takes_part d (Req_Currency j.1) dest.

#[export] Instance takes_part_dec d currency id : Decision (takes_part d currency id).
Proof. unfold takes_part. destruct (bank_of d !! id); apply _. Defined.

#[export] Instance acceptable_dec `{Env} d j : Decision (acceptable d j).
Proof. unfold acceptable. destruct (varchar 255 j.2); apply _. Defined.

(** The wallets can pay for all the jobs, and hold all they bring. *)
Definition affordable (jobs : list job) (d : DB) : Prop :=
  map_Forall (λ id w,
    credits (outflow id <$> jobs) <= bank_balance w ∧
    bank_balance w + credits (inflow id <$> jobs) <= int64_max) (bank_of d).

#[export] Instance affordable_dec jobs d : Decision (affordable jobs d).
Proof. unfold affordable. apply _. Defined.

(** ** One job *)

Section OneJob.
Context `{UuidLaws} {L : LedgerRepository} {X : OutboxRepository}
  `{LC : !LedgerContract L} `{OC : !OutboxContract X}.

Lemma booked_wallets_ok req key a b t d d' :
  booked req key a b t d d' → wallets_ok d → wallets_ok d'.
Proof.
  intros Hb Hok id w. pose proof (booked_frame _ _ _ _ _ _ _ Hb) as (_ & -> & _).
  apply booked_wallets in Hb as (src & dst & Ha & Hd & Hne & _ & _ & Ham & Hin & ->).
  destruct (Hok _ _ Ha) as (? & ? & ? & ?), (Hok _ _ Hd) as (? & ? & ? & ?).
  unfold in_int64 in Hin.
  intros [[<- <-]|[_ [[<- <-]|[_ Hid]]%lookup_insert_Some]]%lookup_insert_Some; simpl;
    [repeat split; (done || lia)..|exact (Hok _ _ Hid)].
Qed.

(** What the world must offer for transfers to succeed: no failures, fresh UUIDs of a
    reasonable length up to the exchange [horizon], and the constraints of the schema. *)
Definition healthy (horizon : nat) (w : World) : Prop :=
  no_faults (w_tick w) ∧ supplied w ∧ wallets_ok (w_db w) ∧
  ∀ n, (n < horizon)%nat → is_ok (varchar 255 (env_uuid n)).

Lemma transfer_body_succeeds horizon j w bank' :
  healthy horizon w → (16 + w_tick w ≤ horizon)%nat → acceptable (w_db w) j →
  bank_transfer (bank_of (w_db w)) (Req_SourceWalletID j.1) (Req_DestinationWalletID j.1)
    (Req_Amount j.1) (Req_Currency j.1) = inr bank' →
  ∃ t w', run (transfer_body j.1 j.2) w = (Ok t, w') ∧ healthy horizon w' ∧
    w_tick w' = (11 + w_tick w)%nat ∧ bank_of (w_db w') = bank' ∧
    idempotency_keys (w_db w') = idempotency_keys (w_db w) ∧
    ledger_total ledger.DirectionDebit (w_db w') - ledger_total ledger.DirectionCredit (w_db w') =
    ledger_total ledger.DirectionDebit (w_db w) - ledger_total ledger.DirectionCredit (w_db w).
Proof.
  intros (Hf & Hs & Hok & Hsh) Hhor (Hcs & Hcd & _ & Ham & Hkey & _) Hbank.
  destruct (varchar 255 j.2) as [k|] eqn:Hk; [|done].
  assert (Hshort : short_uuids w) by (intros n Hn; apply Hsh; lia).
  pose proof (transfer_body_fine j.1 j.2 k w Hcs Hcd Hf Hs Hshort Hok (proj2 Ham) Hk Hkey) as Hfine.
  cbn zeta in Hfine. rewrite Hbank in Hfine.
  destruct (run (transfer_body j.1 j.2) w) as [r w'] eqn:Hrun. simpl in Hfine.
  destruct Hfine as (Hr & Hs' & Hle). destruct r as [t|e]; [|done]. exists t, w'.
  apply transfer_body_cases in Hrun as [(e & [=] & _)|(s & d & t' & Hs1 & Hd1 & Hb & _ & _)].
  rewrite (roles_canonical _ _ _ Hcs) in Hb. simpl in Hb. unfold canonical in Hcs, Hcd.
  simplify_eq. pose proof (booked_frame _ _ _ _ _ _ _ Hb) as (_ & _ & Hkeys & _).
  split; [done|]. split; [split; [by eapply no_faults_le; [|exact Hf]; lia|split; [done|]]|].
  - split; [by eapply booked_wallets_ok|done].
  - split; [done|]. apply booked_bank in Hb as Hb'. rewrite Hbank in Hb'. split; [congruence|]. split; [done|].
    pose proof (booked_ledger_total ledger.DirectionDebit _ _ _ _ _ _ _ Hb) as HD.
    pose proof (booked_ledger_total ledger.DirectionCredit _ _ _ _ _ _ _ Hb) as HC.
    rewrite decide_True, decide_False in HD by done.
    rewrite decide_False, decide_True in HC by done. lia.
Qed.

(** A goroutine that has made its transfer. *)
Definition made (p : prog (Res Transfer)) : Prop :=
  ∃ t, p = Ret (Ok t) ∨ p = (let+ _ := call (RecordTransfer true) in Ret (Ok t)).

Lemma made_step p w p' w' :
  made p → prog_step p w = Some (p', w') → made p' ∧ w_db w' = w_db w ∧ w_tick w' = w_tick w.
Proof.
  intros (t & [-> | ->]); [done|]. intros [= <- <-]. split; [|done]. exists t. by left.
Qed.

(** The first step of a job is the transfer. *)
Lemma job_step j w p' w' :
  acceptable (w_db w) j → prog_step (ExecuteTransfer j.1 j.2) w = Some (p', w') →
  ∃ r, run (transfer_body j.1 j.2) w = (r, w') ∧
    p' = (let+ _ := call (RecordTransfer (is_ok r)) in Ret r).
Proof.
  intros (_ & _ & Hne & Ham & _). unfold ExecuteTransfer, serviceImpl, transfer_body.
  rewrite bool_decide_eq_false_2 by done. rewrite (proj2 (Z.leb_gt _ _)) by lia.
  rewrite run_call. simpl. destruct (with_tx _ w) as [r w1]. intros [= <- <-]. by exists r.
Qed.
End OneJob.

(** ** All jobs *)

Lemma credits_lookup ns i n : Forall (λ m, 0 <= m) ns → ns !! i = Some n → n <= credits ns.
Proof.
  revert i. induction ns as [|m ns IH]; intros [|i]; [done..| |];
    intros [Hm Hns]%Forall_cons Hi; simplify_eq/=.
  - clear IH. assert (0 <= credits ns); [|lia]. induction Hns; simpl; lia.
  - specialize (IH _ Hns Hi). lia.
Qed.

Lemma credits_const {A} n (l : list A) : credits ((λ _, n) <$> l) = n * Z.of_nat (length l).
Proof.
  induction l as [|x l IH]; [simpl; lia|]. rewrite fmap_cons, length_cons.
  change (credits (n :: ?l)) with (n + credits l). rewrite IH. lia.
Qed.

Section AllJobs.
Context `{UuidLaws} {L : LedgerRepository} {X : OutboxRepository}
  `{LC : !LedgerContract L} `{OC : !OutboxContract X}.
Variables (d0 : DB) (jobs : list job) (horizon : nat).

(** What the jobs still to be made add up to; [None] is a job that was made. *)
Definition still (f : job → Z) (ss : list (option job)) : Z := credits (from_option f 0 <$> ss).

(** The balance of a wallet when the jobs in [ss] are still to be made. *)
Definition level (id : string) (b : BankWallet) (ss : list (option job)) : Z :=
  bank_balance b - (credits (outflow id <$> jobs) - still (outflow id) ss)
    + (credits (inflow id <$> jobs) - still (inflow id) ss).

Definition tracked (p : prog (Res Transfer)) (s : option job) : Prop :=
  match s with
  | Some j => p = ExecuteTransfer j.1 j.2 ∧ acceptable d0 j
  | None => made p
  end.

Record underway (ss : list (option job)) (w : World) : Prop := {
  underway_healthy : healthy horizon w;
  underway_tick : Z.of_nat (w_tick w) + still (λ _, 16) ss <= Z.of_nat horizon;
  underway_keys : idempotency_keys (w_db w) = idempotency_keys d0;
  underway_ledger :
    ledger_total ledger.DirectionDebit (w_db w) - ledger_total ledger.DirectionCredit (w_db w) =
    ledger_total ledger.DirectionDebit d0 - ledger_total ledger.DirectionCredit d0;
  underway_bank id b : bank_of d0 !! id = Some b →
    bank_of (w_db w) !! id = Some (with_balance (level id b ss) b) ∧
    still (outflow id) ss <= level id b ss ∧
    level id b ss + still (inflow id) ss <= int64_max;
}.

Lemma still_made f ss i j : ss !! i = Some (Some j) → still f (<[i := None]> ss) = still f ss - f j.
Proof.
  intros Hi. unfold still. rewrite list_fmap_insert.
  rewrite (credits_insert _ _ (f j)) by (by rewrite list_lookup_fmap, Hi). simpl. lia.
Qed.

Lemma level_made id b ss i j : ss !! i = Some (Some j) →
  level id b (<[i := None]> ss) = level id b ss - outflow id j + inflow id j.
Proof. intros Hi. unfold level. rewrite !(still_made _ _ _ _ Hi). lia. Qed.

Lemma still_pending f ps ss i j :
  (∀ j, acceptable d0 j → 0 <= f j) → Forall2 tracked ps ss → ss !! i = Some (Some j) →
  f j <= still f ss.
Proof.
  intros Hf Hall Hi. unfold still. apply (credits_lookup _ i).
  - apply Forall_fmap. clear Hi. induction Hall as [|p [j'|] ps ss Hp _ IH]; constructor; simpl; try done.
    apply Hf, Hp.
  - by rewrite list_lookup_fmap, Hi.
Qed.

Lemma flows_nonneg id j : acceptable d0 j → 0 <= outflow id j ∧ 0 <= inflow id j.
Proof.
  intros (_ & _ & _ & Ham & _). unfold outflow, inflow. repeat case_decide; lia.
Qed.

Lemma acceptable_now ss w j : underway ss w → acceptable d0 j → acceptable (w_db w) j.
Proof.
  intros Hu (Hcs & Hcd & Hne & Ham & Hk & Hs & Hd).
  assert (Hw : ∀ id, takes_part d0 (Req_Currency j.1) id →
                     takes_part (w_db w) (Req_Currency j.1) id).
  { unfold takes_part. intros id. destruct (bank_of d0 !! id) as [b|] eqn:Hb; [|done].
    by rewrite (proj1 (underway_bank _ _ Hu id b Hb)). }
  repeat (split; [done|]). rewrite (underway_keys _ _ Hu). split; [done|]. split; by apply Hw.
Qed.

(** A pending job can be paid for, and afterwards the rest is as before without it. *)
Lemma job_made ps ss w i j :
  Forall2 tracked ps ss → underway ss w → ss !! i = Some (Some j) → acceptable d0 j →
  ∃ t w', run (transfer_body j.1 j.2) w = (Ok t, w') ∧ underway (<[i := None]> ss) w'.
Proof.
  intros Hall Hu Hi Ha. pose proof (acceptable_now _ _ _ Hu Ha) as Hnow.
  pose proof Ha as (_ & _ & Hne & Ham & _ & Hs & Hd).
  set (source := Req_SourceWalletID j.1) in *. set (dest := Req_DestinationWalletID j.1) in *.
  unfold takes_part in Hs, Hd.
  destruct (bank_of d0 !! source) as [bs|] eqn:Hs0; [|done]. destruct Hs as [Hss Hsc].
  destruct (bank_of d0 !! dest) as [bd|] eqn:Hd0; [|done]. destruct Hd as [Hds Hdc].
  destruct (underway_bank _ _ Hu _ _ Hs0) as (Hs' & Hsout & _).
  destruct (underway_bank _ _ Hu _ _ Hd0) as (Hd' & _ & Hdin).
  pose proof (still_pending (outflow source) ps ss i j (λ j Hj, proj1 (flows_nonneg _ _ Hj)) Hall Hi)
    as Hout.
  pose proof (still_pending (inflow dest) ps ss i j (λ j Hj, proj2 (flows_nonneg _ _ Hj)) Hall Hi)
    as Hinf.
  unfold outflow in Hout at 1. unfold inflow in Hinf at 1. fold source in Hout. fold dest in Hinf.
  rewrite decide_True in Hout by done. rewrite decide_True in Hinf by done.
  assert (Hturn : 16 <= still (λ _, 16) ss).
  { apply (still_pending (λ _, 16) ps ss i j); [intros; lia|done..]. }
  pose proof (underway_tick _ _ Hu) as Htick.
  destruct (transfer_body_succeeds horizon j w _ (underway_healthy _ _ Hu) ltac:(lia) Hnow ltac:(
    unfold bank_transfer; fold source dest; rewrite (decide_False _ _ Hne), decide_False by lia;
    rewrite Hs', Hd'; simpl; rewrite !decide_False by (tauto || lia); reflexivity))
    as (t & w' & Hrun & Hh & Ht & Hb & Hk & Hl).
  exists t, w'. split; [done|]. split; [done| | |..].
  - rewrite (still_made _ _ _ _ Hi), Ht. lia.
  - rewrite Hk. apply Hu.
  - rewrite Hl. apply Hu.
  - intros id b Hid. rewrite Hb, (level_made _ _ _ _ _ Hi), !(still_made _ _ _ _ Hi).
    destruct (underway_bank _ _ Hu _ _ Hid) as (Hid' & Hio & Hii).
    assert (Ho : outflow id j = if decide (source = id) then Req_Amount j.1 else 0) by done.
    assert (Hf : inflow id j = if decide (dest = id) then Req_Amount j.1 else 0) by done.
    clearbody source dest. unfold Bank in *. destruct (decide (dest = id)) as [->|Hnd].
    + rewrite decide_False in Ho by done. rewrite Ho, Hf, lookup_insert_eq. simplify_eq.
      split; [unfold with_balance; simpl; do 2 f_equal; lia|lia].
    + rewrite lookup_insert_ne by done. rewrite Hf. destruct (decide (source = id)) as [->|Hns].
      * rewrite Ho, lookup_insert_eq. simplify_eq. split; [unfold with_balance; simpl; do 2 f_equal; lia|lia].
      * rewrite lookup_insert_ne, Ho by done. split; [rewrite Hid'; do 2 f_equal; lia|lia].
Qed.

(** Every step of the pool keeps it under way. *)
Lemma pool_underway ps w ps' w' ss :
  Forall2 tracked ps ss → underway ss w → interleaving (ps, w) (ps', w') →
  ∃ ss', Forall2 tracked ps' ss' ∧ underway ss' w'.
Proof.
  intros Hall Hu Hrun.
  refine (interleaving_invariant (λ ps w, ∃ ss, Forall2 tracked ps ss ∧ underway ss w)
            _ _ _ _ _ _ Hrun); [|by exists ss].
  clear Hall Hu Hrun ps w ps' w' ss. intros ps w i p p' w' (ss & Hall & Hu) Hp Hstep.
  destruct (Forall2_lookup_l _ _ _ _ _ Hall Hp) as ([j|] & Hi & Ht).
  - destruct Ht as [-> Ha].
    destruct (job_made _ _ _ _ _ Hall Hu Hi Ha) as (t & w1 & Hbody & Hu').
    destruct (job_step j w p' w' (acceptable_now _ _ _ Hu Ha) Hstep) as (r & Hr & ->).
    rewrite Hbody in Hr. simplify_eq. exists (<[i := None]> ss). split; [|done].
    apply Forall2_insert; [done|]. exists t. by right.
  - destruct (made_step _ _ _ _ Ht Hstep) as (Hm & Hdb & Htick). exists ss. split.
    + rewrite <- (list_insert_id ss i None Hi). by apply Forall2_insert.
    + destruct Hu as [(Hf & Hs & Hok & Hsh) Htk Hk Hl Hb].
      split; rewrite ?Hdb, ?Htick; try done.
      unfold healthy, supplied. by rewrite Hdb, Htick.
Qed.

Lemma still_all f : still f (Some <$> jobs) = credits (f <$> jobs).
Proof. unfold still. by rewrite <- list_fmap_compose. Qed.

Lemma jobs_start w :
  w_db w = d0 → healthy horizon w → (w_tick w + 16 * length jobs ≤ horizon)%nat →
  Forall (acceptable d0) jobs → affordable jobs d0 →
  Forall2 tracked (fire jobs) (Some <$> jobs) ∧ underway (Some <$> jobs) w.
Proof.
  intros Hdb Hh Hhor Hacc Haff. split.
  { apply Forall2_fmap, Forall_Forall2_diag. by eapply Forall_impl; [exact Hacc|]. }
  split; rewrite ?Hdb; try done.
  - rewrite still_all, credits_const. lia.
  - intros id b Hb. destruct (Haff _ _ Hb) as [Ho Hi]. unfold level. rewrite !still_all.
    split; [rewrite Hb; destruct b; unfold with_balance; simpl; do 2 f_equal; lia|lia].
Qed.

(** When all goroutines have returned, every job was made. *)
Lemma jobs_done ps ss :
  Forall2 tracked ps ss → Forall (λ p, ∃ a, p = Ret a) ps →
  Forall (λ p, ∃ t, p = Ret (Ok t)) ps ∧ ∀ f, still f ss = 0.
Proof.
  intros Hall Hret. induction Hall as [|p s ps ss Hp _ IH]; [done|].
  apply Forall_cons in Hret as [[a ->] Hret]. destruct (IH Hret) as [Hok Hst].
  destruct s as [j|]; simpl in Hp.
  - destruct Hp as [Heq (_ & _ & Hne & Ham & _)]. exfalso. revert Heq.
    unfold ExecuteTransfer, serviceImpl, transfer_body. rewrite bool_decide_eq_false_2 by done.
    by rewrite (proj2 (Z.leb_gt _ _)) by lia.
  - destruct Hp as (t & [Heq|Heq]); [|done]. simplify_eq. split; [eauto|].
    intros f. specialize (Hst f). unfold still in *. by rewrite fmap_cons.
Qed.
End AllJobs.

(** ** Property *)

(** C24. Transfers that the wallets can afford all succeed at once: whatever the order in
    which the scheduler runs the goroutines, as long as it gives each its two turns, every
    one returns a transfer, each wallet ends with exactly what it had less what went out
    plus what came in, and the ledger gained as much in debits as in credits.  The jobs are
    [acceptable]: each names two distinct wallets in canonical spelling, both active and of
    the currency of the request, a positive [int64] amount and a key that has its row; they
    are [affordable]: every wallet covers all that goes out of it, without what comes in, and
    has room for all that comes in; and the world is [healthy]: no exchange fails, the wallets
    satisfy the schema, and the uuids are new and fit their columns. *)
Theorem concurrent_transfers_succeed `{UuidLaws} {L : LedgerRepository} {X : OutboxRepository}
  `{!LedgerContract L} `{!OutboxContract X} horizon jobs w sched :
  healthy horizon w → (w_tick w + 16 * length jobs ≤ horizon)%nat →
  Forall (acceptable (w_db w)) jobs → affordable jobs (w_db w) →
  (∀ i, (i < length jobs)%nat → (2 ≤ count_occ Nat.eq_dec sched i)%nat) →
  let '(ps', w') := schedule sched (fire jobs, w) in
  Forall (λ p, ∃ t, p = Ret (Ok t)) ps' ∧
  (∀ id b, bank_of (w_db w) !! id = Some b → bank_of (w_db w') !! id =
     Some (with_balance (bank_balance b - credits (outflow id <$> jobs)
                           + credits (inflow id <$> jobs)) b)) ∧
  ledger_total ledger.DirectionDebit (w_db w') - ledger_total ledger.DirectionDebit (w_db w) =
  ledger_total ledger.DirectionCredit (w_db w') - ledger_total ledger.DirectionCredit (w_db w).
Proof.
  intros Hh Hhor Hacc Haff Hfair.
  destruct (jobs_start (w_db w) jobs horizon w eq_refl Hh Hhor Hacc Haff) as [Hall Hu].
  pose proof (schedule_interleaving sched (fire jobs, w)) as Hrun.
  pose proof (schedule_length sched (fire jobs, w)) as Hlen.
  assert (Hret : ∀ i, (i < length jobs)%nat →
    ∃ a, (schedule sched (fire jobs, w)).1 !! i = Some (Ret a)).
  { intros i Hi. destruct (lookup_lt_is_Some_2 jobs i Hi) as [j Hj].
    eapply schedule_within; [|apply execute_transfer_within|by apply Hfair].
    unfold fire. by rewrite list_lookup_fmap, Hj. }
  destruct (schedule sched (fire jobs, w)) as [ps' w']. simpl in *.
  destruct (pool_underway (w_db w) jobs horizon _ _ _ _ _ Hall Hu Hrun) as (ss & Hall' & Hu').
  destruct (jobs_done _ _ _ Hall') as [Hok Hst].
  { apply Forall_lookup_2. intros i p Hp. destruct (Hret i) as [a Ha]; [|naive_solver].
    unfold fire in Hlen. rewrite length_fmap in Hlen. rewrite <- Hlen. by eapply lookup_lt_Some. }
  split; [done|]. split; [|pose proof (underway_ledger _ _ _ _ _ Hu'); lia].
  intros id b Hb. rewrite (proj1 (underway_bank _ _ _ _ _ Hu' id b Hb)).
  unfold level. rewrite !Hst. do 2 f_equal. lia.
Qed.

(** ** The test

    Two wallets of a thousand dollars; fifty transfers of ten from the first to the second
    and fifty of five back, each with its idempotency key. *)

Fixpoint binary (p : positive) : string :=
  match p with
  | xH => EmptyString
  | xO p' => "0" +:+ binary p'
  | xI p' => "1" +:+ binary p'
  end.

(** An environment without failures whose UUIDs are binary numbers. *)
#[local] Instance test_env : Env := {|
  env_outcome _ := Fine;
  env_uuid n := "u" +:+ binary (Pos.of_succ_nat n);
  env_now n := Z.of_nat n;
  env_intn _ _ := 0;
  env_float32 _ := (1 # 2)%Q;
  lua_ge _ _ := None;
  uuid_in s := Some s;
|}.

#[local] Instance test_laws : UuidLaws.
Proof. by split. Qed.

Lemma binary_inj p q : binary p = binary q → p = q.
Proof. revert q. induction p; intros []; simpl; intros [=]; f_equal; auto. Qed.

Definition test_jobs : list job :=
  i ← seq 0 50;
  [(mkReq "w1" "w2" 10 "USD", "w1-to-w2-" +:+ pretty (N.of_nat i));
   (mkReq "w2" "w1" 5 "USD", "w2-to-w1-" +:+ pretty (N.of_nat i))].

Definition test_wallet (id owner account : string) : wallets.Wallet :=
  wallets.mkWallet id owner account "USD" 1000 0 wallets.StatusActive 1 0 0.

Definition test_db : DB :=
  set_idempotency_keys (list_to_map ((λ j : job,
      (j.2, idempotency.mkKeyRow j.2 idempotency.StatusInProgress (JObj []) None None None 0))
        <$> test_jobs))
  (set_wallets (<["w1" := test_wallet "w1" "b1" "a1"]> (<["w2" := test_wallet "w2" "b2" "a2"]> ∅))
  (set_accounts (<["a1" := mkAccount "a1" "USER" "USD" 0]>
                   (<["a2" := mkAccount "a2" "USER" "USD" 0]> ∅)) empty_db)).

Definition test_world : World := Runtime.set_db test_db init_world.

Lemma test_supplied : supplied test_world.
Proof.
  split.
  - intros i j _ _ [= Hb%binary_inj]. lia.
  - intros i _. unfold unused. simpl.
    repeat split; rewrite ?lookup_insert_ne by discriminate; apply lookup_empty.
Qed.

Lemma test_wallets_ok : wallets_ok test_db.
Proof.
  intros id w Hid. cbn in Hid.
  apply lookup_insert_Some in Hid as [[<- <-]|[_ [[<- <-]|[_ Hn]]%lookup_insert_Some]]; [..|done];
    (split; [done|]; split; [by eexists|]; split; [done|vm_compute; split; discriminate]).
Qed.

Lemma test_healthy : healthy 1600 test_world.
Proof.
  split; [by intros n _|]. split; [exact test_supplied|]. split; [exact test_wallets_ok|].
  intros n Hn. assert (Hall : forallb (λ n, is_ok (varchar 255 (env_uuid n))) (seq 0 1600) = true)
    by (vm_compute; reflexivity).
  rewrite forallb_forall in Hall. rewrite Hall; [done|]. apply in_seq. lia.
Qed.

Lemma test_acceptable : Forall (acceptable test_db) test_jobs.
Proof. by apply (bool_decide_eq_true_1 (Forall (acceptable test_db) test_jobs)); vm_compute. Qed.

Lemma test_affordable : affordable test_jobs test_db.
Proof. by apply (bool_decide_eq_true_1 (affordable test_jobs test_db)); vm_compute. Qed.

Lemma concurrent_transfers_succeed_witness :
  length test_jobs = 100%nat ∧
  ∀ sched, (∀ i, (i < length test_jobs)%nat → (2 ≤ count_occ Nat.eq_dec sched i)%nat) →
  let '(ps', w') := schedule sched (fire test_jobs, test_world) in
  Forall (λ p, ∃ t, p = Ret (Ok t)) ps' ∧
  bank_of (w_db w') !! "w1" = Some (mkBankWallet "USD" "ACTIVE" 750) ∧
  bank_of (w_db w') !! "w2" = Some (mkBankWallet "USD" "ACTIVE" 1250).
Proof.
  split; [done|]. intros sched Hfair.
  pose proof (concurrent_transfers_succeed 1600 test_jobs test_world sched test_healthy
    ltac:(vm_compute; lia)
    test_acceptable test_affordable Hfair) as Hp.
  destruct (schedule sched (fire test_jobs, test_world)) as [ps' w'].
  destruct Hp as (Hok & Hbank & _). split; [exact Hok|].
  split; [rewrite (Hbank "w1" (bank_wallet (test_wallet "w1" "b1" "a1")) eq_refl)|
          rewrite (Hbank "w2" (bank_wallet (test_wallet "w2" "b2" "a2")) eq_refl)];
    vm_compute; reflexivity.
Defined.
