(* ===== verification/TransferHandler.v ===== *)
(** * The transfer endpoint (internal/transfers/handler.go)

    [HandleTransfer] guards [ExecuteTransfer] with an idempotency key and a check that
    the caller owns the source wallet.  Between its calls other requests run, so its
    theorems about concurrent requests are about interleavings. *)

From S2P Require Import Prelude Go Models Postgres Runtime Sample Http Middleware.
From S2P Require Import Ledger Outbox Idempotency Wallets Transfers.
Import transfers.
#[local] Open Scope go_scope.
#[local] Open Scope prog_scope.
#[local] Open Scope Z_scope.

(** ** The code: handler *)

Section Handler.
Context {T : TransfersService} {K : IdempotencyRepository} {W : WalletsRepository} `{JsonText}.

(** "Execute Transfer" and the answer. *)
Definition execute_and_answer (req : CreateTransferRequest) (idemKey : string) : prog Response :=
  let+ res := ExecuteTransfer req idemKey in
  match res with
  | Err err =>
    let+ _ := call (Complete idemKey (JObj [("error", JStr (Error err))]) StatusBadRequest) in
    Ret (http_Error (Error err) StatusBadRequest)
  | Ok transfer =>
    let+ _ := call (Complete idemKey (Transfer_json transfer) StatusCreated) in
    Ret (mkResponse StatusCreated (JsonBody (Transfer_json transfer)))
  end.

(** "Ensure caller owns the source wallet" *)
Definition may_spend (res : Res wallets.Wallet) (claims : auth.JWTClaims) : bool :=
  match res with
  | Err _ => false
  | Ok sourceWallet =>
    negb (bool_decide (wallets.Wallet_OwnerID sourceWallet ≠ auth.Claims_UserID claims) &&
          bool_decide (auth.Claims_Role claims ≠ auth.RoleSystem))
  end.

Definition process (claims : auth.JWTClaims) (req : CreateTransferRequest) (idemKey : string)
  : prog Response :=
  let+ res := call (GetWalletByID (Req_SourceWalletID req)) in
  if negb (may_spend res claims) then
    let+ _ := call (Complete idemKey
      (JObj [("error", JStr "unauthorized access to source wallet")]) StatusForbidden) in
    Ret (http_Error "forbidden" StatusForbidden)
  else execute_and_answer req idemKey.

(** "Already completed, return cached response" *)
Definition replay (rec : idempotency.KeyRecord) : Response :=
  mkResponse (idempotency.Rec_ResponseStatus rec)
    (match idempotency.Rec_ResponsePayload rec with
     | Some payload => JsonBody payload
     | None => NoBody
     end).

(** After the idempotency check. *)
Definition after_acquire (claims : auth.JWTClaims) (req : CreateTransferRequest)
    (idemKey : string) (idemRecord : Res (option idempotency.KeyRecord)) : prog Response :=
  match idemRecord with
  | Err err =>
    if bool_decide (err = ErrKeyInProgress) then Ret (http_Error (Error err) StatusConflict)
    else Ret (http_Error "internal server error" StatusInternalServerError)
  | Ok (Some rec) => Ret (replay rec)
  | Ok None => process claims req idemKey
  end.

Definition HandleTransfer : Handler := λ r,
  match GetClaims r with
  | None => Ret (http_Error "unauthorized" StatusUnauthorized)
  | Some claims =>
    let idemKey := Header r "Idempotency-Key" in
    if bool_decide (idemKey = "") then
      Ret (http_Error "Idempotency-Key header is required" StatusBadRequest)
    else
      match decode_body decode_CreateTransferRequest r with
      | None => Ret (http_Error "invalid request body" StatusBadRequest)
      | Some req =>
        let+ idemRecord := TryAcquire idemKey (CreateTransferRequest_json req) in
        after_acquire claims req idemKey idemRecord
      end
  end.
End Handler.

(** ** The calls the handler makes *)

Section Calls.
Context `{UuidLaws}.

(** A call that at most changes the idempotency keys. *)
Definition keys_only (d d' : DB) : Prop := ∃ t, d' = set_idempotency_keys t d.

Lemma keys_only_refl d : keys_only d d.
Proof. exists (idempotency_keys d). by destruct d. Qed.

Lemma try_acquire_keys_only key payload w :
  keys_only (w_db w) (w_db (run (TryAcquire key payload) w).2).
Proof.
  simpl. destruct (exec (sql_insert_key key payload) w) as [r w1] eqn:Hins.
  assert (Hk : keys_only (w_db w) (w_db w1)).
  { apply exec_cases in Hins as [(e & _ & ->)|(u & d & Hq & -> & _)]; [apply keys_only_refl|].
    apply sql_insert_key_ok in Hq as (k & _ & _ & ->). by eexists. }
  destruct r as [u|e]; simpl; [done|].
  destruct (exec (sql_select_key key) w1) as [r w2] eqn:Hsel.
  pose proof (exec_select_db _ _ _ _ Hsel) as Hdb.
  destruct r as [row|e']; simpl; [case_bool_decide; simpl|]; by rewrite Hdb.
Qed.

(** What [Complete] does to the table: the row of the key, if any, and only there. *)
Lemma complete_cases key resp code w :
  let w' := (Complete key resp code w).2 in
  w_db w' = w_db w ∨
  ∃ row row', idempotency_keys (w_db w) !! key = Some row ∧
    w_db w' = set_idempotency_keys (<[key := row']> (idempotency_keys (w_db w))) (w_db w).
Proof.
  cbn [Complete Idempotency.postgresRepository].
  destruct (exec (sql_complete_key key resp code) w) as [r w1] eqn:Hex. simpl.
  apply exec_cases in Hex as [(e & _ & ->)|(u & d & Hq & -> & _)]; [by left|].
  unfold sql_complete_key in Hq. destruct (idempotency_keys (w_db w) !! key) as [row|] eqn:Hrow;
    [|simplify_eq; by left].
  m_inv. right. eauto.
Qed.

Lemma complete_keys_only key resp code w :
  keys_only (w_db w) (w_db (Complete key resp code w).2).
Proof.
  destruct (complete_cases key resp code w) as [->|(row & row' & _ & ->)];
    [apply keys_only_refl|by eexists].
Qed.
End Calls.

(** ** Counting the transfers of a key *)

Section Once.
Context `{UuidLaws} {L : LedgerRepository} {X : OutboxRepository}
  `{LC : !LedgerContract L} `{OC : !OutboxContract X} `{JsonText}.

Definition transfers_with (k : string) (d : DB) : Z :=
  map_sum (λ t, if decide (Transfer_IdempotencyKey t = k) then 1 else 0) (transfers_t d).

Definition has_key (k : string) (d : DB) : Z :=
  match idempotency_keys d !! k with Some _ => 1 | None => 0 end.

(** The potential: a request may add a transfer for the key only after adding the
    key. *)
Definition unspent (k : string) (w : World) : Z := transfers_with k (w_db w) - has_key k (w_db w).

(** The credit of a request that has claimed [key]. *)
Definition claim (k key : string) : Z := if decide (varchar 255 key = Ok k) then 1 else 0.

Lemma claim_nonneg k key : 0 <= claim k key.
Proof. unfold claim. case_decide; lia. Qed.

Lemma unspent_same k w w' : w_db w' = w_db w → unspent k w' = unspent k w.
Proof. unfold unspent. by intros ->. Qed.

Lemma booked_transfers_with k req key a b t d d' :
  booked req key a b t d d' → transfers_with k d' = transfers_with k d + claim k key.
Proof.
  intros (row & Hn & Hk & _ & Ht)%booked_transfers. unfold transfers_with. rewrite Ht.
  rewrite map_sum_insert_new by done. unfold claim. rewrite Hk.
  repeat case_decide; try lia; congruence.
Qed.

Lemma acquire_amortized k key payload :
  amortized (unspent k) (TryAcquire key payload) 0
    (λ r n, n = match r with Ok None => claim k key | _ => 0 end).
Proof.
  apply (amortized_bind _ _ _ _ (λ err n, n = match err with Ok _ => claim k key | Err _ => 0 end)).
  - apply amortized_call; [lia|]. intros w.
    destruct (exec (sql_insert_key key payload) w) as [r w1] eqn:Hins. simpl.
    apply exec_cases in Hins as [(e & -> & Hdb)|(u & d & Hq & Hdb & Hr)].
    { exists 0. rewrite (unspent_same _ _ _ Hdb). split; [lia|]. split; [done|lia]. }
    apply sql_insert_key_ok in Hq as (k' & Hk & Hn & ->).
    assert (Hpot : unspent k w1 = unspent k w - claim k key).
    { unfold unspent, has_key, claim, transfers_with. rewrite Hdb, Hk. simpl.
      destruct (decide (k' = k)) as [->|Hne].
      - rewrite lookup_insert_eq, Hn, decide_True by done. lia.
      - rewrite lookup_insert_ne, decide_False by congruence. lia. }
    pose proof (claim_nonneg k key).
    destruct Hr as [->|[e ->]]; [exists (claim k key)|exists 0];
      (split; [lia|]; split; [done|lia]).
  - intros [u|e] n _ ->; [split; [apply claim_nonneg|done]|].
    apply (amortized_bind _ _ _ _ (λ _ n, n = 0)).
    + apply amortized_call; [lia|]. intros w. exists 0.
      destruct (exec (sql_select_key key) w) as [r w1] eqn:Hsel. simpl.
      rewrite (unspent_same _ _ _ (exec_select_db _ _ _ _ Hsel)). split; [lia|]. split; [done|lia].
    + intros [row|e'] n _ ->; cbn zeta iota; [case_bool_decide|]; done.
Qed.

Lemma execute_amortized k req key :
  amortized (unspent k) (ExecuteTransfer req key) (claim k key) (λ _ _, True).
Proof.
  apply (amortized_bind _ _ _ _ (λ _ _, True)).
  - unfold transfer_body. pose proof (claim_nonneg k key).
    case_bool_decide; [by split|]. destruct (_ <=? _); [by split|].
    apply amortized_call; [done|]. intros w. exists 0.
    destruct (with_tx (transfer_statements req key) w) as [r w1] eqn:Hrun.
    split; [lia|]. split; [done|]. simpl.
    apply with_tx_cases in Hrun as [(e & _ & Hdb)|(t & w2 & Hb & -> & _)].
    + rewrite (unspent_same _ _ _ Hdb). lia.
    + apply transfer_statements_ok in Hb as (source & dest & _ & _ & _ & Hb & _).
      unfold unspent. simpl. rewrite (booked_transfers_with k _ _ _ _ _ _ _ Hb).
      apply booked_frame in Hb as (_ & _ & Hkeys & _). unfold has_key. rewrite Hkeys.
      simpl. lia.
  - intros r n Hn _. apply (amortized_bind _ _ _ _ (λ _ _, True)); [|by split].
    apply amortized_call; [done|]. intros w. exists 0. split; [lia|]. split; [done|].
    rewrite (unspent_same k w); [lia|done].
Qed.

Lemma complete_amortized k key resp code n :
  0 <= n → amortized (unspent k) (call (Complete key resp code)) n (λ _ _, True).
Proof.
  intros Hn. apply amortized_call; [done|]. intros w. exists 0. split; [lia|]. split; [done|].
  destruct (complete_cases key resp code w) as [Hdb|(row & row' & Hrow & Hdb)].
  - rewrite (unspent_same _ _ _ Hdb). lia.
  - unfold unspent, has_key, transfers_with. rewrite Hdb. simpl.
    destruct (decide (key = k)) as [->|]; simplify_map_eq; lia.
Qed.

Lemma process_amortized k claims req key :
  amortized (unspent k) (process claims req key) (claim k key) (λ _ _, True).
Proof.
  apply (amortized_bind _ _ _ _ (λ _ n, n = claim k key)).
  - apply amortized_call; [apply claim_nonneg|]. intros w. exists (claim k key).
    split; [apply claim_nonneg|]. split; [done|].
    rewrite (unspent_same _ _ _ (get_wallet_by_id_reads _ w)). lia.
  - intros res n Hn ->. destruct (negb (may_spend res claims)).
    + eapply amortized_bind; [by apply complete_amortized|by split].
    + eapply amortized_bind; [apply execute_amortized|]. intros [t|e] n Hn' _;
        (eapply amortized_bind; [by apply complete_amortized|by split]).
Qed.

Lemma handle_amortized k r : amortized (unspent k) (HandleTransfer r) 0 (λ _ _, True).
Proof.
  unfold HandleTransfer. destruct (GetClaims r) as [claims|]; [|done].
  case_bool_decide; [done|]. destruct (decode_body _ r) as [req|]; [|done].
  eapply amortized_bind; [apply acquire_amortized|]. intros [[rec|]|e] n Hn ->; simpl.
  - by split.
  - apply process_amortized.
  - case_bool_decide; by split.
Qed.
End Once.

(** ** One request on its own *)

Section Alone.
Context `{UuidLaws} {L : LedgerRepository} {X : OutboxRepository}
  `{LC : !LedgerContract L} `{OC : !OutboxContract X} `{JsonText}.

(** The caller owns the source wallet of the request, or is the system. *)
Definition owns_source (claims : auth.JWTClaims) (req : CreateTransferRequest) (d : DB) : Prop :=
  ∃ source row, uuid_in (Req_SourceWalletID req) = Some source ∧
    wallets_t d !! source = Some row ∧
    (wallets.Wallet_OwnerID row = auth.Claims_UserID claims ∨
     auth.Claims_Role claims = auth.RoleSystem).

Lemma may_spend_owns claims req w res w' :
  GetWalletByID (Req_SourceWalletID req) w = (res, w') → may_spend res claims = true →
  owns_source claims req (w_db w).
Proof.
  intros Hget Hmay. destruct res as [row|e]; [|done]. simpl in Hmay.
  apply map_err_ok, exec_ok in Hget as (d & Hq & ->). unfold sql_select_wallet in Hq.
  m_inv. destruct (wallets_t (w_db w) !! _) as [row0|] eqn:Hrow; [|done]. simplify_eq.
  eexists _, row. split; [done|]. split; [done|].
  revert Hmay. repeat case_bool_decide; simpl; auto; done.
Qed.

Lemma complete_wallets key resp code w :
  wallets_t (w_db (Complete key resp code w).2) = wallets_t (w_db w).
Proof. by destruct (complete_keys_only key resp code w) as [t ->]. Qed.

Lemma complete_answer_wallets key resp code (answer : Response) w :
  wallets_t (w_db (run (let+ _ := call (Complete key resp code) in Ret answer) w).2) =
  wallets_t (w_db w).
Proof.
  rewrite run_bind, run_call. pose proof (complete_wallets key resp code w) as Hw.
  by destruct (Complete key resp code w).
Qed.

Lemma execute_and_answer_wallets req key w :
  wallets_t (w_db (run (execute_and_answer req key) w).2) = wallets_t (w_db w) ∨
  ∃ debited credited t d', booked req key debited credited t (w_db w) d' ∧
    wallets_t (w_db (run (execute_and_answer req key) w).2) = wallets_t d'.
Proof.
  unfold execute_and_answer. rewrite run_bind.
  destruct (run (ExecuteTransfer req key) w) as [res w1] eqn:Hex.
  assert (Hsame : wallets_t (w_db (run match res with
      | Ok transfer => let+ _ := call (Complete key (Transfer_json transfer) StatusCreated) in
          Ret (mkResponse StatusCreated (JsonBody (Transfer_json transfer)))
      | Err err => let+ _ := call (Complete key (JObj [("error", JStr (Error err))])
                                     StatusBadRequest) in
          Ret (http_Error (Error err) StatusBadRequest)
      end w1).2) = wallets_t (w_db w1)).
  { destruct res; apply complete_answer_wallets. }
  rewrite Hsame. apply execute_transfer_cases in Hex as [(e & _ & ->)|(s & d & t & _ & _ & Hb & _)];
    [by left|right; eauto 10].
Qed.

Lemma process_wallets claims req key w :
  let w' := (run (process claims req key) w).2 in
  wallets_t (w_db w') = wallets_t (w_db w) ∨
  (owns_source claims req (w_db w) ∧
   ∃ debited credited t d', booked req key debited credited t (w_db w) d' ∧
     wallets_t (w_db w') = wallets_t d').
Proof.
  unfold process. rewrite run_bind, run_call.
  destruct (GetWalletByID _ w) as [res w1] eqn:Hget.
  pose proof (get_wallet_by_id_reads (Req_SourceWalletID req) w) as Hdb. rewrite Hget in Hdb.
  simpl in Hdb. destruct (may_spend res claims) eqn:Hmay; simpl negb; cbn iota.
  - destruct (execute_and_answer_wallets req key w1) as [Hw|(a & b & t & d' & Hb & Hw)];
      [left; congruence|right]. rewrite Hdb in Hb.
    split; [exact (may_spend_owns _ _ _ _ _ Hget Hmay)|eauto 10].
  - left. rewrite complete_answer_wallets. congruence.
Qed.

(** The row of a processed request: its response is stored, under the status that
    was sent. *)
Definition answered (key : string) (resp : Response) (d : DB) : Prop :=
  ∃ row payload, idempotency_keys d !! key = Some row ∧
    idempotency.Row_Status row = idempotency.StatusCompleted ∧
    idempotency.Row_ResponsePayload row = Some payload ∧
    idempotency.Row_ResponseStatus row = Some (resp_status resp) ∧
    (resp_body resp = JsonBody payload ∨
     ∃ msg err, resp_body resp = TextBody msg ∧ payload = JObj [("error", JStr err)]).

Lemma complete_answers key payload code answer w :
  no_faults 0 → is_Some (idempotency_keys (w_db w) !! key) → - 2 ^ 31 <= code < 2 ^ 31 →
  resp_status answer = code →
  (resp_body answer = JsonBody payload ∨
   ∃ msg err, resp_body answer = TextBody msg ∧ payload = JObj [("error", JStr err)]) →
  let '(resp, w') := run (let+ _ := call (Complete key payload code) in Ret answer) w in
  resp = answer ∧ answered key answer (w_db w').
Proof.
  intros Hf [row Hrow] Hcode Hst Hbody. rewrite run_bind, run_call.
  cbn [Complete Idempotency.postgresRepository]. rewrite exec_fine by (apply Hf; lia).
  unfold sql_complete_key. rewrite Hrow.
  change (varchar 50 idempotency.StatusCompleted) with (Ok idempotency.StatusCompleted).
  cbn [res_bind]. unfold int4. rewrite decide_True by done. cbn [res_bind run]. split; [done|].
  eexists _, payload. simpl. rewrite lookup_insert_eq. split; [done|]. simpl.
  split; [done|]. split; [done|]. split; [by rewrite Hst|done].
Qed.

Lemma process_answers claims req key w :
  no_faults 0 → is_Some (idempotency_keys (w_db w) !! key) →
  let '(resp, w') := run (process claims req key) w in answered key resp (w_db w').
Proof.
  intros Hf Hrow. unfold process. rewrite run_bind, run_call.
  destruct (GetWalletByID _ w) as [res w1] eqn:Hget.
  pose proof (get_wallet_by_id_reads (Req_SourceWalletID req) w) as Hdb. rewrite Hget in Hdb.
  simpl in Hdb. rewrite <- Hdb in Hrow.
  destruct (negb (may_spend res claims)).
  - pose proof (complete_answers key (JObj [("error", JStr "unauthorized access to source wallet")])
      StatusForbidden (http_Error "forbidden" StatusForbidden) w1 Hf Hrow) as Hc.
    destruct (run _ w1) as [resp w']. destruct Hc as [-> Ha]; [done..|right; by eexists _, _|done].
  - unfold execute_and_answer. rewrite run_bind.
    destruct (run (ExecuteTransfer req key) w1) as [r w2] eqn:Hex.
    assert (Hrow2 : is_Some (idempotency_keys (w_db w2) !! key)).
    { apply execute_transfer_cases in Hex as [(e & _ & ->)|(s & d & t & _ & _ & Hb & _)]; [done|].
      apply booked_frame in Hb as (_ & _ & -> & _). done. }
    destruct r as [t|e].
    + pose proof (complete_answers key (Transfer_json t) StatusCreated
        (mkResponse StatusCreated (JsonBody (Transfer_json t))) w2 Hf Hrow2) as Hc.
      destruct (run _ w2) as [resp w']. destruct Hc as [-> Ha]; [done..|by left|done].
    + pose proof (complete_answers key (JObj [("error", JStr (Error e))]) StatusBadRequest
        (http_Error (Error e) StatusBadRequest) w2 Hf Hrow2) as Hc.
      destruct (run _ w2) as [resp w']. destruct Hc as [-> Ha]; [done..|right; by eexists _, _|done].
Qed.
End Alone.

(** ** Properties *)

(** C9. At most once: however many transfer requests run at once, by whomever and with
    whatever keys, and whatever fails, each idempotency key gains at most one
    transfer, and none if the key was already there. *)
Theorem transfer_at_most_once `{UuidLaws} {L : LedgerRepository} {X : OutboxRepository}
  `{!LedgerContract L} `{!OutboxContract X} `{JsonText} (rs : list Request) w ps' w' k :
  interleaving (HandleTransfer <$> rs, w) (ps', w') →
  transfers_with k (w_db w') <= transfers_with k (w_db w) + (1 - has_key k (w_db w)).
Proof.
  intros Hrun.
  pose proof (interleaving_amortized (unspent k) (λ _ _, True) (HandleTransfer <$> rs)
    (replicate (length rs) 0) w ps' w') as Hle.
  assert (Hzero : credits (replicate (length rs) 0) = 0).
  { clear. induction rs; simpl; lia. }
  rewrite Hzero in Hle. unfold unspent in Hle.
  assert (Hall : Forall2 (λ p n, amortized (unspent k) p n (λ _ _, True))
    (HandleTransfer <$> rs) (replicate (length rs) 0)).
  { clear Hle Hzero Hrun. induction rs as [|r rs IH]; simpl; [constructor|].
    constructor; [apply handle_amortized|done]. }
  specialize (Hle Hall Hrun).
  assert (has_key k (w_db w') <= 1) by (unfold has_key; case_match; lia). lia.
Qed.

(** C11. Only an authenticated caller who owns the source wallet, or the system, can
    make this endpoint change a wallet; and then the change is the one of a transfer
    of the request. *)
Theorem transfer_needs_ownership `{UuidLaws} {L : LedgerRepository} {X : OutboxRepository}
  `{!LedgerContract L} `{!OutboxContract X} `{JsonText} r w :
  let w' := (run (HandleTransfer r) w).2 in
  wallets_t (w_db w') = wallets_t (w_db w) ∨
  ∃ claims req, ctx_claims r = Some claims ∧
    decode_body decode_CreateTransferRequest r = Some req ∧
    owns_source claims req (w_db w) ∧
    ∃ debited credited t d d', wallets_t d = wallets_t (w_db w) ∧
      booked req (Header r "Idempotency-Key") debited credited t d d' ∧
      wallets_t (w_db w') = wallets_t d'.
Proof.
  cbn zeta. unfold HandleTransfer, GetClaims.
  destruct (ctx_claims r) as [claims|]; [|by left]. case_bool_decide; [by left|].
  destruct (decode_body _ r) as [req|]; [|by left]. rewrite run_bind.
  pose proof (try_acquire_keys_only (Header r "Idempotency-Key") (CreateTransferRequest_json req) w)
    as [ks Hks].
  destruct (run (TryAcquire _ _) w) as [rec w1]. simpl in Hks.
  destruct rec as [[rec|]|e]; simpl after_acquire.
  - left. simpl. by rewrite Hks.
  - destruct (process_wallets claims req (Header r "Idempotency-Key") w1)
      as [Hw|(Hown & a & b & t & d' & Hb & Hw)]; cbn [after_acquire]; [left; by rewrite Hw, Hks|right].
    exists claims, req. split; [done|]. split; [done|]. split.
    + destruct Hown as (s & row & ? & Hrow & ?). exists s, row. by rewrite Hks in Hrow.
    + exists a, b, t, (w_db w1), d'. by rewrite Hks at 1.
  - left. case_bool_decide; simpl; by rewrite Hks.
Qed.

(** Retrying is safe: when nothing outside fails, a second request with the key of
    a processed one, whoever sends it and whatever it asks for, changes nothing and
    gets the same status; a successful transfer is answered with the same body, and
    an error with its stored form. *)
Theorem transfer_replay `{UuidLaws} {L : LedgerRepository} {X : OutboxRepository}
  `{!LedgerContract L} `{!OutboxContract X} `{JsonText} r r' claims claims' req req' key w :
  no_faults 0 → key ≠ "" → varchar 255 key = Ok key →
  idempotency_keys (w_db w) !! key = None →
  Header r "Idempotency-Key" = key → ctx_claims r = Some claims →
  decode_body decode_CreateTransferRequest r = Some req →
  Header r' "Idempotency-Key" = key → ctx_claims r' = Some claims' →
  decode_body decode_CreateTransferRequest r' = Some req' →
  let '(resp, w1) := run (HandleTransfer r) w in
  let '(resp', w2) := run (HandleTransfer r') w1 in
  w_db w2 = w_db w1 ∧ resp_status resp' = resp_status resp ∧
  (resp_body resp' = resp_body resp ∨
   ∃ msg err, resp_body resp = TextBody msg ∧
              resp_body resp' = JsonBody (JObj [("error", JStr err)])).
Proof.
  intros Hf Hne Hkey Hnone Hk Hc Hreq Hk' Hc' Hreq'.
  unfold HandleTransfer, GetClaims. rewrite Hk, Hk', Hc, Hc', Hreq, Hreq'.
  rewrite (bool_decide_eq_false_2 (key = "")) by done. rewrite !run_bind.
  assert (Hacq : ∃ w0, run (TryAcquire key (CreateTransferRequest_json req)) w = (Ok None, w0)).
  { simpl. rewrite exec_fine by (apply Hf; lia). rewrite sql_insert_key_fresh by done. eauto. }
  destruct Hacq as [w0 Hacq]. rewrite Hacq. cbn [after_acquire].
  destruct (acquired_row _ _ _ _ Hkey Hacq) as [now Hrow].
  pose proof (process_answers claims req key w0 Hf (ex_intro _ _ Hrow)) as Hans.
  destruct (run (process claims req key) w0) as [resp w1].
  destruct Hans as (row & payload & Hrow1 & Hst & Hpay & Hcode & Hbody).
  rewrite run_bind.
  destruct (replayed key (CreateTransferRequest_json req') w1 row Hkey Hrow1) as (w2 & Hrun & Hdb);
    [by rewrite Hst|apply Hf; lia|].
  rewrite Hrun. cbn [after_acquire run]. unfold replay, scan_record.
  cbn [idempotency.Rec_ResponseStatus idempotency.Rec_ResponsePayload]. rewrite Hpay, Hcode.
  split; [done|]. split; [done|]. cbn [resp_body].
  destruct Hbody as [Hb|(msg & err & Hb & ->)]; [by left|right; eauto].
Qed.

(** ** Witnesses *)

(** Every body asks for a hundred dollars from the first wallet to the second. *)
Definition transfer_text : JsonText := {|
  json_first _ := Some (CreateTransferRequest_json (sample_req "w1"));
  json_whole _ := None;
|}.

Definition transfer_request (user key : string) : Request :=
  mkRequest "POST" "/api/v1/transfers" (λ h, if bool_decide (h = "Idempotency-Key") then key else "") "10.0.0.1:80" "" "" true
    (Some (auth.mkClaims user auth.RoleUser)).

Definition sample_handler : Handler :=
  HandleTransfer (T := Transfers.serviceImpl) (H := transfer_text).

(** The owner's request twice and a stranger's, all with one key, interleaved. *)
Definition sample_rush : list (prog Response) * World :=
  schedule [0; 2; 1; 0; 2; 0; 0; 0; 0; 0; 1; 1; 1]%nat
    (sample_handler <$> [transfer_request "b1" "k2"; transfer_request "b2" "k2";
                         transfer_request "b1" "k2"], sample_world sample_bank).

Lemma transfer_at_most_once_witness :
  transfers_with "k2" (w_db sample_rush.2) = 1 ∧
  transfers_with "k2" (w_db sample_rush.2) <=
    transfers_with "k2" sample_bank + (1 - has_key "k2" sample_bank).
Proof.
  split; [vm_compute; reflexivity|].
  apply (transfer_at_most_once (H1 := transfer_text)
    [transfer_request "b1" "k2"; transfer_request "b2" "k2"; transfer_request "b1" "k2"]
    (sample_world sample_bank) sample_rush.1 sample_rush.2 "k2").
  rewrite <- surjective_pairing. apply schedule_interleaving.
Defined.

Lemma transfer_replay_witness :
  let '(resp, w1) := run (sample_handler (transfer_request "b1" "k2")) (sample_world sample_bank) in
  let '(resp', w2) := run (sample_handler (transfer_request "b2" "k2")) w1 in
  resp_status resp = StatusCreated ∧ w_db w2 = w_db w1 ∧ resp_status resp' = resp_status resp.
Proof.
  pose proof (transfer_replay (H1 := transfer_text) (transfer_request "b1" "k2")
    (transfer_request "b2" "k2") (auth.mkClaims "b1" auth.RoleUser)
    (auth.mkClaims "b2" auth.RoleUser) (sample_req "w1") (sample_req "w1") "k2"
    (sample_world sample_bank) (sample_no_faults _) ltac:(discriminate) eq_refl eq_refl eq_refl
    eq_refl eq_refl eq_refl eq_refl eq_refl) as Hp.
  assert (Hst : resp_status (run (sample_handler (transfer_request "b1" "k2"))
    (sample_world sample_bank)).1 = StatusCreated) by (vm_compute; reflexivity).
  unfold sample_handler in *. destruct (run _ (sample_world sample_bank)) as [resp w1].
  destruct (run _ w1) as [resp' w2]. exact (conj Hst (conj (proj1 Hp) (proj1 (proj2 Hp)))).
Defined.

Lemma transfer_needs_ownership_witness :
  let w' := (run (sample_handler (transfer_request "b2" "k2")) (sample_world sample_bank)).2 in
  wallets_t (w_db w') = wallets_t sample_bank ∨
  ∃ claims req, Some (auth.mkClaims "b2" auth.RoleUser) = Some claims ∧
    owns_source claims req sample_bank.
Proof.
  destruct (transfer_needs_ownership (H1 := transfer_text) (transfer_request "b2" "k2")
    (sample_world sample_bank)) as [Hs|(claims & req & Hc & _ & Ho & _)]; [left; exact Hs|].
  right. exists claims, req. exact (conj Hc Ho).
Defined.
