(* ===== verification/TransferAnswers.v ===== *)
(** * Concurrent answers under one idempotency key (internal/transfers/handler.go)

    [TransferHandler] shows that a key moves money at most once.  Here is what the callers are
    told: however their requests race and whatever fails, all that are answered at all are
    answered alike. *)

From S2P Require Import Prelude Go Models Postgres Runtime OneShot Sample Http Middleware.
From S2P Require Import Ledger Outbox Idempotency Wallets Transfers TransferHandler.
Import transfers.
#[local] Open Scope go_scope.
#[local] Open Scope prog_scope.
#[local] Open Scope Z_scope.

(** The answers to a request that was not decided: it may be sent again. *)
Definition undecided : list Response :=
  [http_Error "unauthorized" StatusUnauthorized;
   http_Error "Idempotency-Key header is required" StatusBadRequest;
   http_Error "invalid request body" StatusBadRequest;
   http_Error "request is currently in progress" StatusConflict;
   http_Error "internal server error" StatusInternalServerError].

(** [resp] is the stored answer [a], or the text of an error whose stored form is [a]. *)
Definition tells (resp a : Response) : Prop :=
  resp = a ∨ (resp_status resp = resp_status a ∧ resp_status a ≠ StatusCreated).

(** The returned transfer [t] is in the table, under the key [k]. *)
Definition on_record `{Env} (k : string) (t : Transfer) (d : DB) : Prop :=
  ∃ row, transfers_t d !! Transfer_ID t = Some row ∧ Transfer_IdempotencyKey row = k ∧
    uuid_in (Transfer_SourceWalletID t) = Some (Transfer_SourceWalletID row) ∧
    uuid_in (Transfer_DestinationWalletID t) = Some (Transfer_DestinationWalletID row) ∧
    Transfer_Amount row = Transfer_Amount t ∧ Transfer_Status row = StatusCompleted ∧
    varchar 3 (Transfer_Currency t) = Ok (Transfer_Currency row).

Definition created (t : Transfer) : Response := mkResponse StatusCreated (JsonBody (Transfer_json t)).

(** How the decision about a key shows in the database: a key in progress may be decided
    already, before [Complete] and for ever when it fails; a transfer that was announced is on
    record. *)
Definition key_state `{Env} (k : string) (s : shot Response) (w : World) : Prop :=
  match s with
  | Fresh => idempotency_keys (w_db w) !! k = None
  | Taken => ∃ row, idempotency_keys (w_db w) !! k = Some row ∧
      idempotency.Row_Status row = idempotency.StatusInProgress
  | Shot a => (∃ row, idempotency_keys (w_db w) !! k = Some row ∧
      (idempotency.Row_Status row = idempotency.StatusInProgress ∨ replay (scan_record row) = a)) ∧
      (resp_status a = StatusCreated → ∃ t, a = created t ∧ on_record k t (w_db w))
  end.

(** What is claimed of the answer to a request under [k]. *)
Definition told (t : knowledge Response) (resp : Response) : Prop :=
  resp ∈ undecided ∨ ∃ a, t = Knows a ∧ tells resp a.

Section Racing.
Context `{UuidLaws} {L : LedgerRepository} {X : OutboxRepository}
  `{LC : !LedgerContract L} `{OC : !OutboxContract X} `{JsonText}.
Variable k : string.
#[local] Notation decides := (decides (key_state k)).
#[local] Notation aside := (aside (key_state k)).

Lemma key_state_frame s w w' :
  idempotency_keys (w_db w') !! k = idempotency_keys (w_db w) !! k →
  transfers_t (w_db w) ⊆ transfers_t (w_db w') →
  key_state k s w → key_state k s w'.
Proof.
  intros Hk Ht. destruct s as [| |a]; simpl; rewrite Hk; [done..|].
  intros [Hrow Ha]. split; [done|]. intros (t & Hat & row & Hrow' & Hrec)%Ha.
  exists t. split; [done|]. exists row. split; [|done]. by eapply lookup_weaken.
Qed.

Lemma aside_frame {Y} (m : M Y) :
  (∀ w, idempotency_keys (w_db (m w).2) !! k = idempotency_keys (w_db w) !! k ∧
        transfers_t (w_db w) ⊆ transfers_t (w_db (m w).2)) → aside _ m.
Proof. intros Hm s w. destruct (Hm w). by apply key_state_frame. Qed.

Lemma booked_grows req key a b t d d' :
  booked req key a b t d d' →
  idempotency_keys d' = idempotency_keys d ∧ transfers_t d ⊆ transfers_t d'.
Proof.
  intros Hb. split; [by apply booked_frame in Hb as (_ & _ & ? & _)|].
  apply booked_transfers in Hb as (row & Hn & _ & _ & ->). by apply insert_subseteq.
Qed.

Lemma booked_on_record req key a b t d d' :
  booked req key a b t d d' → returned req key t → varchar 255 key = Ok k → on_record k t d'.
Proof.
  intros (src & dst & now & enq & d1 & d2 & d3 & _ & _ & _ & _ & _ & Hr & Hp & He).
  apply enqueued_frame in He as (_&_&_&_&_&_&He&_). apply posted_frame in Hp as (_&_&_&_&Hp&_).
  destruct Hr as (row & Hn & _ & Hs & Hd & Ha & Hst & Hc & Hk & _ & _ & ->).
  intros (Hs' & Hd' & Ha' & Hc' & _) Hkey. exists row. rewrite He, Hp, Hs', Hd', Ha', Hc'. simpl.
  rewrite lookup_insert_eq. rewrite Hkey in Hk. injection Hk as ->. by split_and!.
Qed.

(** The transaction of a transfer: none of it, or booked. *)
Lemma transfer_call_cases req key w r w' :
  with_tx (transfer_statements req key) w = (r, w') →
  (∃ e, r = Err e ∧ w_db w' = w_db w) ∨
  ∃ a b t, booked req key a b t (w_db w) (w_db w') ∧ returned req key t ∧
    (r = Ok t ∨ ∃ msg, r = Err (ext_error msg)).
Proof.
  intros [Herr|(t & w1 & Hb & -> & Hr)]%with_tx_cases; [by left|right].
  apply transfer_statements_ok in Hb as (source & dest & _ & _ & _ & Hb & Hret & _). naive_solver.
Qed.

Lemma transfer_call_aside req key : aside _ (with_tx (transfer_statements req key)).
Proof.
  apply aside_frame. intros w. destruct (with_tx _ w) as [r w1] eqn:Hrun. simpl.
  apply transfer_call_cases in Hrun as [(e & _ & ->)|(a & b & t & Hb & _ & _)]; [done|].
  by apply booked_grows in Hb as [-> Ht].
Qed.

Lemma record_aside success : aside _ (RecordTransfer success).
Proof. by apply aside_frame. Qed.

Lemma execute_aside req key : calls aside (ExecuteTransfer req key).
Proof.
  apply calls_bind.
  - unfold transfer_body. case_bool_decide; [done|]. destruct (_ <=? _); [done|].
    apply calls_call, transfer_call_aside.
  - intros r. apply calls_bind; [|done]. apply calls_call, record_aside.
Qed.

Lemma get_wallet_aside id : aside _ (GetWalletByID id).
Proof. apply aside_frame. intros w. by rewrite get_wallet_by_id_reads. Qed.

Lemma complete_aside key payload code : key ≠ k → aside _ (Complete key payload code).
Proof.
  intros Hne. apply aside_frame. intros w.
  destruct (complete_cases key payload code w) as [->|(row & row' & _ & ->)]; [done|].
  simpl. by rewrite lookup_insert_ne.
Qed.

(** What [Complete] leaves of a row: as it was, or with the response. *)
Lemma complete_row payload code w row :
  idempotency_keys (w_db w) !! k = Some row →
  let w' := (Complete k payload code w).2 in
  transfers_t (w_db w') = transfers_t (w_db w) ∧
  ∃ row', idempotency_keys (w_db w') !! k = Some row' ∧
    (row' = row ∨ replay (scan_record row') = mkResponse code (JsonBody payload)).
Proof.
  intros Hrow. simpl. destruct (exec (sql_complete_key k payload code) w) as [r w1] eqn:Hex. simpl.
  apply exec_cases in Hex as [(e & _ & ->)|(u & d & Hq & -> & _)]; [by eauto|].
  unfold sql_complete_key in Hq. rewrite Hrow in Hq. m_inv. simpl. rewrite lookup_insert_eq.
  split; [done|]. eexists. split; [done|]. right. unfold int4 in *. case_decide; [|done].
  by simplify_eq.
Qed.

(** Completing the key with a refusal decides it, even when it fails. *)
Lemma complete_fires payload code resp :
  code ≠ StatusCreated → resp_status resp = code →
  decides told Holder (let+ _ := call (Complete k payload code) in Ret resp).
Proof.
  intros Hcode Hst. apply (decides_at _ _ _ Taken); [done|]. intros w Hs. destruct Hs as (row & Hrow & Hprog).
  set (a := mkResponse code (JsonBody payload)). exists (Knows a), (Shot a).
  split; [constructor|]. destruct (complete_row payload code w row Hrow) as (_ & row' & Hrow' & Hr).
  split; [split; [|done]|].
  - exists row'. split; [done|]. destruct Hr as [->|Hr]; auto.
  - right. exists a. split; [done|]. right. by split.
Qed.

(** Completing it with what was decided changes nothing. *)
Lemma complete_keeps t :
  decides told (Knows (created t))
    (let+ _ := call (Complete k (Transfer_json t) StatusCreated) in Ret (created t)).
Proof.
  apply (decides_at _ _ _ (Shot (created t))); [done|]. intros w [(row & Hrow & Hprog) Ha].
  exists (Knows (created t)), (Shot (created t)). split; [constructor|].
  destruct (complete_row (Transfer_json t) StatusCreated w row Hrow) as (Ht & row' & Hrow' & Hr).
  split; [split|].
  - exists row'. split; [done|]. destruct Hr as [->|Hr]; auto.
  - intros (t' & Hat & row0 & Hrec)%Ha. exists t'. split; [done|]. exists row0. by rewrite Ht.
  - right. exists (created t). split; [done|]. by left.
Qed.

(** What follows the transaction of a transfer. *)
#[local] Notation conclude r :=
  (let+ res := (let+ _ := call (RecordTransfer (is_ok (r : Res Transfer))) in Ret r) in
   match res with
   | Err err => let+ _ := call (Complete k (JObj [("error", JStr (Error err))]) StatusBadRequest) in
       Ret (http_Error (Error err) StatusBadRequest)
   | Ok t => let+ _ := call (Complete k (Transfer_json t) StatusCreated) in Ret (created t)
   end).

Lemma refused_decides e : decides told Holder (conclude (@Err Transfer e)).
Proof.
  intros s w Hs Ht. exists Holder, s. split; [constructor|]. split; [by apply record_aside|].
  by apply complete_fires.
Qed.

Lemma created_decides t : decides told (Knows (created t)) (conclude (Ok t)).
Proof.
  intros s w Hs Ht. exists (Knows (created t)), s. split; [constructor|].
  split; [by apply record_aside|]. apply complete_keeps.
Qed.

(** Who executes the transfer decides: with its commit, or when it is refused. *)
Lemma execute_decides req :
  varchar 255 k = Ok k → decides told Holder (execute_and_answer req k).
Proof.
  intros Hk. unfold execute_and_answer, ExecuteTransfer, Transfers.serviceImpl.
  unfold transfer_body. case_bool_decide; [apply refused_decides|].
  destruct (_ <=? _); [apply refused_decides|].
  apply (decides_at _ _ _ Taken); [done|]. intros w (row & Hrow & Hprog).
  destruct (with_tx (transfer_statements req k) w) as [r w1] eqn:Hrun. cbn [fst snd].
  apply transfer_call_cases in Hrun as [(e & -> & Hdb)|(a & b & t & Hb & Hret & Hr)].
  { exists Holder, Taken. split; [constructor|]. split; [|apply refused_decides].
    exists row. by rewrite Hdb. }
  pose proof (booked_grows _ _ _ _ _ _ _ Hb) as [Hkeys _]. destruct Hr as [->|(msg & ->)].
  - exists (Knows (created t)), (Shot (created t)). split; [constructor|].
    split; [|apply created_decides]. split.
    + exists row. rewrite Hkeys. by auto.
    + intros _. exists t. split; [done|]. by eapply booked_on_record.
  - exists Holder, Taken. split; [constructor|]. split; [|apply refused_decides].
    exists row. by rewrite Hkeys.
Qed.

(** Who was told to process the request decides. *)
Lemma process_decides_key claims req :
  varchar 255 k = Ok k → decides told Holder (process claims req k).
Proof.
  intros Hk. unfold process. apply decides_bind; [apply calls_call, get_wallet_aside|]. intros res.
  destruct (negb _); [by apply complete_fires|by apply execute_decides].
Qed.

(** Under another key the row of [k] may be claimed, when the column cuts the key off, but no
    more. *)
Lemma process_aside claims req key : key ≠ k → calls aside (process claims req key).
Proof.
  intros Hne. unfold process. apply calls_bind; [apply calls_call, get_wallet_aside|]. intros res.
  destruct (negb _); [by apply calls_bind; [apply calls_call, complete_aside|]|].
  unfold execute_and_answer. apply calls_bind; [apply execute_aside|].
  intros [t|e]; (apply calls_bind; [by apply calls_call, complete_aside|done]).
Qed.

Lemma undecided_conflict : http_Error (Error ErrKeyInProgress) StatusConflict ∈ undecided.
Proof. unfold undecided. repeat (apply list_elem_of_here || apply list_elem_of_further). Qed.

(** Fetching the row of the key learns what was decided. *)
Lemma fetch_learns claims req :
  decides told Outside (let+ rec := fetch_existing k in after_acquire claims req k rec).
Proof.
  cbn. intros s w Hs _. destruct (exec (sql_select_key k) w) as [r w1] eqn:Hsel. simpl.
  pose proof (exec_select_db _ _ _ _ Hsel) as Hdb.
  assert (Hs1 : key_state k s w1) by (apply (key_state_frame s w); [by rewrite Hdb..|exact Hs]).
  destruct r as [row|e]; cbn; cycle 1.
  { exists Outside, s. split; [constructor|]. split; [done|].
    case_bool_decide as He; simpl; left; [subst e|set_solver]. apply undecided_conflict. }
  apply exec_ok in Hsel as (d & Hq & _). unfold sql_select_key in Hq.
  destruct (idempotency_keys (w_db w) !! k) as [row'|] eqn:Hrow; [|done]. simplify_eq.
  case_bool_decide as Hst; cbn.
  { exists Outside, s. split; [constructor|]. split; [done|].
    rewrite bool_decide_eq_true_2 by done. left. apply undecided_conflict. }
  destruct s as [| |a]; simpl in Hs; rewrite Hrow in Hs.
  - done.
  - by destruct Hs as (? & [= <-] & ?).
  - destruct Hs as [(? & [= <-] & [?|Ha]) _]; [done|].
    exists (Knows a), (Shot a). split; [constructor|]. split; [done|]. right.
    exists a. split; [done|]. by left.
Qed.

(** Inserting a key: nothing, or the row of [k], or a row elsewhere. *)
Lemma insert_cases key payload w r w' :
  exec (sql_insert_key key payload) w = (r, w') →
  transfers_t (w_db w') = transfers_t (w_db w) ∧
  ((∃ e, r = Err e ∧ w_db w' = w_db w) ∨
   ∃ k', varchar 255 key = Ok k' ∧ idempotency_keys (w_db w) !! k' = None ∧
     (∀ k0, k0 ≠ k' → idempotency_keys (w_db w') !! k0 = idempotency_keys (w_db w) !! k0) ∧
     key_state k' Taken w').
Proof.
  intros [(e & -> & Hdb)|(u & d & Hq & Hdb & _)]%exec_cases; [rewrite Hdb; by eauto|].
  apply sql_insert_key_ok in Hq as (k' & Hk' & Hn & ->). unfold key_state. rewrite Hdb. simpl.
  split; [done|]. right. exists k'. split; [done|]. split; [done|].
  split; [intros k0 Hne; by rewrite lookup_insert_ne|]. rewrite lookup_insert_eq. by eexists.
Qed.

(** A request under [k]. *)
Lemma acquire_decides_key claims req payload :
  varchar 255 k = Ok k →
  decides told Outside (let+ rec := TryAcquire k payload in after_acquire claims req k rec).
Proof.
  intros Hk s w Hs _. destruct (exec (sql_insert_key k payload) w) as [r w1] eqn:Hins.
  apply insert_cases in Hins as [Ht [(e & -> & Hdb)|(k' & Hk' & Hn & _ & Hst)]]; cbn [fst snd].
  { exists Outside, s. split; [constructor|]. split; [|apply fetch_learns].
    apply (key_state_frame s w); [by rewrite Hdb|by rewrite Ht|exact Hs]. }
  rewrite Hk in Hk'. injection Hk' as <-.
  destruct s as [| |a]; [|by destruct Hs as (? & Hrow & _); rewrite Hn in Hrow|
                         by destruct Hs as [(? & Hrow & _) _]; rewrite Hn in Hrow].
  destruct r as [u|e]; [exists Holder, Taken|exists Outside, Taken];
    (split; [constructor|]; split; [exact Hst|]); [by apply process_decides_key|apply fetch_learns].
Qed.

(** A request under another key. *)
Lemma acquire_elsewhere claims req key payload :
  key ≠ k →
  decides (λ _ _, True) Outside (let+ rec := TryAcquire key payload in after_acquire claims req key rec).
Proof.
  intros Hne s w Hs _. destruct (exec (sql_insert_key key payload) w) as [r w1] eqn:Hins.
  assert (Hrest : ∀ r : Res unit, decides (λ _ _, True) Outside
    (let+ rec := match r with Ok _ => Ret (Ok None) | Err _ => fetch_existing key end in
     after_acquire claims req key rec)).
  { intros r0. apply decides_aside; [|done]. apply calls_bind.
    - destruct r0 as [u|e]; [done|].
      apply calls_bind; [|intros [row|e']; [|done]; cbv beta zeta iota; by case_bool_decide].
      apply calls_call, aside_frame. intros v.
      destruct (exec (sql_select_key key) v) as [r1 v1] eqn:Hsel. simpl.
      by rewrite (exec_select_db _ _ _ _ Hsel).
    - intros [[rec|]|e]; [done|by apply process_aside|]. cbn. by case_bool_decide. }
  apply insert_cases in Hins as [Ht [(e & -> & Hdb)|(k' & Hk' & Hn & Hother & Hst)]]; cbn [fst snd].
  { exists Outside, s. split; [constructor|]. split; [|apply (Hrest (Err e))].
    apply (key_state_frame s w); [by rewrite Hdb|by rewrite Ht|exact Hs]. }
  destruct (decide (k' = k)) as [->|Hk].
  - destruct s as [| |a]; [|by destruct Hs as (? & Hrow & _); rewrite Hn in Hrow|
                           by destruct Hs as [(? & Hrow & _) _]; rewrite Hn in Hrow].
    exists Outside, Taken. split; [constructor|]. split; [exact Hst|apply (Hrest r)].
  - exists Outside, s. split; [constructor|]. split; [|apply (Hrest r)].
    apply (key_state_frame s w); [by apply Hother|by rewrite Ht|exact Hs].
Qed.

Lemma handle_decides_key r :
  varchar 255 k = Ok k →
  decides (λ t resp, Header r "Idempotency-Key" = k → told t resp) Outside (HandleTransfer r).
Proof.
  intros Hk. unfold HandleTransfer.
  destruct (GetClaims r) as [claims|]; [|intros _; left; set_solver].
  case_bool_decide; [intros _; left; set_solver|].
  destruct (decode_body _ r) as [req|]; [|intros _; left; set_solver].
  destruct (decide (Header r "Idempotency-Key" = k)) as [->|Hne].
  - eapply decides_mono; [|by apply acquire_decides_key]. done.
  - eapply decides_mono; [|by apply acquire_elsewhere]. done.
Qed.
End Racing.

(** Each request of a pool is about the key that its header carries. *)
Lemma pool_decides `{UuidLaws} {L : LedgerRepository} {X : OutboxRepository}
    `{!LedgerContract L} `{!OutboxContract X} `{JsonText} k (rs : list Request) n p :
  varchar 255 k = Ok k → (HandleTransfer <$> rs) !! n = Some p →
  decides (key_state k)
    (λ t resp, ∀ r, rs !! n = Some r → Header r "Idempotency-Key" = k → told t resp) Outside p.
Proof.
  intros Hk Hp. apply list_lookup_fmap_Some in Hp as (r & -> & Hr).
  eapply decides_mono; [|by apply (handle_decides_key k r)].
  intros t resp Ht r' Hr'. rewrite Hr in Hr'. injection Hr' as <-. exact Ht.
Qed.

(** ** Properties *)

(** A key that was left in progress, because [Complete] failed or the process was stopped, is
    lost: whatever is sent under it from then on, by whomever and with whatever luck, is never
    decided, and the key stays in progress. *)
Theorem abandoned_key_is_lost `{UuidLaws} {L : LedgerRepository} {X : OutboxRepository}
  `{!LedgerContract L} `{!OutboxContract X} `{JsonText} k rs w ps' w' row :
  varchar 255 k = Ok k → idempotency_keys (w_db w) !! k = Some row →
  idempotency.Row_Status row = idempotency.StatusInProgress →
  interleaving (HandleTransfer <$> rs, w) (ps', w') →
  (∃ row', idempotency_keys (w_db w') !! k = Some row' ∧
     idempotency.Row_Status row' = idempotency.StatusInProgress) ∧
  ∀ i r a, rs !! i = Some r → Header r "Idempotency-Key" = k → ps' !! i = Some (Ret a) →
    a ∈ undecided.
Proof.
  intros Hk Hrow Hst Hrun.
  destruct (interleaving_orphaned (key_state k)
    (λ i t resp, ∀ r, rs !! i = Some r → Header r "Idempotency-Key" = k → told t resp)
    (HandleTransfer <$> rs) w ps' w') as [Hw Hps]; [|by exists row|done|].
  { intros n p. by apply pool_decides. }
  split; [exact Hw|]. intros i r a Hr Hrk Ha.
  by destruct (Hps _ _ Ha r Hr Hrk) as [?|(? & ? & _)].
Qed.

(** C10. Whoever is answered under a new key is told the same: however many requests race for
    it, whatever they ask for and whatever fails, any two answers that are not a refusal to
    decide (no claims, no body, key in progress, internal error) have the same status, and if
    that is 201, the same body, which is a transfer on record in the table under that key. *)
Theorem answers_agree `{UuidLaws} {L : LedgerRepository} {X : OutboxRepository}
  `{!LedgerContract L} `{!OutboxContract X} `{JsonText} k rs w ps' w' i j ri rj a b :
  varchar 255 k = Ok k → idempotency_keys (w_db w) !! k = None →
  interleaving (HandleTransfer <$> rs, w) (ps', w') →
  rs !! i = Some ri → Header ri "Idempotency-Key" = k → ps' !! i = Some (Ret a) →
  rs !! j = Some rj → Header rj "Idempotency-Key" = k → ps' !! j = Some (Ret b) →
  a ∉ undecided → b ∉ undecided →
  resp_status a = resp_status b ∧
  (resp_status a = StatusCreated → a = b ∧ ∃ t, a = created t ∧ on_record k t (w_db w')).
Proof.
  intros Hk Hnew Hrun Hri Hki Ha Hrj Hkj Hb Hna Hnb.
  destruct (interleaving_decides (key_state k)
    (λ i t resp, ∀ r, rs !! i = Some r → Header r "Idempotency-Key" = k → told t resp)
    (HandleTransfer <$> rs) w ps' w' Fresh) as (s & ts & Hag); [|done..|].
  { intros n p. by apply pool_decides. }
  destruct (agreed_decides _ _ _ _ _ _ Hag i _ Ha ri Hri Hki) as [?|(a0 & Hta & Hat)]; [done|].
  destruct (agreed_decides _ _ _ _ _ _ Hag j _ Hb rj Hrj Hkj) as [?|(b0 & Htb & Hbt)]; [done|].
  pose proof (agreed_sees _ _ _ _ _ _ Hag i) as Hi. pose proof (agreed_sees _ _ _ _ _ _ Hag j) as Hj.
  pose proof (agreed_inv _ _ _ _ _ _ Hag) as Hs. rewrite Hta in Hi. rewrite Htb in Hj. simpl in Hi, Hj.
  subst s. injection Hj as <-. destruct Hs as [_ Hcreated].
  destruct Hat as [->|[Hsa Hca]], Hbt as [->|[Hsb Hcb]]; (split; [congruence|]); try congruence.
  intros Hst. split; [done|]. by apply Hcreated.
Qed.

(** ** Concrete inputs *)

(** The owner sends a request twice: the second finds the key taken, and is told the outcome
    once the first is done. *)
#[local] Notation retried :=
  (schedule [0; 1; 0; 0; 0; 0; 0; 1; 1]%nat
    (sample_handler <$> [transfer_request "b1" "k2"; transfer_request "b1" "k2"],
     sample_world sample_bank)).

Lemma retried_answers :
  ∃ a b, retried.1 !! 0%nat = Some (Ret a) ∧ retried.1 !! 1%nat = Some (Ret b) ∧
    resp_status a = StatusCreated ∧ resp_status b = StatusCreated.
Proof.
  eexists _, _. split; [vm_compute; reflexivity|]. split; [vm_compute; reflexivity|done].
Qed.

Lemma created_is_decided a : resp_status a = StatusCreated → a ∉ undecided.
Proof.
  intros Hst Hin. unfold undecided in Hin.
  repeat (apply elem_of_cons in Hin as [->|Hin]; [discriminate Hst|]). by apply elem_of_nil in Hin.
Qed.

Lemma answers_agree_witness :
  ∃ t, retried.1 = [Ret (created t); Ret (created t)] ∧ on_record "k2" t (w_db retried.2).
Proof.
  destruct retried_answers as (a & b & Ha & Hb & Hst & Hst').
  pose proof (schedule_interleaving [0; 1; 0; 0; 0; 0; 0; 1; 1]%nat
    (sample_handler <$> [transfer_request "b1" "k2"; transfer_request "b1" "k2"],
     sample_world sample_bank)) as Hrun.
  rewrite (surjective_pairing (schedule _ _)) in Hrun.
  destruct (answers_agree (H1 := transfer_text) "k2"
    [transfer_request "b1" "k2"; transfer_request "b1" "k2"] (sample_world sample_bank)
    retried.1 retried.2 0 1 (transfer_request "b1" "k2") (transfer_request "b1" "k2") a b
    eq_refl eq_refl Hrun eq_refl eq_refl Ha eq_refl eq_refl Hb
    (created_is_decided _ Hst) (created_is_decided _ Hst')) as [_ Hc].
  destruct (Hc Hst) as (<- & t & -> & Hrec). exists t. split; [|exact Hrec].
  apply (list_eq_same_length _ _ 2); [reflexivity|by rewrite schedule_length|].
  intros [|[|i]] x y Hi; [rewrite Ha|rewrite Hb|lia]; intros [= <-] [= <-]; reflexivity.
Defined.

(** In the sample bank a key was left in progress: the next request under it is refused. *)
Lemma abandoned_key_is_lost_witness :
  ∀ ps' w', interleaving ([sample_handler (transfer_request "b1" "k1")], sample_world sample_bank)
              (ps', w') →
    (∃ row', idempotency_keys (w_db w') !! "k1" = Some row' ∧
       idempotency.Row_Status row' = idempotency.StatusInProgress).
Proof.
  intros ps' w' Hrun. refine (proj1 (abandoned_key_is_lost (H1 := transfer_text) "k1"
    [transfer_request "b1" "k1"] (sample_world sample_bank) ps' w' _ eq_refl eq_refl eq_refl Hrun)).
Defined.
