(* ===== verification/TransferRoute.v ===== *)
(** * What a transfer request is answered (internal/transfers/handler.go)

    [TransferHandler] shows what requests may do, however they interleave.  Here is what one
    request does when nothing outside fails: an executable [ruling] on the caller, the request,
    its idempotency key and the database, and that the handler answers and acts as it says. *)

From S2P Require Import Prelude Go Models Postgres Runtime Sample Http Middleware.
From S2P Require Import Ledger Outbox Idempotency Wallets Transfers TransferHandler.
Import transfers.
#[local] Open Scope go_scope.
#[local] Open Scope prog_scope.
#[local] Open Scope Z_scope.

(** ** The specification *)

(** Why a request is not processed, or what comes of processing it. *)
Inductive Ruling : Type :=
| Rejected (answer : Response)
| InProgress
| Replayed (answer : Response)
| NotOwner
| Refused (why : refusal)
| Moved (req : CreateTransferRequest) (bank : Bank).

(** The caller owns the wallet, or is the system. *)
Definition spendable (claims : auth.JWTClaims) (source : string) (d : DB) : bool :=
  match wallets_t d !! source with
  | Some row => bool_decide (wallets.Wallet_OwnerID row = auth.Claims_UserID claims) ||
                bool_decide (auth.Claims_Role claims = auth.RoleSystem)
  | None => false
  end.

Definition ruling (claims : auth.JWTClaims) (req : CreateTransferRequest) (key : string) (d : DB)
  : Ruling :=
  match idempotency_keys d !! key with
  | Some row =>
    if bool_decide (idempotency.Row_Status row = idempotency.StatusInProgress) then InProgress
    else Replayed (replay (scan_record row))
  | None =>
    if negb (spendable claims (Req_SourceWalletID req) d) then NotOwner
    else match bank_transfer (bank_of d) (Req_SourceWalletID req) (Req_DestinationWalletID req)
                 (Req_Amount req) (Req_Currency req) with
         | inl why => Refused why
         | inr bank => Moved req bank
         end
  end.

(** The ruling on a request as it arrives. *)
Definition request_ruling `{JsonText} (r : Request) (d : DB) : Ruling :=
  let key := Header r "Idempotency-Key" in
  match ctx_claims r with
  | None => Rejected (http_Error "unauthorized" StatusUnauthorized)
  | Some claims =>
    if bool_decide (key = "") then
      Rejected (http_Error "Idempotency-Key header is required" StatusBadRequest)
    else match decode_body decode_CreateTransferRequest r with
         | None => Rejected (http_Error "invalid request body" StatusBadRequest)
         | Some req => ruling claims req key d
         end
  end.

(** The row of the key says how the request was answered. *)
Definition completed (row : idempotency.KeyRow) (code : Z) (payload : json) : Prop :=
  idempotency.Row_Status row = idempotency.StatusCompleted ∧
  idempotency.Row_ResponsePayload row = Some payload ∧
  idempotency.Row_ResponseStatus row = Some code.

(** Nothing is written but the row of the key. *)
Definition key_stored (key : string) (code : Z) (payload : json) (d d' : DB) : Prop :=
  ∃ row, completed row code payload ∧
    d' = set_idempotency_keys (<[key := row]> (idempotency_keys d)) d.

Definition error_payload (msg : string) : json := JObj [("error", JStr msg)].

(** The answer and the database that a ruling asks for. *)
Definition conforms `{Env} (rule : Ruling) (key : string) (resp : Response) (d d' : DB) : Prop :=
  match rule with
  | Rejected answer => resp = answer ∧ d' = d
  | InProgress => resp = http_Error "request is currently in progress" StatusConflict ∧ d' = d
  | Replayed answer => resp = answer ∧ d' = d
  | NotOwner =>
    resp = http_Error "forbidden" StatusForbidden ∧
    key_stored key StatusForbidden (error_payload "unauthorized access to source wallet") d d'
  | Refused why => ∃ e, reports why e ∧ resp = http_Error (Error e) StatusBadRequest ∧
    key_stored key StatusBadRequest (error_payload (Error e)) d d'
  | Moved req bank => ∃ t d1 d2 row,
    returned req key t ∧ resp = mkResponse StatusCreated (JsonBody (Transfer_json t)) ∧
    bank_of d' = bank ∧ keys_only d d1 ∧
    booked req key (Req_SourceWalletID req) (Req_DestinationWalletID req) t d1 d2 ∧
    completed row StatusCreated (Transfer_json t) ∧
    d' = set_idempotency_keys (<[key := row]> (idempotency_keys d)) d2
  end.

(** ** The steps of the handler *)

Section Steps.
Context `{UuidLaws}.

Lemma supplied_keys t n d : uuid_supply n d → uuid_supply n (set_idempotency_keys t d).
Proof. intros [Hi Hu]. split; [exact Hi|]. intros i Hn. exact (Hu i Hn). Qed.

Lemma acquire_decides key payload w :
  no_faults (w_tick w) → varchar 255 key = Ok key →
  let '(r, w') := run (TryAcquire key payload) w in
  match idempotency_keys (w_db w) !! key with
  | Some row =>
    r = (if bool_decide (idempotency.Row_Status row = idempotency.StatusInProgress)
         then Err ErrKeyInProgress else Ok (Some (scan_record row))) ∧ w_db w' = w_db w
  | None => r = Ok None ∧ w_tick w' = S (w_tick w) ∧
    ∃ row, w_db w' = set_idempotency_keys (<[key := row]> (idempotency_keys (w_db w))) (w_db w)
  end.
Proof.
  intros Hf Hkey. simpl. rewrite exec_fine by (by apply no_faults_now).
  destruct (idempotency_keys (w_db w) !! key) as [row|] eqn:Hrow.
  - rewrite (sql_insert_key_taken _ _ _ _ _ Hkey Hrow). simpl.
    rewrite exec_fine by (apply Hf; simpl; lia). unfold sql_select_key. simpl. rewrite Hrow. simpl.
    by case_bool_decide.
  - rewrite (sql_insert_key_fresh _ _ _ _ Hkey Hrow). simpl. eauto.
Qed.

Lemma complete_fine key payload code w row :
  env_outcome (w_tick w) = Fine → idempotency_keys (w_db w) !! key = Some row →
  - 2 ^ 31 <= code < 2 ^ 31 →
  ∃ row' w', Complete key payload code w = (Ok tt, w') ∧ completed row' code payload ∧
    w_db w' = set_idempotency_keys (<[key := row']> (idempotency_keys (w_db w))) (w_db w).
Proof.
  intros Hf Hrow Hcode. cbn [Complete Idempotency.postgresRepository]. rewrite exec_fine by done.
  unfold sql_complete_key. rewrite Hrow.
  change (varchar 50 idempotency.StatusCompleted) with (Ok idempotency.StatusCompleted).
  cbn [res_bind]. unfold int4. rewrite decide_True by done. cbn [res_bind].
  eexists _, _. split; [reflexivity|]. split; cycle 1; [reflexivity|by repeat split].
Qed.

(** Completing the key and answering. *)
Lemma complete_answer_fine key payload code (answer : Response) w row :
  env_outcome (w_tick w) = Fine → idempotency_keys (w_db w) !! key = Some row →
  - 2 ^ 31 <= code < 2 ^ 31 →
  let '(resp, w') := run (let+ _ := call (Complete key payload code) in Ret answer) w in
  resp = answer ∧ key_stored key code payload (w_db w) (w_db w').
Proof.
  intros Hf Hrow Hcode. rewrite run_bind, run_call.
  destruct (complete_fine key payload code w row Hf Hrow Hcode) as (row' & w' & -> & Hc & Hdb).
  simpl. split; [done|]. by exists row'.
Qed.

Lemma may_spend_spendable claims source w :
  env_outcome (w_tick w) = Fine → canonical source →
  may_spend (GetWalletByID source w).1 claims = spendable claims source (w_db w) ∧
  w_tick (GetWalletByID source w).2 = S (w_tick w).
Proof.
  intros Hf Hc. cbn [GetWalletByID Wallets.postgresRepository]. unfold map_err.
  rewrite exec_fine by done. unfold sql_select_wallet. rewrite (uuid_param_some _ _ Hc).
  cbn [res_bind]. unfold spendable. destruct (wallets_t (w_db w) !! source) as [row|]; [|done].
  cbn. split; [|done]. repeat case_bool_decide; done.
Qed.
End Steps.

Section Deciding.
Context `{UuidLaws} {L : LedgerRepository} {X : OutboxRepository}
  `{LC : !LedgerContract L} `{OC : !OutboxContract X} `{JsonText}.

(** The transfer itself, with its answer. *)
Lemma execute_and_answer_decides req key row w :
  let source := Req_SourceWalletID req in let dest := Req_DestinationWalletID req in
  canonical source → canonical dest → no_faults 0 → supplied w → short_uuids w →
  wallets_ok (w_db w) → Req_Amount req <= int64_max → varchar 255 key = Ok key →
  idempotency_keys (w_db w) !! key = Some row →
  let '(resp, w') := run (execute_and_answer req key) w in
  match bank_transfer (bank_of (w_db w)) source dest (Req_Amount req) (Req_Currency req) with
  | inl why => ∃ e, reports why e ∧ resp = http_Error (Error e) StatusBadRequest ∧
      key_stored key StatusBadRequest (error_payload (Error e)) (w_db w) (w_db w')
  | inr bank => ∃ t d2 row',
      returned req key t ∧ resp = mkResponse StatusCreated (JsonBody (Transfer_json t)) ∧
      bank_of (w_db w') = bank ∧ booked req key source dest t (w_db w) d2 ∧
      completed row' StatusCreated (Transfer_json t) ∧
      w_db w' = set_idempotency_keys (<[key := row']> (idempotency_keys (w_db w))) d2
  end.
Proof.
  intros source dest Hcs Hcd Hf Hs Hsh Hok Hmax Hkey Hrow. unfold execute_and_answer.
  rewrite run_bind, execute_transfer_run.
  pose proof (transfer_body_fine req key key w Hcs Hcd (no_faults_le 0 _ ltac:(lia) Hf) Hs Hsh Hok
    Hmax Hkey ltac:(by eexists)) as Hfine. cbn zeta in Hfine. fold source dest in Hfine.
  destruct (run (transfer_body req key) w) as [r w1] eqn:Hrun. cbn [fst snd] in Hfine.
  change (RecordTransfer (is_ok r) w1).2 with
    (set_transfers_total (w_transfers_total (RecordTransfer (is_ok r) w1).2) w1).
  set (w2 := set_transfers_total _ w1).
  apply transfer_body_cases in Hrun as [(e & -> & Hdb)|(s & d & t & Hs' & Hd' & Hb & Hret & Hr)].
  - destruct (bank_transfer _ _ _ _ _) as [why|bank]; [|by destruct Hfine as [? _]].
    destruct Hfine as (e' & [= <-] & Hwhy).
    pose proof (complete_answer_fine key (error_payload (Error e)) StatusBadRequest
      (http_Error (Error e) StatusBadRequest) w2 row (Hf _ ltac:(lia)) ltac:(by rewrite <- Hrow, <- Hdb)
      ltac:(done)) as Hc.
    fold (error_payload (Error e)). destruct (run _ w2) as [resp w'].
    destruct Hc as [-> Hst]. change (w_db w2) with (w_db w1) in Hst. rewrite Hdb in Hst. by exists e.
  - rewrite (roles_canonical _ _ _ Hcs) in Hb. simpl in Hb. fold source in Hs'. fold dest in Hd'.
    assert (s = source) as -> by (unfold canonical in Hcs; congruence).
    assert (d = dest) as -> by (unfold canonical in Hcd; congruence).
    pose proof (booked_bank _ _ _ _ _ _ _ Hb) as Hbank. rewrite Hbank in Hfine |- *.
    destruct Hfine as (Hok' & _). destruct Hr as [->|(msg & ->)]; [|done].
    pose proof (booked_frame _ _ _ _ _ _ _ Hb) as (_ & _ & Hkeys & _).
    destruct (complete_fine key (Transfer_json t) StatusCreated w2 row (Hf _ ltac:(lia)))
      as (row' & w' & Hc & Hcomp & Hdb'); [by rewrite <- Hrow, <- Hkeys|done|].
    rewrite run_bind, run_call, Hc. cbn [run]. exists t, (w_db w1), row'.
    change (w_db w2) with (w_db w1) in Hdb'. rewrite Hdb', Hkeys. by split_and!.
Qed.

(** A transfer that has its key. *)
Lemma process_decides claims req key row w :
  let source := Req_SourceWalletID req in let dest := Req_DestinationWalletID req in
  canonical source → canonical dest → no_faults 0 → supplied w →
  (∀ k, (k < 17)%nat → is_ok (varchar 255 (env_uuid (w_tick w + k)))) →
  wallets_ok (w_db w) → Req_Amount req <= int64_max → varchar 255 key = Ok key →
  idempotency_keys (w_db w) !! key = Some row →
  let '(resp, w') := run (process claims req key) w in
  if negb (spendable claims source (w_db w)) then
    resp = http_Error "forbidden" StatusForbidden ∧
    key_stored key StatusForbidden (error_payload "unauthorized access to source wallet")
      (w_db w) (w_db w')
  else
    match bank_transfer (bank_of (w_db w)) source dest (Req_Amount req) (Req_Currency req) with
    | inl why => ∃ e, reports why e ∧ resp = http_Error (Error e) StatusBadRequest ∧
        key_stored key StatusBadRequest (error_payload (Error e)) (w_db w) (w_db w')
    | inr bank => ∃ t d2 row',
        returned req key t ∧ resp = mkResponse StatusCreated (JsonBody (Transfer_json t)) ∧
        bank_of (w_db w') = bank ∧ booked req key source dest t (w_db w) d2 ∧
        completed row' StatusCreated (Transfer_json t) ∧
        w_db w' = set_idempotency_keys (<[key := row']> (idempotency_keys (w_db w))) d2
    end.
Proof.
  intros source dest Hcs Hcd Hf Hs Hsh Hok Hmax Hkey Hrow. unfold process. rewrite run_bind, run_call.
  destruct (may_spend_spendable claims source w (Hf _ ltac:(lia)) Hcs) as [Hmay Ht].
  pose proof (get_wallet_by_id_reads source w) as Hdb. fold source.
  destruct (GetWalletByID source w) as [res w1]. simpl in Hmay, Ht, Hdb. rewrite Hmay.
  assert (Hrow1 : idempotency_keys (w_db w1) !! key = Some row) by by rewrite Hdb.
  destruct (spendable claims source (w_db w)); cbn [negb].
  - pose proof (execute_and_answer_decides req key row w1 Hcs Hcd Hf) as He.
    rewrite Hdb in He. unfold supplied, short_uuids in He. rewrite Hdb, Ht in He.
    apply He; try done; [by apply (uuid_supply_le (w_tick w)); [lia|]|].
    intros k Hk. rewrite Nat.add_succ_comm. apply Hsh. lia.
  - pose proof (complete_answer_fine key (error_payload "unauthorized access to source wallet")
      StatusForbidden (http_Error "forbidden" StatusForbidden) w1 row (Hf _ ltac:(lia)) Hrow1
      ltac:(done)) as Hc.
    fold (error_payload "unauthorized access to source wallet").
    rewrite Hdb in Hc. exact Hc.
Qed.

(** A request whose body was read. *)
Lemma handle_decides claims req key payload w :
  canonical (Req_SourceWalletID req) → canonical (Req_DestinationWalletID req) →
  no_faults 0 → supplied w →
  (∀ k, (k < 18)%nat → is_ok (varchar 255 (env_uuid (w_tick w + k)))) →
  wallets_ok (w_db w) → Req_Amount req <= int64_max → varchar 255 key = Ok key →
  let '(resp, w') := run (let+ rec := TryAcquire key payload in after_acquire claims req key rec) w in
  conforms (ruling claims req key (w_db w)) key resp (w_db w) (w_db w').
Proof.
  intros Hcs Hcd Hf Hs Hsh Hok Hmax Hkey. rewrite run_bind.
  pose proof (acquire_decides key payload w (no_faults_le 0 _ ltac:(lia) Hf) Hkey) as Hacq.
  destruct (run (TryAcquire key payload) w) as [res w1]. unfold ruling.
  destruct (idempotency_keys (w_db w) !! key) as [row|] eqn:Hrow.
  { destruct Hacq as [-> Hdb]. case_bool_decide; simpl; by rewrite Hdb. }
  destruct Hacq as (-> & Ht & row & Hdb). cbn [after_acquire].
  pose proof (process_decides claims req key row w1 Hcs Hcd Hf) as Hp.
  assert (Hw : wallets_t (w_db w1) = wallets_t (w_db w)) by by rewrite Hdb.
  destruct (run (process claims req key) w1) as [resp w'].
  unfold spendable, bank_of in Hp |- *. rewrite Hw in Hp. unfold supplied in Hp. rewrite Ht in Hp.
  assert (Hsh1 : ∀ k, (k < 17)%nat → is_ok (varchar 255 (env_uuid (S (w_tick w) + k)))).
  { intros k Hk. rewrite Nat.add_succ_comm. apply Hsh. lia. }
  specialize (Hp ltac:(rewrite Hdb; apply supplied_keys, (uuid_supply_le (w_tick w)); [lia|done])
    Hsh1
    ltac:(rewrite Hdb; exact Hok) Hmax Hkey ltac:(by rewrite Hdb; simpl; rewrite lookup_insert_eq)).
  assert (Hstored : ∀ code body, key_stored key code body (w_db w1) (w_db w') →
                                 key_stored key code body (w_db w) (w_db w')).
  { intros code body (row' & Hc & Hd). exists row'. split; [done|]. rewrite Hd, Hdb. simpl.
    by rewrite insert_insert_eq. }
  destruct (negb _); [by destruct Hp as [-> Hk]; split; [|apply Hstored]|].
  destruct (bank_transfer _ _ _ _ _) as [why|bank].
  - destruct Hp as (e & Hwhy & -> & Hk). exists e. split; [done|]. split; [done|]. by apply Hstored.
  - destruct Hp as (t & d2 & row' & Hret & -> & Hbank & Hb & Hc & Hd).
    exists t, (w_db w1), d2, row'. split; [done|]. split; [done|]. split; [done|].
    split; [by eexists|]. split; [done|]. split; [done|]. rewrite Hd, Hdb. simpl. by rewrite insert_insert_eq.
Qed.
End Deciding.

(** The answer to a transfer request is decided by the caller, the request, the state of
    its key and the database: when nothing outside fails, the handler answers as
    [request_ruling] says, from the refusal of a request without claims, key or body, over the
    replay of a stored response, a key in progress and a caller who may not spend, to each of
    the bank's reasons and to success; it stores under the key what it answered, moves money
    exactly on success, and writes nothing else. *)
Lemma transfer_decides `{UuidLaws} {L : LedgerRepository} {X : OutboxRepository}
  `{!LedgerContract L} `{!OutboxContract X} `{JsonText} r w :
  let key := Header r "Idempotency-Key" in
  no_faults 0 → supplied w →
  (∀ k, (k < 18)%nat → is_ok (varchar 255 (env_uuid (w_tick w + k)))) → wallets_ok (w_db w) →
  varchar 255 key = Ok key →
  (∀ req, decode_body decode_CreateTransferRequest r = Some req →
     canonical (Req_SourceWalletID req) ∧ canonical (Req_DestinationWalletID req) ∧
     Req_Amount req <= int64_max) →
  let '(resp, w') := run (HandleTransfer r) w in
  conforms (request_ruling r (w_db w)) key resp (w_db w) (w_db w').
Proof.
  intros key Hf Hs Hsh Hok Hkey Hreq. unfold HandleTransfer, request_ruling, GetClaims. fold key.
  destruct (ctx_claims r) as [claims|]; [|done]. case_bool_decide; [done|].
  destruct (decode_body _ r) as [req|]; [|done]. destruct (Hreq req eq_refl) as (Hcs & Hcd & Hmax).
  by apply handle_decides.
Qed.
