(* ===== verification/Payments.v ===== *)
(** * Payments (internal/payments)

    A payment is created with the status the (simulated) provider gives it; webhooks
    move it along its state machine, once per event, and a success credits the wallet
    and is booked in the ledger, all in one transaction. *)

From S2P Require Import Prelude Go Models Postgres Runtime Sample Http Middleware.
From S2P Require Import Ledger Outbox Idempotency Wallets Transfers.
From Stdlib Require Import QArith_base Ascii.
Import payments.
#[local] Open Scope m_scope.
#[local] Open Scope go_scope.
#[local] Open Scope prog_scope.
#[local] Open Scope Z_scope.

(** ** The code: the provider simulator *)

(** The random draws of [math/rand]: [Intn n] is in [[0, n)]. *)
Definition rand_Intn `{Env} (n : Z) : M Z := λ w, (Ok (env_intn (w_tick w) n mod n), bump w).
Definition rand_Float32 `{Env} : M Q := λ w, (Ok (env_float32 (w_tick w)), bump w).

Definition letters : string :=
  "abcdefghijklmnopqrstuvwxyzABCDEFGHIJKLMNOPQRSTUVWXYZ0123456789".

(** The constant [0.10] as a [float32]. *)
Definition ten_percent : Q := 13421773 # 134217728.

Section Provider.
Context `{Env}.

(** The loop of [generateRandomString]; an index out of range would panic. *)
Fixpoint generateRandomString (n : nat) : M string :=
  match n with
  | O => ret EmptyString
  | S n' =>
    i <- rand_Intn (Z.of_nat (String.length letters)) ;;
    rest <- generateRandomString n' ;;
    match String.get (Z.to_nat i) letters with
    | Some c => ret (String c rest)
    | None => fail (ext_error "index out of range")
    end
  end.

(** The result does not depend on the payment; the first draw is the delay. *)
Definition ProcessPayment (amount : Z) (currency : string) : M ProviderResponse :=
  delay <- rand_Intn 200 ;;
  suffix <- generateRandomString 12 ;;
  let refID := "ext_" +:+ suffix in
  x <- rand_Float32 ;;
  if negb (Qle_bool ten_percent x) then ret (mkProviderResponse refID StatusFailed)
  else ret (mkProviderResponse refID StatusProcessing).
End Provider.

(** [hex(hmac_sha256(secret, payload))] *)
Class Hmac := hmac_sha256_hex : string → string → string.

Section Signature.
Context `{Hmac}.

Definition GenerateWebhookSignature (webhookSecret payload : string) : string :=
  hmac_sha256_hex webhookSecret payload.

(** [hmac.Equal] compares in constant time. *)
Definition VerifyWebhookSignature (webhookSecret payload signature : string) : bool :=
  bool_decide (GenerateWebhookSignature webhookSecret payload = signature).
End Signature.

(** ** The code: service *)

Definition ErrInvalidStateTransition : error :=
  errors_New "payments.ErrInvalidStateTransition" "invalid payment state transition".
Definition ErrPaymentNotFound : error :=
  errors_New "payments.ErrPaymentNotFound" "payment not found".
Definition ErrDuplicateWebhook : error :=
  errors_New "payments.ErrDuplicateWebhook" "duplicate webhook event".
Definition err_json : error := errors_New "" "invalid webhook payload".

(** The placeholder for the platform's account. *)
Definition platform_account : string := "00000000-0000-0000-0000-000000000000".

Definition isValidTransition (current next : PaymentStatus) : bool :=
  if bool_decide (current = StatusProcessing) then
    bool_decide (next = StatusSucceeded) || bool_decide (next = StatusFailed)
  else if bool_decide (current = StatusCreated) then
    bool_decide (next = StatusProcessing) || bool_decide (next = StatusFailed)
  else false.

Class PaymentsService := {
  CreatePayment : string → Z → string → prog (Res Payment);
  ProcessWebhook : string → option json → prog (Res unit);
}.

Section Statements.
Context `{Env}.

(** [INSERT INTO payments ... RETURNING id, created_at, updated_at]; the provider
    reference has a unique index. *)
Definition sql_insert_payment (p : Payment) (c : Ctx) (d : DB) : Res (string * Z * Z * DB) :=
  let? wallet := uuid_param (Payment_WalletID p) in
  let? amount := bigint (Payment_Amount p) in
  let? currency := varchar 3 (Payment_Currency p) in
  let? status := varchar 50 (Payment_Status p) in
  let? ref := varchar 255 (Payment_ProviderReference p) in
  let? _ := check_constraint "positive_payment_amount" (0 <? amount) in
  let? t := insert_pk "payments_pkey" (payments_t d) (c_uuid c)
              (mkPayment (c_uuid c) wallet amount currency status ref (c_now c) (c_now c)) in
  let? _ := guard_res (bool_decide (¬ map_Exists
              (λ _ p', Payment_ProviderReference p' = ref) (payments_t d)))
              (unique_violation "idx_payments_provider_ref") in
  let? _ := references "wallets" (wallets_t d) wallet in
  Ok (c_uuid c, c_now c, c_now c, set_payments t d).

(** [INSERT INTO webhook_events (provider, event_id, event_type, payload, status)] with
    [UNIQUE(provider, event_id)]. *)
Definition sql_insert_webhook (provider : string) (event : WebhookPayload) (payload : json)
    (c : Ctx) (d : DB) : Res (unit * DB) :=
  let? provider := varchar 50 provider in
  let? event_id := varchar 255 (Webhook_EventID event) in
  let? event_type := varchar 100 (Webhook_EventType event) in
  let? status := varchar 50 WebhookStatusProcessed in
  let? t := insert_pk "webhook_events_pkey" (webhook_events d) (c_uuid c)
              (mkWebhookEvent (c_uuid c) provider event_id event_type payload status (c_now c)) in
  let? _ := guard_res (bool_decide (¬ map_Exists
              (λ _ e, WebhookEvent_Provider e = provider ∧ WebhookEvent_EventID e = event_id)
              (webhook_events d)))
              (unique_violation "webhook_events_provider_event_id_key") in
  Ok (tt, set_webhook_events t d).

(** The columns scanned of a payment and its wallet's account. *)
Definition scan_payment (id : string) (p : Payment) : Payment :=
  mkPayment id (Payment_WalletID p) (Payment_Amount p) (Payment_Currency p) (Payment_Status p)
    "" 0 0.

(** [SELECT p.id, ..., w.account_id FROM payments p JOIN wallets w ON p.wallet_id = w.id
    WHERE p.provider_reference = $1 FOR UPDATE OF p] *)
Definition sql_lock_payment (ref : string) (c : Ctx) (d : DB) : Res (Payment * string * DB) :=
  let rows := omap (λ kp : string * Payment,
      if decide (Payment_ProviderReference kp.2 = ref) then
        w ← wallets_t d !! Payment_WalletID kp.2;
        Some (scan_payment kp.1 kp.2, wallets.Wallet_AccountID w)
      else None) (map_to_list (payments_t d)) in
  match rows with
  | row :: _ => Ok (row, d)
  | [] => Err pgx_ErrNoRows
  end.

Definition lock_payment (ref : string) : M (Payment * string) :=
  row <- query (sql_lock_payment ref) ;;
  take_lock ("payments", Payment_ID row.1) ;;
  ret row.

(** [UPDATE payments SET status = $1, updated_at = NOW() WHERE id = $2] *)
Definition sql_update_payment (status : PaymentStatus) (id : string) (c : Ctx) (d : DB)
  : Res (unit * DB) :=
  let? id := uuid_param id in
  match payments_t d !! id with
  | None => Ok (tt, d)
  | Some p =>
    let? st := varchar 50 status in
    Ok (tt, set_payments (<[id := set_payment_status st (c_now c) p]> (payments_t d)) d)
  end.
End Statements.

(** [PaymentsTotal.WithLabelValues(status).Inc()] *)
Definition RecordPayment (status : string) : M unit := λ w,
  let n := default 0 (w_payments_total w !! status) in
  (Ok tt, set_payments_total (<[status := n + 1]> (w_payments_total w)) w).

Definition payment_ledger_txn (p : Payment) (accountID : string) : ledger.Transaction :=
  ledger.mkTransaction "" (Payment_ID p) ledger.TxTypePayment ledger.StatusCompleted 0
    [ledger.mkEntry "" "" platform_account (Payment_Amount p) ledger.DirectionDebit
       (Payment_Currency p) 0;
     ledger.mkEntry "" "" accountID (Payment_Amount p) ledger.DirectionCredit
       (Payment_Currency p) 0].

Definition payment_event (p : Payment) (status : PaymentStatus) : json := JObj [
  ("amount", JNum (Payment_Amount p)); ("currency", JStr (Payment_Currency p));
  ("payment_id", JStr (Payment_ID p)); ("status", JStr status)].

Section Service.
Context `{Env} {L : LedgerRepository} {X : OutboxRepository}.

(** "If successful, credit the wallet and write ledger" *)
Definition credit_wallet (p : Payment) (accountID : string) : M unit :=
  update_balance Z.add (Payment_Amount p) (Payment_WalletID p) ;;
  wrap_err "ledger error: " (CreateTransaction (payment_ledger_txn p accountID)) ;;
  ret tt.

(** The statements between [Begin] and [Commit]. *)
Definition webhook_statements (provider : string) (event : WebhookPayload) (payload : json)
  : M unit :=
  map_err (λ err, if bool_decide (errors_As_SQLState err = Some "23505")
                  then ErrDuplicateWebhook else err)
    (query (sql_insert_webhook provider event payload)) ;;
  row <- map_err (λ err, if errors_Is err pgx_ErrNoRows then ErrPaymentNotFound else err)
           (lock_payment (Webhook_ReferenceID event)) ;;
  let '(p, accountID) := row in
  guard (isValidTransition (Payment_Status p) (Webhook_Status event))
    (fmt_Errorf "" ErrInvalidStateTransition
       (": cannot transition from " +:+ Payment_Status p +:+ " to " +:+ Webhook_Status event)) ;;
  query (sql_update_payment (Webhook_Status event) (Payment_ID p)) ;;
  RecordPayment (Webhook_Status event) ;;
  (if bool_decide (Webhook_Status event = StatusSucceeded) then credit_wallet p accountID
   else ret tt) ;;
  wrap_err "failed to insert outbox event: "
    (InsertEvent "payment.events" (payment_event p (Webhook_Status event))) ;;
  ret tt.

#[export] Instance serviceImpl : PaymentsService := {|
  CreatePayment walletID amount currency :=
    let* resp := call (ProcessPayment amount currency) in
    let payment := mkPayment "" walletID amount currency (Provider_Status resp)
                     (Provider_ReferenceID resp) 0 0 in
    let* r := call (exec (sql_insert_payment payment)) in
    let '(id, created_at, updated_at) := r in
    let* _ := call (RecordPayment (Provider_Status resp)) in
    Ret (Ok (mkPayment id walletID amount currency (Provider_Status resp)
               (Provider_ReferenceID resp) created_at updated_at));
  ProcessWebhook provider payload :=
    match payload with
    | None => Ret (Err err_json)
    | Some payload =>
      match decode_WebhookPayload payload with
      | None => Ret (Err err_json)
      | Some event => call (with_tx (webhook_statements provider event payload))
      end
    end;
|}.
End Service.

(** ** The code: handlers *)

Section Handlers.
Context {S : PaymentsService} `{JsonText} `{Hmac}.

Definition HandleCreatePayment : Handler := λ r,
  match GetClaims r with
  | None => Ret (http_Error "unauthorized" StatusUnauthorized)
  | Some _ =>
    match decode_body decode_CreatePaymentRequest r with
    | None => Ret (http_Error "invalid request body" StatusBadRequest)
    | Some req =>
      let+ res := CreatePayment (CreatePayment_WalletID req) (CreatePayment_Amount req)
                    (CreatePayment_Currency req) in
      match res with
      | Err _ => Ret (http_Error "internal server error" StatusInternalServerError)
      | Ok payment => Ret (mkResponse Go.StatusCreated (JsonBody (Payment_json payment)))
      end
    end
  end.

(** How the handler answers the result of [ProcessWebhook]. *)
Definition webhook_response (res : Res unit) : Response :=
  match res with
  | Ok _ => mkResponse StatusOK NoBody
  | Err err =>
    if errors_Is err ErrDuplicateWebhook then mkResponse StatusOK NoBody
    else if errors_Is err ErrInvalidStateTransition || errors_Is err ErrPaymentNotFound then
      http_Error (Error err) StatusBadRequest
    else http_Error "internal server error" StatusInternalServerError
  end.

Definition HandleWebhook (webhookSecret : string) : Handler := λ r,
  let signature := Header r "X-Webhook-Signature" in
  if bool_decide (signature = "") then Ret (http_Error "missing signature" StatusUnauthorized)
  else if negb (Body_complete r) then Ret (http_Error "failed to read body" StatusBadRequest)
  else if negb (VerifyWebhookSignature webhookSecret (Body r) signature) then
    Ret (http_Error "invalid signature" StatusUnauthorized)
  else
    let+ res := ProcessWebhook "simulator" (json_whole (Body r)) in
    Ret (webhook_response res).

(** The payload [HandleDemoFund] marshals. *)
Definition demo_payload (payment : Payment) : json := JObj [
  ("event_id", JStr ("demo-event-" +:+ Payment_ID payment));
  ("event_type", JStr "payment.succeeded");
  ("reference_id", JStr (Payment_ProviderReference payment));
  ("status", JStr StatusSucceeded)].

Definition HandleDemoFund : Handler := λ r,
  match decode_body decode_CreatePaymentRequest r with
  | None => Ret (http_Error "invalid request body" StatusBadRequest)
  | Some req =>
    let+ res := CreatePayment (CreatePayment_WalletID req) (CreatePayment_Amount req)
                  (CreatePayment_Currency req) in
    match res with
    | Err _ => Ret (http_Error "internal server error" StatusInternalServerError)
    | Ok payment =>
      let+ res := ProcessWebhook "simulator" (Some (demo_payload payment)) in
      match res with
      | Err err => Ret (http_Error (Error err) StatusInternalServerError)
      | Ok _ => Ret (mkResponse StatusOK (JsonBody (JObj [("status", JStr "success")])))
      end
    end
  end.
End Handlers.

(** The routes: [RegisterRoutes] under [/payments], and the public webhook. *)
Inductive payments_route : Set :=
| POST_payments | POST_demo_fund | POST_webhook.

Definition payments_RegisterRoutes {S : PaymentsService} `{JsonText} `{Hmac}
    (webhookSecret : string) (route : payments_route) : Handler :=
  match route with
  | POST_payments => HandleCreatePayment
  | POST_demo_fund => HandleDemoFund
  | POST_webhook => HandleWebhook webhookSecret
  end.

(** ** What a webhook does *)

Section Effect.
Context `{Env}.

(** What the columns, the keys and the CHECK of [payments] guarantee of every row. *)
Definition payments_ok (d : DB) : Prop :=
  ∀ id p, payments_t d !! id = Some p →
    canonical id ∧ canonical (Payment_WalletID p) ∧ is_Some (wallets_t d !! Payment_WalletID p) ∧
    0 < Payment_Amount p ∧ in_int64 (Payment_Amount p).

(** The event is stored, under its provider and id, which were new. *)
Definition stored_event (provider : string) (event : WebhookPayload) (payload : json) (d d' : DB)
  : Prop :=
  ∃ row, webhook_events d !! WebhookEvent_ID row = None ∧
    varchar 50 provider = Ok (WebhookEvent_Provider row) ∧
    varchar 255 (Webhook_EventID event) = Ok (WebhookEvent_EventID row) ∧
    WebhookEvent_Payload row = payload ∧ WebhookEvent_Status row = WebhookStatusProcessed ∧
    (∀ id e, webhook_events d !! id = Some e →
       ¬ (WebhookEvent_Provider e = WebhookEvent_Provider row ∧
          WebhookEvent_EventID e = WebhookEvent_EventID row)) ∧
    d' = set_webhook_events (<[WebhookEvent_ID row := row]> (webhook_events d)) d.

(** The wallet of a payment is credited, and a ledger transaction debits the platform's
    account and credits the account of the wallet. *)
Definition credited (id : string) (p : Payment) (w : wallets.Wallet) (d d' : DB) : Prop :=
  ∃ d1, in_int64 (wallets.Wallet_AvailableBalance w + Payment_Amount p) ∧
    0 <= wallets.Wallet_AvailableBalance w + Payment_Amount p ∧
    d1 = set_wallets
      (<[Payment_WalletID p :=
           wallets.set_available (wallets.Wallet_AvailableBalance w + Payment_Amount p) w]>
         (wallets_t d)) d ∧
    posted (double_entry id ledger.TxTypePayment platform_account (wallets.Wallet_AccountID w)
              (Payment_Currency p) (Payment_Amount p)) d1 d'.

Definition webhook_effect (provider : string) (event : WebhookPayload) (payload : json)
    (d d' : DB) : Prop :=
  ∃ id p w now enq_now d1 d2 d3,
    payments_t d !! id = Some p ∧ Payment_ProviderReference p = Webhook_ReferenceID event ∧
    wallets_t d !! Payment_WalletID p = Some w ∧
    isValidTransition (Payment_Status p) (Webhook_Status event) = true ∧
    stored_event provider event payload d d1 ∧
    d2 = set_payments (<[id := set_payment_status (Webhook_Status event) now p]> (payments_t d)) d1 ∧
    (if decide (Webhook_Status event = StatusSucceeded) then credited id p w d2 d3 else d3 = d2) ∧
    enqueued "payment.events"
      (JObj [("amount", JNum (Payment_Amount p)); ("currency", JStr (Payment_Currency p));
             ("payment_id", JStr id); ("status", JStr (Webhook_Status event))]) enq_now d3 d'.
End Effect.

(** ** The statements of a webhook, backwards *)

Section Backwards.
Context `{UuidLaws}.

Lemma sql_insert_webhook_ok provider event payload c d u d' :
  sql_insert_webhook provider event payload c d = Ok (u, d') →
  stored_event provider event payload d d'.
Proof.
  intros Hq. unfold sql_insert_webhook in Hq. m_inv.
  match goal with H : bool_decide (¬ map_Exists _ _) = true |- _ =>
    apply bool_decide_eq_true in H; rename H into Hne end.
  eexists (mkWebhookEvent _ _ _ _ _ _ _). simpl.
  repeat (split; [eassumption || reflexivity|]). split; [|reflexivity].
  intros id e He Heq. apply Hne. exists id, e. done.
Qed.

Lemma sql_lock_payment_ok ref c d p account d' :
  sql_lock_payment ref c d = Ok (p, account, d') →
  d' = d ∧ ∃ row w, payments_t d !! Payment_ID p = Some row ∧ p = scan_payment (Payment_ID p) row ∧
    Payment_ProviderReference row = ref ∧ wallets_t d !! Payment_WalletID row = Some w ∧
    account = wallets.Wallet_AccountID w.
Proof.
  unfold sql_lock_payment. destruct (omap _ _) as [|row rows] eqn:Hrows; [done|].
  intros [= -> <-]. split; [done|].
  assert (Hin : (p, account) ∈ (p, account) :: rows) by left. rewrite <- Hrows in Hin.
  apply list_elem_of_omap in Hin as ([id row] & Hin%elem_of_map_to_list & Hrow). simpl in Hrow.
  case_decide; [|done]. destruct (wallets_t d !! Payment_WalletID row) as [w|] eqn:Hw; [|done].
  simpl in Hrow. injection Hrow as <- <-. eexists row, w. simpl. auto.
Qed.

Lemma lock_payment_ok ref w p account w' :
  lock_payment ref w = (Ok (p, account), w') →
  quiet w w' ∧ w_db w' = w_db w ∧
  ∃ row wlt, payments_t (w_db w) !! Payment_ID p = Some row ∧
    p = scan_payment (Payment_ID p) row ∧ Payment_ProviderReference row = ref ∧
    wallets_t (w_db w) !! Payment_WalletID row = Some wlt ∧
    account = wallets.Wallet_AccountID wlt.
Proof.
  unfold lock_payment. intros (y & w1 & Hq & Hrest)%bind_ok.
  unfold bind in Hrest. rewrite take_lock_run in Hrest. injection Hrest as -> <-.
  apply query_ok in Hq as (d & [-> Hq]%sql_lock_payment_ok & ->).
  split; [unfold quiet; simpl; repeat split; lia|]. simpl. by destruct (w_db w).
Qed.

Lemma sql_update_payment_ok st id c d p u d' :
  canonical id → payments_t d !! id = Some p → varchar 50 st = Ok st →
  sql_update_payment st id c d = Ok (u, d') →
  d' = set_payments (<[id := set_payment_status st (c_now c) p]> (payments_t d)) d.
Proof.
  intros Hc Hp Hst Hq. unfold sql_update_payment in Hq.
  rewrite (uuid_param_some _ _ Hc) in Hq. cbn [res_bind] in Hq. rewrite Hp, Hst in Hq.
  simpl in Hq. by simplify_eq.
Qed.

(** A status the state machine allows fits its column. *)
Lemma valid_transition_status current next :
  isValidTransition current next = true →
  next = StatusProcessing ∨ next = StatusSucceeded ∨ next = StatusFailed.
Proof. unfold isValidTransition. repeat case_bool_decide; simpl; auto; done. Qed.

Lemma valid_transition_fits current next :
  isValidTransition current next = true → varchar 50 next = Ok next.
Proof. by intros [-> | [-> | ->]]%valid_transition_status. Qed.
End Backwards.

Section Statements_ok.
Context `{UuidLaws} {L : LedgerRepository} {X : OutboxRepository}
  `{LC : !LedgerContract L} `{OC : !OutboxContract X}.

Lemma stored_event_frame provider event payload d d' :
  stored_event provider event payload d d' →
  ∃ t, d' = set_webhook_events t d.
Proof. intros (row & _ & _ & _ & _ & _ & _ & ->). by eexists. Qed.

Lemma credit_wallet_ok id p wlt w u w' :
  canonical (Payment_WalletID p) → wallets_t (w_db w) !! Payment_WalletID p = Some wlt →
  credit_wallet (scan_payment id p) (wallets.Wallet_AccountID wlt) w = (Ok u, w') →
  credited id p wlt (w_db w) (w_db w').
Proof.
  intros Hc Hwlt Hrun. unfold credit_wallet in Hrun. m_inv.
  match goal with
  | H1 : update_balance _ _ _ _ = _, H2 : CreateTransaction _ _ = _ |- _ =>
    apply (update_balance_ok _ _ _ wlt) in H1 as (_ & Hin & Hpos & ->); [|done..];
    apply ledger_ok in H2 as (_ & Hpost & _)
  end.
  eexists. split; [exact Hin|]. split; [exact Hpos|]. split; [reflexivity|exact Hpost].
Qed.

Lemma webhook_statements_ok provider event payload w u w' :
  payments_ok (w_db w) → webhook_statements provider event payload w = (Ok u, w') →
  webhook_effect provider event payload (w_db w) (w_db w').
Proof.
  intros Hok Hrun. unfold webhook_statements in Hrun.
  apply bind_ok in Hrun as (u1 & w1 & Hins%map_err_ok & Hrun).
  apply query_ok in Hins as (d1 & Hst%sql_insert_webhook_ok & ->).
  apply bind_ok in Hrun as ([p account] & w2 & Hlock%map_err_ok & Hrun).
  apply lock_payment_ok in Hlock as (_ & Hdb & row & wlt & Hrow & Hp & Href & Hwlt & ->).
  destruct (stored_event_frame _ _ _ _ _ Hst) as [t Ht]. simpl in Hrow, Hwlt, Hdb.
  rewrite Ht in Hrow, Hwlt. simpl in Hrow, Hwlt.
  destruct (Hok _ _ Hrow) as (Hcid & Hcw & _).
  apply bind_ok in Hrun as (u2 & w3 & [Hvalid ->]%guard_ok & Hrun).
  apply bind_ok in Hrun as (u3 & w4 & Hupd & Hrun).
  apply query_ok in Hupd as (d2 & Hupd & ->).
  rewrite Hdb in Hupd. apply (sql_update_payment_ok _ _ _ _ row) in Hupd;
    [|done|by rewrite Ht|exact (valid_transition_fits _ _ Hvalid)].
  apply bind_ok in Hrun as (u4 & w5 & Hrec & Hrun). injection Hrec as _ <-.
  apply bind_ok in Hrun as (u5 & w6 & Hcred & Hrun).
  apply bind_ok in Hrun as (u6 & w7 & Hev%wrap_err_ok & Hrun).
  apply insert_event_ok in Hev as (Henq & _). injection Hrun as _ <-.
  set (id := Payment_ID p) in *. clearbody id. subst p.
  exists id, row, wlt, (w_now w2), (w_now w6), d1, d2, (w_db w6). split; [exact Hrow|]. split; [exact Href|].
  split; [exact Hwlt|]. split; [exact Hvalid|]. split; [exact Hst|].
  split; [|split; [|exact Henq]].
  { by rewrite Hupd, Ht. }
  case_bool_decide as Hs; case_decide; try done.
  - apply credit_wallet_ok in Hcred; [done|done|]. simpl. by rewrite Hupd, Ht.
  - injection Hcred as _ <-. done.
Qed.
End Statements_ok.

(** ** Consequences *)

Section Consequences.
Context `{UuidLaws}.

Lemma webhook_effect_tables provider event payload d d' :
  webhook_effect provider event payload d d' →
  ∃ id p w now row, payments_t d !! id = Some p ∧
    Payment_ProviderReference p = Webhook_ReferenceID event ∧
    wallets_t d !! Payment_WalletID p = Some w ∧
    isValidTransition (Payment_Status p) (Webhook_Status event) = true ∧
    payments_t d' = <[id := set_payment_status (Webhook_Status event) now p]> (payments_t d) ∧
    wallets_t d' = (if decide (Webhook_Status event = StatusSucceeded)
      then <[Payment_WalletID p :=
             wallets.set_available (wallets.Wallet_AvailableBalance w + Payment_Amount p) w]>
             (wallets_t d)
      else wallets_t d) ∧
    stored_event provider event payload d
      (set_webhook_events (<[WebhookEvent_ID row := row]> (webhook_events d)) d) ∧
    webhook_events d' = <[WebhookEvent_ID row := row]> (webhook_events d) ∧
    users d' = users d ∧ accounts d' = accounts d ∧ transfers_t d' = transfers_t d ∧
    idempotency_keys d' = idempotency_keys d.
Proof.
  intros (id & p & w & now & enq & d1 & d2 & d3 & Hp & Href & Hw & Hv & Hst & Hd2 & Hd3 & He).
  apply enqueued_frame in He as (?&?&?&?&?&?&?&?&?&?&?).
  pose proof Hst as (row & _ & _ & _ & _ & _ & _ & Hd1).
  assert (Htables : payments_t d3 = payments_t d2 ∧ webhook_events d3 = webhook_events d2 ∧
    users d3 = users d2 ∧ accounts d3 = accounts d2 ∧ transfers_t d3 = transfers_t d2 ∧
    idempotency_keys d3 = idempotency_keys d2 ∧
    wallets_t d3 = if decide (Webhook_Status event = StatusSucceeded)
      then <[Payment_WalletID p :=
             wallets.set_available (wallets.Wallet_AvailableBalance w + Payment_Amount p) w]>
             (wallets_t d2)
      else wallets_t d2).
  { case_decide; [|subst d3; by repeat split].
    destruct Hd3 as (d4 & _ & _ & -> & Hp3).
    apply posted_frame in Hp3 as (?&?&?&?&?&?&?&?&?&?). simpl in *. repeat split; congruence. }
  destruct Htables as (?&?&?&?&?&?&Hw3). subst d2. simpl in *. subst d1. simpl in *.
  exists id, p, w, now, row. split_and!; try done; congruence.
Qed.

Lemma webhook_effect_ok provider event payload d d' :
  webhook_effect provider event payload d d' → payments_ok d → payments_ok d'.
Proof.
  intros (id & p & w & now & row & Hp & _ & Hw & _ & Hp' & Hw' & _)%webhook_effect_tables Hok.
  intros id' q. rewrite Hp'. intros Hq.
  assert (Hq' : ∃ q', payments_t d !! id' = Some q' ∧ Payment_WalletID q = Payment_WalletID q' ∧
            Payment_Amount q = Payment_Amount q').
  { apply lookup_insert_Some in Hq as [[<- <-]|[_ Hq]]; eauto. }
  destruct Hq' as (q' & Hq'' & -> & ->). destruct (Hok _ _ Hq'') as (? & ? & Hs & ?).
  split; [done|]. split; [done|]. split; [|done]. rewrite Hw'. case_decide; [|done].
  destruct (decide (Payment_WalletID q' = Payment_WalletID p)) as [->|];
    [rewrite lookup_insert_eq; eauto|by rewrite lookup_insert_ne].
Qed.

(** The money the succeeded payments have brought to a wallet, and its balance. *)
Definition funded (wallet : string) (d : DB) : Z :=
  map_sum (λ p, if decide (Payment_Status p = StatusSucceeded ∧ Payment_WalletID p = wallet)
                then Payment_Amount p else 0) (payments_t d).

Definition balance (wallet : string) (d : DB) : Z :=
  match wallets_t d !! wallet with Some w => wallets.Wallet_AvailableBalance w | None => 0 end.

Lemma valid_transition_from current next :
  isValidTransition current next = true → current ≠ StatusSucceeded.
Proof. unfold isValidTransition. repeat case_bool_decide; simplify_eq; try done. Qed.

(** A webhook credits a wallet exactly by what becomes succeeded. *)
Lemma webhook_effect_funded provider event payload wallet d d' :
  webhook_effect provider event payload d d' →
  balance wallet d' - funded wallet d' = balance wallet d - funded wallet d.
Proof.
  intros (id & p & w & now & row & Hp & _ & Hw & Hv & Hp' & Hw' & _)%webhook_effect_tables.
  apply valid_transition_from in Hv. unfold funded, balance. rewrite Hp', Hw'.
  rewrite (map_sum_update _ _ id p) by done. simpl.
  rewrite (decide_False (P := Payment_Status p = StatusSucceeded ∧ _)) by tauto.
  destruct (decide (Webhook_Status event = StatusSucceeded)) as [Hs|Hs].
  - destruct (decide (Payment_WalletID p = wallet)) as [<-|Hne].
    + rewrite lookup_insert_eq, Hw, decide_True by done. simpl. lia.
    + rewrite lookup_insert_ne, decide_False by tauto. lia.
  - rewrite decide_False by tauto. lia.
Qed.

(** The state machine of payments, and the code's decision of it. *)
Inductive allowed : PaymentStatus → PaymentStatus → Prop :=
| created_processing : allowed StatusCreated StatusProcessing
| created_failed : allowed StatusCreated StatusFailed
| processing_succeeded : allowed StatusProcessing StatusSucceeded
| processing_failed : allowed StatusProcessing StatusFailed.

Lemma isValidTransition_spec current next :
  isValidTransition current next = true ↔ allowed current next.
Proof.
  split; [|by intros []]. unfold isValidTransition.
  repeat case_bool_decide; simplify_eq/=; try done; constructor.
Qed.

(** Every payment keeps its wallet, amount, currency and reference, and its status
    moves along the state machine. *)
Definition lifecycle (p p' : Payment) : Prop :=
  Payment_WalletID p' = Payment_WalletID p ∧ Payment_Amount p' = Payment_Amount p ∧
  Payment_Currency p' = Payment_Currency p ∧
  Payment_ProviderReference p' = Payment_ProviderReference p ∧
  rtc allowed (Payment_Status p) (Payment_Status p').

#[export] Instance lifecycle_preorder : PreOrder lifecycle.
Proof.
  split; [intros p; repeat split; apply rtc_refl|].
  intros p1 p2 p3 (?&?&?&?&?) (?&?&?&?&?). repeat split; [congruence..|by etrans].
Qed.

Lemma webhook_effect_lifecycle provider event payload d d' id p :
  webhook_effect provider event payload d d' → payments_t d !! id = Some p →
  ∃ p', payments_t d' !! id = Some p' ∧ lifecycle p p'.
Proof.
  intros (id' & q & w & now & row & Hq & _ & _ & Hv & Hp' & _)%webhook_effect_tables Hp.
  rewrite Hp'. destruct (decide (id' = id)) as [->|Hne].
  - rewrite lookup_insert_eq. simplify_eq. eexists. split; [done|].
    repeat split. by apply rtc_once, isValidTransition_spec.
  - rewrite lookup_insert_ne by done. exists p. by split.
Qed.

(** A final status is kept for ever. *)
Lemma lifecycle_final p p' :
  lifecycle p p' → Payment_Status p = StatusSucceeded ∨ Payment_Status p = StatusFailed →
  Payment_Status p' = Payment_Status p.
Proof.
  intros (_&_&_&_&Hr) Hf. destruct Hr as [s|s s' s'' Hs _]; [done|].
  destruct Hf as [Heq|Heq]; rewrite Heq in Hs; inversion Hs.
Qed.
End Consequences.

(** ** Creating a payment *)

Section Creating.
Context `{UuidLaws}.

Lemma generate_silent n w r w' :
  generateRandomString n w = (r, w') → silent w w' ∧ w_db w' = w_db w.
Proof.
  revert w r w'. induction n as [|n IH]; intros w r w'; simpl; [intros [= <- <-]; done|].
  unfold bind at 1, rand_Intn. simpl. unfold bind.
  destruct (generateRandomString n (bump w)) as [[rest|e] w1] eqn:Hrun.
  - apply IH in Hrun as [Hs Hd].
    assert (silent w w1) by (etrans; [|exact Hs]; unfold silent; simpl; repeat split; lia).
    case_match; intros [= <- <-]; done.
  - apply IH in Hrun as [Hs Hd]. intros [= <- <-]. split; [|done].
    etrans; [|exact Hs]. unfold silent; simpl; repeat split; lia.
Qed.

(** The provider answers processing or failed, and touches nothing. *)
Lemma process_payment_cases amount currency w r w' :
  ProcessPayment amount currency w = (r, w') →
  w_db w' = w_db w ∧ ∀ resp, r = Ok resp →
    Provider_Status resp = StatusProcessing ∨ Provider_Status resp = StatusFailed.
Proof.
  unfold ProcessPayment. unfold bind at 1, rand_Intn at 1. unfold bind at 1.
  destruct (generateRandomString 12 (bump w)) as [[s|e] w1] eqn:Hgen;
    apply generate_silent in Hgen as [_ Hdb].
  - unfold bind, rand_Float32. destruct (negb _); intros [= <- <-];
      (split; [done|]; intros resp [= <-]; simpl; auto).
  - intros [= <- <-]. split; [done|]. intros resp [=].
Qed.

(** The row of a new payment. *)
Definition created (p : Payment) (id : string) (d d' : DB) : Prop :=
  ∃ row, payments_t d !! id = None ∧ canonical id ∧
    uuid_in (Payment_WalletID p) = Some (Payment_WalletID row) ∧
    is_Some (wallets_t d !! Payment_WalletID row) ∧
    Payment_Amount row = Payment_Amount p ∧ 0 < Payment_Amount p ∧ in_int64 (Payment_Amount p) ∧
    varchar 3 (Payment_Currency p) = Ok (Payment_Currency row) ∧
    varchar 50 (Payment_Status p) = Ok (Payment_Status row) ∧
    varchar 255 (Payment_ProviderReference p) = Ok (Payment_ProviderReference row) ∧
    (∀ id' p', payments_t d !! id' = Some p' →
       Payment_ProviderReference p' ≠ Payment_ProviderReference row) ∧
    d' = set_payments (<[id := row]> (payments_t d)) d.

Lemma sql_insert_payment_ok p c d id t1 t2 d' :
  canonical (c_uuid c) → sql_insert_payment p c d = Ok (id, t1, t2, d') → created p id d d'.
Proof.
  intros Hc Hq. unfold sql_insert_payment in Hq. m_inv. bools.
  eexists (mkPayment _ _ _ _ _ _ _ _). simpl.
  repeat (split; [eassumption || reflexivity|]). split; [|reflexivity].
  intros id' p' Hp' Heq. match goal with H : ¬ map_Exists _ _ |- _ => apply H end.
  exists id', p'. done.
Qed.

Lemma created_ok p id d d' : created p id d d' → payments_ok d → payments_ok d'.
Proof.
  intros (row & _ & Hc & Hw & Hs & Ha & Hpos & Hin & _ & _ & _ & _ & ->) Hok id' q Hq.
  simpl in *. apply lookup_insert_Some in Hq as [[<- <-]|[_ Hq]]; [|by apply Hok].
  split; [done|]. split; [exact (uuid_in_canonical _ _ Hw)|]. rewrite Ha. done.
Qed.

Lemma created_funded wallet p id d d' :
  created p id d d' → Payment_Status p = StatusProcessing ∨ Payment_Status p = StatusFailed →
  balance wallet d' - funded wallet d' = balance wallet d - funded wallet d.
Proof.
  intros (row & Hn & _ & _ & _ & _ & _ & _ & _ & Hst & _ & _ & ->) Hp.
  unfold balance, funded. simpl. rewrite map_sum_insert_new by done.
  rewrite decide_False; [lia|]. intros [Hs _]. rewrite Hs in Hst.
  by destruct Hp as [Hp|Hp]; rewrite Hp in Hst.
Qed.

Lemma created_lifecycle p id d d' id' q :
  created p id d d' → payments_t d !! id' = Some q →
  ∃ q', payments_t d' !! id' = Some q' ∧ lifecycle q q'.
Proof.
  intros (row & Hn & _ & _ & _ & _ & _ & _ & _ & _ & _ & _ & ->) Hq. simpl.
  exists q. rewrite lookup_insert_ne by congruence. done.
Qed.
End Creating.

(** ** Many requests at once *)

Section Concurrent.
Context `{UuidLaws} {L : LedgerRepository} {X : OutboxRepository}
  `{LC : !LedgerContract L} `{OC : !OutboxContract X} `{JsonText} `{Hmac}.

(** An invariant that holds of the schema's rows and survives what the operations on
    payments do to the database. *)
Record payments_invariant (I : World → Prop) : Prop := {
  inv_ok w : I w → payments_ok (w_db w);
  inv_same w w' : w_db w' = w_db w → I w → I w';
  inv_webhook provider event payload w w' :
    webhook_effect provider event payload (w_db w) (w_db w') → I w → I w';
  inv_created p id w w' : created p id (w_db w) (w_db w') →
    Payment_Status p = StatusProcessing ∨ Payment_Status p = StatusFailed → I w → I w';
}.

(** What every payment operation preserves: the schema, the difference between a
    wallet's balance and what its payments brought, and the life of each payment. *)
Definition accounted (wallet : string) (gap : Z) (d0 : DB) (w : World) : Prop :=
  payments_ok (w_db w) ∧ balance wallet (w_db w) - funded wallet (w_db w) = gap ∧
  ∀ id p0, payments_t d0 !! id = Some p0 →
    ∃ p, payments_t (w_db w) !! id = Some p ∧ lifecycle p0 p.

Lemma accounted_invariant wallet gap d0 : payments_invariant (accounted wallet gap d0).
Proof.
  split.
  - by intros w [Hok _].
  - unfold accounted. by intros w w' ->.
  - intros provider event payload w w' He (Hok & Hgap & Hlife).
    split; [by eapply webhook_effect_ok|]. split.
    + by rewrite (webhook_effect_funded _ _ _ wallet _ _ He).
    + intros id p0 (p & Hp & Hl)%Hlife.
      destruct (webhook_effect_lifecycle _ _ _ _ _ _ _ He Hp) as (p' & Hp' & Hl').
      exists p'. split; [done|by etrans].
  - intros p id w w' Hc Hst (Hok & Hgap & Hlife). split; [by eapply created_ok|]. split.
    + by rewrite (created_funded wallet _ _ _ _ Hc Hst).
    + intros id' p0 (q & Hq & Hl)%Hlife.
      destruct (created_lifecycle _ _ _ _ _ _ Hc Hq) as (q' & Hq' & Hl').
      exists q'. split; [done|by etrans].
Qed.

Lemma process_webhook_cases provider payload w r w' :
  payments_ok (w_db w) → run (ProcessWebhook provider payload) w = (r, w') →
  (∃ e, r = Err e ∧ w_db w' = w_db w) ∨
  ∃ j event, payload = Some j ∧ decode_WebhookPayload j = Some event ∧
    webhook_effect provider event j (w_db w) (w_db w') ∧
    (r = Ok tt ∨ ∃ msg, r = Err (ext_error msg)).
Proof.
  intros Hok. cbn [ProcessWebhook serviceImpl].
  destruct payload as [j|]; [|intros [= <- <-]; left; by eexists].
  destruct (decode_WebhookPayload j) as [event|] eqn:Hdec; [|intros [= <- <-]; left; by eexists].
  rewrite run_call. intros [Herr|([] & w1 & Hb & -> & Hr)]%with_tx_cases; [by left|right].
  apply webhook_statements_ok in Hb; [|done]. exists j, event. naive_solver.
Qed.

Definition anything : World → World → Prop := λ _ _, True.

Lemma safe_webhook I provider payload :
  payments_invariant I → safe I anything (ProcessWebhook provider payload) (λ _, True).
Proof.
  intros HI. cbn [ProcessWebhook serviceImpl]. destruct payload as [j|]; [|done].
  destruct (decode_WebhookPayload j) as [event|] eqn:Hdec; [|done].
  exists (λ _ _, True). split; [|done]. intros w Hw _. split; [|done].
  destruct (with_tx _ w) as [r w'] eqn:Hrun.
  destruct (process_webhook_cases provider (Some j) w r w') as [(e & _ & Hd)|(j' & ev & _ & _ & He & _)].
  - by apply HI.
  - cbn [ProcessWebhook serviceImpl]. rewrite Hdec, run_call. exact Hrun.
  - by eapply inv_same.
  - by eapply inv_webhook.
Qed.

Lemma safe_create I walletID amount currency :
  payments_invariant I → safe I anything (CreatePayment walletID amount currency) (λ _, True).
Proof.
  intros HI. cbn [CreatePayment serviceImpl].
  exists (λ r _, ∀ resp, r = Ok resp →
    Provider_Status resp = StatusProcessing ∨ Provider_Status resp = StatusFailed).
  split; [|split; [intros r w w' _ Hp _ _; exact Hp|]].
  { intros w Hw _. destruct (ProcessPayment amount currency w) as [r w'] eqn:Hrun.
    apply process_payment_cases in Hrun as [Hd Hr]. split; [by eapply inv_same|done]. }
  intros [resp|e]; [|done]. exists (λ _ _, True). split; [|split; [done|]].
  { intros w Hw Hst. split; [|done].
    destruct (exec _ w) as [r w'] eqn:Hrun.
    apply exec_cases in Hrun as [(e & _ & Hd)|([[id t1] t2] & d & Hq & Hd & _)];
      [by eapply inv_same|].
    apply sql_insert_payment_ok in Hq; [|apply env_uuid_canonical]. rewrite <- Hd in Hq.
    eapply inv_created; [exact HI|exact Hq|by apply Hst|done]. }
  intros [[[id t1] t2]|e]; [|done]. exists (λ _ _, True). split; [|split; [done|]].
  { intros w Hw _. split; [|done]. by apply (inv_same _ HI w). }
  by intros [u|e].
Qed.

Lemma safe_payments I secret route r :
  payments_invariant I → safe I anything (payments_RegisterRoutes secret route r) (λ _, True).
Proof.
  intros HI. destruct route; cbn [payments_RegisterRoutes].
  - unfold HandleCreatePayment. destruct (GetClaims r); [|done].
    destruct (decode_body _ r) as [req|]; [|done].
    apply safe_bind; [by apply safe_create|by intros [p|e]].
  - unfold HandleDemoFund. destruct (decode_body _ r) as [req|]; [|done].
    apply safe_bind; [by apply safe_create|]. intros [p|e]; [|done].
    apply safe_bind; [by apply safe_webhook|by intros [u|e]].
  - unfold HandleWebhook. case_bool_decide; [done|]. do 2 (destruct (negb _); [done|]).
    apply safe_bind; [by apply safe_webhook|done].
Qed.

Lemma payments_accounted secret wallet w (rs : list (payments_route * Request)) ps' w' :
  payments_ok (w_db w) →
  interleaving ((λ q, payments_RegisterRoutes secret q.1 q.2) <$> rs, w) (ps', w') →
  accounted wallet (balance wallet (w_db w) - funded wallet (w_db w)) (w_db w) w'.
Proof.
  intros Hok Hrun. eapply interleaving_safe; [|split; [exact Hok|]|exact Hrun].
  - apply Forall_fmap, Forall_true. intros q. exists (λ _, True).
    split; [apply safe_payments, accounted_invariant|done].
  - split; [done|]. intros id p Hp. exists p. by split.
Qed.
End Concurrent.

(** ** Duplicates and failures *)

Section Refused.
Context `{UuidLaws} {L : LedgerRepository} {X : OutboxRepository}
  `{LC : !LedgerContract L} `{OC : !OutboxContract X} `{JsonText} `{Hmac}.

(** The event is in the table already. *)
Definition known_event (provider : string) (event : WebhookPayload) (d : DB) : Prop :=
  ∃ id e, webhook_events d !! id = Some e ∧ varchar 50 provider = Ok (WebhookEvent_Provider e) ∧
    varchar 255 (Webhook_EventID event) = Ok (WebhookEvent_EventID e).

Lemma sql_insert_webhook_known provider event payload c d :
  known_event provider event d → is_ok (varchar 100 (Webhook_EventType event)) →
  ∃ name, sql_insert_webhook provider event payload c d = Err (unique_violation name).
Proof.
  intros (id & e & He & Hp & Hi) (ty & Hty)%is_ok_inv. unfold sql_insert_webhook.
  rewrite Hp, Hi, Hty. cbn [res_bind].
  change (varchar 50 WebhookStatusProcessed) with (Ok WebhookStatusProcessed). cbn [res_bind].
  unfold insert_pk. destruct (webhook_events d !! c_uuid c); cbn [res_bind]; [eauto|].
  rewrite bool_decide_eq_false_2; [simpl; eauto|]. intros Hne. apply Hne. by exists id, e.
Qed.

Lemma webhook_statements_known provider event payload w :
  env_outcome (w_tick w) = Fine → known_event provider event (w_db w) →
  is_ok (varchar 100 (Webhook_EventType event)) →
  webhook_statements provider event payload w = (Err ErrDuplicateWebhook, bump w).
Proof.
  intros Hf Hk Hty. unfold webhook_statements, bind at 1, map_err at 1.
  rewrite query_fine by done.
  destruct (sql_insert_webhook_known provider event payload (ctx w) _ Hk Hty) as [name ->].
  reflexivity.
Qed.
End Refused.

(** ** Properties *)

(** C13. A webhook is all or nothing: either an error is returned and the database is as
    before, or the event is stored, the payment it refers to has made an allowed
    transition, the event of the change is pending and, exactly when the payment
    succeeded, its wallet is credited once by its amount and the ledger has the
    transaction; the only error then is a lost reply of the commit. *)
Theorem webhook_atomic `{UuidLaws} {L : LedgerRepository} {X : OutboxRepository}
  `{!LedgerContract L} `{!OutboxContract X} provider payload w :
  payments_ok (w_db w) →
  let '(r, w') := run (ProcessWebhook provider payload) w in
  (∃ e, r = Err e ∧ w_db w' = w_db w) ∨
  ∃ j event, payload = Some j ∧ decode_WebhookPayload j = Some event ∧
    webhook_effect provider event j (w_db w) (w_db w') ∧
    (r = Ok tt ∨ ∃ msg, r = Err (ext_error msg)).
Proof.
  intros Hok. destruct (run _ w) as [r w'] eqn:Hrun. by apply process_webhook_cases in Hrun.
Qed.

(** C12. However payment requests, demo fundings and webhooks interleave, and whatever
    fails, a wallet's balance grows exactly by the amounts of its payments that become
    succeeded: no payment is credited twice or without succeeding. *)
Theorem payments_credit_exactly_once `{UuidLaws} {L : LedgerRepository} {X : OutboxRepository}
  `{!LedgerContract L} `{!OutboxContract X} `{JsonText} `{Hmac} secret w
  (rs : list (payments_route * Request)) ps' w' wallet :
  payments_ok (w_db w) →
  interleaving ((λ q, payments_RegisterRoutes secret q.1 q.2) <$> rs, w) (ps', w') →
  balance wallet (w_db w') - balance wallet (w_db w) =
  funded wallet (w_db w') - funded wallet (w_db w).
Proof.
  intros Hok Hrun. destruct (payments_accounted secret wallet w rs ps' w' Hok Hrun) as (_ & Hg & _).
  lia.
Qed.

(** C16. The state machine: under any interleaving of these requests, a payment is never
    lost, keeps its wallet, amount, currency and reference, and its status only moves
    along the allowed transitions; a succeeded or failed payment stays so. *)
Theorem payment_state_machine `{UuidLaws} {L : LedgerRepository} {X : OutboxRepository}
  `{!LedgerContract L} `{!OutboxContract X} `{JsonText} `{Hmac} secret w
  (rs : list (payments_route * Request)) ps' w' id p :
  payments_ok (w_db w) →
  interleaving ((λ q, payments_RegisterRoutes secret q.1 q.2) <$> rs, w) (ps', w') →
  payments_t (w_db w) !! id = Some p →
  ∃ p', payments_t (w_db w') !! id = Some p' ∧ lifecycle p p' ∧
    (Payment_Status p = StatusSucceeded ∨ Payment_Status p = StatusFailed →
     Payment_Status p' = Payment_Status p).
Proof.
  intros Hok Hrun Hp. destruct (payments_accounted secret "" w rs ps' w' Hok Hrun) as (_ & _ & Hl).
  destruct (Hl _ _ Hp) as (p' & Hp' & Hlife). exists p'. split; [done|]. split; [done|].
  by apply lifecycle_final.
Qed.

(** A webhook is processed exactly when its body could be read to its end and it carries the
    signature of its body under the server's secret; any other is refused, with 400 when only
    the body is missing, else with 401, and changes nothing. *)
Theorem webhook_needs_signature {P : PaymentsService} `{JsonText} `{Hmac} secret r w :
  let signature := Header r "X-Webhook-Signature" in
  (signature ≠ "" ∧ Body_complete r = true ∧ signature = hmac_sha256_hex secret (Body r) →
     run (HandleWebhook secret r) w =
     let '(res, w') := run (ProcessWebhook "simulator" (json_whole (Body r))) w in
     (webhook_response res, w')) ∧
  (signature ≠ "" ∧ Body_complete r = false →
     run (HandleWebhook secret r) w = (http_Error "failed to read body" StatusBadRequest, w)) ∧
  (signature = "" ∨ Body_complete r = true ∧ signature ≠ hmac_sha256_hex secret (Body r) →
     ∃ msg, run (HandleWebhook secret r) w = (http_Error msg StatusUnauthorized, w)).
Proof.
  intros signature. unfold HandleWebhook, VerifyWebhookSignature, GenerateWebhookSignature.
  fold signature. split; [|split].
  - intros (Hne & -> & Heq). rewrite bool_decide_eq_false_2, bool_decide_eq_true_2 by done.
    cbn [negb]. rewrite run_bind. by destruct (run _ w).
  - intros [Hne ->]. by rewrite bool_decide_eq_false_2.
  - intros Hbad. case_bool_decide; [simpl; eauto|]. destruct Hbad as [|[-> Hbad]]; [done|].
    rewrite bool_decide_eq_false_2 by done. simpl. eauto.
Qed.

(** A webhook delivered again is answered with 200 and changes nothing, whatever it
    now says about the payment. *)
Theorem duplicate_webhook_is_harmless `{UuidLaws} {L : LedgerRepository} {X : OutboxRepository}
  `{!LedgerContract L} `{!OutboxContract X} `{JsonText} `{Hmac} secret r j event w :
  no_faults (w_tick w) → Header r "X-Webhook-Signature" ≠ "" → Body_complete r = true →
  Header r "X-Webhook-Signature" = hmac_sha256_hex secret (Body r) →
  json_whole (Body r) = Some j → decode_WebhookPayload j = Some event →
  is_ok (varchar 100 (Webhook_EventType event)) → known_event "simulator" event (w_db w) →
  let '(resp, w') := run (HandleWebhook secret r) w in
  resp = mkResponse StatusOK NoBody ∧ w_db w' = w_db w.
Proof.
  intros Hf Hne Hend Hsig Hj Hdec Hty Hk. unfold HandleWebhook.
  rewrite (bool_decide_eq_false_2 _ Hne), Hend. unfold VerifyWebhookSignature, GenerateWebhookSignature.
  rewrite <- Hsig, (bool_decide_eq_true_2 _ eq_refl). cbn [negb]. rewrite run_bind, Hj.
  cbn [ProcessWebhook serviceImpl]. rewrite Hdec, run_call.
  assert (Hrun : webhook_statements "simulator" event j (bump (start w)) =
    (Err ErrDuplicateWebhook, bump (bump (start w)))).
  { apply webhook_statements_known; [|done|done]. apply no_faults_now, no_faults_S, Hf. }
  by rewrite (with_tx_err _ _ _ _ (no_faults_now _ Hf) Hrun).
Qed.

(** As long as the placeholder account is not in the table, and no migration or
    operation puts it there, no payment can succeed: a webhook that reports success
    fails and leaves the database as it was. *)
Theorem success_needs_platform_account `{UuidLaws} {L : LedgerRepository} {X : OutboxRepository}
  `{!LedgerContract L} `{!OutboxContract X} provider j event w :
  payments_ok (w_db w) → canonical platform_account →
  accounts (w_db w) !! platform_account = None →
  decode_WebhookPayload j = Some event → Webhook_Status event = StatusSucceeded →
  let '(r, w') := run (ProcessWebhook provider (Some j)) w in
  ¬ is_ok r ∧ w_db w' = w_db w.
Proof.
  intros Hok Hc Hnone Hdec Hst. destruct (run _ w) as [r w'] eqn:Hrun.
  apply process_webhook_cases in Hrun as [(e & -> & Hd)|(j' & ev & Hj & Hdec' & He & _)]; [|exfalso|done].
  { split; [by intros ?|done]. }
  injection Hj as <-. rewrite Hdec in Hdec'. injection Hdec' as <-.
  destruct He as (id & p & wlt & now & enq & d1 & d2 & d3 & _ & _ & _ & _ & Hev & -> & Hcr & _).
  rewrite decide_True in Hcr by done. destruct Hcr as (d4 & _ & _ & -> & Hpost).
  destruct (stored_event_frame _ _ _ _ _ Hev) as [t ->].
  destruct Hpost as (hdr & rows & t' & _ & _ & _ & _ & Hrows & _).
  apply Forall2_cons_inv_l in Hrows as (row & rows' & (_ & Hu & Ha & _) & _ & _).
  simpl in Hu, Ha. unfold canonical in Hc. rewrite Hc in Hu. injection Hu as Hu.
  rewrite <- Hu, Hnone in Ha. by destruct Ha.
Qed.

(** ** Witnesses *)

(** The bank with the platform's account and a payment of seventy dollars that is
    being processed. *)
Definition sample_payment : Payment :=
  mkPayment "p1" "w1" 70 "USD" StatusProcessing "ext_1" 0 0.

Definition sample_payments_db (platform : bool) : DB :=
  set_payments (<["p1" := sample_payment]> ∅)
    (if platform
     then set_accounts (<[platform_account := mkAccount platform_account "PLATFORM" "USD" 0]>
                          (accounts sample_bank)) sample_bank
     else sample_bank).

Definition sample_event (id : string) : json := JObj [
  ("event_id", JStr id); ("event_type", JStr "payment.succeeded");
  ("reference_id", JStr "ext_1"); ("status", JStr StatusSucceeded)].

(** Payloads are event ids; the signature is constant. *)
Definition payments_text : JsonText := {|
  json_first _ := None;
  json_whole s := Some (sample_event s);
|}.
Definition sample_hmac : Hmac := λ _ _, "signed".

Definition webhook_request (id : string) : Request :=
  mkRequest "POST" "/api/v1/webhooks/payment-provider" (λ h, if bool_decide (h = "X-Webhook-Signature") then "signed" else "") "" "" id true None.

Lemma sample_payments_ok b : payments_ok (sample_payments_db b).
Proof.
  intros id p Hp. cbn in Hp.
  apply lookup_insert_Some in Hp as [[<- <-]|[_ Hp]]; [|done].
  split; [by vm_compute|]. split; [by vm_compute|]. split; [by destruct b; eexists|]. done.
Qed.

(** Two deliveries of one event and another event, at once. *)
Definition webhook_rush : list (prog Response) * World :=
  schedule [2; 0; 1]%nat
    ((λ q, payments_RegisterRoutes (S := serviceImpl) (H := payments_text) (H0 := sample_hmac)
             "secret" q.1 q.2) <$>
       [(POST_webhook, webhook_request "e1"); (POST_webhook, webhook_request "e1");
        (POST_webhook, webhook_request "e2")],
     sample_world (sample_payments_db true)).

Lemma webhook_atomic_witness :
  ∃ d', webhook_effect "simulator" (mkWebhookPayload "e1" "payment.succeeded" "ext_1" StatusSucceeded)
    (sample_event "e1") (sample_payments_db true) d'.
Proof.
  pose proof (webhook_atomic "simulator" (Some (sample_event "e1"))
    (sample_world (sample_payments_db true)) (sample_payments_ok true)) as Hp.
  destruct (run _ _) as [r w'] eqn:Hrun.
  destruct Hp as [(e & -> & _)|(j & event & Hj & Hdec & He & _)].
  - apply (f_equal (is_ok ∘ fst)) in Hrun. vm_compute in Hrun. discriminate Hrun.
  - injection Hj as <-. injection Hdec as <-. exists (w_db w'). exact He.
Defined.

Lemma payments_credit_exactly_once_witness :
  funded "w1" (w_db webhook_rush.2) - funded "w1" (sample_payments_db true) = 70 ∧
  balance "w1" (w_db webhook_rush.2) - balance "w1" (sample_payments_db true) = 70.
Proof.
  assert (Hf : funded "w1" (w_db webhook_rush.2) - funded "w1" (sample_payments_db true) = 70)
    by (vm_compute; reflexivity).
  split; [exact Hf|]. rewrite <- Hf.
  apply (payments_credit_exactly_once (H1 := payments_text) (H2 := sample_hmac) "secret"
    (sample_world (sample_payments_db true))
    [(POST_webhook, webhook_request "e1"); (POST_webhook, webhook_request "e1");
     (POST_webhook, webhook_request "e2")] webhook_rush.1 webhook_rush.2 "w1"
    (sample_payments_ok true)).
  rewrite <- surjective_pairing. apply schedule_interleaving.
Defined.

Lemma payment_state_machine_witness :
  ∃ p', payments_t (w_db webhook_rush.2) !! "p1" = Some p' ∧ lifecycle sample_payment p'.
Proof.
  destruct (payment_state_machine (H1 := payments_text) (H2 := sample_hmac) "secret"
    (sample_world (sample_payments_db true))
    [(POST_webhook, webhook_request "e1"); (POST_webhook, webhook_request "e1");
     (POST_webhook, webhook_request "e2")] webhook_rush.1 webhook_rush.2 "p1" sample_payment
    (sample_payments_ok true)) as (p' & Hp & Hl & _); [|reflexivity|].
  - rewrite <- surjective_pairing. apply schedule_interleaving.
  - exists p'. exact (conj Hp Hl).
Defined.

Lemma duplicate_webhook_is_harmless_witness :
  let w := (run (HandleWebhook (S := serviceImpl) (H := payments_text) (H0 := sample_hmac) "secret"
              (webhook_request "e1")) (sample_world (sample_payments_db true))).2 in
  let '(resp, w') := run (HandleWebhook (S := serviceImpl) (H := payments_text)
                       (H0 := sample_hmac) "secret" (webhook_request "e1")) w in
  resp = mkResponse StatusOK NoBody ∧ w_db w' = w_db w.
Proof.
  intros w.
  apply (duplicate_webhook_is_harmless (H1 := payments_text) (H2 := sample_hmac) "secret"
    (webhook_request "e1") (sample_event "e1")
    (mkWebhookPayload "e1" "payment.succeeded" "ext_1" StatusSucceeded) w
    (sample_no_faults _)); try reflexivity; [discriminate|].
  exists "ua". eexists. split; [vm_compute; reflexivity|]. split; reflexivity.
Defined.

Lemma success_needs_platform_account_witness :
  let '(r, w') := run (ProcessWebhook "simulator" (Some (sample_event "e1")))
                    (sample_world (sample_payments_db false)) in
  ¬ is_ok r ∧ w_db w' = sample_payments_db false.
Proof.
  apply (success_needs_platform_account "simulator" (sample_event "e1")
    (mkWebhookPayload "e1" "payment.succeeded" "ext_1" StatusSucceeded)
    (sample_world (sample_payments_db false)) (sample_payments_ok false));
    [by vm_compute|by vm_compute|reflexivity|reflexivity].
Defined.

(** A webhook that is rolled back is counted among the payments all the same. *)
Theorem rolled_back_webhook_is_counted :
  let w := sample_world (sample_payments_db false) in
  let '(resp, w') := run (HandleWebhook (S := serviceImpl) (H := payments_text) (H0 := sample_hmac)
                            "secret" (webhook_request "e1")) w in
  resp_status resp = StatusInternalServerError ∧ w_db w' = w_db w ∧
  w_payments_total w !! StatusSucceeded = None ∧
  w_payments_total w' !! StatusSucceeded = Some 1.
Proof. vm_compute. done. Qed.

(** Euros for the first wallet, which holds dollars. *)
Definition foreign_text : JsonText := {|
  json_first _ := Some (JObj [("wallet_id", JStr "w1"); ("amount", JNum 25); ("currency", JStr "EUR")]);
  json_whole _ := None;
|}.

(** Anybody with a token may start a payment for anybody's wallet, in any currency. *)
Theorem anyone_can_start_a_payment :
  let w := sample_world (sample_payments_db true) in
  let stranger := auth.mkClaims "b2" auth.RoleUser in
  let answer := run (HandleCreatePayment (S := serviceImpl) (H := foreign_text)
    (mkRequest "POST" "/api/v1/payments" (λ _, EmptyString) "" "" "" true (Some stranger))) w in
  let resp := answer.1 in let w' := answer.2 in
  resp_status resp = Go.StatusCreated ∧
  (λ x, (wallets.Wallet_OwnerID x, wallets.Wallet_Currency x)) <$> (wallets_t (w_db w) !! "w1") =
    Some ("b1", "USD") ∧
  ∃ id p, payments_t (w_db w) !! id = None ∧ payments_t (w_db w') !! id = Some p ∧
    Payment_WalletID p = "w1" ∧ Payment_Currency p = "EUR".
Proof.
  split; [vm_compute; reflexivity|]. split; [reflexivity|]. exists (sample_uuid 14).
  eexists. split; [reflexivity|]. split; [vm_compute; reflexivity|]. done.
Qed.
