(* ===== verification/PaymentRoutes.v ===== *)
(** * What the payment routes answer (internal/payments/handler.go, service.go)

    [Payments] shows what payments and webhooks may do.  Here is what they do when nothing
    outside fails: executable decisions on the request and the database ([verdict] for a
    webhook, [accepts] for a new payment), and that the handlers answer and act as they say. *)

From S2P Require Import Prelude Go Models Postgres Runtime Sample Http.
From S2P Require Import Ledger Outbox Transfers Payments.
From Stdlib Require Import QArith_base.
Import payments.
#[local] Open Scope go_scope.
#[local] Open Scope m_scope.
#[local] Open Scope prog_scope.
#[local] Open Scope Z_scope.

(** ** The specification *)

Inductive Verdict : Set :=
| Applied
| Duplicate
| UnknownPayment
| Forbidden (current next : PaymentStatus)
| Impossible.

(** The payment the provider refers to. *)
Definition payment_of (ref : string) (d : DB) : option (string * Payment) :=
  List.find (λ kp, bool_decide (Payment_ProviderReference kp.2 = ref))
    (map_to_list (payments_t d)).

(** The provider has sent an event of this id before. *)
Definition seen (event_id : string) (d : DB) : bool :=
  bool_decide (map_Exists (λ _ e, WebhookEvent_Provider e = "simulator" ∧
                                  WebhookEvent_EventID e = event_id) (webhook_events d)).

(** The platform can be debited and the wallet has room for the amount. *)
Definition creditable `{Env} (p : Payment) (d : DB) : bool :=
  match uuid_in platform_account, wallets_t d !! Payment_WalletID p with
  | Some platform, Some wlt =>
    bool_decide (is_Some (accounts d !! platform)) &&
    (wallets.Wallet_AvailableBalance wlt + Payment_Amount p <=? int64_max)
  | _, _ => false
  end.

Definition verdict `{Env} (event : WebhookPayload) (d : DB) : Verdict :=
  match varchar 255 (Webhook_EventID event), varchar 100 (Webhook_EventType event) with
  | Ok event_id, Ok _ =>
    if seen event_id d then Duplicate
    else match payment_of (Webhook_ReferenceID event) d with
         | None => UnknownPayment
         | Some (_, p) =>
           if negb (isValidTransition (Payment_Status p) (Webhook_Status event)) then
             Forbidden (Payment_Status p) (Webhook_Status event)
           else if bool_decide (Webhook_Status event = StatusSucceeded) && negb (creditable p d)
           then Impossible else Applied
         end
  | _, _ => Impossible
  end.

Definition answer (v : Verdict) : Response :=
  match v with
  | Applied | Duplicate => mkResponse StatusOK NoBody
  | UnknownPayment => http_Error "payment not found" StatusBadRequest
  | Forbidden current next =>
    http_Error ("invalid payment state transition: cannot transition from " +:+ current +:+
                " to " +:+ next) StatusBadRequest
  | Impossible => http_Error "internal server error" StatusInternalServerError
  end.

(** ** Errors that are not the service's own *)

(** The error at the bottom of the chain. *)
Fixpoint origin (e : error) : error :=
  match e with fmt_Errorf _ e' _ => origin e' | _ => e end.

Definition alien (e : error) : Prop :=
  origin e ≠ ErrDuplicateWebhook ∧ origin e ≠ ErrInvalidStateTransition ∧
  origin e ≠ ErrPaymentNotFound.

Lemma errors_Is_origin e s msg : errors_Is e (errors_New s msg) = bool_decide (origin e = errors_New s msg).
Proof.
  induction e as [s' m'|pre e IH post|code m'| |m']; cbn [errors_Is origin];
    [by rewrite orb_false_r| |by rewrite !bool_decide_eq_false_2..].
  rewrite IH. by rewrite bool_decide_eq_false_2.
Qed.

Lemma alien_response e : alien e → webhook_response (Err e) = answer Impossible.
Proof.
  intros (H1 & H2 & H3). unfold webhook_response.
  unfold ErrDuplicateWebhook, ErrInvalidStateTransition, ErrPaymentNotFound in *.
  by rewrite !errors_Is_origin, !bool_decide_eq_false_2.
Qed.

(** The failures of a result, or of a call, are alien. *)
Definition blameless {A} (r : Res A) : Prop := ∀ e, r = Err e → alien e.
Definition fails_alien {A} (m : M A) : Prop := ∀ w, blameless (m w).1.

Lemma blameless_ok {A} (a : A) : blameless (Ok a).
Proof. by intros e. Qed.
Lemma blameless_pg {A} code msg : blameless (A := A) (Err (pg_error code msg)).
Proof. by intros e [= <-]. Qed.
Lemma blameless_guard b code msg : blameless (guard_res b (pg_error code msg)).
Proof. destruct b; [apply blameless_ok|apply blameless_pg]. Qed.
Lemma blameless_bind {A B} (r : Res A) (f : A → Res B) :
  blameless r → (∀ a, blameless (f a)) → blameless (res_bind r f).
Proof. destruct r as [a|e]; simpl; intros Hr Hf; [apply Hf|]. intros ? [= <-]. by apply Hr. Qed.
Lemma blameless_varchar n s : blameless (varchar n s).
Proof.
  unfold varchar. destruct (split_chars n s). destruct (all_spaces _); [apply blameless_ok|apply blameless_pg].
Qed.
Lemma varchar_err n s e : varchar n s = Err e → e = value_too_long.
Proof. unfold varchar. destruct (split_chars n s) as [u v]. destruct (all_spaces v); congruence. Qed.
Lemma blameless_bigint z : blameless (bigint z).
Proof. unfold bigint. destruct (decide _); [apply blameless_ok|apply blameless_pg]. Qed.
Lemma blameless_uuid `{Env} s : blameless (uuid_param s).
Proof. unfold uuid_param. destruct (uuid_in s); [apply blameless_ok|apply blameless_pg]. Qed.
Lemma blameless_insert {A} name (t : gmap string A) id row : blameless (insert_pk name t id row).
Proof. unfold insert_pk. destruct (t !! id); [apply blameless_pg|apply blameless_ok]. Qed.

Lemma alien_bind {A B} (m : M A) (f : A → M B) :
  fails_alien m → (∀ a, fails_alien (f a)) → fails_alien (bind m f).
Proof.
  intros Hm Hf w. specialize (Hm w). unfold bind. destruct (m w) as [[a|e] w']; [apply Hf|].
  intros ? [= <-]. by apply Hm.
Qed.
Lemma alien_wrap {A} pre (m : M A) : fails_alien m → fails_alien (wrap_err pre m).
Proof.
  intros Hm w. specialize (Hm w). unfold wrap_err. destruct (m w) as [[a|e] w']; [by intros ?|].
  intros ? [= <-]. exact (Hm _ eq_refl).
Qed.
Lemma alien_query `{Env} {A} (f : Ctx → DB → Res (A * DB)) :
  (∀ c d, blameless (f c d)) → fails_alien (query f).
Proof.
  intros Hf w. unfold query. destruct (env_outcome (w_tick w)); [|by intros ? [= <-]..].
  specialize (Hf (ctx w) (w_db w)). destruct (f _ _) as [[a d]|e]; [by intros ?|].
  intros ? [= <-]. by apply Hf.
Qed.
Lemma alien_ret {A} (a : A) : fails_alien (ret a).
Proof. intros w e. done. Qed.

Create HintDb alien_db discriminated.
#[local] Hint Resolve blameless_ok blameless_pg blameless_guard blameless_varchar blameless_bigint
  blameless_uuid blameless_insert alien_ret : alien_db.

(** A statement fails as the database does. *)
Ltac solve_blameless :=
  intros; repeat (first [apply blameless_bind; [|intros] | case_match]);
  unfold check_constraint, references, unique_violation, check_violation, foreign_key_violation in *;
  eauto with alien_db.

Section Tail.
Context `{UuidLaws}.

#[local] Existing Instance Ledger.postgresRepository.
#[local] Existing Instance Outbox.postgresRepository.

Lemma alien_update_balance op amount id : fails_alien (update_balance op amount id).
Proof.
  apply alien_bind; [apply alien_query; unfold sql_update_balance; solve_blameless|].
  intros _ w e. by rewrite take_lock_run.
Qed.

Lemma blameless_sum cur es x y : blameless (sum_entries cur es x y).
Proof.
  revert x y. induction es as [|e es IH]; intros x y; simpl; [apply blameless_ok|].
  repeat case_match; try apply IH; by intros ? [= <-].
Qed.

Lemma blameless_check es : blameless (check_balanced es).
Proof.
  unfold check_balanced. destruct es as [|e1 [|e2 es]]; [by intros ? [= <-]..|].
  apply blameless_bind; [apply blameless_sum|]. intros [x y]. case_match; [apply blameless_ok|].
  by intros ? [= <-].
Qed.

Lemma alien_insert_entries es : fails_alien (insert_entries es).
Proof.
  induction es as [|e es IH]; cbn [insert_entries]; [apply alien_ret|].
  apply alien_bind; [apply alien_query; unfold sql_insert_entry; solve_blameless|].
  intros r. apply alien_bind; [done|]. intros rest. apply alien_ret.
Qed.

Lemma alien_create_transaction txn : fails_alien (CreateTransaction txn).
Proof.
  apply alien_bind; [intros w; apply blameless_check|]. intros _.
  apply alien_bind; [apply alien_query; unfold sql_insert_transaction; solve_blameless|].
  intros r. apply alien_bind; [apply alien_insert_entries|]. intros es. apply alien_ret.
Qed.

Lemma alien_insert_event topic payload : fails_alien (InsertEvent topic payload).
Proof. apply alien_query. unfold sql_insert_event. solve_blameless. Qed.

(** [webhook_statements] from the counter on. *)
Definition webhook_tail (p : Payment) (account : string) (status : PaymentStatus) : M unit :=
  RecordPayment status ;;
  (if bool_decide (status = StatusSucceeded) then credit_wallet p account else ret tt) ;;
  wrap_err "failed to insert outbox event: "
    (InsertEvent "payment.events" (payment_event p status)) ;;
  ret tt.

Lemma alien_tail p account status : fails_alien (webhook_tail p account status).
Proof.
  apply alien_bind; [by intros w e|]. intros _.
  apply alien_bind; [|intros _; apply alien_bind; [apply alien_wrap, alien_insert_event|];
                      intros _; apply alien_ret].
  case_bool_decide; [|apply alien_ret]. unfold credit_wallet.
  apply alien_bind; [apply alien_update_balance|]. intros _.
  apply alien_bind; [apply alien_wrap, alien_create_transaction|]. intros _. apply alien_ret.
Qed.

(** ** The statements, forwards *)

(** What the columns guarantee of the payments beyond [payments_ok]. *)
Definition columns_fit (d : DB) : Prop :=
  ∀ id p, payments_t d !! id = Some p →
    is_ok (varchar 255 id) ∧ is_ok (varchar 3 (Payment_Currency p)).

Lemma payment_of_some ref d id p :
  payment_of ref d = Some (id, p) →
  payments_t d !! id = Some p ∧ Payment_ProviderReference p = ref.
Proof.
  intros [Hin Href]%List.find_some. apply bool_decide_eq_true in Href.
  split; [|done]. by apply elem_of_map_to_list, list_elem_of_In.
Qed.

(** The joined query finds the payment that the specification names. *)
Lemma lock_payment_finds ref c d :
  payments_ok d →
  sql_lock_payment ref c d =
  match payment_of ref d with
  | Some (id, p) =>
    match wallets_t d !! Payment_WalletID p with
    | Some wlt => Ok (scan_payment id p, wallets.Wallet_AccountID wlt, d)
    | None => Err pgx_ErrNoRows
    end
  | None => Err pgx_ErrNoRows
  end.
Proof.
  intros Hok. unfold sql_lock_payment, payment_of.
  assert (Hall : Forall (λ kp, is_Some (wallets_t d !! Payment_WalletID kp.2))
                   (map_to_list (payments_t d))).
  { apply Forall_forall. intros [id p] Hin%elem_of_map_to_list. apply (Hok _ _ Hin). }
  induction Hall as [|[id p] l [wlt Hw] _ IH]; [done|]. simpl in Hw |- *.
  case_bool_decide; [|by rewrite decide_False]. by rewrite decide_True, Hw by done.
Qed.
Lemma credit_creditable id p wlt w u w' :
  canonical (Payment_WalletID p) → wallets_t (w_db w) !! Payment_WalletID p = Some wlt →
  credit_wallet (scan_payment id p) (wallets.Wallet_AccountID wlt) w = (Ok u, w') →
  creditable p (w_db w) = true.
Proof.
  intros Hc Hw (d1 & [_ Hmax] & _ & -> & Hpost)%credit_wallet_ok; [|done..].
  destruct Hpost as (hdr & rows & t & _ & _ & _ & _ & Hrows & _).
  apply Forall2_cons_inv_l in Hrows as (row & rows' & (_ & Hu & Ha & _) & _ & _).
  simpl in Hu, Ha. unfold creditable. rewrite Hu, Hw, bool_decide_eq_true_2 by done. by apply Z.leb_le.
Qed.

Lemma credit_available id p wlt w :
  no_faults (w_tick w) → supplied w → wallets_ok (w_db w) → canonical (Payment_WalletID p) →
  0 < Payment_Amount p → in_int64 (Payment_Amount p) →
  wallets_t (w_db w) !! Payment_WalletID p = Some wlt →
  is_ok (varchar 255 id) → is_ok (varchar 3 (Payment_Currency p)) →
  creditable p (w_db w) = true →
  ∃ w', credit_wallet (scan_payment id p) (wallets.Wallet_AccountID wlt) w = (Ok tt, w') ∧
    supplied w' ∧ (w_tick w ≤ w_tick w')%nat.
Proof.
  intros Hf Hs Hok Hc Hpos Hin Hw Hid Hcur Hcr. unfold creditable in Hcr.
  destruct (uuid_in platform_account) as [platform|] eqn:Hplat; [|done]. rewrite Hw in Hcr.
  apply andb_true_iff in Hcr as [Hacc%bool_decide_eq_true Hmax%Z.leb_le].
  destruct (Hok _ _ Hw) as (Hca & Haccw & _ & Hbal).
  pose proof (update_balance_fine Z.add (Payment_Amount p) _ wlt w Hc (no_faults_now _ Hf) Hin Hw)
    as Hu.
  cbn zeta in Hu. rewrite !decide_True in Hu by (unfold in_int64, int64_min in *; lia).
  set (w1 := set_locks _ _) in Hu.
  assert (Hs1 : supplied w1) by by apply (supplied_update_wallet _ wlt).
  destruct (ledger_available (payment_ledger_txn (scan_payment id p) (wallets.Wallet_AccountID wlt))
    w1 (no_faults_S _ Hf) Hs1) as (txn & w2 & Hl & Hs2 & Ht2).
  { split; [split; [simpl; lia|split]|].
    - exists (Payment_Currency p). unfold valid_entry.
      repeat (apply Forall_cons; split); [simpl; auto..|done].
    - reflexivity.
    - split; [done|]. split; [done|]. split; [done|].
      repeat (apply Forall_cons; split); [simpl; eauto..|done]. }
  exists w2. split; [|split; [exact Hs2|rewrite Ht2; simpl; lia]].
  unfold credit_wallet. cbn [Payment_Amount Payment_WalletID scan_payment].
  rewrite (bind_eq _ _ _ _ _ Hu). unfold bind, wrap_err. by rewrite Hl.
Qed.

(** From the counter on, a webhook succeeds unless it has to credit what cannot be credited. *)
Lemma tail_decides id p wlt status w :
  no_faults (w_tick w) → supplied w → wallets_ok (w_db w) → canonical (Payment_WalletID p) →
  0 < Payment_Amount p → in_int64 (Payment_Amount p) →
  wallets_t (w_db w) !! Payment_WalletID p = Some wlt →
  is_ok (varchar 255 id) → is_ok (varchar 3 (Payment_Currency p)) →
  let '(r, w') := webhook_tail (scan_payment id p) (wallets.Wallet_AccountID wlt) status w in
  if bool_decide (status = StatusSucceeded) && negb (creditable p (w_db w))
  then ∃ e, r = Err e ∧ alien e else r = Ok tt ∧ (w_tick w ≤ w_tick w')%nat.
Proof.
  intros Hf Hs Hok Hc Hpos Hin Hw Hid Hcur. set (q := scan_payment id p).
  destruct (webhook_tail _ _ _ _) as [r w'] eqn:Hrun.
  pose proof (alien_tail q (wallets.Wallet_AccountID wlt) status w) as Hal. rewrite Hrun in Hal.
  unfold webhook_tail in Hrun. unfold bind at 1 in Hrun. cbn [RecordPayment] in Hrun.
  set (w1 := set_payments_total _ w) in Hrun.
  assert (Hcred : (bool_decide (status = StatusSucceeded) && negb (creditable p (w_db w)) = true ∧
      ¬ is_ok r) ∨ (bool_decide (status = StatusSucceeded) && negb (creditable p (w_db w)) = false ∧
    ∃ w2, (if bool_decide (status = StatusSucceeded) then credit_wallet q (wallets.Wallet_AccountID wlt)
           else ret tt) w1 = (Ok tt, w2) ∧ supplied w2 ∧ (w_tick w ≤ w_tick w2)%nat)).
  { case_bool_decide; cbn [andb]; [|right; split; [done|]; by exists w1].
    destruct (creditable p (w_db w)) eqn:Hcr; [right|left]; split; try done.
    - by apply (credit_available id p wlt w1).
    - intros [u ->]%is_ok_inv. apply bind_ok in Hrun as (u' & w2 & Hcw & _).
      apply credit_creditable in Hcw; [|done..]. change (w_db w1) with (w_db w) in Hcw. congruence. }
  destruct Hcred as [[-> Hno]|(-> & w2 & Hcw & Hs2 & Ht2)].
  { destruct r as [u|e]; [by destruct Hno|]. exists e. split; [done|by apply Hal]. }
  rewrite (bind_eq _ _ _ _ _ Hcw) in Hrun.
  destruct (insert_event_available "payment.events" (payment_event q status) w2) as (w3 & He & _ & Ht3);
    [by apply (no_faults_le (w_tick w))|done|done|].
  unfold bind, wrap_err in Hrun. rewrite He in Hrun. injection Hrun as <- <-. split; [done|lia].
Qed.
(** The result that goes with a verdict. *)
Definition decided (v : Verdict) (r : Res unit) : Prop :=
  match v with
  | Applied => r = Ok tt
  | Duplicate => r = Err ErrDuplicateWebhook
  | UnknownPayment => r = Err ErrPaymentNotFound
  | Forbidden current next =>
    r = Err (fmt_Errorf "" ErrInvalidStateTransition
               (": cannot transition from " +:+ current +:+ " to " +:+ next))
  | Impossible => ∃ e, r = Err e ∧ alien e
  end.

Lemma decided_response v r : decided v r → webhook_response r = answer v.
Proof.
  destruct v; simpl; [by intros ->..|]. intros (e & -> & He). by apply alien_response.
Qed.

Lemma seen_known event_id event d :
  varchar 255 (Webhook_EventID event) = Ok event_id → seen event_id d = true →
  known_event "simulator" event d.
Proof.
  intros He (id & e & Hid & Hp & Hi)%bool_decide_eq_true. exists id, e.
  split; [done|]. rewrite Hp, Hi. split; [reflexivity|done].
Qed.

(** A new event is stored. *)
Lemma insert_new_event event event_id event_type payload w :
  env_outcome (w_tick w) = Fine → supplied w →
  varchar 255 (Webhook_EventID event) = Ok event_id →
  varchar 100 (Webhook_EventType event) = Ok event_type → seen event_id (w_db w) = false →
  ∃ t, let w' := Runtime.set_db (set_webhook_events t (w_db w)) (bump w) in
    query (sql_insert_webhook "simulator" event payload) w = (Ok tt, w') ∧ supplied w'.
Proof.
  intros Hf Hs Hid Hty Hnew. pose proof (supplied_now _ Hs) as (_&_&_&_&_&_&_&Hn&_).
  apply bool_decide_eq_false in Hnew.
  edestruct (query_insert (sql_insert_webhook "simulator" event payload) w) as [Hq Hs'];
    [done|done| | |].
  { unfold sql_insert_webhook. rewrite Hid, Hty.
    change (varchar 50 "simulator") with (Ok "simulator").
    change (varchar 50 WebhookStatusProcessed) with (Ok WebhookStatusProcessed).
    cbn [res_bind c_uuid ctx]. rewrite (insert_pk_fresh _ _ _ _ Hn). cbn [res_bind].
    rewrite (bool_decide_eq_true_2 _ Hnew). reflexivity. }
  { solve_unused. }
  eexists. split; [exact Hq|exact Hs'].
Qed.

(** Updating a payment does not use up an id. *)
Lemma supplied_update_payment id p p' w :
  supplied w → payments_t (w_db w) !! id = Some p →
  supplied (Runtime.set_db (set_payments (<[id := p']> (payments_t (w_db w))) (w_db w)) (bump w)).
Proof.
  intros [Hi Hu] Hp. split; simpl; [intros i j ??; apply Hi; lia|].
  intros i Hle. specialize (Hu i ltac:(lia)). unfold unused in *. simpl.
  destruct Hu as (?&?&?&?&?&?&Hn&?&?&?&?). repeat split; try done.
  rewrite lookup_insert_ne; [done|]. intros ->. congruence.
Qed.

(** The payment is found and may make the transition: what is left is the tail. *)
Lemma webhook_reaches_tail event t payload w id p wlt :
  no_faults (w_tick w) → supplied w → payments_ok (w_db w) →
  query (sql_insert_webhook "simulator" event payload) w =
    (Ok tt, Runtime.set_db (set_webhook_events t (w_db w)) (bump w)) →
  supplied (Runtime.set_db (set_webhook_events t (w_db w)) (bump w)) →
  payment_of (Webhook_ReferenceID event) (w_db w) = Some (id, p) →
  wallets_t (w_db w) !! Payment_WalletID p = Some wlt →
  isValidTransition (Payment_Status p) (Webhook_Status event) = true →
  ∃ w', webhook_statements "simulator" event payload w =
      webhook_tail (scan_payment id p) (wallets.Wallet_AccountID wlt) (Webhook_Status event) w' ∧
    supplied w' ∧ (w_tick w ≤ w_tick w')%nat ∧
    wallets_t (w_db w') = wallets_t (w_db w) ∧ accounts (w_db w') = accounts (w_db w).
Proof.
  intros Hf Hs Hok Hq Hs1 Hpay Hw Hvalid. set (w1 := Runtime.set_db _ _) in Hq, Hs1.
  apply payment_of_some in Hpay as Hrow. destruct Hrow as [Hrow _].
  destruct (Hok _ _ Hrow) as (Hcid & _).
  assert (Hlock : lock_payment (Webhook_ReferenceID event) w1 =
    (Ok (scan_payment id p, wallets.Wallet_AccountID wlt),
     set_locks (add_lock ("payments", id) (w_locks w1)) (bump w1))).
  { unfold lock_payment, bind at 1. rewrite query_fine by (apply Hf; simpl; lia).
    rewrite lock_payment_finds by exact Hok. change (payment_of ?r (w_db w1)) with (payment_of r (w_db w)).
    rewrite Hpay. change (wallets_t (w_db w1)) with (wallets_t (w_db w)). rewrite Hw.
    unfold bind. rewrite take_lock_run. reflexivity. }
  set (w2 := set_locks _ _) in Hlock.
  set (p' := set_payment_status (Webhook_Status event) (w_now w2) p).
  assert (Hupd : query (sql_update_payment (Webhook_Status event) id) w2 =
    (Ok tt, Runtime.set_db (set_payments (<[id := p']> (payments_t (w_db w2))) (w_db w2)) (bump w2))).
  { rewrite query_fine by (apply Hf; simpl; lia). unfold sql_update_payment.
    rewrite (uuid_param_some _ _ Hcid). cbn [res_bind].
    change (payments_t (w_db w2)) with (payments_t (w_db w)). rewrite Hrow.
    by rewrite (valid_transition_fits _ _ Hvalid). }
  assert (Hs2 : supplied w2) by (apply (uuid_supply_le (w_tick w1)); [simpl; lia|exact Hs1]).
  eexists. split; [|split; [exact (supplied_update_payment id p p' w2 Hs2 Hrow)|]].
  - unfold webhook_statements, bind at 1, map_err at 1. rewrite Hq.
    unfold bind at 1, map_err at 1. rewrite Hlock. cbn [Payment_Status Payment_ID scan_payment].
    unfold guard. rewrite Hvalid, bind_ret, (bind_eq _ _ _ _ _ Hupd). reflexivity.
  - split; [simpl; lia|]. done.
Qed.
(** All the statements. *)
Lemma webhook_statements_decide event payload w :
  no_faults (w_tick w) → supplied w → payments_ok (w_db w) → columns_fit (w_db w) →
  wallets_ok (w_db w) →
  let '(r, w') := webhook_statements "simulator" event payload w in
  decided (verdict event (w_db w)) r ∧ (is_ok r → w_tick w ≤ w_tick w')%nat.
Proof.
  intros Hf Hs Hok Hfit Hwok. pose proof (no_faults_now _ Hf) as Hnow. unfold verdict.
  assert (Hrefused : ∀ code msg, code ≠ "23505" →
    sql_insert_webhook "simulator" event payload (ctx w) (w_db w) = Err (pg_error code msg) →
    let '(r, w') := webhook_statements "simulator" event payload w in
    decided Impossible r ∧ (is_ok r → w_tick w ≤ w_tick w')%nat).
  { intros code msg Hcode Hq. unfold webhook_statements, bind at 1, map_err at 1.
    rewrite query_fine, Hq by done. simpl. rewrite bool_decide_eq_false_2 by congruence.
    split; [|done]. by eexists. }
  destruct (varchar 255 (Webhook_EventID event)) as [event_id|e] eqn:Hid.
  2: { apply (Hrefused "22001" "value too long for type character varying"); [done|].
       unfold sql_insert_webhook. rewrite Hid. by rewrite (varchar_err _ _ _ Hid). }
  destruct (varchar 100 (Webhook_EventType event)) as [event_type|e] eqn:Hty.
  2: { apply (Hrefused "22001" "value too long for type character varying"); [done|].
       unfold sql_insert_webhook. rewrite Hid, Hty. by rewrite (varchar_err _ _ _ Hty). }
  destruct (seen event_id (w_db w)) eqn:Hseen.
  { rewrite (webhook_statements_known _ _ _ _ Hnow (seen_known _ _ _ Hid Hseen)) by by rewrite Hty.
    done. }
  destruct (insert_new_event event event_id event_type payload w Hnow Hs Hid Hty Hseen)
    as (t & Hq & Hs1).
  destruct (payment_of (Webhook_ReferenceID event) (w_db w)) as [[id p]|] eqn:Hpay.
  2: { unfold webhook_statements, bind at 1, map_err at 1. rewrite Hq. unfold bind at 1, map_err at 1.
       unfold lock_payment, bind at 1. rewrite query_fine by (apply Hf; simpl; lia).
       rewrite lock_payment_finds by exact Hok.
       change (payment_of ?r (w_db (Runtime.set_db (set_webhook_events t (w_db w)) (bump w))))
         with (payment_of r (w_db w)). by rewrite Hpay. }
  apply payment_of_some in Hpay as Hrow. destruct Hrow as [Hrow _].
  destruct (Hok _ _ Hrow) as (_ & Hcw & [wlt Hw] & Hpos & Hin), (Hfit _ _ Hrow) as [Hfid Hcur].
  destruct (isValidTransition _ _) eqn:Hvalid; cbn [negb].
  - destruct (webhook_reaches_tail event t payload w id p wlt Hf Hs Hok Hq Hs1 Hpay Hw Hvalid)
      as (w' & -> & Hs' & Hle & Hww & Hacc).
    assert (Hwok' : wallets_ok (w_db w')).
    { intros i x Hx. rewrite Hww in Hx. rewrite Hacc. exact (Hwok i x Hx). }
    pose proof (tail_decides id p wlt (Webhook_Status event) w' (no_faults_le _ _ Hle Hf) Hs' Hwok'
      Hcw Hpos Hin ltac:(by rewrite Hww) Hfid Hcur) as Htail.
    destruct (webhook_tail _ _ _ w') as [r w2].
    replace (creditable p (w_db w')) with (creditable p (w_db w)) in Htail
      by (unfold creditable; by rewrite Hww, Hacc).
    destruct (_ && _); [destruct Htail as (e & -> & He); split; [by exists e|done]|].
    destruct Htail as [-> ?]. split; [done|lia].
  - unfold webhook_statements, bind at 1, map_err at 1. rewrite Hq. unfold bind at 1, map_err at 1.
    unfold lock_payment, bind at 1. rewrite query_fine by (apply Hf; simpl; lia).
    rewrite lock_payment_finds by exact Hok.
    change (payment_of ?r (w_db (Runtime.set_db (set_webhook_events t (w_db w)) (bump w))))
      with (payment_of r (w_db w)). rewrite Hpay. simpl. rewrite Hw. simpl.
    unfold guard. by rewrite Hvalid.
Qed.
(** The transaction around them. *)
Lemma process_webhook_decides event j w :
  no_faults (w_tick w) → supplied w → payments_ok (w_db w) → columns_fit (w_db w) →
  wallets_ok (w_db w) → decode_WebhookPayload j = Some event →
  let '(r, w') := run (ProcessWebhook "simulator" (Some j)) w in
  decided (verdict event (w_db w)) r ∧
  match verdict event (w_db w) with
  | Applied => webhook_effect "simulator" event j (w_db w) (w_db w')
  | _ => w_db w' = w_db w
  end.
Proof.
  intros Hf Hs Hok Hfit Hwok Hdec.
  destruct (run (ProcessWebhook "simulator" (Some j)) w) as [r0 w'] eqn:Hrun.
  pose proof Hrun as Hcases. apply process_webhook_cases in Hcases; [|done].
  cbn [ProcessWebhook serviceImpl] in Hrun. rewrite Hdec, run_call in Hrun.
  pose proof (webhook_statements_decide event j (bump (start w)) (no_faults_S _ Hf)
    (uuid_supply_le (w_tick w) (S (w_tick w)) _ ltac:(lia) Hs) Hok Hfit Hwok) as Hd.
  destruct (webhook_statements _ _ _ _) as [r1 w1] eqn:Hst. destruct Hd as [Hd Htick].
  change (w_db (bump (start w))) with (w_db w) in Hd.
  destruct r1 as [u|e].
  - rewrite (with_tx_fine _ _ _ _ (no_faults_now _ Hf) Hst) in Hrun
      by (apply Hf; specialize (Htick I); simpl in Htick; lia).
    injection Hrun as <- <-. split; [exact Hd|].
    destruct (verdict event (w_db w)); try done; [|by destruct Hd as (e & [=] & _)].
    destruct Hcases as [(e & [=] & _)|(j' & ev & [= <-] & Hdec' & He & _)].
    rewrite Hdec in Hdec'. by injection Hdec' as <-.
  - rewrite (with_tx_err _ _ _ _ (no_faults_now _ Hf) Hst) in Hrun. injection Hrun as <- <-.
    split; [exact Hd|]. by destruct (verdict event (w_db w)).
Qed.
End Tail.

(** ** Creating a payment *)

(** The provider's draw at this point: the reference and the status of a new payment. *)
Definition drawn `{Env} (w : World) : option ProviderResponse :=
  match (ProcessPayment 0 "" w).1 with Ok resp => Some resp | Err _ => None end.

(** The schema takes a payment under this provider reference. *)
Definition accepts `{Env} (walletID : string) (amount : Z) (currency ref : string) (d : DB) : bool :=
  match uuid_in walletID, varchar 3 currency with
  | Some wallet, Ok _ =>
    bool_decide (is_Some (wallets_t d !! wallet)) && (0 <? amount) && bool_decide (in_int64 amount) &&
    bool_decide (¬ map_Exists (λ _ p, Payment_ProviderReference p = ref) (payments_t d))
  | _, _ => false
  end.

Section Creation.
Context `{UuidLaws}.

Lemma letters_get i : (i < String.length letters)%nat → is_Some (String.get i letters).
Proof.
  change (String.length letters) with 62%nat. intros Hi.
  assert (Hall : forallb (λ i, bool_decide (is_Some (String.get i letters))) (seq 0 62) = true)
    by (vm_compute; reflexivity).
  rewrite forallb_forall in Hall. eapply bool_decide_eq_true, Hall, in_seq. lia.
Qed.

(** Every draw is a letter, so that the reference is always made. *)
Lemma generate_draws n w :
  ∃ s w', generateRandomString n w = (Ok s, w') ∧ String.length s = n ∧
    w_db w' = w_db w ∧ w_tick w' = (n + w_tick w)%nat.
Proof.
  revert w. induction n as [|n IH]; intros w; [by exists EmptyString, w|].
  cbn [generateRandomString]. destruct (IH (bump w)) as (s & w' & Hs & Hlen & Hd & Ht).
  set (l := Z.of_nat (String.length letters)).
  destruct (letters_get (Z.to_nat (env_intn (w_tick w) l mod l))) as [c Hc].
  { pose proof (Z.mod_pos_bound (env_intn (w_tick w) l) l ltac:(done)). lia. }
  exists (String c s), w'. split; [|split; [simpl; by rewrite Hlen|split; [done|rewrite Ht; simpl; lia]]].
  unfold bind at 1, rand_Intn. fold l. rewrite (bind_eq _ _ _ _ _ Hs), Hc. reflexivity.
Qed.

Lemma process_payment_draws amount currency w :
  ∃ resp w', ProcessPayment amount currency w = (Ok resp, w') ∧ drawn w = Some resp ∧
    String.length (Provider_ReferenceID resp) = 16%nat ∧
    (Provider_Status resp = StatusProcessing ∨ Provider_Status resp = StatusFailed) ∧
    w_db w' = w_db w ∧ w_tick w' = (14 + w_tick w)%nat.
Proof.
  unfold drawn. change (ProcessPayment 0 "" w) with (ProcessPayment amount currency w).
  destruct (generate_draws 12 (bump w)) as (s & w' & Hs & Hlen & Hd & Ht).
  assert (Hrun : ProcessPayment amount currency w =
    (Ok (mkProviderResponse ("ext_" +:+ s)
           (if negb (Qle_bool ten_percent (env_float32 (w_tick w'))) then StatusFailed
            else StatusProcessing)), bump w')).
  { unfold ProcessPayment. unfold bind at 1, rand_Intn at 1. rewrite (bind_eq _ _ _ _ _ Hs).
    unfold bind, rand_Float32. by destruct (negb _). }
  rewrite Hrun. eexists _, _. split; [reflexivity|]. split; [reflexivity|].
  split; [change (4 + String.length s = 16)%nat; by rewrite Hlen|]. split; [simpl; destruct (negb _); auto|].
  split; [exact Hd|simpl in *; lia].
Qed.

(** The insert succeeds exactly when the schema takes the payment. *)
Lemma insert_payment_decides p w :
  env_outcome (w_tick w) = Fine → supplied w → varchar 50 (Payment_Status p) = Ok (Payment_Status p) →
  varchar 255 (Payment_ProviderReference p) = Ok (Payment_ProviderReference p) →
  if accepts (Payment_WalletID p) (Payment_Amount p) (Payment_Currency p)
       (Payment_ProviderReference p) (w_db w)
  then ∃ d, exec (sql_insert_payment p) w =
      (Ok (env_uuid (w_tick w), env_now (w_tick w), env_now (w_tick w)), Runtime.set_db d (bump (start w))) ∧
    created p (env_uuid (w_tick w)) (w_db w) d
  else ∃ e, exec (sql_insert_payment p) w = (Err e, bump (start w)).
Proof.
  intros Hf Hs Hst Href. pose proof (supplied_now _ Hs) as (_&_&_&_&_&_&Hn&_).
  assert (Hq : if accepts (Payment_WalletID p) (Payment_Amount p) (Payment_Currency p)
                    (Payment_ProviderReference p) (w_db w)
    then ∃ d, sql_insert_payment p (ctx (start w)) (w_db w) =
      Ok (env_uuid (w_tick w), env_now (w_tick w), env_now (w_tick w), d)
    else ∃ e, sql_insert_payment p (ctx (start w)) (w_db w) = Err e).
  { unfold accepts, sql_insert_payment, uuid_param, bigint, check_constraint, references.
    rewrite Hst, Href. destruct (uuid_in (Payment_WalletID p)) as [wallet|]; cbn [res_bind]; [|eauto].
    destruct (varchar 3 (Payment_Currency p)) as [cur|]; cbn [res_bind];
      [|destruct (decide _); cbn [res_bind]; eauto].
    cbn [c_uuid c_now ctx start w_tick w_now].
    destruct (decide (in_int64 (Payment_Amount p))) as [Hin|Hin]; cbn [res_bind];
      [rewrite (bool_decide_eq_true_2 (in_int64 _)) by done|
       rewrite (bool_decide_eq_false_2 (in_int64 _)) by done; rewrite ?andb_false_r; cbn [andb]; eauto].
    destruct (0 <? Payment_Amount p); cbn [guard_res res_bind andb]; [|rewrite ?andb_false_r; cbn [andb]; eauto].
    rewrite (insert_pk_fresh _ _ _ _ Hn). cbn [res_bind].
    destruct (bool_decide (¬ _)); cbn [guard_res res_bind];
      [|rewrite ?andb_false_r; cbn [andb]; eauto].
    destruct (bool_decide (is_Some _)); cbn [guard_res res_bind andb]; eauto. }
  rewrite exec_fine by done. destruct (accepts _ _ _ _ _).
  - destruct Hq as [d Hq]. rewrite Hq. exists d. split; [done|].
    eapply sql_insert_payment_ok; [|exact Hq]. apply env_uuid_canonical.
  - destruct Hq as [e ->]. by exists e.
Qed.
#[local] Existing Instance Ledger.postgresRepository.
#[local] Existing Instance Outbox.postgresRepository.

(** The payment that [CreatePayment] returns. *)
Definition new_payment (id walletID : string) (amount : Z) (currency : string)
    (resp : ProviderResponse) (at_ : Z) : Payment :=
  mkPayment id walletID amount currency (Provider_Status resp) (Provider_ReferenceID resp) at_ at_.

Lemma create_payment_run walletID amount currency w :
  no_faults (w_tick w) → supplied w →
  ∃ resp, drawn w = Some resp ∧
    (Provider_Status resp = StatusProcessing ∨ Provider_Status resp = StatusFailed) ∧
    let '(r, w') := run (CreatePayment walletID amount currency) w in
    if accepts walletID amount currency (Provider_ReferenceID resp) (w_db w)
    then ∃ at_, let p := new_payment (env_uuid (14 + w_tick w)) walletID amount currency resp at_ in
      r = Ok p ∧ created p (Payment_ID p) (w_db w) (w_db w') ∧ supplied w' ∧
      (w_tick w ≤ w_tick w')%nat
    else (∃ e, r = Err e) ∧ w_db w' = w_db w.
Proof.
  intros Hf Hs.
  destruct (process_payment_draws amount currency w) as (resp & w1 & Hdraw & Hd & Hlen & Hst & Hdb & Ht).
  exists resp. split; [done|]. split; [done|]. cbn [CreatePayment serviceImpl].
  rewrite run_try, run_call, Hdraw. set (p := mkPayment "" walletID amount currency _ _ 0 0).
  assert (Hs1 : supplied w1) by (unfold supplied; rewrite Hdb; apply (uuid_supply_le (w_tick w)); [lia|done]).
  pose proof (insert_payment_decides p w1 (Hf (w_tick w1) ltac:(lia)) Hs1) as Hins. rewrite Hdb in Hins.
  rewrite run_try, run_call. change (accepts (Payment_WalletID p) (Payment_Amount p) (Payment_Currency p)
    (Payment_ProviderReference p) (w_db w))
    with (accepts walletID amount currency (Provider_ReferenceID resp) (w_db w)) in Hins.
  assert (Hvst : varchar 50 (Payment_Status p) = Ok (Payment_Status p)).
  { simpl. by destruct Hst as [-> | ->]. }
  specialize (Hins Hvst ltac:(apply varchar_short; simpl; lia)).
  destruct (accepts _ _ _ _ _).
  - destruct Hins as (d & -> & Hc). rewrite run_try, run_call. exists (env_now (w_tick w1)).
    rewrite <- Ht. split; [done|]. split; [exact Hc|]. split; [|simpl; lia].
    destruct Hc as (row & _ & _ & _ & _ & _ & _ & _ & _ & _ & _ & _ & ->).
    apply (uuid_supply_insert (w_tick w1) (w_db w)); [by rewrite <- Hdb|]. solve_unused.
  - destruct Hins as [e ->]. split; [by exists e|exact Hdb].
Qed.
(** ** Funding *)

(** What [HandleDemoFund] tells the provider to have said. *)
Definition demo_report (p : Payment) : WebhookPayload :=
  mkWebhookPayload ("demo-event-" +:+ Payment_ID p) "payment.succeeded"
    (Payment_ProviderReference p) StatusSucceeded.

Lemma demo_payload_decoded p : decode_WebhookPayload (demo_payload p) = Some (demo_report p).
Proof. reflexivity. Qed.

Definition demo_success : Response :=
  mkResponse StatusOK (JsonBody (JObj [("status", JStr "success")])).

(** A payment that was just created is the one its reference names. *)
Lemma payment_of_created p id d d' ref :
  created p id d d' → varchar 255 (Payment_ProviderReference p) = Ok ref →
  ∃ row, payments_t d' = <[id := row]> (payments_t d) ∧ payment_of ref d' = Some (id, row) ∧
    Payment_ProviderReference row = ref ∧
    uuid_in (Payment_WalletID p) = Some (Payment_WalletID row) ∧
    Payment_Amount row = Payment_Amount p ∧
    varchar 50 (Payment_Status p) = Ok (Payment_Status row) ∧
    (∀ i q, payments_t d' !! i = Some q → Payment_ProviderReference q = ref → i = id ∧ q = row).
Proof.
  intros (row & _ & _ & Hw & _ & Ha & _ & _ & Hcur & Hst & Href & Hfresh & ->) Href'.
  rewrite Href in Href'. injection Href' as <-. exists row. simpl. split; [done|].
  assert (Honly : ∀ i q, <[id := row]> (payments_t d) !! i = Some q →
    Payment_ProviderReference q = Payment_ProviderReference row → i = id ∧ q = row).
  { intros i q [[<- <-]|[_ Hq]]%lookup_insert_Some Hqr; [done|]. by destruct (Hfresh _ _ Hq). }
  split; [|by split_and!]. unfold payment_of.
  destruct (List.find _ _) as [[id' p']|] eqn:Hfind.
  - apply payment_of_some in Hfind as [Hp' Href']. by destruct (Honly _ _ Hp' Href') as [-> ->].
  - exfalso. eapply List.find_none with (x := (id, row)) in Hfind.
    + by apply bool_decide_eq_false in Hfind.
    + apply list_elem_of_In, elem_of_map_to_list. simpl. by rewrite lookup_insert_eq.
Qed.

Lemma created_columns_fit p id d d' :
  created p id d d' → is_ok (varchar 255 id) →
  varchar 3 (Payment_Currency p) = Ok (Payment_Currency p) → columns_fit d → columns_fit d'.
Proof.
  intros (row & _ & _ & _ & _ & _ & _ & _ & Hcur & _ & _ & _ & ->) Hid Hsame Hfit id' q Hq.
  simpl in Hq. apply lookup_insert_Some in Hq as [[<- <-]|[_ Hq]]; [|by apply Hfit].
  split; [done|]. rewrite Hcur in Hsame. injection Hsame as ->. by rewrite Hcur.
Qed.
(** A demo funding whose payment is taken is answered by the verdict on its event. *)
Lemma demo_fund_run `{JsonText} r req w :
  no_faults (w_tick w) → supplied w → payments_ok (w_db w) → columns_fit (w_db w) →
  wallets_ok (w_db w) → is_ok (varchar 255 (env_uuid (14 + w_tick w))) →
  decode_body decode_CreatePaymentRequest r = Some req →
  varchar 3 (CreatePayment_Currency req) = Ok (CreatePayment_Currency req) →
  ∃ pr, drawn w = Some pr ∧
    let walletID := CreatePayment_WalletID req in let amount := CreatePayment_Amount req in
    let '(resp, w') := run (HandleDemoFund r) w in
    accepts walletID amount (CreatePayment_Currency req) (Provider_ReferenceID pr) (w_db w) = true →
    ∃ at_ d1 res, let p := new_payment (env_uuid (14 + w_tick w)) walletID amount
                            (CreatePayment_Currency req) pr at_ in
      created p (Payment_ID p) (w_db w) d1 ∧ decided (verdict (demo_report p) d1) res ∧
      resp = match res with
             | Ok _ => demo_success
             | Err e => http_Error (Error e) StatusInternalServerError
             end ∧
      match verdict (demo_report p) d1 with
      | Applied => webhook_effect "simulator" (demo_report p) (demo_payload p) d1 (w_db w')
      | _ => w_db w' = d1
      end.
Proof.
  intros Hf Hs Hok Hfit Hwok Hid Hreq Hcur.
  destruct (create_payment_run (CreatePayment_WalletID req) (CreatePayment_Amount req)
    (CreatePayment_Currency req) w Hf Hs) as (pr & Hdraw & _ & Hrun).
  exists pr. split; [done|]. intros walletID amount. unfold HandleDemoFund. rewrite Hreq, run_bind.
  fold walletID amount in Hrun |- *.
  destruct (run (CreatePayment walletID amount (CreatePayment_Currency req)) w) as [r1 w1].
  destruct (accepts _ _ _ _ _); [|by destruct (run _ w1)].
  destruct Hrun as (at_ & -> & Hc & Hs1 & Ht1). set (p := new_payment _ _ _ _ _ _) in *.
  assert (Hwok1 : wallets_ok (w_db w1)).
  { destruct Hc as (row & _ & _ & _ & _ & _ & _ & _ & _ & _ & _ & _ & ->). exact Hwok. }
  pose proof (process_webhook_decides (demo_report p) (demo_payload p) w1
    (no_faults_le _ _ Ht1 Hf) Hs1 (created_ok _ _ _ _ Hc Hok)
    (created_columns_fit _ _ _ _ Hc Hid Hcur Hfit) Hwok1 (demo_payload_decoded p)) as Hp.
  rewrite run_bind. destruct (run (ProcessWebhook _ _) w1) as [r2 w2]. destruct Hp as [Hd Hdb].
  destruct r2 as [u|e]; simpl; intros _; exists at_, (w_db w1); [exists (Ok u)|exists (Err e)]; by split_and!.
Qed.
(** What can be credited, in words. *)
Lemma creditable_iff p d :
  creditable p d = true ↔
  ∃ platform wlt, uuid_in platform_account = Some platform ∧ is_Some (accounts d !! platform) ∧
    wallets_t d !! Payment_WalletID p = Some wlt ∧
    wallets.Wallet_AvailableBalance wlt + Payment_Amount p <= int64_max.
Proof.
  unfold creditable. destruct (uuid_in platform_account) as [platform|]; [|naive_solver].
  destruct (wallets_t d !! Payment_WalletID p) as [wlt|]; [|naive_solver].
  rewrite andb_true_iff, bool_decide_eq_true, Z.leb_le. naive_solver.
Qed.

(** A payment of a positive amount to an existing wallet, under a new reference, is accepted. *)
Lemma accepts_new req w wallet wlt ref :
  varchar 3 (CreatePayment_Currency req) = Ok (CreatePayment_Currency req) →
  uuid_in (CreatePayment_WalletID req) = Some wallet → wallets_t (w_db w) !! wallet = Some wlt →
  0 < CreatePayment_Amount req <= int64_max → payment_of ref (w_db w) = None →
  accepts (CreatePayment_WalletID req) (CreatePayment_Amount req) (CreatePayment_Currency req)
    ref (w_db w) = true.
Proof.
  intros Hcur Hw Hwlt Hpos Hfresh.
  unfold accepts. rewrite Hw, Hcur, Hwlt. rewrite (bool_decide_eq_true_2 (is_Some _)) by by eexists.
  rewrite (proj2 (Z.ltb_lt _ _) (proj1 Hpos)), (bool_decide_eq_true_2 (in_int64 _))
    by (unfold in_int64, int64_min; lia). simpl.
  apply bool_decide_eq_true. intros (i & q & Hq & Href).
  eapply List.find_none with (x := (i, q)) in Hfresh.
  - by apply bool_decide_eq_false in Hfresh.
  - by apply list_elem_of_In, elem_of_map_to_list.
Qed.

(** The verdict on the event of a demo funding. *)
Lemma demo_verdict p row d :
  (String.length (Payment_ID p) ≤ 200)%nat → seen ("demo-event-" +:+ Payment_ID p) d = false →
  payment_of (Payment_ProviderReference p) d = Some (Payment_ID p, row) →
  Payment_Status row = StatusProcessing ∨ Payment_Status row = StatusFailed →
  verdict (demo_report p) d =
    if decide (Payment_Status row = StatusProcessing)
    then if creditable row d then Applied else Impossible
    else Forbidden StatusFailed StatusSucceeded.
Proof.
  intros Hlen Hseen Hof Hst. unfold verdict. cbn [demo_report Webhook_EventID Webhook_EventType
    Webhook_ReferenceID Webhook_Status].
  rewrite varchar_short by (change (11 + String.length (Payment_ID p) ≤ 255)%nat; lia).
  change (varchar 100 "payment.succeeded") with (Ok "payment.succeeded"). rewrite Hseen, Hof.
  destruct Hst as [-> | ->]; [by destruct (creditable row d)|done].
Qed.
End Creation.

(** ** Property *)

(** C14. The answer to a signed webhook is decided by the event and the database alone: when
    nothing outside fails, the handler gives exactly the answer of [verdict], for every event
    and in every state the schema allows; the database changes, by the effect of the webhook,
    exactly when the verdict is that it is applied.  A body that breaks off with an error is
    answered with 400, and nothing changes. *)
Theorem webhook_decides `{UuidLaws} `{JsonText} `{Hmac} secret r j event w :
  no_faults (w_tick w) → supplied w → payments_ok (w_db w) → columns_fit (w_db w) →
  wallets_ok (w_db w) →
  Header r "X-Webhook-Signature" ≠ "" →
  Header r "X-Webhook-Signature" = hmac_sha256_hex secret (Body r) →
  json_whole (Body r) = Some j → decode_WebhookPayload j = Some event →
  let '(resp, w') := run (HandleWebhook secret r) w in
  if Body_complete r then
    resp = answer (verdict event (w_db w)) ∧
    match verdict event (w_db w) with
    | Applied => webhook_effect "simulator" event j (w_db w) (w_db w')
    | _ => w_db w' = w_db w
    end
  else resp = http_Error "failed to read body" StatusBadRequest ∧ w_db w' = w_db w.
Proof.
  intros Hf Hs Hok Hfit Hwok Hne Hsig Hj Hdec. unfold HandleWebhook.
  rewrite (bool_decide_eq_false_2 _ Hne). destruct (Body_complete r); [|done].
  unfold VerifyWebhookSignature, GenerateWebhookSignature.
  rewrite <- Hsig, (bool_decide_eq_true_2 _ eq_refl). cbn [negb]. rewrite run_bind, Hj.
  pose proof (process_webhook_decides event j w Hf Hs Hok Hfit Hwok Hdec) as Hp.
  destruct (run (ProcessWebhook "simulator" (Some j)) w) as [r0 w'].
  destruct Hp as [Hd Hdb]. exact (conj (decided_response _ _ Hd) Hdb).
Qed.

(** C38. Demo funding is decided by the provider's draw and by what can be credited.  When
    nothing outside fails, a request for an existing wallet, a positive amount and a currency
    of at most three characters always records a payment, and exactly one of these holds.
    The provider accepts, the platform's account exists and the wallet has room: the answer
    is success, the payment has succeeded and the wallet holds the amount more.  The provider
    accepts, and one of these is missing: the answer is 500, the payment stays in progress and
    no wallet changes.  The provider refuses: the answer is 500 with the transition error, the
    payment is recorded as failed and no wallet changes.  (The event id and the reference that
    the service draws are new, and the uuid is not longer than 200 bytes.) *)
Theorem demo_fund_credits `{UuidLaws} `{JsonText} r req w wallet wlt :
  let id := env_uuid (14 + w_tick w) in
  let amount := CreatePayment_Amount req in
  let balance := wallets.Wallet_AvailableBalance wlt in
  let can_credit :=
    (∃ platform, uuid_in platform_account = Some platform ∧
       is_Some (accounts (w_db w) !! platform)) ∧ balance + amount <= int64_max in
  no_faults (w_tick w) → supplied w → payments_ok (w_db w) → columns_fit (w_db w) →
  wallets_ok (w_db w) → (String.length id ≤ 200)%nat →
  decode_body decode_CreatePaymentRequest r = Some req →
  varchar 3 (CreatePayment_Currency req) = Ok (CreatePayment_Currency req) →
  uuid_in (CreatePayment_WalletID req) = Some wallet → wallets_t (w_db w) !! wallet = Some wlt →
  0 < amount <= int64_max →
  seen ("demo-event-" +:+ id) (w_db w) = false →
  (∀ pr, drawn w = Some pr → payment_of (Provider_ReferenceID pr) (w_db w) = None) →
  ∃ pr p', drawn w = Some pr ∧
    let '(resp, w') := run (HandleDemoFund r) w in
    payments_t (w_db w') !! id = Some p' ∧
    ((Provider_Status pr = StatusProcessing ∧ can_credit ∧ resp = demo_success ∧
      Payment_Status p' = StatusSucceeded ∧
      wallets_t (w_db w') =
        <[wallet := wallets.set_available (balance + amount) wlt]> (wallets_t (w_db w))) ∨
     (Provider_Status pr = StatusProcessing ∧ ¬ can_credit ∧
      resp_status resp = StatusInternalServerError ∧
      Payment_Status p' = StatusProcessing ∧ wallets_t (w_db w') = wallets_t (w_db w)) ∨
     (Provider_Status pr = StatusFailed ∧ resp = http_Error
        "invalid payment state transition: cannot transition from FAILED to SUCCEEDED"
        StatusInternalServerError ∧
      Payment_Status p' = StatusFailed ∧ wallets_t (w_db w') = wallets_t (w_db w))).
Proof.
  intros id amount balance can_credit Hf Hs Hok Hfit Hwok Hlen Hreq Hcur Hw Hwlt Hpos Hseen Hfresh.
  assert (Hid : is_ok (varchar 255 id)) by (rewrite varchar_short by lia; done).
  destruct (demo_fund_run r req w Hf Hs Hok Hfit Hwok Hid Hreq Hcur) as (pr & Hdraw & Hrun).
  destruct (process_payment_draws 0 "" w) as (pr' & w1 & _ & Hdraw' & Hreflen & Hst & _).
  rewrite Hdraw in Hdraw'. injection Hdraw' as <-.
  cbv zeta in Hrun. destruct (run (HandleDemoFund r) w) as [resp w'].
  destruct Hrun as (at_ & d1 & res & Hc & Hd & Hresp & Hdb);
    [by apply (accepts_new req w wallet wlt); auto|].
  fold id amount in Hc, Hd, Hdb. set (p := new_payment id _ _ _ _ _) in *.
  assert (Href : varchar 255 (Payment_ProviderReference p) = Ok (Provider_ReferenceID pr))
    by (apply varchar_short; simpl; lia).
  destruct (payment_of_created _ _ _ _ _ Hc Href) as (row & Hpay & Hof & Hrowref & Hroww & Hrowa & Hrowst & Honly).
  simpl in Hroww, Hrowa, Hrowst, Hof. rewrite Hw in Hroww. injection Hroww as Hroww.
  assert (Hd1 : wallets_t d1 = wallets_t (w_db w) ∧ accounts d1 = accounts (w_db w) ∧
                webhook_events d1 = webhook_events (w_db w)).
  { destruct Hc as (row' & _ & _ & _ & _ & _ & _ & _ & _ & _ & _ & _ & ->).
    repeat split. }
  destruct Hd1 as (Hd1w & Hd1a & Hd1e).
  assert (Hrs : Payment_Status row = Provider_Status pr).
  { by destruct Hst as [Hst|Hst]; rewrite Hst in Hrowst |- *; injection Hrowst as <-. }
  assert (Hcr : creditable row d1 = true ↔ can_credit).
  { rewrite creditable_iff. unfold can_credit. rewrite <- Hroww, Hd1w, Hd1a, Hrowa, Hwlt.
    split; [intros (pl & wl & ? & ? & [= <-] & ?); eauto|intros [(pl & ? & ?) ?]; eauto 10]. }
  assert (Hverdict := demo_verdict p row d1 ltac:(simpl; lia)
    ltac:(unfold seen in *; by rewrite Hd1e) Hof ltac:(by rewrite Hrs)).
  rewrite Hrs in Hverdict. rewrite Hverdict in Hd, Hdb.
  destruct Hst as [Hst|Hst]; rewrite Hst in Hd, Hdb; simpl in Hd, Hdb.
  - destruct (creditable row d1) eqn:Hcred; simpl in Hd, Hdb.
    + subst res. apply webhook_effect_tables in Hdb as (i & q & wlt' & now & ev & Hq & Hqref & Hqw & _ & Hpay' & Hw' & _).
      assert (Hi : i = id ∧ q = row) by by apply Honly.
      destruct Hi as [-> ->]. exists pr, (set_payment_status StatusSucceeded now row).
      split; [done|]. split; [by rewrite Hpay', lookup_insert_eq|]. left.
      split; [done|]. split; [by apply Hcr|]. split; [done|]. split; [done|].
      rewrite Hw', Hd1w. rewrite <- Hroww, Hd1w in Hqw.
      rewrite <- Hroww, Hrowa. simpl. unfold balance. congruence.
    + destruct Hd as (e & -> & _). exists pr, row. split; [done|].
      rewrite Hdb, Hpay, lookup_insert_eq. split; [done|]. right. left. split; [done|].
      split; [intros Hcan; by apply Hcr in Hcan|]. split; [by rewrite Hresp|]. by rewrite Hrs.
  - subst res. exists pr, row. split; [done|]. rewrite Hdb, Hpay, lookup_insert_eq. split; [done|].
    right. right. split; [done|]. split; [exact Hresp|]. by rewrite Hrs.
Qed.

(** ** Concrete inputs *)

Definition sample_report (id : string) (status : PaymentStatus) : WebhookPayload :=
  mkWebhookPayload id "payment.succeeded" "ext_1" status.

(** One event on the sample database: with and without the platform's account, for a status
    the payment cannot take, for another reference. *)
Example sample_verdicts :
  verdict (sample_report "e1" StatusSucceeded) (sample_payments_db true) = Applied ∧
  verdict (sample_report "e1" StatusSucceeded) (sample_payments_db false) = Impossible ∧
  verdict (sample_report "e1" StatusFailed) (sample_payments_db false) = Applied ∧
  verdict (sample_report "e1" StatusCreated) (sample_payments_db true) =
    Forbidden StatusProcessing StatusCreated ∧
  verdict (mkWebhookPayload "e1" "payment.failed" "ext_2" StatusFailed) (sample_payments_db true) =
    UnknownPayment.
Proof. vm_compute. done. Qed.

Lemma sample_payments_supply n : uuid_supply n (sample_payments_db true).
Proof. solve_sample_supply. Qed.

Lemma sample_columns_fit : columns_fit (sample_payments_db true).
Proof. intros id p Hp. cbn in Hp. by apply lookup_insert_Some in Hp as [[<- <-]|[_ Hp]]. Qed.

Lemma sample_payments_wallets_ok : wallets_ok (sample_payments_db true).
Proof.
  intros id w Hid. destruct (sample_wallets_ok id w Hid) as (? & Hacc & ? & ?).
  split; [done|]. split; [|done]. apply lookup_insert_is_Some'. by right.
Qed.

Lemma webhook_decides_witness :
  let '(resp, w') := run (HandleWebhook (H := payments_text) (H0 := sample_hmac) "secret"
    (webhook_request "e1")) (sample_world (sample_payments_db true)) in
  resp = mkResponse StatusOK NoBody ∧
  webhook_effect "simulator" (sample_report "e1" StatusSucceeded) (sample_event "e1")
    (sample_payments_db true) (w_db w').
Proof.
  pose proof (webhook_decides (H1 := payments_text) (H2 := sample_hmac) "secret"
    (webhook_request "e1") (sample_event "e1") (sample_report "e1" StatusSucceeded)
    (sample_world (sample_payments_db true)) (sample_no_faults _) (sample_payments_supply _)
    (sample_payments_ok true) sample_columns_fit sample_payments_wallets_ok
    ltac:(discriminate) eq_refl eq_refl eq_refl) as Hp.
  change (w_db (sample_world (sample_payments_db true))) with (sample_payments_db true) in Hp.
  rewrite (proj1 sample_verdicts) in Hp. exact Hp.
Defined.

(** Twenty-five dollars for the first wallet. *)
Definition fund_text : JsonText := {|
  json_first _ := Some (JObj [("wallet_id", JStr "w1"); ("amount", JNum 25); ("currency", JStr "USD")]);
  json_whole _ := None;
|}.

Definition fund_request : Request :=
  mkRequest "POST" "/api/v1/payments/demo-fund" (λ _, "") "" "" "" true None.

Lemma demo_fund_credits_witness :
  let '(resp, w') := run (HandleDemoFund (H := fund_text) fund_request)
                       (sample_world (sample_payments_db true)) in
  resp = demo_success ∧
  wallets_t (w_db w') = <["w1" := sample_wallet "w1" "b1" "a1" 1025]>
                          (wallets_t (sample_payments_db true)).
Proof.
  destruct (demo_fund_credits (H1 := fund_text) fund_request
    (mkCreatePaymentRequest "w1" 25 "USD") (sample_world (sample_payments_db true)) "w1"
    (sample_wallet "w1" "b1" "a1" 1000) (sample_no_faults _) (sample_payments_supply _)
    (sample_payments_ok true) sample_columns_fit sample_payments_wallets_ok
    ltac:(vm_compute; lia) eq_refl eq_refl eq_refl eq_refl ltac:(vm_compute; by split) eq_refl)
    as (pr & p' & Hdraw & Hrun).
  - intros pr Hdraw. vm_compute in Hdraw. injection Hdraw as <-. reflexivity.
  - vm_compute in Hdraw. injection Hdraw as <-.
    destruct (run _ _) as [resp w'].
    destruct Hrun as [_ [(_ & _ & Hresp & _ & Hw)|[(_ & Hno & _)|(Hst & _)]]];
      [exact (conj Hresp Hw)|exfalso; apply Hno|discriminate Hst].
    split; [|by vm_compute]. eexists. split; [reflexivity|]. by eexists.
Defined.
