(* ===== verification/Locks.v ===== *)
(** * Row locks (the transactions of internal/transfers and internal/payments)

    Elsewhere a transaction is one step.  Here its row locks are taken one at a time, each
    waiting for the transaction that holds the row, and the order in which the code takes
    them is shown to exclude deadlock. *)

From S2P Require Import Prelude Go Models Postgres Runtime Sample.
From S2P Require Import Ledger Outbox Transfers Payments.
From Stdlib Require Import OrderedTypeEx.
Import transfers payments.
#[local] Open Scope m_scope.
#[local] Open Scope Z_scope.

(** ** Locks and their order *)

(** A row: its table and its primary key. *)
Definition lock : Type := string * string.

(** Tables by name, rows of a table by id, as [lock_order] compares them. *)
Definition lock_lt (a b : lock) : Prop :=
  String.ltb a.1 b.1 = true ∨ a.1 = b.1 ∧ String.ltb a.2 b.2 = true.

Lemma ltb_lt a b : String.ltb a b = true ↔ String_as_OT.lt a b.
Proof.
  rewrite <- String_as_OT.cmp_lt. unfold String.ltb.
  change (String_as_OT.cmp a b) with (String.compare a b). by destruct (String.compare a b).
Qed.

#[export] Instance lock_lt_strict : StrictOrder lock_lt.
Proof.
  split.
  - intros [t i] Hlt. unfold lock_lt in Hlt. rewrite !ltb_lt in Hlt.
    by destruct Hlt as [Hlt|[_ Hlt]]; apply String_as_OT.lt_not_eq in Hlt.
  - intros [t1 i1] [t2 i2] [t3 i3]. unfold lock_lt. rewrite !ltb_lt. simpl.
    intros [H1|[-> H1]] [H2|[-> H2]]; eauto using String_as_OT.lt_trans.
Qed.

#[export] Instance lock_lt_dec a b : Decision (lock_lt a b).
Proof. unfold lock_lt. apply _. Defined.

Definition ordered (ls : list lock) : Prop := StronglySorted lock_lt ls.

(** A finite set of rows has one that no other is above. *)
Lemma maximal_lock (ls : list lock) :
  ls ≠ [] → ∃ l, l ∈ ls ∧ ∀ k, k ∈ ls → ¬ lock_lt l k.
Proof.
  induction ls as [|l ls IH]; [done|]. intros _. destruct ls as [|k ls].
  - exists l. split; [left|]. intros k ->%list_elem_of_singleton. apply irreflexivity, _.
  - destruct IH as (m & Hm & Hmax); [done|]. destruct (decide (lock_lt m l)) as [Hlt|Hlt].
    + exists l. split; [left|]. intros k' [->|Hk]%elem_of_cons; [apply irreflexivity, _|].
      intros Hlk. apply (Hmax _ Hk). by etrans.
    + exists m. split; [by right|]. intros k' [->|Hk]%elem_of_cons; auto.
Qed.

(** ** The lock manager *)

(** An open transaction: the locks it holds and those it will ask for. *)
Record tx := mkTx { held : list lock; todo : list lock }.

Definition begin (plan : list lock) : tx := mkTx [] plan.
Definition ended (t : tx) : Prop := held t = [] ∧ todo t = [].

#[export] Instance ended_dec t : Decision (ended t).
Proof.
  destruct t as [[|] [|]]; [by left|right; by intros [_ [=]]|right; by intros [[=] _]..].
Defined.

(** Nobody has the row locked. *)
Definition free (l : lock) (σ : list tx) : Prop := Forall (λ u, l ∉ held u) σ.

(** A transaction takes its next lock when the row is free, and waits otherwise; at its
    end, whether it commits or rolls back, all its locks are released. *)
Inductive lock_step (σ : list tx) : list tx → Prop :=
| take_next i h l rest : σ !! i = Some (mkTx h (l :: rest)) → free l σ →
    lock_step σ (<[i := mkTx (h ++ [l]) rest]> σ)
| release_all i h : σ !! i = Some (mkTx h []) → h ≠ [] →
    lock_step σ (<[i := mkTx [] []]> σ).

(** Every transaction asks for its rows in increasing order. *)
Definition well_ordered (σ : list tx) : Prop := Forall (λ t, ordered (held t ++ todo t)) σ.

Lemma step_well_ordered σ σ' : lock_step σ σ' → well_ordered σ → well_ordered σ'.
Proof.
  intros [i h l rest Hi _|i h Hi _] Hw; apply Forall_insert; try done; [|constructor].
  simpl. rewrite <- app_assoc. exact (Forall_lookup_1 _ _ _ _ Hw Hi).
Qed.

Lemma ordered_app_lt ls l k rest : ordered (ls ++ k :: rest) → l ∈ ls → lock_lt l k.
Proof.
  induction ls as [|m ls IH]; [by intros _ ?%elem_of_nil|].
  intros [Hs Hm]%StronglySorted_inv [->|Hl]%elem_of_cons; [|by apply IH].
  rewrite Forall_forall in Hm. apply Hm. set_solver.
Qed.

(** The next lock of a transaction. *)
Definition wanted (t : tx) : option lock := head (todo t).

(** It is free to be taken. *)
Definition can_take (σ : list tx) (t : tx) : Prop :=
  match wanted t with Some l => free l σ | None => False end.

#[export] Instance can_take_dec σ t : Decision (can_take σ t).
Proof. unfold can_take, free. destruct (wanted t); apply _. Defined.

(** The transactions that hold a row while all of them wait. *)
Lemma waits_higher σ l :
  well_ordered σ → ¬ Exists (λ t, todo t = [] ∧ held t ≠ []) σ → ¬ free l σ →
  ∃ k, k ∈ omap wanted σ ∧ lock_lt l k.
Proof.
  intros Hw Hc (u & Hu & Hl)%not_Forall_Exists%Exists_exists; [|apply _].
  apply dec_stable in Hl. destruct (todo u) as [|k rest] eqn:Htd.
  - destruct Hc. apply Exists_exists. exists u. split; [done|]. split; [done|].
    intros Hh. rewrite Hh in Hl. by apply elem_of_nil in Hl.
  - exists k. split.
    + apply list_elem_of_omap. exists u. split; [done|]. unfold wanted. by rewrite Htd.
    + apply (ordered_app_lt (held u) l k rest); [|done]. rewrite <- Htd.
      apply Forall_forall with (1 := Hw). exact Hu.
Qed.

(** As long as some transaction is open, some transaction can go on: the one that waits
    for the greatest row would wait for a transaction that waits for a greater one. *)
Lemma progress σ : well_ordered σ → Forall ended σ ∨ ∃ σ', lock_step σ σ'.
Proof.
  intros Hw.
  destruct (decide (Exists (λ t, todo t = [] ∧ held t ≠ []) σ)) as [Hc|Hc].
  { apply Exists_exists in Hc as ([h td] & (i & Hi)%list_elem_of_lookup & Htd & Hh).
    simpl in *. subst td. right. eexists. by eapply release_all. }
  destruct (decide (Exists (can_take σ) σ)) as [Hf|Hf].
  { apply Exists_exists in Hf as ([h [|l rest]] & (i & Hi)%list_elem_of_lookup & Hfree); [done|].
    right. eexists. by eapply take_next. }
  left. destruct (decide (omap wanted σ = [])) as [Hnone|Hsome].
  - apply Forall_forall. intros t Ht. assert (Htd : todo t = []).
    { destruct (todo t) as [|l rest] eqn:Htd; [done|]. assert (Hl : l ∈ omap wanted σ).
      { apply list_elem_of_omap. exists t. split; [done|]. unfold wanted. by rewrite Htd. }
      rewrite Hnone in Hl. by apply elem_of_nil in Hl. }
    split; [|done]. apply dec_stable. intros Hh. apply Hc, Exists_exists. by exists t.
  - exfalso. destruct (maximal_lock _ Hsome) as (l & Hl & Hmax).
    apply list_elem_of_omap in Hl as (t & Ht & Hwt).
    destruct (waits_higher σ l Hw Hc) as (k & Hk & Hlt); [|by destruct (Hmax k Hk)].
    intros Hfree. apply Hf, Exists_exists. exists t. split; [done|]. unfold can_take. by rewrite Hwt.
Qed.

(** Each step is one lock less to take or one transaction less. *)
Definition work (t : tx) : nat := if decide (ended t) then 0 else S (length (todo t)).
Definition total_work (σ : list tx) : nat := sum_list_with work σ.

Lemma sum_insert σ i t t' :
  σ !! i = Some t → (total_work (<[i := t']> σ) + work t = total_work σ + work t')%nat.
Proof.
  unfold total_work. revert i. induction σ as [|u σ IH]; intros [|i] Hi; simplify_eq/=; [lia|].
  specialize (IH _ Hi). lia.
Qed.

Lemma work_open t : ¬ ended t → work t = S (length (todo t)).
Proof. intros Ht. unfold work. by rewrite decide_False. Qed.

Lemma step_work σ σ' : lock_step σ σ' → total_work σ = S (total_work σ').
Proof.
  intros [i h l rest Hi _|i h Hi Hh].
  - pose proof (sum_insert _ _ _ (mkTx (h ++ [l]) rest) Hi) as Hs.
    rewrite (work_open (mkTx h (l :: rest))) in Hs by (by intros [_ ?]).
    rewrite (work_open (mkTx (h ++ [l]) rest)) in Hs by (intros [Hn _]; by destruct h).
    simpl in Hs. lia.
  - pose proof (sum_insert _ _ _ (mkTx [] []) Hi) as Hs.
    rewrite (work_open (mkTx h [])) in Hs; [|by intros [? _]].
    change (work (mkTx [] [])) with 0%nat in Hs. simpl in Hs. lia.
Qed.

Lemma steps_work n σ σ' : nsteps lock_step n σ σ' → total_work σ = (n + total_work σ')%nat.
Proof. induction 1 as [|n σ1 σ2 σ3 Hs _ IH]; [done|]. rewrite (step_work _ _ Hs), IH. lia. Qed.

Lemma steps_well_ordered n σ σ' : nsteps lock_step n σ σ' → well_ordered σ → well_ordered σ'.
Proof. induction 1; eauto using step_well_ordered. Qed.

(** ** The locks of the code's transactions *)

(** [m] takes no other lock than those held, [ls]. *)
Definition steady {A} (ls : list lock) (m : M A) : Prop :=
  ∀ w, w_locks w = ls → w_locks (m w).2 = ls.

Lemma steady_same {A} ls (m : M A) : (∀ w, w_locks (m w).2 = w_locks w) → steady ls m.
Proof. intros Hm w <-. apply Hm. Qed.

Lemma steady_bind {A B} ls (m : M A) (f : A → M B) :
  steady ls m → (∀ a, steady ls (f a)) → steady ls (bind m f).
Proof.
  intros Hm Hf w Hw. specialize (Hm w Hw). unfold bind.
  destruct (m w) as [[a|e] w1]; [by apply Hf|done].
Qed.

Lemma steady_wrap {A} ls pre (m : M A) : steady ls m → steady ls (wrap_err pre m).
Proof. intros Hm w Hw. specialize (Hm w Hw). unfold wrap_err. by destruct (m w). Qed.

Lemma steady_map {A} ls f (m : M A) : steady ls m → steady ls (map_err f m).
Proof. intros Hm w Hw. specialize (Hm w Hw). unfold map_err. by destruct (m w) as [[]]. Qed.

Lemma steady_guard ls b e : steady ls (guard b e).
Proof. intros w Hw. by destruct b. Qed.

Lemma steady_ret {A} ls (a : A) : steady ls (ret a).
Proof. by intros w Hw. Qed.

Section Steady.
Context `{Env}.

Lemma query_locks {A} (f : Ctx → DB → Res (A * DB)) w : w_locks (query f w).2 = w_locks w.
Proof.
  unfold query. destruct (env_outcome _); [|done..]. by destruct (f _ _) as [[a d]|e].
Qed.

Lemma steady_query {A} ls (f : Ctx → DB → Res (A * DB)) : steady ls (query f).
Proof. apply steady_same, query_locks. Qed.

Lemma steady_insert_entries ls es : steady ls (insert_entries es).
Proof.
  induction es as [|e es IH]; [apply steady_ret|]. apply steady_bind; [apply steady_query|].
  intros r. apply steady_bind; [exact IH|]. intros es'. apply steady_ret.
Qed.

Lemma steady_create_transaction ls txn :
  steady ls (CreateTransaction (LedgerRepository := Ledger.postgresRepository) txn).
Proof.
  apply steady_bind; [by intros w Hw|intros u]. apply steady_bind; [apply steady_query|intros r].
  apply steady_bind; [apply steady_insert_entries|intros es]. apply steady_ret.
Qed.

Lemma steady_insert_event ls topic payload :
  steady ls (InsertEvent (OutboxRepository := Outbox.postgresRepository) topic payload).
Proof. apply steady_query. Qed.

(** Updating a row that is locked already. *)
Lemma steady_update_balance ls op amount id :
  ("wallets", id) ∈ ls → steady ls (update_balance op amount id).
Proof.
  intros Hin. apply steady_bind; [apply steady_query|]. intros _ w Hw.
  rewrite take_lock_run. simpl. by rewrite Hw, add_lock_held.
Qed.

Lemma steady_record_transfer ls req key src dst :
  steady ls (record_transfer (L := Ledger.postgresRepository) (X := Outbox.postgresRepository)
               req key src dst).
Proof.
  apply steady_bind; [apply steady_query|intros r].
  apply steady_bind; [apply steady_wrap, steady_create_transaction|intros t].
  apply steady_bind; [by intros w Hw|intros now].
  apply steady_bind; [apply steady_wrap, steady_insert_event|intros u]. apply steady_ret.
Qed.

(** Once both wallets are locked nothing else is. *)
Lemma steady_validate_and_move ls req key src dst :
  ("wallets", wallets.Wallet_ID src) ∈ ls → ("wallets", wallets.Wallet_ID dst) ∈ ls →
  steady ls (validate_and_move (L := Ledger.postgresRepository) (X := Outbox.postgresRepository)
               req key src dst).
Proof.
  intros Hs Hd. unfold validate_and_move.
  do 3 (apply steady_bind; [apply steady_guard|intros _]).
  do 2 (apply steady_bind; [by apply steady_update_balance|intros _]).
  apply steady_record_transfer.
Qed.
End Steady.

Section Plans.
Context `{UuidLaws}.

Lemma lock_wallet_locks id w r w' :
  lock_wallet id w = (r, w') →
  (∃ e, r = Err e) ∧ w_locks w' = w_locks w ∨
  ∃ x, r = Ok x ∧ uuid_in id = Some (wallets.Wallet_ID x) ∧
    w_locks w' = add_lock ("wallets", wallets.Wallet_ID x) (w_locks w).
Proof.
  intros Hrun. destruct r as [x|e].
  - right. exists x. apply lock_wallet_ok in Hrun as (u & row & Hu & _ & -> & ->). done.
  - left. split; [by eexists|]. unfold lock_wallet, bind in Hrun.
    pose proof (query_locks (sql_lock_wallet id) w) as Hq.
    destruct (query (sql_lock_wallet id) w) as [[x|e'] w1]; [|by simplify_eq].
    by rewrite take_lock_run in Hrun.
Qed.

(** Locking two rows in order and going on with what asks for no more. *)
Lemma lock_both_ordered {A} x1 x2 pre1 pre2 (k : wallets.Wallet → wallets.Wallet → M A) w :
  canonical x1 → canonical x2 → String.ltb x1 x2 = true → w_locks w = [] →
  (∀ a b, wallets.Wallet_ID a = x1 → wallets.Wallet_ID b = x2 →
     steady [("wallets", x1); ("wallets", x2)] (k a b)) →
  ordered (w_locks (bind (wrap_err pre1 (lock_wallet x1)) (λ a,
                    bind (wrap_err pre2 (lock_wallet x2)) (k a)) w).2).
Proof.
  intros Hc1 Hc2 Hlt Hw Hk. unfold canonical in *. unfold bind, wrap_err.
  destruct (lock_wallet x1 w) as [r1 w1] eqn:H1.
  apply lock_wallet_locks in H1 as [[[e ->] Hl1]|(a & -> & Ha & Hl1)]; simpl.
  { rewrite Hl1, Hw. constructor. }
  destruct (lock_wallet x2 w1) as [r2 w2] eqn:H2.
  assert (Hid1 : wallets.Wallet_ID a = x1) by congruence.
  rewrite Hid1, Hw in Hl1. change (w_locks w1 = [("wallets", x1)]) in Hl1.
  apply lock_wallet_locks in H2 as [[[e ->] Hl2]|(b & -> & Hb & Hl2)]; simpl.
  { rewrite Hl2, Hl1. repeat constructor. }
  assert (Hid2 : wallets.Wallet_ID b = x2) by congruence.
  rewrite (Hk a b Hid1 Hid2).
  - constructor; [repeat constructor|]. constructor; [|done]. right. by split.
  - rewrite Hl2, Hl1, Hid2. unfold add_lock. rewrite decide_False; [done|].
    intros [= Heq]%list_elem_of_singleton. rewrite Heq in Hlt.
    apply ltb_lt, String_as_OT.lt_not_eq in Hlt. by apply Hlt.
Qed.

(** Whatever becomes of it, a transfer between canonically spelled wallets takes its locks
    in order. *)
Lemma transfer_ordered req key w :
  canonical (Req_SourceWalletID req) → canonical (Req_DestinationWalletID req) →
  Req_SourceWalletID req ≠ Req_DestinationWalletID req → w_locks w = [] →
  ordered (w_locks (transfer_statements (L := Ledger.postgresRepository)
                      (X := Outbox.postgresRepository) req key w).2).
Proof.
  intros Hcs Hcd Hne Hw. unfold transfer_statements, lock_order.
  destruct (String.ltb (Req_DestinationWalletID req) (Req_SourceWalletID req)) eqn:Hlt;
    (apply lock_both_ordered; try done; [by apply ltb_total|]) || (apply lock_both_ordered; try done);
    intros a b Ha Hb; unfold assign; case_bool_decide; apply steady_validate_and_move;
    rewrite ?Ha, ?Hb; set_solver.
Qed.

(** [m] goes from locks satisfying [P] to locks satisfying [Q]; wherever it fails, the
    locks taken are in order. *)
Definition locking {A} (P : list lock → Prop) (m : M A) (Q : list lock → Prop) : Prop :=
  ∀ w, P (w_locks w) →
    match m w with (Ok _, w') => Q (w_locks w') | (Err _, w') => ordered (w_locks w') end.

Lemma locking_bind {A B} P Q R (m : M A) (f : A → M B) :
  locking P m Q → (∀ a, locking Q (f a) R) → locking P (bind m f) R.
Proof.
  intros Hm Hf w Hw. specialize (Hm w Hw). unfold bind.
  destruct (m w) as [[a|e] w1]; [by apply Hf|done].
Qed.

(** A step that takes no lock, from any locks in order. *)
Lemma locking_keep {A} (P : list lock → Prop) (m : M A) :
  (∀ ls, P ls → ordered ls) → (∀ ls, steady ls m) → locking P m P.
Proof.
  intros Ho Hm w Hw. pose proof (Hm _ w eq_refl) as Hl.
  destruct (m w) as [[a|e] w1]; simpl in Hl; rewrite Hl; auto.
Qed.

Lemma locking_map {A} P Q f (m : M A) : locking P m Q → locking P (map_err f m) Q.
Proof. intros Hm w Hw. specialize (Hm w Hw). unfold map_err. by destruct (m w) as [[]]. Qed.

(** The locks of a webhook: its payment, then perhaps its wallet. *)
Definition payment_locked (ls : list lock) : Prop := ∃ id, ls = [("payments", id)].
Definition wallet_locked (ls : list lock) : Prop :=
  payment_locked ls ∨ ∃ id i, ls = [("payments", id); ("wallets", i)].

Lemma payment_ordered ls : payment_locked ls → ordered ls.
Proof. intros [id ->]. repeat constructor. Qed.

Lemma wallet_ordered ls : wallet_locked ls → ordered ls.
Proof. intros [Hp|(id & i & ->)]; [by apply payment_ordered|]. repeat constructor. Qed.

Lemma locking_lock_payment ref : locking (λ ls, ls = []) (lock_payment ref) payment_locked.
Proof.
  intros w Hw. unfold lock_payment, bind. pose proof (query_locks (sql_lock_payment ref) w) as Hq.
  destruct (query (sql_lock_payment ref) w) as [[row|e] w1]; simpl in Hq.
  - rewrite take_lock_run. simpl. exists (Payment_ID row.1). by rewrite Hq, Hw.
  - rewrite Hq, Hw. constructor.
Qed.

Lemma locking_credit_wallet p account :
  locking payment_locked (credit_wallet (L := Ledger.postgresRepository) p account) wallet_locked.
Proof.
  apply (locking_bind _ wallet_locked).
  - eapply locking_bind; [apply locking_keep; [apply payment_ordered|intros; apply steady_query]|].
    intros _ w [id Hw]. rewrite take_lock_run. simpl. rewrite Hw. right. by eexists _, _.
  - intros _. apply locking_keep; [apply wallet_ordered|]. intros ls.
    apply steady_bind; [apply steady_wrap, steady_create_transaction|intros t; apply steady_ret].
Qed.

(** Whatever becomes of it, a webhook locks its payment first and then its wallet. *)
Lemma webhook_locking provider event payload :
  locking (λ ls, ls = []) (webhook_statements (L := Ledger.postgresRepository)
    (X := Outbox.postgresRepository) provider event payload) wallet_locked.
Proof.
  unfold webhook_statements.
  eapply locking_bind; [apply locking_map, locking_keep|intros _].
  { intros ls ->. constructor. }
  { intros ls. apply steady_query. }
  eapply locking_bind; [apply locking_map, locking_lock_payment|intros [p account]].
  eapply locking_bind; [apply locking_keep; [apply payment_ordered|intros; apply steady_guard]|intros _].
  eapply locking_bind; [apply locking_keep; [apply payment_ordered|intros; apply steady_query]|intros _].
  eapply locking_bind; [apply locking_keep; [apply payment_ordered|by intros ls w Hw]|intros _].
  eapply (locking_bind _ wallet_locked); [|intros _].
  { case_bool_decide; [apply locking_credit_wallet|]. intros w Hw. by left. }
  apply locking_keep; [apply wallet_ordered|]. intros ls.
  apply steady_bind; [apply steady_wrap, steady_insert_event|intros u; apply steady_ret].
Qed.

Lemma webhook_ordered provider event payload w :
  w_locks w = [] →
  ordered (w_locks (webhook_statements (L := Ledger.postgresRepository)
    (X := Outbox.postgresRepository) provider event payload w).2).
Proof.
  intros Hw. pose proof (webhook_locking provider event payload w Hw) as Hl.
  destruct (webhook_statements _ _ _ w) as [[u|e] w1]; [by apply wallet_ordered|done].
Qed.
End Plans.

(** ** Properties *)

(** The locks, in order, of a transfer between canonically spelled wallets, of a webhook,
    whatever they find and however they end, or of an [UPDATE] on its own. *)
Inductive lock_plan `{UuidLaws} : list lock → Prop :=
| transfer_plan req key w :
    canonical (Req_SourceWalletID req) → canonical (Req_DestinationWalletID req) →
    Req_SourceWalletID req ≠ Req_DestinationWalletID req →
    lock_plan (w_locks (transfer_statements (L := Ledger.postgresRepository)
                          (X := Outbox.postgresRepository) req key (bump (start w))).2)
| webhook_plan provider event payload w :
    lock_plan (w_locks (webhook_statements (L := Ledger.postgresRepository)
                          (X := Outbox.postgresRepository) provider event payload (bump (start w))).2)
| update_plan l : lock_plan [l].

Lemma plan_ordered `{UuidLaws} ls : lock_plan ls → ordered ls.
Proof.
  intros [req key w Hs Hd Hne|provider event payload w|l].
  - by apply transfer_ordered.
  - by apply webhook_ordered.
  - repeat constructor.
Qed.

(** C30. No deadlock: transfers between canonically spelled wallets, webhooks and single
    updates, any number of them at once and waiting for each other's rows in any order,
    never block for ever.  In every state some transaction can go on until all have ended,
    and they all end within as many steps as there are locks to take and transactions to
    close. *)
Theorem transactions_never_deadlock `{UuidLaws} plans n σ :
  Forall lock_plan plans → nsteps lock_step n (begin <$> plans) σ →
  (n ≤ sum_list_with (λ ls, S (length ls)) plans)%nat ∧
  (Forall ended σ ∨ ∃ σ', lock_step σ σ').
Proof.
  intros Hp Hn. split.
  - apply steps_work in Hn. assert (total_work (begin <$> plans) ≤
      sum_list_with (λ ls, S (length ls)) plans)%nat; [|lia].
    clear. unfold total_work. induction plans as [|ls plans IH]; simpl; [done|].
    assert (work (begin ls) ≤ S (length ls))%nat by (unfold work; case_decide; simpl; lia).
    unfold fmap in IH. lia.
  - apply progress. eapply steps_well_ordered; [exact Hn|]. unfold well_ordered.
    apply Forall_fmap. eapply Forall_impl; [exact Hp|]. intros ls. simpl. apply plan_ordered.
Qed.

(** ** Concrete inputs *)

Definition sample_locks (source dest : string) : list lock :=
  w_locks (transfer_statements (L := Ledger.postgresRepository) (X := Outbox.postgresRepository)
    (mkReq source dest 100 "USD") "k1" (bump (start (sample_world sample_bank)))).2.

Lemma sample_locks_up : sample_locks "w1" "w2" = [("wallets", "w1"); ("wallets", "w2")].
Proof. by vm_compute. Qed.
Lemma sample_locks_down : sample_locks "w2" "w1" = [("wallets", "w1"); ("wallets", "w2")].
Proof. by vm_compute. Qed.
Lemma sample_locks_spelled : sample_locks "W2" "w1" = [("wallets", "w2"); ("wallets", "w1")].
Proof. by vm_compute. Qed.

Lemma free_begin l plans : free l (begin <$> plans).
Proof. apply Forall_fmap, Forall_true. intros ls. apply not_elem_of_nil. Qed.

(** The order is that of the request's spelling: with an id in upper case two transfers
    take the same two rows in opposite orders, and block each other. *)
Theorem noncanonical_transfers_deadlock :
  ∃ σ, nsteps lock_step 2 (begin <$> [sample_locks "w1" "w2"; sample_locks "W2" "w1"]) σ ∧
    ¬ Forall ended σ ∧ ¬ ∃ σ', lock_step σ σ'.
Proof.
  rewrite sample_locks_up, sample_locks_spelled.
  exists [mkTx [("wallets", "w1")] [("wallets", "w2")]; mkTx [("wallets", "w2")] [("wallets", "w1")]].
  split; [|split].
  - eapply nsteps_l; [by apply (take_next _ 0%nat []); [|apply free_begin]|].
    eapply nsteps_l; [apply (take_next _ 1%nat []); [done|]|apply nsteps_O].
    constructor; [by intros [=]%list_elem_of_singleton|constructor; [apply not_elem_of_nil|done]].
  - intros [[Hh _] _]%Forall_cons. discriminate Hh.
  - intros (σ' & [i h l rest Hi Hf|i h Hi Hh]).
    + apply Forall_cons in Hf as [Hf1 [Hf2 _]%Forall_cons]. simpl in Hf1, Hf2.
      destruct i as [|[|i]]; [| |done]; injection Hi as <- <- <-;
        [apply Hf2|apply Hf1]; left.
    + by destruct i as [|[|i]].
Qed.

Lemma transactions_never_deadlock_witness :
  ∃ σ, nsteps lock_step 1 (begin <$> [sample_locks "w1" "w2"; sample_locks "w2" "w1"]) σ ∧
    (Forall ended σ ∨ ∃ σ', lock_step σ σ').
Proof.
  assert (Hp : Forall lock_plan [sample_locks "w1" "w2"; sample_locks "w2" "w1"]).
  { do 2 (apply Forall_cons; split; [by apply transfer_plan; vm_compute|]). done. }
  rewrite sample_locks_up, sample_locks_down in *.
  assert (Hs : nsteps lock_step 1
    (begin <$> [[("wallets", "w1"); ("wallets", "w2")]; [("wallets", "w1"); ("wallets", "w2")]])
    [mkTx [("wallets", "w1")] [("wallets", "w2")]; mkTx [] [("wallets", "w1"); ("wallets", "w2")]]).
  { eapply nsteps_l; [by apply (take_next _ 0%nat []); [|apply free_begin]|apply nsteps_O]. }
  eexists. split; [exact Hs|].
  exact (proj2 (transactions_never_deadlock _ 1 _ Hp Hs)).
Defined.
