(* ===== verification/Reconciliation.v ===== *)
(** * Reconciliation (internal/reconciliation)

    An hourly worker compares the debits of the ledger with its credits and every
    wallet with the net of its account, and records what does not match. *)

From S2P Require Import Prelude Go Models Postgres Runtime Sample Http Middleware Ledger.
From stdpp Require Import pretty.
From Stdlib Require Import QArith_base.
Import reconciliation.
#[local] Open Scope m_scope.
#[local] Open Scope go_scope.
#[local] Open Scope prog_scope.
#[local] Open Scope Z_scope.

(** ** The code: repository *)

(** A [map[string]interface{}] of the mismatches. *)
Definition Mismatch := list (string * json).

Definition mismatch_get (m : Mismatch) (key : string) : option json :=
  snd <$> head (filter (λ kv, kv.1 = key) m).

Class ReconciliationRepository := {
  CreateRun : M Run;
  CompleteRun : string → RunStatus → Z → Z → Z → M unit;
  RecordMismatch : string → string → string → string → json → M unit;
  CheckGlobalLedgerBalance : M (Z * Z * Z);
  CheckWalletBalances : M (Z * list Mismatch);
}.

(** A NUMERIC that does not fit the [int64] it is scanned into. *)
Definition err_scan : error := errors_New "" "cannot scan numeric into int64".

Definition scan_int64 (z : Z) : Res Z := if decide (in_int64 z) then Ok z else Err err_scan.

(** A row of the query of [CheckWalletBalances]. *)
Definition WalletRow := (string * Z * Z)%type.

Section Repository.
Context `{Env}.

(** [INSERT INTO reconciliation_runs (status) VALUES ($1) RETURNING id, started_at] *)
Definition sql_insert_run (c : Ctx) (d : DB) : Res (Run * DB) :=
  let? st := varchar 50 StatusInProgress in
  let run := mkRun (c_uuid c) st 0 0 0 (c_now c) None in
  let? t := insert_pk "reconciliation_runs_pkey" (reconciliation_runs d) (c_uuid c) run in
  Ok (run, set_reconciliation_runs t d).

Definition sql_complete_run (id : string) (status : RunStatus) (walletsChecked txnsChecked
    mismatches : Z) (c : Ctx) (d : DB) : Res (unit * DB) :=
  let? id := uuid_param id in
  match reconciliation_runs d !! id with
  | None => Ok (tt, d)
  | Some run =>
    let? st := varchar 50 status in
    let? walletsChecked := bigint walletsChecked in
    let? txnsChecked := bigint txnsChecked in
    let? mismatches := bigint mismatches in
    Ok (tt, set_reconciliation_runs
      (<[id := mkRun (Run_ID run) st walletsChecked txnsChecked mismatches (Run_StartedAt run)
                 (Some (c_now c))]> (reconciliation_runs d)) d)
  end.

Definition sql_insert_item (runID entityType entityID mismatchType : string) (details : json)
    (c : Ctx) (d : DB) : Res (unit * DB) :=
  let? run := uuid_param runID in
  let? entity_type := varchar 50 entityType in
  let? entity_id := varchar 255 entityID in
  let? mismatch_type := varchar 100 mismatchType in
  let? t := insert_pk "reconciliation_items_pkey" (reconciliation_items d) (c_uuid c)
              (mkItem (c_uuid c) run entity_type entity_id mismatch_type details (c_now c)) in
  let? _ := references "reconciliation_runs" (reconciliation_runs d) run in
  Ok (tt, set_reconciliation_items t d).

(** [COUNT(DISTINCT transaction_id)] *)
Definition transactions_in (d : DB) : gset string :=
  list_to_set ((λ e, ledger.Entry_TransactionID e) <$> (map_to_list (ledger_entries d)).*2).

Definition sql_global_balance (c : Ctx) (d : DB) : Res (Z * Z * Z * DB) :=
  let? debits := scan_int64 (ledger_total ledger.DirectionDebit d) in
  let? credits := scan_int64 (ledger_total ledger.DirectionCredit d) in
  Ok (debits, credits, Z.of_nat (size (transactions_in d)), d).

(** The rows as the server computes them: [w.available_balance + w.locked_balance] is
    BIGINT arithmetic, the ledger's total a NUMERIC. *)
Definition wallet_rows (d : DB) : list (Res (string * Z) * Z) :=
  (λ kw, (res_map (pair kw.1)
            (bigint (wallets.Wallet_AvailableBalance kw.2 + wallets.Wallet_LockedBalance kw.2)),
          net_ledger (wallets.Wallet_AccountID kw.2) d)) <$> map_to_list (wallets_t d).

Definition mismatch_of (walletID : string) (walletTotal ledgerTotal : Z) : Mismatch :=
  [("wallet_id", JStr walletID); ("wallet_total", JNum walletTotal);
   ("ledger_total", JNum ledgerTotal); ("difference", JNum (sub64 walletTotal ledgerTotal))].

(** The loop over the rows.  [rows.Err()] is not looked at, so an error of the server
    in the middle ends the loop like the last row. *)
Fixpoint check_rows (rows : list (Res (string * Z) * Z)) (walletsChecked : Z)
    (mismatches : list Mismatch) : Res (Z * list Mismatch) :=
  match rows with
  | [] => Ok (walletsChecked, mismatches)
  | (Err _, _) :: _ => Ok (walletsChecked, mismatches)
  | (Ok (walletID, walletTotal), ledgerTotal) :: rest =>
    let? ledgerTotal := scan_int64 ledgerTotal in
    check_rows rest (walletsChecked + 1)
      (if bool_decide (walletTotal ≠ ledgerTotal)
       then mismatches ++ [mismatch_of walletID walletTotal ledgerTotal] else mismatches)
  end.

(** [db.Query] and the loop; when the connection breaks after the query was accepted,
    only some of the rows have arrived. *)
Definition query_wallets : M (Z * list Mismatch) := λ w,
  let w0 := start w in
  let rows := wallet_rows (w_db w) in
  match env_outcome (w_tick w) with
  | Fine => (check_rows rows 0 [], bump w0)
  | FailBefore msg => (Err (ext_error msg), bump w0)
  | FailAfter msg =>
    let arrived := Z.to_nat (env_intn (w_tick w) (Z.of_nat (length rows) + 1)
                               mod (Z.of_nat (length rows) + 1)) in
    (check_rows (take arrived rows) 0 [], bump w0)
  end.

#[export] Instance postgresRepository : ReconciliationRepository := {|
  CreateRun := exec sql_insert_run;
  CompleteRun id status walletsChecked txnsChecked mismatches :=
    exec (sql_complete_run id status walletsChecked txnsChecked mismatches);
  RecordMismatch runID entityType entityID mismatchType details :=
    exec (sql_insert_item runID entityType entityID mismatchType details);
  CheckGlobalLedgerBalance := exec sql_global_balance;
  CheckWalletBalances := query_wallets;
|}.
End Repository.

(** ** The code: worker *)

(** [fmt.Sprintf("%d", v)] and ["%v"] of a value of such a map; [nil] when absent. *)
Definition fmt_d (v : option json) : string :=
  match v with
  | Some (JNum z) => pretty z
  | _ => "%!d(<nil>)"
  end.

Definition fmt_v (v : option json) : string :=
  match v with
  | Some (JStr s) => s
  | Some (JNum z) => pretty z
  | _ => "<nil>"
  end.

Section Worker.
Context {R : ReconciliationRepository}.

(** The loop over the wallet mismatches. *)
Fixpoint record_mismatches (runID : string) (ms : list Mismatch) : prog unit :=
  match ms with
  | [] => Ret tt
  | mismatch :: rest =>
    let walletID := fmt_v (mismatch_get mismatch "wallet_id") in
    let mismatchDetails := "Expected " +:+ fmt_d (mismatch_get mismatch "expected") +:+
                           ", got " +:+ fmt_d (mismatch_get mismatch "actual") in
    let+ _ := call (RecordMismatch runID "WALLET" walletID "BALANCE_MISMATCH"
                      (JStr mismatchDetails)) in
    record_mismatches runID rest
  end.

(** "2. Wallet vs Ledger Mismatches" and "3. Complete Run". *)
Definition check_wallets_and_complete (runID : string) (status : RunStatus)
    (mismatchesFound txnCount : Z) : prog unit :=
  let+ balances := call CheckWalletBalances in
  match balances with
  | Err _ =>
    let+ _ := call (CompleteRun runID StatusFailed 0 txnCount mismatchesFound) in Ret tt
  | Ok (walletsChecked, walletMismatches) =>
    let+ _ := record_mismatches runID walletMismatches in
    let status := if bool_decide (walletMismatches = []) then status else StatusFailed in
    let mismatchesFound := mismatchesFound + Z.of_nat (length walletMismatches) in
    let+ _ := call (CompleteRun runID status walletsChecked txnCount mismatchesFound) in
    Ret tt
  end.

(** "Imbalanced Ledger!" *)
Definition record_imbalance (runID : string) (debits credits : Z) : prog unit :=
  let details := "Imbalanced Ledger! Debits: " +:+ pretty debits +:+ ", Credits: " +:+
                 pretty credits in
  let+ _ := call (RecordMismatch runID "SYSTEM" "GLOBAL_LEDGER" "IMBALANCED_LEDGER"
                    (JStr details)) in
  Ret tt.

Definition RunReconciliation : prog unit :=
  let+ created := call CreateRun in
  match created with
  | Err _ => Ret tt
  | Ok run =>
    let+ checked := call CheckGlobalLedgerBalance in
    match checked with
    | Err _ => let+ _ := call (CompleteRun (Run_ID run) StatusFailed 0 0 0) in Ret tt
    | Ok (debits, credits, txnCount) =>
      if bool_decide (debits ≠ credits) then
        let+ _ := record_imbalance (Run_ID run) debits credits in
        check_wallets_and_complete (Run_ID run) StatusFailed 1 txnCount
      else check_wallets_and_complete (Run_ID run) StatusPassed 0 txnCount
    end
  end.

(** [Start] until its context is cancelled, after [n] ticks. *)
Fixpoint Start_ticks (n : nat) : prog unit :=
  match n with
  | O => Ret tt
  | S n' => let+ _ := RunReconciliation in Start_ticks n'
  end.

Definition Start (n : nat) : prog unit := let+ _ := RunReconciliation in Start_ticks n.
End Worker.

(** ** The code: handler *)

(** [ORDER BY started_at DESC] *)
Definition run_after (r1 r2 : Run) : Prop := Run_StartedAt r2 <= Run_StartedAt r1.
#[export] Instance run_after_dec : RelDecision run_after.
Proof. intros r1 r2. unfold run_after. apply _. Defined.

Definition Run_json (r : Run) : json := JObj [
  ("id", JStr (Run_ID r)); ("status", JStr (Run_Status r));
  ("wallets_checked", JNum (Run_WalletsChecked r));
  ("ledger_transactions_checked", JNum (Run_LedgerTransactionsChecked r));
  ("mismatches_found", JNum (Run_MismatchesFound r));
  ("started_at", JTime RFC3339Nano (Run_StartedAt r));
  ("completed_at", match Run_CompletedAt r with
                   | Some t => JTime RFC3339Nano t | None => JNull end)].

Section Handler.
Context `{Env}.

(** The query and the loop of [HandleGetRuns], which does not look at [rows.Err()]
    either. *)
Definition query_runs : M (list Run) := λ w,
  let w0 := start w in
  let runs := take 20 (merge_sort run_after (map_to_list (reconciliation_runs (w_db w))).*2) in
  match env_outcome (w_tick w) with
  | Fine => (Ok runs, bump w0)
  | FailBefore msg => (Err (ext_error msg), bump w0)
  | FailAfter msg =>
    let arrived := Z.to_nat (env_intn (w_tick w) (Z.of_nat (length runs) + 1)
                               mod (Z.of_nat (length runs) + 1)) in
    (Ok (take arrived runs), bump w0)
  end.

(** A nil slice is encoded as [null]. *)
Definition HandleGetRuns : Handler := λ r,
  let+ res := call query_runs in
  match res with
  | Err _ => Ret (http_Error "failed to query runs" StatusInternalServerError)
  | Ok runs => Ret (mkResponse StatusOK (JsonBody
      (match runs with [] => JNull | _ => JArr (Run_json <$> runs) end)))
  end.

Definition reconciliation_RegisterRoutes : Handler :=
  RequireRole [auth.RoleSystem; auth.RoleAdmin] HandleGetRuns.
End Handler.

(** ** What is checked *)

(** The books match: the ledger balances, and every wallet is what its account's
    entries add up to. *)
Definition wallet_matches (d : DB) (w : wallets.Wallet) : Prop :=
  wallets.Wallet_AvailableBalance w + wallets.Wallet_LockedBalance w =
  net_ledger (wallets.Wallet_AccountID w) d.

#[export] Instance wallet_matches_dec d w : Decision (wallet_matches d w).
Proof. unfold wallet_matches. apply _. Defined.

Definition ledger_balances (d : DB) : Prop :=
  ledger_total ledger.DirectionDebit d = ledger_total ledger.DirectionCredit d.

#[export] Instance ledger_balances_dec d : Decision (ledger_balances d).
Proof. unfold ledger_balances. apply _. Defined.

(** The wallets that do not match. *)
Definition wrong_wallets (d : DB) : list (string * wallets.Wallet) :=
  filter (λ kw, ¬ wallet_matches d kw.2) (map_to_list (wallets_t d)).

Definition consistent (d : DB) : Prop :=
  ledger_balances d ∧ map_Forall (λ _ w, wallet_matches d w) (wallets_t d).

#[export] Instance consistent_dec d : Decision (consistent d).
Proof. unfold consistent. apply _. Defined.

Lemma elem_of_wrong_wallets d id w :
  (id, w) ∈ wrong_wallets d ↔ wallets_t d !! id = Some w ∧ ¬ wallet_matches d w.
Proof. unfold wrong_wallets. rewrite list_elem_of_filter, elem_of_map_to_list. simpl. tauto. Qed.

Lemma wrong_wallets_nil d :
  wrong_wallets d = [] ↔ map_Forall (λ _ w, wallet_matches d w) (wallets_t d).
Proof.
  split.
  - intros Hnil id w Hw. apply dec_stable. intros Hn.
    assert (Hin : (id, w) ∈ wrong_wallets d) by by apply elem_of_wrong_wallets.
    rewrite Hnil in Hin. by apply not_elem_of_nil in Hin.
  - intros Hall. destruct (wrong_wallets d) as [|[id w] rest] eqn:Heq; [done|].
    assert (Hin : (id, w) ∈ wrong_wallets d) by (rewrite Heq; left).
    apply elem_of_wrong_wallets in Hin as [Hw Hn]. by apply Hall in Hw.
Qed.

Section Verdict.
Context `{UuidLaws}.

(** Every sum the queries compute fits the integer it is computed or scanned in. *)
Definition sums_fit (d : DB) : Prop :=
  in_int64 (ledger_total ledger.DirectionDebit d) ∧
  in_int64 (ledger_total ledger.DirectionCredit d) ∧
  (∀ id w, wallets_t d !! id = Some w →
     in_int64 (wallets.Wallet_AvailableBalance w + wallets.Wallet_LockedBalance w) ∧
     in_int64 (net_ledger (wallets.Wallet_AccountID w) d)) ∧
  Z.of_nat (size (wallets_t d)) < int64_max ∧ Z.of_nat (size (transactions_in d)) <= int64_max.

Definition mismatch_row (d : DB) (kw : string * wallets.Wallet) : Mismatch :=
  mismatch_of kw.1 (wallets.Wallet_AvailableBalance kw.2 + wallets.Wallet_LockedBalance kw.2)
    (net_ledger (wallets.Wallet_AccountID kw.2) d).

Lemma check_rows_exact d l n ms :
  Forall (λ kw : string * wallets.Wallet,
    in_int64 (wallets.Wallet_AvailableBalance kw.2 + wallets.Wallet_LockedBalance kw.2) ∧
    in_int64 (net_ledger (wallets.Wallet_AccountID kw.2) d)) l →
  check_rows ((λ kw, (res_map (pair kw.1)
      (bigint (wallets.Wallet_AvailableBalance kw.2 + wallets.Wallet_LockedBalance kw.2)),
      net_ledger (wallets.Wallet_AccountID kw.2) d)) <$> l) n ms =
  Ok (n + Z.of_nat (length l),
      ms ++ (mismatch_row d <$> filter (λ kw, ¬ wallet_matches d kw.2) l)).
Proof.
  intros Hall. revert n ms. induction Hall as [|[id w] l [Hw Hn] _ IH]; intros n ms.
  { simpl. by rewrite Z.add_0_r, app_nil_r. }
  rewrite fmap_cons, filter_cons. cbn [fst snd] in Hw, Hn |- *. rewrite (bigint_in _ Hw).
  cbn [res_map check_rows]. unfold scan_int64. rewrite decide_True by done. cbn [res_bind].
  rewrite IH. f_equal. f_equal; [simpl; lia|].
  unfold wallet_matches at 3. case_bool_decide as Hb; case_decide as Hd; simpl in Hd; try done.
  by rewrite <- app_assoc.
Qed.

Lemma check_wallets_exact d :
  sums_fit d →
  check_rows (wallet_rows d) 0 [] =
    Ok (Z.of_nat (size (wallets_t d)), mismatch_row d <$> wrong_wallets d).
Proof.
  intros (_ & _ & Hw & _). unfold wallet_rows. rewrite (check_rows_exact d).
  - by rewrite Z.add_0_l, length_map_to_list.
  - apply Forall_forall. intros [id w] Hin%elem_of_map_to_list. by eapply Hw.
Qed.

(** The worker's own writes: a run or an item, and nothing else. *)
Definition own_writes (d d' : DB) : Prop :=
  ∃ r i, d' = set_reconciliation_items i (set_reconciliation_runs r d).

#[export] Instance own_writes_preorder : PreOrder own_writes.
Proof.
  split.
  - intros d. exists (reconciliation_runs d), (reconciliation_items d). by destruct d.
  - intros d1 d2 d3 (r & i & ->) (r' & i' & ->). by exists r', i'.
Qed.

Lemma own_runs t d : own_writes d (set_reconciliation_runs t d).
Proof. exists t, (reconciliation_items d). by destruct d. Qed.

Lemma own_items t d : own_writes d (set_reconciliation_items t d).
Proof. exists (reconciliation_runs d), t. by destruct d. Qed.

Lemma create_run_own w : own_writes (w_db w) (w_db (CreateRun w).2).
Proof.
  cbn [CreateRun postgresRepository]. destruct (exec sql_insert_run w) as [r w'] eqn:Hex.
  apply exec_cases in Hex as [(e & _ & Hd)|(run & d & Hq & Hd & _)]; simpl; rewrite Hd; clear Hd; [done|].
  unfold sql_insert_run in Hq. m_inv. apply own_runs.
Qed.

Lemma complete_run_own id st a b c w :
  own_writes (w_db w) (w_db (CompleteRun id st a b c w).2).
Proof.
  cbn [CompleteRun postgresRepository].
  destruct (exec (sql_complete_run id st a b c) w) as [r w'] eqn:Hex.
  apply exec_cases in Hex as [(e & _ & Hd)|(u & d & Hq & Hd & _)]; simpl; rewrite Hd; clear Hd; [done|].
  unfold sql_complete_run in Hq. m_inv.
  destruct (reconciliation_runs (w_db w) !! _); m_inv; [apply own_runs|done].
Qed.

(** Recording a mismatch adds at most an item. *)
Definition items_only (d d' : DB) : Prop := ∃ i, d' = set_reconciliation_items i d.

#[export] Instance items_only_preorder : PreOrder items_only.
Proof.
  split.
  - intros d. exists (reconciliation_items d). by destruct d.
  - intros d1 d2 d3 (i & ->) (i' & ->). by exists i'.
Qed.

Lemma items_only_own d d' : items_only d d' → own_writes d d'.
Proof. intros (i & ->). apply own_items. Qed.

Lemma record_mismatch_items id a b c details w :
  items_only (w_db w) (w_db (RecordMismatch id a b c details w).2).
Proof.
  cbn [RecordMismatch postgresRepository].
  destruct (exec (sql_insert_item id a b c details) w) as [r w'] eqn:Hex.
  apply exec_cases in Hex as [(e & _ & Hd)|(u & d & Hq & Hd & _)]; simpl; rewrite Hd; clear Hd; [done|].
  unfold sql_insert_item in Hq. m_inv. by eexists.
Qed.

Lemma record_mismatches_items id ms w :
  items_only (w_db w) (w_db (run (record_mismatches id ms) w).2).
Proof.
  revert w. induction ms as [|m ms IH]; intros w; [done|].
  cbn [record_mismatches]. rewrite run_bind, run_call.
  pose proof (record_mismatch_items id "WALLET" (fmt_v (mismatch_get m "wallet_id"))
    "BALANCE_MISMATCH" (JStr ("Expected " +:+ fmt_d (mismatch_get m "expected") +:+
                           ", got " +:+ fmt_d (mismatch_get m "actual"))) w) as Hi.
  destruct (RecordMismatch _ _ _ _ _ w) as [r w1]. etrans; [exact Hi|apply IH].
Qed.

Lemma record_mismatches_tick id ms w :
  (w_tick w ≤ w_tick (run (record_mismatches id ms) w).2)%nat.
Proof.
  revert w. induction ms as [|m ms IH]; intros w; [done|].
  cbn [record_mismatches]. rewrite run_bind, run_call.
  cbn [RecordMismatch postgresRepository].
  pose proof (exec_tick (sql_insert_item id "WALLET" (fmt_v (mismatch_get m "wallet_id"))
    "BALANCE_MISMATCH" (JStr ("Expected " +:+ fmt_d (mismatch_get m "expected") +:+
                           ", got " +:+ fmt_d (mismatch_get m "actual")))) w) as Ht.
  destruct (exec _ w) as [r w1]. etrans; [|apply IH]. simpl in Ht. lia.
Qed.

Lemma check_global_reads w : w_db (CheckGlobalLedgerBalance w).2 = w_db w.
Proof.
  cbn [CheckGlobalLedgerBalance postgresRepository].
  destruct (exec sql_global_balance w) as [r w'] eqn:Hex. eapply exec_read; [|exact Hex].
  intros c d a d' Hq. unfold sql_global_balance in Hq. by m_inv.
Qed.

Lemma check_wallets_reads w : w_db (CheckWalletBalances w).2 = w_db w.
Proof. simpl. unfold query_wallets. by destruct (env_outcome (w_tick w)). Qed.

Lemma keeps_own d0 {A} (m : M A) :
  (∀ w, own_writes (w_db w) (w_db (m w).2)) → keeps (λ w, own_writes d0 (w_db w)) A m.
Proof. intros Hm w Hw. etrans; [exact Hw|apply Hm]. Qed.

Lemma record_mismatches_calls d0 id ms :
  calls (keeps (λ w, own_writes d0 (w_db w))) (record_mismatches id ms).
Proof.
  induction ms as [|m ms IH]; [done|]. split; [|by intros r].
  apply keeps_own. intros w. apply items_only_own, record_mismatch_items.
Qed.

Lemma run_reconciliation_calls d0 :
  calls (keeps (λ w, own_writes d0 (w_db w))) RunReconciliation.
Proof.
  assert (Hcomplete : ∀ id st a b c,
    calls (keeps (λ w, own_writes d0 (w_db w))) (let+ _ := call (CompleteRun id st a b c) in Ret tt)).
  { intros. split; [apply keeps_own; intros w; apply complete_run_own|done]. }
  assert (Hwallets : ∀ id st m t, calls (keeps (λ w, own_writes d0 (w_db w)))
    (check_wallets_and_complete id st m t)).
  { intros. split; [apply keeps_own; intros w; by rewrite check_wallets_reads|].
    intros [[n ms]|e]; [|apply Hcomplete]. cbn [prog_bind].
    apply calls_bind; [apply record_mismatches_calls|]. intros _. apply Hcomplete. }
  split; [apply keeps_own, create_run_own|]. intros [run|e]; [|done].
  split; [apply keeps_own; intros w; by rewrite check_global_reads|].
  intros [[[debits credits] txns]|e]; [|apply Hcomplete]. cbn [prog_bind].
  case_bool_decide; [|apply Hwallets]. apply calls_bind; [|intros _; apply Hwallets].
  split; [|done]. apply keeps_own. intros w. apply items_only_own, record_mismatch_items.
Qed.

(** The run that is recorded when nothing fails. *)
Definition verdict (d : DB) (run : Run) : Prop :=
  Run_Status run = (if decide (consistent d) then StatusPassed else StatusFailed) ∧
  Run_WalletsChecked run = Z.of_nat (size (wallets_t d)) ∧
  Run_LedgerTransactionsChecked run = Z.of_nat (size (transactions_in d)) ∧
  Run_MismatchesFound run = (if decide (ledger_balances d) then 0 else 1) +
    Z.of_nat (length (wrong_wallets d)) ∧
  is_Some (Run_CompletedAt run).

(** The last statement of a run. *)
Lemma complete_run_fine id st a b c run w :
  canonical id → env_outcome (w_tick w) = Fine → reconciliation_runs (w_db w) !! id = Some run →
  varchar 50 st = Ok st → in_int64 a → in_int64 b → in_int64 c →
  reconciliation_runs (w_db (Reconciliation.CompleteRun id st a b c w).2) !! id =
    Some (mkRun (Run_ID run) st a b c (Run_StartedAt run) (Some (env_now (w_tick w)))).
Proof.
  intros Hc Hf Hrun Hst Ha Hb Hcc. cbn [CompleteRun postgresRepository].
  rewrite exec_fine by done. unfold sql_complete_run. rewrite (uuid_param_some _ _ Hc).
  cbn [res_bind]. rewrite Hrun, Hst. cbn [res_bind]. rewrite (bigint_in _ Ha), (bigint_in _ Hb),
    (bigint_in _ Hcc). cbn [res_bind]. simpl. by rewrite lookup_insert_eq.
Qed.

Lemma wrong_wallets_size d : (length (wrong_wallets d) ≤ size (wallets_t d))%nat.
Proof.
  unfold wrong_wallets. etrans; [apply length_filter|].
  pose proof (length_map_to_list (wallets_t d)) as Hl. lia.
Qed.

(** What the checks say is what there is. *)
Lemma checks_status d st :
  (st = StatusPassed ∧ ledger_balances d ∨ st = StatusFailed ∧ ¬ ledger_balances d) →
  (if bool_decide (wrong_wallets d = []) then st else StatusFailed) =
    if decide (consistent d) then StatusPassed else StatusFailed.
Proof.
  intros Hst. pose proof (wrong_wallets_nil d) as Hnil.
  destruct (decide (consistent d)) as [[Hb Hw]|Hn]; case_bool_decide;
    unfold consistent in *; destruct Hst as [[-> ?]|[-> ?]]; tauto.
Qed.

(** The second half of a run, on a database [d] to which only items were added. *)
Lemma check_wallets_and_complete_fine id st m t run d w :
  no_faults (w_tick w) → canonical id → sums_fit d → varchar 50 st = Ok st → 0 <= m <= 1 → in_int64 t →
  reconciliation_runs d !! id = Some run → items_only d (w_db w) →
  reconciliation_runs (w_db (Runtime.run (check_wallets_and_complete id st m t) w).2) !! id =
    Some (mkRun (Run_ID run) (if bool_decide (wrong_wallets d = []) then st else StatusFailed)
            (Z.of_nat (size (wallets_t d))) t (m + Z.of_nat (length (wrong_wallets d)))
            (Run_StartedAt run)
            (Some (env_now (w_tick (Runtime.run (record_mismatches id
               (mismatch_row d <$> wrong_wallets d)) (bump (start w))).2)))).
Proof.
  intros Hf Hc Hfit Hst Hm Ht Hrun Hitems.
  unfold check_wallets_and_complete. rewrite run_bind, run_call.
  cbn [CheckWalletBalances postgresRepository]. unfold query_wallets. rewrite (no_faults_now _ Hf).
  assert (Hrows : wallet_rows (w_db w) = wallet_rows d) by by destruct Hitems as [i ->].
  rewrite Hrows, (check_wallets_exact d Hfit). rewrite run_bind.
  pose proof (record_mismatches_items id (mismatch_row d <$> wrong_wallets d) (bump (start w))) as Hi.
  pose proof (record_mismatches_tick id (mismatch_row d <$> wrong_wallets d) (bump (start w))) as Htick.
  destruct (Runtime.run (record_mismatches _ _) _) as [u w1]. simpl in Hi, Htick.
  assert (Hi1 : items_only d (w_db w1)) by by etrans. clear Hi. destruct Hi1 as [i Hi].
  rewrite run_bind, run_call. cbv zeta.
  pose proof (complete_run_fine id
    (if bool_decide (mismatch_row d <$> wrong_wallets d = []) then st else StatusFailed)
    (Z.of_nat (size (wallets_t d))) t
    (m + Z.of_nat (length (mismatch_row d <$> wrong_wallets d))) run w1 Hc (Hf (w_tick w1) ltac:(lia))) as Hcomp.
  pose proof (wrong_wallets_size d). destruct Hfit as (_ & _ & _ & Hsw & _).
  destruct (CompleteRun _ _ _ _ _ w1) as [r w2]. simpl in Hcomp |- *. rewrite Hcomp.
  - f_equal. f_equal; [|by rewrite length_fmap].
    by destruct (wrong_wallets d).
  - by rewrite Hi.
  - by case_bool_decide.
  - unfold in_int64, int64_min, int64_max in *. lia.
  - done.
  - rewrite length_fmap. unfold in_int64, int64_min, int64_max in *. lia.
Qed.

Lemma create_run_fine w :
  env_outcome (w_tick w) = Fine → reconciliation_runs (w_db w) !! env_uuid (w_tick w) = None →
  let run := mkRun (env_uuid (w_tick w)) StatusInProgress 0 0 0 (env_now (w_tick w)) None in
  CreateRun w = (Ok run, Runtime.set_db (set_reconciliation_runs
    (<[Run_ID run := run]> (reconciliation_runs (w_db w))) (w_db w)) (bump (start w))).
Proof.
  intros Hf Hn run. cbn [CreateRun postgresRepository]. rewrite exec_fine by done.
  unfold sql_insert_run. change (varchar 50 StatusInProgress) with (Ok StatusInProgress).
  cbn [res_bind]. by rewrite insert_pk_fresh.
Qed.

Lemma check_global_fine w :
  env_outcome (w_tick w) = Fine → sums_fit (w_db w) →
  CheckGlobalLedgerBalance w =
    (Ok (ledger_total ledger.DirectionDebit (w_db w), ledger_total ledger.DirectionCredit (w_db w),
         Z.of_nat (size (transactions_in (w_db w)))), Runtime.set_db (w_db w) (bump (start w))).
Proof.
  intros Hf (Hd & Hc & _). cbn [CheckGlobalLedgerBalance postgresRepository].
  rewrite exec_fine by done. unfold sql_global_balance, scan_int64. by rewrite !decide_True by done.
Qed.

Lemma record_imbalance_items id a b w :
  items_only (w_db w) (w_db (Runtime.run (record_imbalance id a b) w).2) ∧
  (w_tick w ≤ w_tick (Runtime.run (record_imbalance id a b) w).2)%nat.
Proof.
  unfold record_imbalance. rewrite run_bind, run_call.
  set (details := JStr _).
  pose proof (record_mismatch_items id "SYSTEM" "GLOBAL_LEDGER" "IMBALANCED_LEDGER" details w) as Hi.
  pose proof (exec_tick (sql_insert_item id "SYSTEM" "GLOBAL_LEDGER" "IMBALANCED_LEDGER" details) w)
    as Ht. cbn [RecordMismatch postgresRepository] in *.
  destruct (exec _ w) as [r w1]. simpl in *. split; [done|lia].
Qed.

Lemma run_reconciliation_verdict w :
  no_faults (w_tick w) → reconciliation_runs (w_db w) !! env_uuid (w_tick w) = None → sums_fit (w_db w) →
  ∃ run, reconciliation_runs (w_db (Runtime.run RunReconciliation w).2) !! env_uuid (w_tick w)
           = Some run ∧ verdict (w_db w) run.
Proof.
  intros Hf Hn Hfit.
  set (run0 := mkRun (env_uuid (w_tick w)) StatusInProgress 0 0 0 (env_now (w_tick w)) None).
  set (d := set_reconciliation_runs (<[Run_ID run0 := run0]> (reconciliation_runs (w_db w))) (w_db w)).
  assert (Hfit1 : sums_fit d) by exact Hfit.
  assert (Hrun0 : reconciliation_runs d !! Run_ID run0 = Some run0) by apply lookup_insert_eq.
  pose proof (env_uuid_canonical (w_tick w)) as Hcan.
  pose proof Hfit as (_ & _ & _ & _ & Ht).
  assert (Htx : in_int64 (Z.of_nat (size (transactions_in d)))).
  { change (transactions_in d) with (transactions_in (w_db w)).
    unfold in_int64, int64_min in *. lia. }
  unfold RunReconciliation. rewrite run_bind, run_call, (create_run_fine w (no_faults_now _ Hf) Hn).
  fold run0 d. rewrite run_bind, run_call, check_global_fine by (done || (apply Hf; simpl; lia)).
  change (w_db (Runtime.set_db d (bump (start w)))) with d. cbv beta iota zeta.
  change (verdict (w_db w)) with (verdict d). unfold verdict.
  match goal with |- context [if bool_decide ?P then _ else _] =>
    destruct (bool_decide P) eqn:Hb; [apply bool_decide_eq_true in Hb|apply bool_decide_eq_false in Hb]
  end.
  - rewrite run_bind.
    pose proof (record_imbalance_items (Run_ID run0) (ledger_total ledger.DirectionDebit d)
      (ledger_total ledger.DirectionCredit d)
      (Runtime.set_db d (bump (start (Runtime.set_db d (bump (start w))))))) as [Hi Htick].
    destruct (Runtime.run (record_imbalance _ _ _) _) as [u w1]. simpl in Hi, Htick.
    eexists. split.
    + apply (check_wallets_and_complete_fine (Run_ID run0) StatusFailed 1 _ run0 d); try done; try lia.
      apply (no_faults_le (w_tick w)); [lia|done].
    + simpl. split; [apply checks_status; by right|]. split; [done|]. split; [done|].
      split; [|by eexists]. by rewrite decide_False.
  - eexists. split.
    + apply (check_wallets_and_complete_fine (Run_ID run0) StatusPassed 0 _ run0 d); try done; try lia.
      apply (no_faults_le (w_tick w)); [simpl; lia|done].
    + assert (Hbal : ledger_balances d) by (unfold ledger_balances; lia).
      simpl. split; [apply checks_status; by left|]. split; [done|]. split; [done|].
      split; [|by eexists]. by rewrite decide_True.
Qed.
End Verdict.

(** ** Properties *)

(** Reconciliation never touches the books: whatever the worker reads and whatever
    fails, all it writes is its own runs and items. *)
Theorem reconciliation_writes_its_tables `{UuidLaws} n w :
  ∃ runs items, w_db (run (Start n) w).2 =
    set_reconciliation_items items (set_reconciliation_runs runs (w_db w)).
Proof.
  refine (run_keeps (λ w', own_writes (w_db w) (w_db w')) (Start n) w _ _); [|by apply reflexivity].
  apply calls_bind; [apply run_reconciliation_calls|]. intros _.
  induction n as [|n IH]; [done|].
  apply calls_bind; [apply run_reconciliation_calls|by intros _].
Qed.

(** C21. The verdict of a run that meets no failure, and whose sums fit their types, is
    exact: it is recorded as PASSED precisely when the ledger balances and every wallet holds
    what its account's entries add up to, as FAILED otherwise; every wallet and every ledger
    transaction is counted, and so is every mismatch. *)
Theorem reconciliation_verdict `{UuidLaws} w :
  no_faults (w_tick w) → reconciliation_runs (w_db w) !! env_uuid (w_tick w) = None → sums_fit (w_db w) →
  ∃ run, reconciliation_runs (w_db (Runtime.run RunReconciliation w).2) !! env_uuid (w_tick w) = Some run ∧
    verdict (w_db w) run.
Proof. apply run_reconciliation_verdict. Qed.

(** What a recorded wallet mismatch says: the worker reads the keys ["expected"] and
    ["actual"] of a map that has neither, so the details of every BALANCE_MISMATCH item,
    whatever the wallet holds, are the same text of two formatting errors. *)
Theorem mismatch_details_are_lost (R : ReconciliationRepository) runID walletID a b rest :
  record_mismatches runID (mismatch_of walletID a b :: rest) =
    (let+ _ := call (RecordMismatch runID "WALLET" walletID "BALANCE_MISMATCH"
       (JStr "Expected %!d(<nil>), got %!d(<nil>)")) in
     record_mismatches runID rest).
Proof. reflexivity. Qed.

(** ** Concrete inputs *)

(** The sample bank holds money its empty ledger knows nothing of; without wallets there
    is nothing to miss. *)
Definition empty_books : DB := set_wallets ∅ sample_bank.

Lemma sample_sums_fit : sums_fit sample_bank.
Proof.
  split; [by vm_compute|]. split; [by vm_compute|]. split; [|by vm_compute].
  apply (map_Forall_insert_2 (λ _ w, _)); [by vm_compute|].
  apply (map_Forall_insert_2 (λ _ w, _)); [by vm_compute|]. apply map_Forall_empty.
Qed.

Lemma reconciliation_writes_its_tables_witness :
  ∃ runs items, w_db (Runtime.run (Start 1) (sample_world sample_bank)).2 =
    set_reconciliation_items items (set_reconciliation_runs runs sample_bank).
Proof. exact (reconciliation_writes_its_tables 1 (sample_world sample_bank)). Defined.

Lemma reconciliation_verdict_witness :
  (∃ run, reconciliation_runs (w_db (Runtime.run RunReconciliation (sample_world sample_bank)).2)
      !! "u" = Some run ∧ verdict sample_bank run) ∧
  option_map Run_Status (reconciliation_runs
    (w_db (Runtime.run RunReconciliation (sample_world sample_bank)).2) !! "u") = Some StatusFailed ∧
  option_map Run_Status (reconciliation_runs
    (w_db (Runtime.run RunReconciliation (sample_world empty_books)).2) !! "u") = Some StatusPassed.
Proof.
  split; [|split; vm_compute; reflexivity].
  exact (reconciliation_verdict (sample_world sample_bank) (sample_no_faults 0) eq_refl
    sample_sums_fit).
Defined.

(** The sample environment, except that the connection breaks after the server accepted
    the third exchange and before it sent a row. *)
Definition broken_connection : Env := {|
  env_outcome n := if decide (n = 2)%nat then FailAfter "conn closed" else Fine;
  env_uuid := sample_uuid;
  env_now n := Z.of_nat n;
  env_intn _ _ := 0;
  env_float32 _ := (1 # 2)%Q;
  lua_ge _ _ := None;
  uuid_in := sample_uuid_in;
|}.

(** A wallet query that breaks off is not noticed, because [rows.Err()] is never
    looked at: with both wallets of the sample bank wrong, the run reads no wallet and is
    recorded as PASSED with zero mismatches. *)
Theorem partial_read_passes :
  ¬ consistent sample_bank ∧
  option_map (λ r, (Run_Status r, Run_WalletsChecked r, Run_MismatchesFound r))
    (reconciliation_runs
       (w_db (Runtime.run (RunReconciliation (R := @postgresRepository broken_connection))
                (sample_world sample_bank)).2) !! "u") = Some (StatusPassed, 0, 0).
Proof.
  split; [|vm_compute; reflexivity]. intros Hc. apply (bool_decide_eq_true_2 (consistent sample_bank)) in Hc.
  vm_compute in Hc. discriminate.
Qed.
