(* ===== verification/Server.v ===== *)
(** * The server (internal/server)

    [NewServer] wires the components together: the routes with the middlewares that
    guard them, and the two background workers.  A route is named by its method and
    pattern; matching a path with a pattern is the router library's. *)

From S2P Require Import Prelude Go Models Postgres Runtime Sample Redis Http Auth Middleware Metrics.
From S2P Require Import Ledger Outbox Idempotency Wallets Transfers TransferHandler.
From S2P Require Import Payments Reconciliation.
#[local] Open Scope prog_scope.
#[local] Open Scope Z_scope.

(** ** The code *)

Inductive route : Set :=
| GET_metrics
| GET_health
| GET_ready
| auth_routes (a : auth_route)
| POST_payment_provider
| wallets_routes (r : wallets_route)
| POST_transfers
| payments_routes (p : payments_route)
| GET_reconciliation_runs.

(** The routes outside the group that [AuthMiddleware] guards. *)
Definition public (rt : route) : bool :=
  match rt with
  | GET_metrics | GET_health | GET_ready | auth_routes _ | POST_payment_provider => true
  | _ => false
  end.

(** [RoutePattern] of the router library: how it prints the pattern of a route. *)
Class Router := RoutePattern : route → string.

Section Server.
Context `{Env} `{Bcrypt} `{Jwt} `{JsonText} `{Hmac} `{Router}.

(** The exposition of the metrics is the Prometheus library's; it reads what there is. *)
Variable promhttp_Handler : World → Response.

(** [db.Pool.Ping(ctx)] *)
Definition Ping : M unit := λ w,
  (match env_outcome (w_tick w) with
   | Fine => Ok tt
   | FailBefore msg | FailAfter msg => Err (ext_error msg)
   end, bump w).

Definition HandleMetrics : Handler := λ _,
  let+ resp := call (λ w, (Ok (promhttp_Handler w), w)) in
  match resp with
  | Ok resp => Ret resp
  | Err _ => Ret (mkResponse StatusInternalServerError NoBody)
  end.

Definition HandleReady : Handler := λ _,
  let+ err := call Ping in
  match err with
  | Err _ => Ret (http_Error "Database unavailable" StatusServiceUnavailable)
  | Ok _ => Ret (mkResponse StatusOK (TextBody "READY"))
  end.

(** The handler of each route. *)
Definition handler (JWTSecret : string) (rt : route) : Handler :=
  match rt with
  | GET_metrics => HandleMetrics
  | GET_health => λ _, Ret (mkResponse StatusOK (TextBody "OK"))
  | GET_ready => HandleReady
  | auth_routes a => auth_RegisterRoutes (S := Auth.serviceImpl JWTSecret) a
  | POST_payment_provider => HandleWebhook JWTSecret
  | wallets_routes r => AuthMiddleware JWTSecret (wallets_RegisterRoutes r)
  | POST_transfers => AuthMiddleware JWTSecret HandleTransfer
  | payments_routes p => AuthMiddleware JWTSecret (payments_RegisterRoutes JWTSecret p)
  | GET_reconciliation_runs => AuthMiddleware JWTSecret reconciliation_RegisterRoutes
  end.

(** The router finds the handler after the middlewares have run; from then on the route
    context has its pattern. *)
Definition routed (JWTSecret : string) (rt : route) : Request → prog (Response * string) := λ r,
  let+ resp := handler JWTSecret rt r in Ret (resp, RoutePattern rt).

(** [r.Use(customMiddleware.MetricsMiddleware)], and
    [r.Use(customMiddleware.RateLimiter(rdb, 100))] when there is a Redis client. *)
Definition NewServer (rdb : bool) (JWTSecret : string) (rt : route) : Handler :=
  MetricsMiddleware
    (if rdb then RateLimiter 100 (λ resp, (resp, "")) (routed JWTSecret rt)
     else routed JWTSecret rt).

(** What runs in the process: a request, or one of the workers for a number of rounds;
    the outbox worker only when Kafka could be reached. *)
Inductive task : Type :=
| Serve (rt : route) (r : Request)
| OutboxWorker (batches : nat)
| ReconciliationWorker (runs : nat).

Definition goroutine (rdb : bool) (JWTSecret : string) (t : task) : prog unit :=
  match t with
  | Serve rt r => let+ _ := NewServer rdb JWTSecret rt r in Ret tt
  | OutboxWorker batches => Outbox.Start batches
  | ReconciliationWorker runs => Reconciliation.Start runs
  end.
End Server.

(** ** Every request is answered *)

Section Answers.
Context `{Env} `{Bcrypt} `{Jwt} `{JsonText} `{Hmac} `{Router}.
Variable promhttp_Handler : World → Response.

Lemma auth_within n secret next r :
  (∀ claims, within n (next (with_claims claims r))) → within (S n) (AuthMiddleware secret next r).
Proof.
  intros Hn. unfold AuthMiddleware. case_bool_decide; [done|].
  destruct (split_spaces _) as [|scheme [|token [|]]]; [done..| |done].
  case_bool_decide; [done|]. apply within_call. intros [claims|e]; [apply Hn|done].
Qed.

Lemma role_within n roles next r : within n (next r) → within n (RequireRole roles next r).
Proof. intros Hn. unfold RequireRole. by destruct (ctx_claims r); [destruct (existsb _ _)|]. Qed.

Lemma answer_token_within user secret : within 1 (answer_token user secret).
Proof. apply within_call. by intros [t|e]. Qed.

Lemma auth_routes_within secret a r :
  within 3 (auth_RegisterRoutes (S := Auth.serviceImpl secret) a r).
Proof.
  destruct a; cbn [auth_RegisterRoutes]; unfold HandleRegister, HandleLogin;
    (destruct (decode_body _ r) as [req|]; [|done]); (destruct (_ || _); [done|]);
    cbn [Register Login Auth.serviceImpl].
  - apply (within_bind 3 0); [|by intros [resp|e]; [|cbv beta iota; case_match]].
    apply within_call. intros [hash|e]; [|done].
    apply within_call. intros [user|e]; [apply answer_token_within|done].
  - apply (within_bind 3 0); [|by intros [resp|e]; [|cbv beta iota; case_match]].
    apply within_call. intros [user|e]; [|done].
    destruct (negb _); [done|]. apply (within_mono 1); [lia|apply answer_token_within].
Qed.

Lemma get_wallet_within id caller role : within 1 (service_GetWallet id caller role).
Proof. apply within_call. intros [w|e]; [by destruct (denied _ _ _)|done]. Qed.

Lemma wallets_within rt r : within 2 (wallets_RegisterRoutes rt r).
Proof.
  destruct rt; cbn [wallets_RegisterRoutes]; try apply role_within;
    unfold HandleCreateWallet, HandleGetWallets, HandleGetWallet, HandleGetBalance,
      HandleGetTransactions, HandleFreezeWallet, HandleUnfreezeWallet;
    cbn [CreateWallet GetWallets GetWallet GetBalance GetTransactions FreezeWallet UnfreezeWallet
         Wallets.serviceImpl];
    try (destruct (GetClaims r) as [claims|]; [|done]).
  - destruct (decode_body _ r) as [req|]; [|done]. apply (within_bind 2 0); [|by intros [w|e]].
    by case_bool_decide.
  - apply within_call. by intros [w|e].
  - apply (within_bind 1 1); [apply get_wallet_within|by intros [w|e]].
  - apply (within_bind 2 0); [|by intros [w|e]].
    apply (within_try 1 1); [apply get_wallet_within|done].
  - apply (within_bind 2 0); [|by intros [w|e]].
    apply (within_try 1 1); [apply get_wallet_within|done].
  - by apply within_call.
  - by apply within_call.
Qed.

Lemma transfer_within r : within 6 (HandleTransfer r).
Proof.
  unfold HandleTransfer. destruct (GetClaims r) as [claims|]; [|done].
  case_bool_decide; [done|]. destruct (decode_body _ r) as [req|]; [|done].
  apply (within_bind 2 4).
  { apply within_call. intros [u|e]; [done|]. apply within_call.
    intros [row|e']; cbv beta iota zeta; [by case_match|done]. }
  intros [[rec|]|e]; unfold after_acquire, process, execute_and_answer;
    [done| |by case_bool_decide].
  apply within_call. intros res. destruct (negb _); [by apply within_call|].
  apply (within_bind 2 1); [apply execute_transfer_within|by intros [t|e]].
Qed.

Lemma create_payment_within id amount currency : within 3 (CreatePayment id amount currency).
Proof.
  apply within_call. intros [resp|e]; [|done]. apply within_call.
  intros [[[pid created] updated]|e]; [|done]. apply within_call. by intros [u|e].
Qed.

Lemma process_webhook_within provider payload : within 1 (ProcessWebhook provider payload).
Proof. destruct payload as [j|]; [|done]. cbn. by case_match. Qed.

Lemma webhook_within secret r : within 1 (HandleWebhook secret r).
Proof.
  unfold HandleWebhook. case_bool_decide; [done|]. do 2 (destruct (negb _); [done|]).
  by apply (within_bind 1 0); [apply process_webhook_within|].
Qed.

Lemma payments_within secret p r : within 4 (payments_RegisterRoutes secret p r).
Proof.
  destruct p; cbn [payments_RegisterRoutes]; unfold HandleCreatePayment, HandleDemoFund.
  - destruct (GetClaims r) as [claims|]; [|done]. destruct (decode_body _ r) as [req|]; [|done].
    apply (within_bind 3 1); [apply create_payment_within|by intros [p|e]].
  - destruct (decode_body _ r) as [req|]; [|done].
    apply (within_bind 3 1); [apply create_payment_within|]. intros [p|e]; [|done].
    apply (within_bind 1 0); [apply process_webhook_within|by intros [u|e]].
  - apply (within_mono 1); [lia|apply webhook_within].
Qed.

Lemma runs_within r : within 1 (reconciliation_RegisterRoutes r).
Proof. apply role_within, within_call. by intros [runs|e]. Qed.

Lemma handler_within secret rt r : within 7 (handler promhttp_Handler secret rt r).
Proof.
  destruct rt; cbn [handler].
  - apply within_call. by intros [resp|e].
  - done.
  - apply within_call. by intros [resp|e].
  - apply (within_mono 3); [lia|apply auth_routes_within].
  - apply (within_mono 1); [lia|apply webhook_within].
  - apply (within_mono 3); [lia|]. apply auth_within. intros claims. apply wallets_within.
  - apply auth_within. intros claims. apply transfer_within.
  - apply (within_mono 5); [lia|]. apply auth_within. intros claims. apply payments_within.
  - apply (within_mono 2); [lia|]. apply auth_within. intros claims. apply runs_within.
Qed.

Lemma serve_within rdb secret rt r :
  within 10 (goroutine promhttp_Handler rdb secret (Serve rt r)).
Proof.
  apply (within_bind 10 0); [|done]. unfold NewServer, MetricsMiddleware.
  apply within_call. intros start. apply (within_bind 8 1); [|by intros [resp pattern]].
  assert (Hr : within 7 (routed promhttp_Handler secret rt r)).
  { apply (within_bind 7 0); [apply handler_within|done]. }
  destruct rdb; [|by apply (within_mono 7); [lia|]].
  apply within_call. by intros [u|e]; [|case_bool_decide].
Qed.
End Answers.

(** ** Properties *)

(** C28. The routes of the API are closed to whoever has no token: a request that carries no
    token the server accepts is answered 401, or 429 when its address made too many
    requests, on every route but the public ones, and leaves the database as it was. *)
Theorem private_routes_need_a_token `{Env} `{Bcrypt} `{Jwt} `{JsonText} `{Hmac} `{Router}
    promhttp_Handler rdb secret rt r w :
  public rt = false →
  (∀ v claims, (w_tick w ≤ w_tick v ≤ S (w_tick w))%nat → ¬ authenticated secret r v claims) →
  let '(resp, w') := run (NewServer promhttp_Handler rdb secret rt r) w in
  resp_status resp ∈ [StatusUnauthorized; StatusTooManyRequests] ∧ w_db w' = w_db w.
Proof.
  intros Hp Hno.
  assert (Hh : ∀ v, (w_tick w ≤ w_tick v ≤ S (w_tick w))%nat → ∃ msg,
    run (handler promhttp_Handler secret rt r) v = (http_Error msg StatusUnauthorized, v)).
  { intros v Hv. destruct rt; try done; by apply auth_refuses; intros claims; apply Hno. }
  assert (Hr : ∀ v, (w_tick w ≤ w_tick v ≤ S (w_tick w))%nat → ∃ msg,
    run (routed promhttp_Handler secret rt r) v =
      (http_Error msg StatusUnauthorized, RoutePattern rt, v)).
  { intros v Hv. destruct (Hh v Hv) as [msg Hrun]. exists msg. unfold routed.
    by rewrite run_bind, Hrun. }
  unfold NewServer. set (next := if rdb then _ else _). pose proof (metrics_run next r w) as Hm.
  assert (Hnext : ∃ resp pattern w1, run (next r) w = (resp, pattern, w1) ∧ w_db w1 = w_db w ∧
    resp_status resp ∈ [StatusUnauthorized; StatusTooManyRequests]).
  { unfold next. destruct rdb; cycle 1.
    { destruct (Hr w) as [msg ->]; [lia|]. do 3 eexists. split; [done|]. by split; [|left]. }
    unfold RateLimiter. rewrite run_bind, run_call.
    destruct (Allow _ _ _ w) as [res v] eqn:Hv.
    pose proof (allow_db ("ratelimit:ip:" +:+ client_ip r) 100 minute w) as Hdb.
    pose proof (allow_tick ("ratelimit:ip:" +:+ client_ip r) 100 minute w) as Ht.
    rewrite Hv in Hdb, Ht. simpl in Hdb, Ht.
    destruct (Hr v) as [msg Hrun]; [lia|].
    destruct res as [u|e]; [|case_bool_decide];
      try (rewrite Hrun; do 3 eexists; split; [done|]; by split; [|left]).
    do 3 eexists. split; [done|]. split; [done|]. by right; left. }
  destruct Hnext as (resp & pattern & w1 & Hnext & Hdb & Hst). rewrite Hnext in Hm.
  destruct Hm as (t & h & -> & _). by split.
Qed.

(** ** Concrete inputs *)

Definition bearer (token key : string) : Request :=
  mkRequest "POST" "/api/v1/transfers" (λ h, if bool_decide (h = "Authorization") then "Bearer " +:+ token
                  else if bool_decide (h = "Idempotency-Key") then key else "")
    "10.0.0.1:80" "w1" "" true None.

(** A router that prints every pattern the same way. *)
#[export] Instance sample_router : Router := λ _, "/pattern".

(** A server without Redis on which every body registers [a@b.c] as an administrator. *)
Definition small_server : route → Handler :=
  NewServer (H2 := auth_text) (H3 := sample_hmac) (λ _, mkResponse StatusOK NoBody) false "secret".

(** Registration lets the client choose its role: a stranger who registers as an
    administrator is handed a token with which the server then freezes the wallet of
    somebody else. *)
Theorem anyone_can_freeze_a_wallet :
  let w := sample_world sample_bank in
  let '(resp1, w1) := run (small_server (auth_routes POST_register) post) w in
  let '(resp2, w2) := run (small_server (wallets_routes POST_freeze) (bearer "secretAu" "")) w1 in
  (∃ user, auth.User_Role user = auth.RoleAdmin ∧ resp1 = mkResponse StatusCreated
     (JsonBody (auth.AuthResponse_json (auth.mkAuthResponse "secretAu" user)))) ∧
  resp_status resp2 = StatusOK ∧
  wallets.Wallet_Status <$> (wallets_t (w_db w) !! "w1") = Some wallets.StatusActive ∧
  wallets.Wallet_Status <$> (wallets_t (w_db w2) !! "w1") = Some wallets.StatusFrozen.
Proof.
  vm_compute. split; [|done]. by exists (auth.mkUser "u" "a@b.c" "" "ADMIN" 0 0).
Qed.

Lemma private_routes_need_a_token_witness :
  let '(resp, w') := run (small_server POST_transfers (bearer "" "k2")) (sample_world sample_bank) in
  resp_status resp ∈ [StatusUnauthorized; StatusTooManyRequests] ∧
  w_db w' = w_db (sample_world sample_bank).
Proof.
  apply (private_routes_need_a_token (H2 := auth_text) (H3 := sample_hmac)
    (λ _, mkResponse StatusOK NoBody) false "secret" POST_transfers (bearer "" "k2")
    (sample_world sample_bank)); [reflexivity|].
  intros v claims _ (token & Hns & Hh & Hv). destruct token as [|c s]; [by vm_compute in Hv|].
  discriminate Hh.
Defined.
