(* ===== verification/EndToEnd.v ===== *)
(** * A transfer from the wire to the database (internal/server, internal/transfers)

    [Server] composes the routes from middlewares and handlers.  Here the composition is
    undone: what the server answers is what the handler of the route answers in the world the
    limiter leaves, and for transfers that is the ruling of [TransferRoute]. *)

From S2P Require Import Prelude Go Models Postgres Runtime Sample Redis Http Auth Middleware Metrics.
From S2P Require Import Ledger Outbox Idempotency Wallets Transfers TransferHandler TransferRoute.
From S2P Require Import Payments Reconciliation Server.
Import transfers.
#[local] Open Scope go_scope.
#[local] Open Scope prog_scope.
#[local] Open Scope Z_scope.

(** ** From the server to the handler *)

(** The world in which the handler of a route starts, unless the limiter turns the request
    away: it does so only when its counter says so, never because Redis cannot be reached. *)
Definition let_through `{Env} (rdb : bool) (r : Request) (w : World) : option World :=
  if rdb then
    let '(res, w') := Allow ("ratelimit:ip:" +:+ client_ip r) 100 minute w in
    if bool_decide (res = Err ErrRateLimitExceeded) then None else Some w'
  else Some w.

Section Wire.
Context `{Env} `{Bcrypt} `{Jwt} `{JsonText} `{Hmac} `{Router}.
Variable promhttp_Handler : World → Response.
#[local] Notation serve_route := (NewServer promhttp_Handler).

Lemma let_through_frame rdb r w v :
  let_through rdb r w = Some v →
  w_db v = w_db w ∧ (w_tick w ≤ w_tick v ≤ S (w_tick w))%nat.
Proof.
  unfold let_through. destruct rdb; [|intros [= ->]; split; [done|lia]].
  pose proof (allow_db ("ratelimit:ip:" +:+ client_ip r) 100 minute w) as Hdb.
  pose proof (allow_tick ("ratelimit:ip:" +:+ client_ip r) 100 minute w) as Ht.
  destruct (Allow _ _ _ w) as [res w']. simpl in Hdb, Ht. case_bool_decide; [done|].
  intros [= <-]. split; [done|lia].
Qed.

Lemma limited_run {A} (answer : Response → A) (next : Request → prog A) r w :
  run (RateLimiter 100 answer next r) w =
  match let_through true r w with
  | Some v => run (next r) v
  | None => (answer (http_Error "Too Many Requests" StatusTooManyRequests),
             (Allow ("ratelimit:ip:" +:+ client_ip r) 100 minute w).2)
  end.
Proof.
  unfold RateLimiter, let_through. rewrite run_bind, run_call.
  destruct (Allow _ _ _ w) as [[u|e] w']; [done|]. repeat case_bool_decide; done || congruence.
Qed.

(** The server answers what the handler of the route answers, and the database is what the
    handler makes of it; the metrics are all that is added. *)
Lemma server_run rdb secret rt r w :
  match let_through rdb r w with
  | Some v =>
    let '(resp, w1) := run (handler promhttp_Handler secret rt r) v in
    ∃ t h, run (serve_route rdb secret rt r) w = (resp, set_http t h w1)
  | None =>
    let '(resp, w') := run (serve_route rdb secret rt r) w in
    resp = http_Error "Too Many Requests" StatusTooManyRequests ∧ w_db w' = w_db w
  end.
Proof.
  unfold NewServer. set (next := if rdb then _ else _). pose proof (metrics_run next r w) as Hm.
  assert (Hr : ∀ v, run (routed promhttp_Handler secret rt r) v =
    let '(resp, w1) := run (handler promhttp_Handler secret rt r) v in (resp, RoutePattern rt, w1)).
  { intros v. unfold routed. rewrite run_bind. by destruct (run _ v). }
  assert (Hnext : run (next r) w =
    match let_through rdb r w with
    | Some v => let '(resp, w1) := run (handler promhttp_Handler secret rt r) v in
                (resp, RoutePattern rt, w1)
    | None => (http_Error "Too Many Requests" StatusTooManyRequests, "",
               (Allow ("ratelimit:ip:" +:+ client_ip r) 100 minute w).2)
    end).
  { unfold next. destruct rdb; [rewrite limited_run|exact (Hr w)].
    by destruct (let_through true r w) as [v|]; [apply Hr|]. }
  rewrite Hnext in Hm. clearbody next. destruct (let_through rdb r w) as [v|].
  - destruct (run (handler promhttp_Handler secret rt r) v) as [resp w1].
    destruct Hm as (t & h & -> & _). by exists t, h.
  - destruct Hm as (t & h & -> & _). split; [done|]. apply allow_db.
Qed.
End Wire.

(** ** Property *)

(** C15. A transfer is decided from the wire to the database: the server's answer to a
    request for a transfer is 429 when the counter of the caller's address is spent, 401 when
    the request carries no token the server accepts, and otherwise what [request_ruling] says
    for the claims of the token, with its effect; in the first two cases nothing is written.
    This holds when nothing outside fails, the key fits its column, a body that can be
    decoded spells both wallet ids as the database prints them and asks for an [int64]
    amount, the rows of the wallets satisfy the constraints of the schema, and the uuids
    drawn are new and not longer than 255 characters. *)
Theorem transfer_decided_end_to_end `{UuidLaws} `{Bcrypt} `{Jwt} `{JsonText} `{Hmac} `{Router}
    promhttp_Handler rdb secret r w :
  let key := Header r "Idempotency-Key" in
  no_faults 0 → supplied w →
  (∀ k, (k < 19)%nat → is_ok (varchar 255 (env_uuid (w_tick w + k)))) → wallets_ok (w_db w) →
  varchar 255 key = Ok key →
  (∀ req, decode_body decode_CreateTransferRequest r = Some req →
     canonical (Req_SourceWalletID req) ∧ canonical (Req_DestinationWalletID req) ∧
     Req_Amount req <= int64_max) →
  let '(resp, w') := run (NewServer promhttp_Handler rdb secret POST_transfers r) w in
  match let_through rdb r w with
  | None =>
    resp = http_Error "Too Many Requests" StatusTooManyRequests ∧ w_db w' = w_db w
  | Some v =>
    (∀ claims, authenticated secret r v claims →
       conforms (request_ruling (with_claims claims r) (w_db w)) key resp (w_db w) (w_db w')) ∧
    ((∀ claims, ¬ authenticated secret r v claims) →
       resp_status resp = StatusUnauthorized ∧ w_db w' = w_db w)
  end.
Proof.
  intros key Hf Hs Hsh Hok Hkey Hreq.
  pose proof (server_run promhttp_Handler rdb secret POST_transfers r w) as Hrun.
  destruct (run _ w) as [resp w'].
  destruct (let_through rdb r w) as [v|] eqn:Hv; [|done].
  apply let_through_frame in Hv as [Hdb Ht]. cbn [handler] in Hrun. split.
  - intros claims Ha. rewrite (auth_passes _ _ _ _ _ Ha) in Hrun.
    pose proof (transfer_decides (with_claims claims r) v Hf) as Hd. unfold supplied in Hd.
    rewrite Hdb in Hd. cbn [with_claims Header] in Hd. fold key in Hd.
    destruct (run (HandleTransfer _) v) as [resp1 w1].
    destruct Hrun as (t & h & Hrun). injection Hrun as -> ->.
    apply Hd; try done; [by apply (uuid_supply_le (w_tick w)); [lia|]|].
    intros k Hk. replace (w_tick v + k)%nat with (w_tick w + (w_tick v - w_tick w + k))%nat by lia.
    apply Hsh. lia.
  - intros Hno. destruct (auth_refuses secret HandleTransfer r v Hno) as [msg Href].
    rewrite Href in Hrun. destruct Hrun as (t & h & Hrun). by injection Hrun as -> ->.
Qed.

(** ** Concrete inputs *)

#[local] Notation the_server :=
  (NewServer (H2 := transfer_text) (H3 := sample_hmac) (λ _, mkResponse StatusOK NoBody) true "secret").

(** What is decided about the sample transfer: under a new key and a used one, for the owner
    of the source wallet and for a stranger. *)
Example sample_rulings :
  let ruled user key := request_ruling (H := transfer_text)
    (with_claims (auth.mkClaims user auth.RoleUser) (bearer "secretUb1" key)) sample_bank in
  ruled "b1" "k2" = Moved (sample_req "w1")
    (<["w2" := mkBankWallet "USD" "ACTIVE" 600]> (<["w1" := mkBankWallet "USD" "ACTIVE" 900]>
       (bank_of sample_bank))) ∧
  ruled "b2" "k2" = NotOwner ∧ ruled "b1" "k1" = InProgress.
Proof. vm_compute. done. Qed.

Lemma sample_more_short_uuids k :
  (k < 19)%nat → is_ok (varchar 255 (env_uuid (w_tick (sample_world sample_bank) + k))).
Proof. intros Hk. do 19 (destruct k as [|k]; [vm_compute; done|]). lia. Qed.

Lemma sample_body_fits r req :
  decode_body (H := transfer_text) decode_CreateTransferRequest r = Some req →
  canonical (Req_SourceWalletID req) ∧ canonical (Req_DestinationWalletID req) ∧
  Req_Amount req <= int64_max.
Proof.
  intros Hr. vm_compute in Hr. injection Hr as <-. split; [reflexivity|].
  split; [reflexivity|vm_compute; discriminate].
Qed.

Lemma transfer_decided_end_to_end_witness :
  let '(resp, w') := run (the_server POST_transfers (bearer "secretUb1" "k2"))
                       (sample_world sample_bank) in
  (∃ t, resp = mkResponse StatusCreated (JsonBody (Transfer_json t))) ∧
  bank_of (w_db w') =
    <["w2" := mkBankWallet "USD" "ACTIVE" 600]> (<["w1" := mkBankWallet "USD" "ACTIVE" 900]>
      (bank_of sample_bank)).
Proof.
  pose proof (transfer_decided_end_to_end (H3 := transfer_text) (H4 := sample_hmac)
    (λ _, mkResponse StatusOK NoBody) true "secret" (bearer "secretUb1" "k2")
    (sample_world sample_bank) (sample_no_faults _) (sample_bank_supply _)
    sample_more_short_uuids sample_wallets_ok eq_refl (sample_body_fits _)) as Hp.
  destruct (run _ _) as [resp w'].
  destruct (let_through _ _ _) as [v|] eqn:Hv; [|vm_compute in Hv; discriminate Hv].
  destruct Hp as [Hp _]. specialize (Hp (auth.mkClaims "b1" auth.RoleUser)).
  change (w_db (sample_world sample_bank)) with sample_bank in Hp.
  rewrite (proj1 sample_rulings) in Hp. destruct Hp as (t & d1 & d2 & row & _ & Hresp & Hbank & _).
  - exists "secretUb1". split; [simpl; intuition discriminate|]. split; [reflexivity|].
    vm_compute in Hv. injection Hv as <-. vm_compute. reflexivity.
  - split; [by exists t|exact Hbank].
Defined.
