(* ===== verification/Telemetry.v ===== *)
(** * What the metrics say

    Nothing but [MetricsMiddleware] touches the request counter, so that it tells exactly how
    many requests were answered, however they interleave and whatever fails. *)

From stdpp Require Import pretty.
From S2P Require Import Prelude Go Models Postgres Runtime Sample Redis Http Auth Middleware Metrics.
From S2P Require Import Ledger Outbox Idempotency Wallets Transfers TransferHandler.
From S2P Require Import Payments Reconciliation Server.
#[local] Open Scope prog_scope.
#[local] Open Scope Z_scope.

(** ** Calls that count no request *)

Definition unmetered : ∀ X, M X → Prop :=
  λ _ m, ∀ w, w_http_requests_total (m w).2 = w_http_requests_total w.

Section Unmetered.

Lemma unmetered_ret {X} (a : X) : unmetered _ (ret a).
Proof. done. Qed.
Lemma unmetered_fail {X} e : unmetered X (fail e).
Proof. done. Qed.
Lemma unmetered_lift {X} (r : Res X) : unmetered _ (lift_res r).
Proof. done. Qed.
Lemma unmetered_guard b e : unmetered _ (guard b e).
Proof. by destruct b. Qed.
Lemma unmetered_bind {X Y} (m : M X) (f : X → M Y) :
  unmetered _ m → (∀ a, unmetered _ (f a)) → unmetered _ (bind m f).
Proof.
  intros Hm Hf w. specialize (Hm w). unfold bind. destruct (m w) as [[a|e] w']; [|done].
  simpl in Hm. by rewrite Hf.
Qed.
Lemma unmetered_wrap {X} pre (m : M X) : unmetered _ m → unmetered _ (wrap_err pre m).
Proof. intros Hm w. specialize (Hm w). unfold wrap_err. by destruct (m w). Qed.
Lemma unmetered_map_err {X} f (m : M X) : unmetered _ m → unmetered _ (map_err f m).
Proof. intros Hm w. specialize (Hm w). unfold map_err. by destruct (m w) as [[a|e] w']. Qed.
Lemma unmetered_take_lock l : unmetered _ (take_lock l).
Proof. intros w. unfold take_lock. by case_decide. Qed.

Context `{Env}.

Lemma unmetered_query {X} (f : Ctx → DB → Res (X * DB)) : unmetered _ (query f).
Proof.
  intros w. unfold query. destruct (env_outcome _); [|done..]. by destruct (f _ _) as [[a d]|e].
Qed.
Lemma unmetered_exec {X} (f : Ctx → DB → Res (X * DB)) : unmetered _ (exec f).
Proof.
  intros w. unfold exec. destruct (env_outcome _); [|done|]; by destruct (f _ _) as [[a d]|e].
Qed.
Lemma unmetered_with_tx {X} (body : M X) : unmetered _ body → unmetered _ (with_tx body).
Proof.
  intros Hb w. specialize (Hb (bump (start w))). unfold with_tx.
  destruct (env_outcome (w_tick w)); [|done..].
  destruct (body _) as [[a|e] w1]; [|done]. by destruct (env_outcome (w_tick w1)).
Qed.
Lemma unmetered_time_Now : unmetered _ time_Now.
Proof. done. Qed.
End Unmetered.

Create HintDb unmetered.
#[export] Hint Resolve unmetered_ret unmetered_fail unmetered_lift unmetered_guard
  unmetered_take_lock unmetered_query unmetered_exec unmetered_time_Now : unmetered.

(** Follows the structure of a call. *)
Ltac solve_unmetered :=
  repeat first
    [ apply unmetered_bind; [|intros ?]
    | apply unmetered_with_tx
    | apply unmetered_wrap
    | apply unmetered_map_err
    | solve [auto with unmetered]
    | case_match
    | done ].

Section Components.
Context `{Env}.

Lemma insert_entries_unmetered es : unmetered _ (insert_entries es).
Proof. induction es as [|e es IH]; cbn [insert_entries]; solve_unmetered. Qed.

Lemma ledger_unmetered txn : unmetered _ (Ledger.postgresRepository txn).
Proof. unfold Ledger.postgresRepository. solve_unmetered. apply insert_entries_unmetered. Qed.
End Components.

(** The same for a program. *)
Ltac solve_calls :=
  repeat first
    [ solve [auto with unmetered]
    | apply calls_bind; [|intros ?]
    | apply calls_try; [|intros ?]
    | apply calls_call; solve_unmetered
    | case_match
    | done
    | progress cbv zeta ].

#[export] Hint Resolve ledger_unmetered : unmetered.

Section Handlers.
Context `{Env} `{Bcrypt} `{Jwt} `{JsonText} `{Hmac} `{Router}.

Lemma passive_unmetered : passive unmetered.
Proof. intros X m Hm w. by rewrite Hm. Qed.

Lemma auth_unmetered secret a r :
  calls unmetered (auth_RegisterRoutes (S := Auth.serviceImpl secret) a r).
Proof.
  apply auth_calls; [apply passive_unmetered| |].
  - intros user. cbn [CreateUser Auth.postgresRepository]. solve_unmetered.
  - intros email. cbn [GetUserByEmail Auth.postgresRepository]. solve_unmetered.
Qed.

Lemma get_wallet_unmetered id caller role : calls unmetered (service_GetWallet id caller role).
Proof. unfold service_GetWallet. cbn [GetWalletByID Wallets.postgresRepository]. solve_calls. Qed.

Lemma wallets_unmetered rt r : calls unmetered (wallets_RegisterRoutes rt r).
Proof.
  destruct rt; cbn [wallets_RegisterRoutes]; try apply role_calls_next;
    unfold HandleCreateWallet, HandleGetWallets, HandleGetWallet, HandleGetBalance,
      HandleGetTransactions, HandleFreezeWallet, HandleUnfreezeWallet;
    cbn [CreateWallet GetWallets GetWallet GetBalance GetTransactions FreezeWallet UnfreezeWallet
         Wallets.serviceImpl CreateWalletAndAccount GetWalletByID UpdateWalletStatus
         repo_GetTransactions GetWalletsByOwner Wallets.postgresRepository].
  all: solve_calls; try apply get_wallet_unmetered; solve_unmetered.
Qed.

Lemma transfer_statements_unmetered req key : unmetered _ (transfer_statements req key).
Proof.
  unfold transfer_statements, validate_and_move, record_transfer, lock_wallet, update_balance.
  cbn [InsertEvent Outbox.postgresRepository CreateTransaction]. solve_unmetered.
Qed.

Lemma transfer_unmetered r : calls unmetered (HandleTransfer r).
Proof.
  unfold HandleTransfer, after_acquire, process, execute_and_answer, ExecuteTransfer,
    Transfers.serviceImpl, transfer_body.
  cbn [TryAcquire Complete Idempotency.postgresRepository GetWalletByID Wallets.postgresRepository].
  solve_calls; solve_unmetered. all: try apply transfer_statements_unmetered.
Qed.
End Handlers.

Section Server.
Context `{Env} `{Bcrypt} `{Jwt} `{JsonText} `{Hmac} `{Router}.
Variable promhttp_Handler : World → Response.

Lemma random_unmetered n : unmetered _ (generateRandomString n).
Proof. induction n as [|n IH]; cbn [generateRandomString]; solve_unmetered. Qed.

#[local] Hint Resolve random_unmetered : unmetered.

Lemma create_payment_unmetered id amount currency :
  calls unmetered (CreatePayment id amount currency).
Proof.
  cbn [CreatePayment Payments.serviceImpl]. unfold ProcessPayment. solve_calls.
Qed.

Lemma process_webhook_unmetered provider payload :
  calls unmetered (ProcessWebhook provider payload).
Proof.
  cbn [ProcessWebhook Payments.serviceImpl]. unfold webhook_statements, credit_wallet,
    lock_payment, update_balance. cbn [InsertEvent Outbox.postgresRepository CreateTransaction].
  solve_calls.
Qed.

#[local] Hint Resolve create_payment_unmetered process_webhook_unmetered : unmetered.

Lemma payments_unmetered secret p r : calls unmetered (payments_RegisterRoutes secret p r).
Proof.
  destruct p; cbn [payments_RegisterRoutes];
    unfold HandleCreatePayment, HandleDemoFund, HandleWebhook; solve_calls.
Qed.

Lemma runs_unmetered r : calls unmetered (reconciliation_RegisterRoutes r).
Proof.
  apply role_calls_next. unfold HandleGetRuns. solve_calls.
  intros w. unfold query_runs. by destruct (env_outcome _).
Qed.

Lemma handler_unmetered secret rt r : calls unmetered (handler promhttp_Handler secret rt r).
Proof.
  assert (Hauth : ∀ next, (∀ claims, calls unmetered (next (with_claims claims r))) →
    calls unmetered (AuthMiddleware secret next r)).
  { intros next. apply auth_calls_next, passive_unmetered. }
  destruct rt; cbn [handler].
  - unfold HandleMetrics. solve_calls.
  - done.
  - unfold HandleReady. solve_calls.
  - apply auth_unmetered.
  - apply (payments_unmetered secret POST_webhook).
  - apply Hauth. intros claims. apply wallets_unmetered.
  - apply Hauth. intros claims. apply transfer_unmetered.
  - apply Hauth. intros claims. apply payments_unmetered.
  - apply Hauth. intros claims. apply runs_unmetered.
Qed.

Lemma outbox_unmetered n : calls unmetered (Outbox.Start n).
Proof.
  induction n as [|n IH]; [done|]. apply calls_bind; [|done]. unfold processBatch.
  cbn [FetchPendingEvents Outbox.postgresRepository]. solve_calls.
  match goal with |- calls _ (process_events ?l) => generalize l end. intros evs.
  induction evs as [|ev evs IHe]; cbn [process_events]; [done|].
  cbn [MarkPublished MarkFailed Outbox.postgresRepository]. solve_calls.
  intros w. unfold Publish, franzProducer. by destruct (env_outcome _).
Qed.

Lemma reconciliation_unmetered n : calls unmetered (Reconciliation.Start n).
Proof.
  assert (Hm : ∀ id ms, calls unmetered (record_mismatches id ms)).
  { intros id ms. induction ms as [|m ms IH]; cbn [record_mismatches]; [done|].
    cbn [RecordMismatch Reconciliation.postgresRepository]. solve_calls. }
  assert (Hrun : calls unmetered RunReconciliation).
  { unfold RunReconciliation, check_wallets_and_complete, record_imbalance.
    cbn [CreateRun CompleteRun RecordMismatch CheckGlobalLedgerBalance CheckWalletBalances
         Reconciliation.postgresRepository].
    solve_calls; try apply Hm; intros w; unfold query_wallets; by destruct (env_outcome _). }
  apply calls_bind; [done|]. intros _. induction n as [|n IH]; [done|]. by apply calls_bind.
Qed.

(** ** Counting *)

(** How many requests the counter has seen, whatever their labels. *)
Definition requests_served (w : World) : Z := map_sum (λ n, n) (w_http_requests_total w).

(** Programs that count no request neither spend nor earn. *)
Lemma unmetered_amortized {A} (f : Z → Z) (p : prog A) n :
  0 <= n → calls unmetered p →
  amortized (λ w, f (requests_served w)) p n (λ _ n', n' = n).
Proof.
  intros Hn. induction p as [a|X m k IH]; intros Hp; [by split|]. destruct Hp as [Hm Hk].
  split; [done|]. intros w. exists n. split; [by apply IH|].
  unfold requests_served. rewrite (Hm w). lia.
Qed.

Lemma record_served method path status t w :
  requests_served (record_http method path status t w).2 = requests_served w + 1.
Proof.
  destruct (record_http_run method path status t w) as (tt' & h & -> & -> & _).
  unfold requests_served. simpl.
  destruct (w_http_requests_total w !! [method; path; status]) as [n|] eqn:Hn; simpl.
  - rewrite (map_sum_update _ _ _ _ _ Hn). lia.
  - rewrite map_sum_insert_new by done. lia.
Qed.

(** A request moves the counter from [n] credits to [n']. *)
Lemma serve_amortized (f : Z → Z) rdb secret rt r n n' :
  0 <= n → 0 <= n' → (∀ z, f (z + 1) + n' <= f z + n) →
  amortized (λ w, f (requests_served w)) (goroutine promhttp_Handler rdb secret (Serve rt r)) n
    (λ _ m, m = n').
Proof.
  intros Hn Hn' Hf. cbn [goroutine].
  apply (amortized_bind _ _ _ _ (λ _ m, m = n')); [|intros resp m Hm Heq; by split].
  unfold NewServer, MetricsMiddleware.
  assert (Hr : calls unmetered (routed promhttp_Handler secret rt r)).
  { unfold routed. apply calls_bind; [apply handler_unmetered|done]. }
  eapply amortized_bind; [by apply unmetered_amortized|]. intros start m _ ->.
  eapply amortized_bind.
  { apply unmetered_amortized; [done|]. destruct rdb; [|done].
    apply calls_bind; [|by intros [u|e]; [|case_bool_decide]].
    apply calls_call. intros w. apply allow_requests. }
  intros [resp pattern] m _ ->.
  apply (amortized_bind _ _ _ _ (λ _ m, m = n')); [|intros u m Hm Heq; by split].
  apply amortized_call; [done|]. intros w. exists n'.
  split; [done|]. split; [done|]. rewrite record_served. apply Hf.
Qed.

(** The credits at the start: [n] for each request; what runs besides the requests keeps
    [n'] throughout. *)
Definition credit_of (n n' : Z) (t : task) : Z :=
  match t with Serve _ _ => n | _ => n' end.

Lemma tasks_amortized (f : Z → Z) rdb secret n n' tasks :
  0 <= n → 0 <= n' → (∀ z, f (z + 1) + n' <= f z + n) →
  Forall2 (λ p m, amortized (λ w, f (requests_served w)) p m (λ _ m', m' = n'))
    (goroutine promhttp_Handler rdb secret <$> tasks) (credit_of n n' <$> tasks).
Proof.
  intros Hn Hn' Hf. apply Forall2_fmap, Forall_Forall2_diag, Forall_true. intros [rt r|k|k].
  - by apply serve_amortized.
  - by apply unmetered_amortized, outbox_unmetered.
  - by apply unmetered_amortized, reconciliation_unmetered.
Qed.

Definition is_request (t : task) : bool := match t with Serve _ _ => true | _ => false end.

Lemma credits_of n n' tasks :
  credits (credit_of n n' <$> tasks) =
  n * Z.of_nat (length (List.filter is_request tasks)) +
  n' * (Z.of_nat (length tasks) - Z.of_nat (length (List.filter is_request tasks))).
Proof.
  induction tasks as [|t tasks IH]; [simpl; lia|]. rewrite fmap_cons.
  change (credits (?x :: ?l)) with (x + credits l). rewrite IH.
  destruct t; simpl; lia.
Qed.

(** Tasks that have all returned have kept what they must. *)
Lemma credits_returned {A} pot n (ps : list (prog A)) ns :
  Forall2 (λ p m, amortized pot p m (λ _ m', m' = n)) ps ns → Forall (λ p, ∃ a, p = Ret a) ps →
  credits ns = n * Z.of_nat (length ps).
Proof.
  induction 1 as [|p m ps ns Hp _ IH]; intros Hall; [simpl; lia|].
  apply Forall_cons in Hall as [[a ->] Hall]. destruct Hp as [_ ->].
  change (credits (n :: ?l)) with (n + credits l). rewrite (IH Hall), length_cons. lia.
Qed.
End Server.

(** ** Property *)

(** C25. The request counter is exact: whatever requests are served, however they interleave
    with each other and with the workers, and whatever fails, refused and failed requests
    included, once all have returned the counters over all labels have grown by the number
    of requests. *)
Theorem every_request_is_counted `{Env} `{Bcrypt} `{Jwt} `{JsonText} `{Hmac} `{Router}
    promhttp_Handler rdb secret tasks w ps' w' :
  interleaving (goroutine promhttp_Handler rdb secret <$> tasks, w) (ps', w') →
  Forall (λ p, ∃ a, p = Ret a) ps' →
  requests_served w' = requests_served w + Z.of_nat (length (List.filter is_request tasks)).
Proof.
  intros Hrun Hret.
  destruct (interleaving_credits _ _ _ _ _ _ _ (tasks_amortized promhttp_Handler (λ z, z) rdb
    secret 1 0 tasks ltac:(lia) ltac:(lia) ltac:(intros; cbv beta; lia)) Hrun) as (ns & Hns & Hup).
  destruct (interleaving_credits _ _ _ _ _ _ _ (tasks_amortized promhttp_Handler Z.opp rdb
    secret 0 1 tasks ltac:(lia) ltac:(lia) ltac:(intros; cbv beta; lia)) Hrun) as (ns' & Hns' & Hlow).
  rewrite (credits_returned _ _ _ _ Hns Hret), credits_of in Hup.
  rewrite (credits_returned _ _ _ _ Hns' Hret), credits_of in Hlow.
  assert (Hlen : length ps' = length tasks).
  { refine (interleaving_invariant (λ ps _, length ps = length tasks) _ _ _ _ _ _ Hrun).
    - intros ps v i p p' v' Hl _ _. by rewrite length_insert.
    - by rewrite length_fmap. }
  rewrite Hlen in Hlow, Hup. lia.
Qed.

(** The labels: the method, the status as it was sent, and the pattern of the route, or the
    raw path when the rate limiter answered before the request was routed. *)
Theorem request_is_measured `{Env} `{Bcrypt} `{Jwt} `{JsonText} `{Hmac} `{Router}
    promhttp_Handler rdb secret rt r w resp w' :
  RoutePattern rt ≠ EmptyString →
  run (NewServer promhttp_Handler rdb secret rt r) w = (resp, w') →
  ∃ path, counted [Method r; path; pretty (resp_status resp)] w w' ∧
    (path = RoutePattern rt ∨
     (path = URL_Path r ∧ rdb = true ∧ resp_status resp = StatusTooManyRequests)).
Proof.
  intros Hpat Hrun. unfold NewServer in Hrun. set (next := if rdb then _ else _) in Hrun.
  pose proof (metrics_run next r w) as Hm.
  assert (Hcalls : calls unmetered (routed promhttp_Handler secret rt r)).
  { apply calls_bind; [apply handler_unmetered|done]. }
  assert (Hrouted : ∀ v, w_http_requests_total (run (routed promhttp_Handler secret rt r) v).2 =
    w_http_requests_total v ∧ (run (routed promhttp_Handler secret rt r) v).1.2 = RoutePattern rt).
  { intros v. split.
    - apply (run_keeps (λ v', w_http_requests_total v' = w_http_requests_total v)); [|done].
      eapply calls_mono; [|exact Hcalls]. intros X m Hx v' Hv'. by rewrite (Hx v').
    - unfold routed. rewrite run_bind. by destruct (run _ v) as [resp' v']. }
  assert (Hnext : let '(resp', pattern, w1) := run (next r) w in
    w_http_requests_total w1 = w_http_requests_total w ∧
    (pattern = RoutePattern rt ∨
     (pattern = EmptyString ∧ rdb = true ∧ resp_status resp' = StatusTooManyRequests))).
  { unfold next. destruct rdb; cycle 1.
    { destruct (Hrouted w) as [Ht1 Hp1]. destruct (run (routed _ _ _ r) w) as [[resp' pattern] w1].
      simpl in Ht1, Hp1. auto. }
    unfold RateLimiter. rewrite run_bind, run_call.
    assert (Ha : ∀ k, w_http_requests_total (Allow k 100 minute w).2 = w_http_requests_total w).
    { intros k. apply allow_requests. }
    specialize (Ha ("ratelimit:ip:" +:+ client_ip r)). destruct (Allow _ _ _ w) as [res v].
    simpl in Ha. destruct (Hrouted v) as [Ht1 Hp1]. rewrite Ha in Ht1.
    destruct res as [u|e]; [|case_bool_decide; [by simpl; auto|]];
      destruct (run (routed _ _ _ r) v) as [[resp' pattern] w1]; simpl in Ht1, Hp1; auto. }
  destruct (run (next r) w) as [[resp' pattern] w1]. destruct Hnext as [Htot Hp].
  destruct Hm as (t & h & Hm & Hc & _). rewrite Hm in Hrun. injection Hrun as <- <-.
  eexists. unfold counted in *. rewrite Htot in Hc. split; [exact Hc|].
  destruct Hp as [->|(-> & -> & Hst)]; [rewrite bool_decide_eq_true_2 by done|]; auto.
Qed.

(** ** Concrete inputs *)

(** A server that is asked four times: for its health, for a registration, for a transfer
    without a token, and for an unknown webhook, while both workers run. *)
Definition observed_run : list (prog unit) * World :=
  schedule (concat (repeat [0; 3; 1; 5; 2; 4] 20)%nat)
    (goroutine (H2 := auth_text) (H3 := sample_hmac) (λ _, mkResponse StatusOK NoBody) true
       "secret" <$> [Serve GET_health post; Serve (auth_routes POST_register) post;
                     OutboxWorker 2; Serve POST_transfers post;
                     ReconciliationWorker 1; Serve POST_payment_provider post],
     sample_world sample_bank).

Lemma observed_returned : Forall (λ p, ∃ a, p = Ret a) observed_run.1.
Proof.
  assert (Hr : observed_run.1 = replicate 6 (Ret tt)) by (vm_compute; reflexivity).
  rewrite Hr. apply Forall_replicate. by exists tt.
Qed.

Lemma every_request_is_counted_witness :
  requests_served observed_run.2 = 4 ∧
  w_http_requests_total observed_run.2 !! ["POST"; "/pattern"; "401"] = Some 2.
Proof.
  split; [|vm_compute; reflexivity].
  assert (Hrun : interleaving
    (goroutine (H2 := auth_text) (H3 := sample_hmac) (λ _, mkResponse StatusOK NoBody) true
       "secret" <$> [Serve GET_health post; Serve (auth_routes POST_register) post;
                     OutboxWorker 2; Serve POST_transfers post;
                     ReconciliationWorker 1; Serve POST_payment_provider post],
     sample_world sample_bank) (observed_run.1, observed_run.2)).
  { rewrite <- surjective_pairing. apply schedule_interleaving. }
  refine (eq_trans (every_request_is_counted (H2 := auth_text) (H3 := sample_hmac) _ true "secret"
    _ _ _ _ Hrun observed_returned) _). vm_compute. reflexivity.
Defined.
