(* ===== verification/Startup.v ===== *)
(** * Start-up (cmd/api/main.go, internal/config, internal/database, internal/redis)
      and the webhook script (scripts/simulate_webhook.go)

    [main] reads the configuration, connects to PostgreSQL and Redis, and hands over to the
    server; it exits when one of them is missing.  The parsers of the connection strings
    are the drivers' and are parameters. *)

From S2P Require Import Prelude Go Models Postgres Runtime Sample Http Auth Middleware.
From S2P Require Import Ledger Outbox Payments Server.
From Stdlib Require Import Ascii.
#[local] Open Scope m_scope.
#[local] Open Scope prog_scope.
#[local] Open Scope Z_scope.

(** ** internal/config/config.go *)

Record Config := mkConfig {
  Config_Env : string;
  ServerPort : string;
  DatabaseURL : string;
  RedisURL : string;
  KafkaBroker : string;
  JWTSecret : string;
}.

Section Configuration.
(** [os.LookupEnv], after [godotenv.Load]. *)
Variable LookupEnv : string → option string.

Definition getEnv (key defaultVal : string) : string :=
  match LookupEnv key with Some value => value | None => defaultVal end.

(** [log.Fatal] ends the process: [None]. *)
Definition LoadConfig : option Config :=
  let cfg := mkConfig (getEnv "ENV" "development") (getEnv "SERVER_PORT" "8080")
    (getEnv "DATABASE_URL" "") (getEnv "REDIS_URL" "redis://localhost:6379/0")
    (getEnv "KAFKA_BROKER" "localhost:9092") (getEnv "JWT_SECRET" "super-secret-key") in
  if bool_decide (DatabaseURL cfg = "") then None else Some cfg.
End Configuration.

(** ** Connecting *)

(** [pgxpool.Config]: what was parsed, and the limits of the pool; times in microseconds. *)
Record PoolConfig := mkPoolConfig {
  ConnString : string;
  MaxConns : Z;
  MinConns : Z;
  MaxConnLifetime : Z;
  MaxConnIdleTime : Z;
}.

(** [time.Minute], [time.Hour] *)
Definition Minute : Z := 60 * 1000000.
Definition Hour : Z := 60 * Minute.

(** What the drivers make of a connection string, without talking to anyone. *)
Class Drivers := {
  pgxpool_ParseConfig : string → Res PoolConfig;
  pgxpool_NewWithConfig : PoolConfig → Res unit;
  redis_ParseURL : string → Res unit;
  kgo_NewClient : string → Res unit;
}.

Section Connecting.
Context `{Env} `{Drivers}.

(** internal/database/database.go *)
Definition with_limits (config : PoolConfig) : PoolConfig :=
  mkPoolConfig (ConnString config) 50 10 Hour (30 * Minute).

Definition database_Connect (dbURL : string) : M PoolConfig :=
  parsed <- wrap_err "failed to parse db config: " (lift_res (pgxpool_ParseConfig dbURL)) ;;
  let config := with_limits parsed in
  wrap_err "failed to create connection pool: " (lift_res (pgxpool_NewWithConfig config)) ;;
  wrap_err "failed to ping database: " Ping ;;
  ret config.

(** internal/redis/client.go *)
Definition redis_Connect (redisURL : string) : M unit :=
  wrap_err "failed to parse redis url: " (lift_res (redis_ParseURL redisURL)) ;;
  wrap_err "failed to connect to redis: " Ping.

(** internal/kafka/producer.go *)
Definition NewProducer (broker : string) : M unit :=
  lift_res (kgo_NewClient broker) ;; Ping.

(** internal/logger/logger.go: the default logger of the process. *)
Inductive LogFormat : Set := JSONHandler | TextHandler.
Inductive LogLevel : Set := LevelDebug | LevelInfo.

Definition NewLogger (env : string) : LogFormat * LogLevel :=
  if bool_decide (env = "production") then (JSONHandler, LevelInfo) else (TextHandler, LevelDebug).

(** A process that serves: its configuration, its logger, its pool of connections, and
    whether it has a Kafka producer. *)
Record Process := mkProcess {
  process_config : Config;
  process_logger : LogFormat * LogLevel;
  process_pool : PoolConfig;
  process_kafka : bool;
}.

(** cmd/api/main.go and the part of [NewServer] that connects to Kafka; [None] is
    [os.Exit(1)]. *)
Definition main (LookupEnv : string → option string) : prog (option Process) :=
  match LoadConfig LookupEnv with
  | None => Ret None
  | Some cfg =>
    let+ db := call (database_Connect (DatabaseURL cfg)) in
    match db with
    | Err _ => Ret None
    | Ok pool =>
      let+ rdb := call (redis_Connect (RedisURL cfg)) in
      match rdb with
      | Err _ => Ret None
      | Ok _ =>
        let+ kafkaProducer := call (NewProducer (KafkaBroker cfg)) in
        Ret (Some (mkProcess cfg (NewLogger (Config_Env cfg)) pool (is_ok kafkaProducer)))
      end
    end
  end.

(** What runs in the process: the requests, the reconciliation worker, and the outbox
    worker when there is a producer. *)
Definition process_tasks (p : Process) (requests : list (route * Request)) (batches runs : nat)
  : list task :=
  ((λ q, Serve q.1 q.2) <$> requests) ++
  (if process_kafka p then [OutboxWorker batches] else []) ++ [ReconciliationWorker runs].
End Connecting.

(** ** scripts/simulate_webhook.go *)

Definition chr (n : nat) : string := String (ascii_of_nat n) EmptyString.

(** A line of the payload: two tabs, a key and a value in quotes. *)
Definition payload_line (key value rest : string) : string :=
  chr 10 +:+ chr 9 +:+ chr 9 +:+ chr 34 +:+ key +:+ chr 34 +:+ ": " +:+
  chr 34 +:+ value +:+ chr 34 +:+ rest.

Definition script_payload : string :=
  "{" +:+ payload_line "event_id" "evt_001" "," +:+
  payload_line "event_type" "payment.succeeded" "," +:+
  payload_line "reference_id" "ext_9ULXnvqaGSPG" "," +:+
  payload_line "status" "SUCCEEDED" "" +:+ chr 10 +:+ chr 9 +:+ "}".

Definition script_secret : string := "super_secret_key_change_me_in_prod".

Definition script_request `{Hmac} : Request :=
  mkRequest "POST" "/api/v1/webhooks/payment-provider" (λ h, if bool_decide (h = "X-Webhook-Signature")
                  then hmac_sha256_hex script_secret script_payload
                  else if bool_decide (h = "Content-Type") then "application/json" else "")
    "127.0.0.1:0" "" script_payload true None.

(** ** Starting *)

Section Starting.
Context `{Env} `{Drivers}.

(** Connecting reads nothing and writes nothing. *)
Lemma connections_keep_db url w :
  w_db (database_Connect url w).2 = w_db w ∧ w_db (redis_Connect url w).2 = w_db w ∧
  w_db (NewProducer url w).2 = w_db w.
Proof.
  unfold database_Connect, redis_Connect, NewProducer, bind, wrap_err, lift_res, Ping.
  split; [|destruct (redis_ParseURL url), (kgo_NewClient url), (env_outcome (w_tick w)); done].
  destruct (pgxpool_ParseConfig url) as [config|e]; simpl; [|done].
  destruct (pgxpool_NewWithConfig _) as [u|e]; simpl; [|done].
  by destruct (env_outcome (w_tick w)).
Qed.

(** A process serves only when its configuration is complete and both PostgreSQL and Redis
    answered; starting leaves the database alone, and without Kafka it starts as well. *)
Theorem main_starts LookupEnv w :
  let '(p, w') := run (main LookupEnv) w in
  w_db w' = w_db w ∧
  match p with
  | Some p => LoadConfig LookupEnv = Some (process_config p) ∧
      DatabaseURL (process_config p) ≠ "" ∧
      (database_Connect (DatabaseURL (process_config p)) w).1 = Ok (process_pool p) ∧
      is_ok (redis_Connect (RedisURL (process_config p))
               (database_Connect (DatabaseURL (process_config p)) w).2).1
  | None => LoadConfig LookupEnv = None ∨ ∃ cfg, LoadConfig LookupEnv = Some cfg ∧
      (is_ok (database_Connect (DatabaseURL cfg) w).1 = false ∨
       is_ok (redis_Connect (RedisURL cfg) (database_Connect (DatabaseURL cfg) w).2).1 = false)
  end.
Proof.
  unfold main. destruct (LoadConfig LookupEnv) as [cfg|] eqn:Hcfg; [|simpl; auto].
  assert (Hurl : DatabaseURL cfg ≠ "").
  { unfold LoadConfig in Hcfg. case_bool_decide; [done|]. by simplify_eq. }
  rewrite run_bind, run_call. pose proof (connections_keep_db (DatabaseURL cfg) w) as (Hd & _).
  destruct (database_Connect (DatabaseURL cfg) w) as [[u|e] w1] eqn:H1; simpl in Hd; [|simpl].
  2: { split; [done|]. right. exists cfg. rewrite H1. auto. }
  rewrite run_bind, run_call. pose proof (connections_keep_db (RedisURL cfg) w1) as (_ & Hr & _).
  destruct (redis_Connect (RedisURL cfg) w1) as [[u'|e] w2] eqn:H2; simpl in Hr; [|simpl].
  2: { split; [congruence|]. right. exists cfg. rewrite H1. simpl. rewrite H2. auto. }
  rewrite run_bind, run_call. pose proof (connections_keep_db (KafkaBroker cfg) w2) as (_ & _ & Hk).
  destruct (NewProducer (KafkaBroker cfg) w2) as [k w3]. simpl in *.
  rewrite H1. simpl. rewrite H2. split; [congruence|]. done.
Qed.
End Starting.

(** Without [JWT_SECRET] the secret is the one in the source, and whoever reads it there
    can sign a token for any user and any role: every guarded route takes it. *)
Theorem default_secret_lets_anyone_in `{Env} `{Auth.JwtLaws} LookupEnv cfg user token next r w0 w :
  LookupEnv "JWT_SECRET" = None → LoadConfig LookupEnv = Some cfg →
  (Auth.GenerateToken user "super-secret-key" Auth.day w0).1 = Ok token →
  Auth.is_ascii (auth.User_ID user) = true → Auth.is_ascii (auth.User_Role user) = true →
  env_now (w_tick w0) <= env_now (w_tick w) < env_now (w_tick w0) + 86399000000 →
  ¬ has_space token → Header r "Authorization" = "Bearer" +:+ " " +:+ token →
  run (AuthMiddleware (JWTSecret cfg) next r) w =
  run (next (with_claims (auth.mkClaims (auth.User_ID user) (auth.User_Role user)) r)) w.
Proof.
  intros Hnone Hcfg Hgen Hid Hrole Htime Hns Hhdr.
  assert (Hsecret : JWTSecret cfg = "super-secret-key").
  { unfold LoadConfig in Hcfg. case_bool_decide; [done|]. simplify_eq. simpl. unfold getEnv.
    by rewrite Hnone. }
  apply auth_passes. exists token. split; [done|]. split; [done|]. rewrite Hsecret.
  destruct (Auth.GenerateToken user "super-secret-key" Auth.day w0) as [res w1] eqn:Hg.
  simpl in Hgen. subst res.
  rewrite (Auth.generate_then_validate _ _ _ _ _ _ w Hg Hid Hrole); [done|].
  change (Auth.day / 1000) with 86400000000. lia.
Qed.

(** The script's webhook passes the signature check of a server with the secret of
    docker-compose.yml, and is processed. *)
Theorem script_is_verified `{Env} `{Auth.Bcrypt} `{Auth.Jwt} `{JsonText} `{Hmac} promhttp_Handler w :
  hmac_sha256_hex script_secret script_payload ≠ "" →
  run (handler promhttp_Handler script_secret POST_payment_provider script_request) w =
  let '(res, w') := run (ProcessWebhook (PaymentsService := Payments.serviceImpl)
                           "simulator" (json_whole script_payload)) w in
  (webhook_response res, w').
Proof. intros Hne. cbn [handler]. by rewrite (proj1 (webhook_needs_signature _ _ _)). Qed.
