(* ===== verification/Steps.v ===== *)
(** * What the server does to its database

    The specification of the whole program is a relation on databases, [change]: one
    constructor per business event.  Every call that any request or worker makes is such
    an event or leaves the database alone, so that the interleavings of the server
    refine the sequences of events. *)

From S2P Require Import Prelude Go Models Postgres Runtime Sample Redis Http Auth Middleware Metrics.
From S2P Require Import Ledger Outbox Idempotency Wallets Transfers TransferHandler.
From S2P Require Import Payments Reconciliation Server.
#[local] Open Scope prog_scope.
#[local] Open Scope Z_scope.

(** ** The specification *)

Section Specification.
Context `{UuidLaws}.

(** What the program writes beside the business: the state of the idempotency keys, of the
    outbox and of the reconciliation runs. *)
Inductive housekeeping (d : DB) : DB → Prop :=
(** A new key is claimed for a request, in progress and without a response. *)
| key_claimed key payload now :
    idempotency_keys d !! key = None →
    housekeeping d (set_idempotency_keys
      (<[key := idempotency.mkKeyRow key "IN_PROGRESS" payload None None (Some now) now]>
         (idempotency_keys d)) d)
(** A key is completed with the response and its status; the request stays on record. *)
| key_completed key row response code :
    idempotency_keys d !! key = Some row →
    housekeeping d (set_idempotency_keys
      (<[key := idempotency.mkKeyRow (idempotency.Row_Key row) "COMPLETED"
                  (idempotency.Row_RequestPayload row) (Some response) (Some code)
                  (idempotency.Row_LockedAt row) (idempotency.Row_CreatedAt row)]>
         (idempotency_keys d)) d)
(** An event of the outbox is marked as published; nothing else of it changes. *)
| event_published id ev now :
    outbox_events d !! id = Some ev →
    housekeeping d (set_outbox_events
      (<[id := outbox.mkEvent (outbox.Event_ID ev) (outbox.Event_Topic ev)
                 (outbox.Event_Payload ev) "PUBLISHED" (outbox.Event_Attempts ev)
                 (outbox.Event_NextRetryAt ev) (outbox.Event_ErrorMsg ev)
                 (outbox.Event_CreatedAt ev) now]> (outbox_events d)) d)
(** A failed attempt is counted: the event waits ten seconds times two to the number of
    attempts before, and is given up when there were five. *)
| event_failed id ev msg now :
    outbox_events d !! id = Some ev →
    housekeeping d (set_outbox_events
      (<[id := outbox.mkEvent (outbox.Event_ID ev) (outbox.Event_Topic ev)
                 (outbox.Event_Payload ev)
                 (if decide (5 <= outbox.Event_Attempts ev) then "FAILED" else "PENDING")
                 (outbox.Event_Attempts ev + 1)
                 (now + 10 * 1000000 * 2 ^ outbox.Event_Attempts ev) (Some msg)
                 (outbox.Event_CreatedAt ev) now]> (outbox_events d)) d)
(** A reconciliation begins. *)
| run_started id now :
    reconciliation_runs d !! id = None →
    housekeeping d (set_reconciliation_runs
      (<[id := reconciliation.mkRun id "IN_PROGRESS" 0 0 0 now None]> (reconciliation_runs d)) d)
(** A mismatch is recorded under an existing run. *)
| mismatch_recorded id run entity_type entity_id mismatch_type details now :
    reconciliation_items d !! id = None → is_Some (reconciliation_runs d !! run) →
    (entity_type = "WALLET" ∧ mismatch_type = "BALANCE_MISMATCH" ∨
     entity_type = "SYSTEM" ∧ entity_id = "GLOBAL_LEDGER" ∧ mismatch_type = "IMBALANCED_LEDGER") →
    housekeeping d (set_reconciliation_items
      (<[id := reconciliation.mkItem id run entity_type entity_id mismatch_type details now]>
         (reconciliation_items d)) d)
(** A run ends; it passes only without a mismatch. *)
| run_completed id run status wallets txns mismatches now :
    reconciliation_runs d !! id = Some run →
    status = "FAILED" ∨ (status = "PASSED" ∧ mismatches = 0) →
    housekeeping d (set_reconciliation_runs
      (<[id := reconciliation.mkRun (reconciliation.Run_ID run) status wallets txns mismatches
                 (reconciliation.Run_StartedAt run) (Some now)]> (reconciliation_runs d)) d).

Lemma housekeeping_frame d d' :
  housekeeping d d' →
  ∃ k o r i, d' = set_reconciliation_items i (set_reconciliation_runs r
                    (set_outbox_events o (set_idempotency_keys k d))).
Proof.
  intros Hh. exists (idempotency_keys d'), (outbox_events d'), (reconciliation_runs d'),
    (reconciliation_items d'). destruct d. by destruct Hh.
Qed.

Inductive change (d : DB) : DB → Prop :=
(** Nothing happens. *)
| change_none : change d d
(** A user registers. *)
| change_enrolled user id now d' : enrolled user id now d d' → change d d'
(** A user opens a wallet. *)
| change_opened owner ty currency wlt d' : opened owner ty currency wlt d d' → change d d'
(** A wallet is frozen or released. *)
| change_status id row st now :
    wallets_t d !! id = Some row → st = wallets.StatusFrozen ∨ st = wallets.StatusActive →
    change d (set_wallets (<[id := wallets.set_status st now row]> (wallets_t d)) d)
(** A key, an event of the outbox or a reconciliation run moves on. *)
| change_housekeeping d' : housekeeping d d' → change d d'
(** Money is transferred. *)
| change_booked req key debited credited t d' :
    booked req key debited credited t d d' → change d d'
(** A payment is created, in progress or failed. *)
| change_created p id d' :
    created p id d d' →
    payments.Payment_Status p = payments.StatusProcessing ∨
    payments.Payment_Status p = payments.StatusFailed → change d d'
(** The provider reports on a payment. *)
| change_webhook provider event payload d' :
    webhook_effect provider event payload d d' → change d d'.

(** ** The schema is kept *)

Lemma payments_ok_mono d d' :
  payments_t d' = payments_t d →
  (∀ id, is_Some (wallets_t d !! id) → is_Some (wallets_t d' !! id)) →
  payments_ok d → payments_ok d'.
Proof. intros Hp Hw Hok id p. rewrite Hp. intros (?&?&?&?)%Hok. auto. Qed.

Lemma booked_wallets_kept req key a b t d d' :
  booked req key a b t d d' → ∀ id, is_Some (wallets_t d !! id) → is_Some (wallets_t d' !! id).
Proof.
  intros (src & dst & now & enq & d1 & d2 & d3 & _ & _ & _ & _ & Hm & Hr & Hp & He) id Hid.
  apply enqueued_frame in He as (_&_&->&_). apply posted_frame in Hp as (_&_&->&_).
  destruct Hr as (row & _ & _ & _ & _ & _ & _ & _ & _ & _ & _ & ->).
  destruct Hm as (? & ? & _ & _ & _ & _ & _ & ->). simpl. by rewrite !lookup_insert_is_Some'; auto.
Qed.

Lemma change_payments_ok d d' : change d d' → payments_ok d → payments_ok d'.
Proof.
  destruct 1 as [|user id now d' He|owner ty cur wlt d' Ho|id row st now Hw Hst
    |d' (k & o & r & i & ->)%housekeeping_frame|req key a b t d' Hb|p id d' Hc|provider event payload d' He]; try done.
  - by destruct He as (? & ? & ? & _ & _ & _ & _ & _ & ->).
  - destruct Ho as (acct & _ & _ & _ & _ & _ & _ & _ & _ & _ & _ & _ & _ & _ & ->).
    apply payments_ok_mono; [done|]. intros id Hid. simpl. rewrite lookup_insert_is_Some'. auto.
  - apply payments_ok_mono; [done|]. intros id' Hid. simpl. rewrite lookup_insert_is_Some'. auto.
  - apply payments_ok_mono; [by apply (booked_frame _ _ _ _ _ _ _ Hb)|].
    exact (booked_wallets_kept _ _ _ _ _ _ _ Hb).
  - by eapply created_ok.
  - by eapply webhook_effect_ok.
Qed.
End Specification.

(** ** Calls *)

Section Calls.
Context `{UuidLaws}.

(** A call that does one event of the specification or none. *)
Definition does_change : ∀ X, M X → Prop :=
  λ _ m, ∀ w, payments_ok (w_db w) → change (w_db w) (w_db (m w).2).

(** The database is where the events since [d0] led. *)
Definition tracks (d0 : DB) (w : World) : Prop := payments_ok (w_db w) ∧ rtc change d0 (w_db w).

Lemma tracks_step d0 w w' : change (w_db w) (w_db w') → tracks d0 w → tracks d0 w'.
Proof.
  intros Hc [Hok Hd]. split; [by eapply change_payments_ok|]. by eapply rtc_r.
Qed.

Lemma does_change_keeps d0 X (m : M X) : does_change X m → keeps (tracks d0) X m.
Proof. intros Hm w Hw. eapply tracks_step; [apply Hm, Hw|done]. Qed.

Lemma same_does_change {X} (m : M X) : (∀ w, w_db (m w).2 = w_db w) → does_change X m.
Proof. intros Hm w _. rewrite Hm. constructor. Qed.

(** A call described by cases on its result. *)
Lemma cases_does_change {X} (m : M X) (R : DB → DB → Prop) :
  (∀ w r w', m w = (r, w') → w_db w' = w_db w ∨ R (w_db w) (w_db w')) →
  (∀ d d', R d d' → change d d') → does_change X m.
Proof.
  intros Hm HR w _. destruct (m w) as [r w'] eqn:Hrun. simpl.
  destruct (Hm _ _ _ Hrun) as [->|HR']; [constructor|auto].
Qed.

Lemma with_tx_does_change {X} (body : M X) :
  (∀ w a w', payments_ok (w_db w) → body w = (Ok a, w') → change (w_db w) (w_db w')) →
  does_change X (with_tx body).
Proof.
  intros Hb w Hok. destruct (with_tx body w) as [r w'] eqn:Hrun. simpl.
  apply with_tx_cases in Hrun as [(e & _ & ->)|(a & w1 & Hw1 & -> & _)]; [constructor|].
  exact (Hb (bump (start w)) a w1 Hok Hw1).
Qed.

End Calls.

(** ** The components *)

Section Components.
Context `{UuidLaws} `{Bcrypt} `{Jwt} `{JsonText} `{Hmac} `{Router}.

Lemma passive_does_change : passive does_change.
Proof. intros X m Hm. apply same_does_change. intros w. by rewrite Hm. Qed.

Lemma auth_does_change secret a r :
  calls does_change (auth_RegisterRoutes (S := Auth.serviceImpl secret) a r).
Proof.
  apply auth_calls; [apply passive_does_change| |].
  - intros user w _. destruct (CreateUser user w) as [res w'] eqn:Hc. simpl.
    apply create_user_cases in Hc as [(e & _ & ->)|(id & now & Hen & _)]; [constructor|].
    by eapply change_enrolled.
  - intros email. apply same_does_change, get_user_reads.
Qed.

(** Wallets. *)
Lemma create_wallet_does_change owner ty currency :
  does_change _ (CreateWalletAndAccount owner ty currency).
Proof. apply with_tx_does_change. intros w wlt w' _ Hb%open_statements. by eapply change_opened. Qed.

Lemma update_status_does_change id st :
  st = wallets.StatusFrozen ∨ st = wallets.StatusActive → does_change _ (UpdateWalletStatus id st).
Proof.
  intros Hst w _. destruct (UpdateWalletStatus id st w) as [res w'] eqn:Hu. simpl.
  apply update_status_cases in Hu as [[-> _]|(u & row & now & _ & Hrow & ->)];
    [constructor|by eapply change_status|by destruct Hst as [->| ->]].
Qed.

Lemma read_does_change {A} (f : Ctx → DB → Res (A * DB)) : reads f → does_change _ (exec f).
Proof.
  intros Hr. apply same_does_change. intros w. destruct (exec f w) as [r w'] eqn:Hex.
  by apply (exec_read _ _ _ _ Hr) in Hex.
Qed.

Lemma get_wallet_does_change id caller role :
  calls does_change (service_GetWallet id caller role).
Proof.
  apply calls_try; [apply calls_call, same_does_change, get_wallet_by_id_reads|].
  intros wlt. by destruct (denied _ _ _).
Qed.

Lemma wallets_does_change rt r : calls does_change (wallets_RegisterRoutes rt r).
Proof.
  destruct rt; cbn [wallets_RegisterRoutes]; try apply role_calls_next;
    unfold HandleCreateWallet, HandleGetWallets, HandleGetWallet, HandleGetBalance,
      HandleGetTransactions, HandleFreezeWallet, HandleUnfreezeWallet;
    cbn [CreateWallet GetWallets GetWallet GetBalance GetTransactions FreezeWallet UnfreezeWallet
         Wallets.serviceImpl];
    try (destruct (GetClaims r) as [claims|]; [|done]).
  - destruct (decode_body _ r) as [req|]; [|done]. apply calls_bind; [|by intros [wlt|e]].
    case_bool_decide; [done|]. apply calls_call, create_wallet_does_change.
  - apply calls_bind; [|by intros [wlt|e]].
    apply calls_call, read_does_change, select_by_owner_reads.
  - apply calls_bind; [apply get_wallet_does_change|by intros [wlt|e]].
  - apply calls_bind; [|by intros [b|e]].
    apply calls_try; [apply get_wallet_does_change|done].
  - apply calls_bind; [|by intros [ts|e]]. apply calls_try; [apply get_wallet_does_change|].
    intros wlt. apply calls_call, read_does_change, select_transactions_reads.
  - apply calls_bind; [|by intros]. apply calls_call, update_status_does_change. by left.
  - apply calls_bind; [|by intros]. apply calls_call, update_status_does_change. by right.
Qed.

(** Transfers. *)
Lemma acquire_does_change key payload : calls does_change (TryAcquire key payload).
Proof.
  apply calls_bind.
  - apply calls_call. intros w _. destruct (exec (sql_insert_key key payload) w) as [r w'] eqn:Hex.
    apply exec_cases in Hex as [(e & _ & Hd)|(u & d & Hq & Hd & _)]; simpl; rewrite Hd; clear Hd; [constructor|].
    apply sql_insert_key_ok in Hq as (k & _ & Hn & ->). by apply change_housekeeping, key_claimed.
  - intros [u|e]; [done|]. apply calls_try.
    + apply calls_call, read_does_change. intros c d a d' Hq. unfold sql_select_key in Hq.
      case_match; by simplify_eq.
    + intros row. cbv zeta. by case_bool_decide.
Qed.

Lemma complete_does_change key resp code : does_change _ (Complete key resp code).
Proof.
  intros w _. cbn [Complete Idempotency.postgresRepository].
  destruct (exec (sql_complete_key key resp code) w) as [r w'] eqn:Hex.
  apply exec_cases in Hex as [(e & _ & Hd)|([] & d & Hq & Hd & _)]; simpl; rewrite Hd; clear Hd; [constructor|].
  unfold sql_complete_key in Hq. destruct (idempotency_keys (w_db w) !! key) as [row|] eqn:Hrow;
    m_inv; [|constructor].
  by apply change_housekeeping, key_completed.
Qed.

Lemma execute_does_change req key : calls does_change (ExecuteTransfer req key).
Proof.
  apply calls_bind.
  - unfold transfer_body. case_bool_decide; [done|]. destruct (_ <=? _); [done|].
    apply calls_call, with_tx_does_change. intros w t w' _ Hb.
    apply transfer_statements_ok in Hb as (source & dest & ? & ? & _ & Hbk & _).
    by eapply change_booked.
  - intros res. apply calls_bind; [|done]. by apply calls_call, same_does_change.
Qed.

Lemma transfer_does_change r : calls does_change (HandleTransfer r).
Proof.
  unfold HandleTransfer. destruct (GetClaims r) as [claims|]; [|done]. case_bool_decide; [done|].
  destruct (decode_body _ r) as [req|]; [|done].
  apply calls_bind; [apply acquire_does_change|]. intros [[rec|]|e]; [done| |by cbn; case_bool_decide].
  apply calls_bind; [apply calls_call, same_does_change, get_wallet_by_id_reads|]. intros res.
  destruct (negb _).
  - apply calls_bind; [|done]. apply calls_call, complete_does_change.
  - apply calls_bind; [apply execute_does_change|].
    intros [t|e]; (apply calls_bind; [apply calls_call, complete_does_change|done]).
Qed.

(** The workers. *)
Lemma update_event_does_change id f :
  (∀ d id now ev ev', outbox_events d !! id = Some ev → f now ev = Ok ev' →
     housekeeping d (set_outbox_events (<[id := ev']> (outbox_events d)) d)) →
  does_change _ (exec (sql_update_event id f)).
Proof.
  intros Hf w _. destruct (exec (sql_update_event id f) w) as [r w'] eqn:Hex.
  apply exec_cases in Hex as [(e & _ & Hd)|([] & d & Hq & Hd & _)]; simpl; rewrite Hd; clear Hd; [constructor|].
  unfold sql_update_event in Hq. m_inv.
  destruct (outbox_events (w_db w) !! _) eqn:Hev; m_inv; [|apply change_none].
  eapply change_housekeeping, Hf; eassumption.
Qed.

Lemma mark_published_does_change id : does_change _ (MarkPublished id).
Proof. apply update_event_does_change. intros d i now ev ev' Hev [= <-]. by constructor. Qed.

Lemma mark_failed_does_change id e : does_change _ (MarkFailed id e).
Proof.
  apply update_event_does_change. intros d i now ev ev' Hev Hrow.
  unfold mark_failed_row, next_retry_at in Hrow. m_inv. unfold int4 in *.
  case_decide; simplify_eq. destruct (Z.leb_spec 5 (outbox.Event_Attempts ev));
    [rewrite <- (decide_True (P := 5 <= outbox.Event_Attempts ev) outbox.StatusFailed outbox.StatusPending) by done
    |rewrite <- (decide_False (P := 5 <= outbox.Event_Attempts ev) outbox.StatusFailed outbox.StatusPending) by lia];
    by apply event_failed.
Qed.

Lemma process_events_does_change events : calls does_change (process_events events).
Proof.
  induction events as [|ev rest IH]; [done|]. apply calls_bind.
  - apply calls_call, same_does_change. intros w. apply publish_step.
  - intros [u|e]; (apply calls_bind; [|done]); apply calls_call;
      [apply mark_published_does_change|apply mark_failed_does_change].
Qed.

Lemma outbox_does_change n : calls does_change (Outbox.Start n).
Proof.
  induction n as [|n IH]; [done|]. apply calls_bind; [|done]. apply calls_bind.
  - apply calls_call, read_does_change. intros c d a d' Hq. unfold sql_fetch_pending in Hq.
    by simplify_eq.
  - intros [events|e]; [apply process_events_does_change|done].
Qed.

Lemma create_run_does_change : does_change _ CreateRun.
Proof.
  intros w _. cbn [CreateRun Reconciliation.postgresRepository].
  destruct (exec sql_insert_run w) as [r w'] eqn:Hex.
  apply exec_cases in Hex as [(e & _ & Hd)|(run & d & Hq & Hd & _)]; simpl; rewrite Hd; clear Hd; [constructor|].
  unfold sql_insert_run in Hq. m_inv. by apply change_housekeeping, run_started.
Qed.

Lemma complete_run_does_change id st a b c :
  st = reconciliation.StatusFailed ∨ (st = reconciliation.StatusPassed ∧ c = 0) →
  does_change _ (CompleteRun id st a b c).
Proof.
  intros Hst w _. cbn [CompleteRun Reconciliation.postgresRepository].
  destruct (exec (sql_complete_run id st a b c) w) as [r w'] eqn:Hex.
  apply exec_cases in Hex as [(e & _ & Hd)|([] & d & Hq & Hd & _)]; simpl; rewrite Hd; clear Hd; [constructor|].
  unfold sql_complete_run in Hq.
  assert (Hv : varchar 50 st = Ok st) by by destruct Hst as [-> |[-> _]]. rewrite Hv in Hq.
  unfold bigint in Hq. m_inv.
  destruct (reconciliation_runs (w_db w) !! _) as [run|] eqn:Hrun; [|m_inv; constructor].
  repeat (case_decide; [|done]). m_inv. by apply change_housekeeping, run_completed.
Qed.

Lemma record_mismatch_does_change run entity_type entity_id mismatch_type details :
  entity_type = "WALLET" ∧ mismatch_type = "BALANCE_MISMATCH" ∨
  entity_type = "SYSTEM" ∧ entity_id = "GLOBAL_LEDGER" ∧ mismatch_type = "IMBALANCED_LEDGER" →
  does_change _ (RecordMismatch run entity_type entity_id mismatch_type details).
Proof.
  intros Hkind w _. cbn [RecordMismatch Reconciliation.postgresRepository].
  destruct (exec (sql_insert_item run entity_type entity_id mismatch_type details) w) as [r w'] eqn:Hex.
  apply exec_cases in Hex as [(e & _ & Hd)|([] & d & Hq & Hd & _)]; simpl; rewrite Hd; clear Hd; [constructor|].
  unfold sql_insert_item in Hq.
  assert (varchar 50 entity_type = Ok entity_type ∧ varchar 100 mismatch_type = Ok mismatch_type)
    as [Ht Hm] by (destruct Hkind as [[-> ->]|(-> & _ & ->)]; done).
  assert (∀ i, varchar 255 entity_id = Ok i → entity_id = "GLOBAL_LEDGER" → i = "GLOBAL_LEDGER")
    by (intros i Hi ->; by injection Hi).
  rewrite Ht, Hm in Hq. clear Ht Hm. m_inv.
  apply change_housekeeping, mismatch_recorded; [done|done|naive_solver].
Qed.

Lemma run_reconciliation_does_change : calls does_change RunReconciliation.
Proof.
  assert (Hend : ∀ id st m t,
    st = reconciliation.StatusFailed ∨ (st = reconciliation.StatusPassed ∧ m = 0) →
    calls does_change (check_wallets_and_complete id st m t)).
  { intros id st m t Hst. apply calls_bind.
    - apply calls_call, same_does_change. intros w. apply check_wallets_reads.
    - intros [[n ms]|e].
      + apply calls_bind; [|intros _; apply calls_bind; [|done]].
        * induction ms as [|x ms IH]; [done|]. apply calls_bind; [|done].
          apply calls_call, record_mismatch_does_change. auto.
        * apply calls_call, complete_run_does_change. case_bool_decide as Hms; [|by left].
          subst ms. simpl. by rewrite Z.add_0_r.
      + apply calls_bind; [|done]. apply calls_call, complete_run_does_change. by left. }
  apply calls_bind; [apply calls_call, create_run_does_change|]. intros [run|e]; [|done].
  apply calls_bind.
  { apply calls_call, read_does_change. intros c d a d' Hq. unfold sql_global_balance in Hq.
    by m_inv. }
  intros [[[debits credits] txns]|e].
  - case_bool_decide; [|apply Hend; auto].
    apply calls_bind; [|intros _; apply Hend; auto].
    apply calls_bind; [|done]. apply calls_call, record_mismatch_does_change. auto.
  - apply calls_bind; [|done]. apply calls_call, complete_run_does_change. auto.
Qed.

Lemma reconciliation_does_change n : calls does_change (Reconciliation.Start n).
Proof.
  apply calls_bind; [apply run_reconciliation_does_change|]. intros _.
  induction n as [|n IH]; [done|].
  apply calls_bind; [apply run_reconciliation_does_change|done].
Qed.

Lemma runs_does_change r : calls does_change (reconciliation_RegisterRoutes r).
Proof.
  apply role_calls_next. apply calls_bind; [|by intros [runs|e]].
  apply calls_call, same_does_change. intros w. unfold query_runs. by case_match.
Qed.

(** Payments: the provider's answer decides the status of a new payment, so the calls are
    not independent. *)
Lemma tracks_payments d0 : payments_invariant (tracks d0).
Proof.
  split.
  - by intros w [Hok _].
  - unfold tracks. by intros w w' ->.
  - intros provider event payload w w' He. apply tracks_step. by eapply change_webhook.
  - intros p id w w' Hc Hst. apply tracks_step. by eapply change_created.
Qed.

Lemma calls_safe {A} d0 (p : prog A) :
  calls does_change p → safe (tracks d0) anything p (λ _, True).
Proof.
  induction p as [a|X m k IH]; [done|]. intros [Hm Hk]. exists (λ _ _, True).
  split; [|split; [done|by intros r; apply IH]].
  intros w Hw _. split; [|done]. by apply does_change_keeps.
Qed.

Variable promhttp_Handler : World → Response.

Lemma auth_safe d0 secret next r :
  (∀ claims, safe (tracks d0) anything (next (with_claims claims r)) (λ _, True)) →
  safe (tracks d0) anything (AuthMiddleware secret next r) (λ _, True).
Proof.
  intros Hn. unfold AuthMiddleware. case_bool_decide; [done|].
  destruct (split_spaces _) as [|scheme [|token [|]]]; [done..| |done].
  case_bool_decide; [done|]. apply safe_bind; [|by intros [claims|e]].
  apply calls_safe, calls_call, passive_does_change. intros w. by rewrite validate_token_eq.
Qed.

Lemma handler_safe d0 secret rt r :
  safe (tracks d0) anything (handler promhttp_Handler secret rt r) (λ _, True).
Proof.
  destruct rt; cbn [handler]; try done.
  - apply calls_safe. split; [by apply same_does_change|by intros [resp|e]].
  - apply calls_safe. split; [by apply same_does_change|by intros [resp|e]].
  - apply calls_safe, auth_does_change.
  - apply (safe_payments (tracks d0) secret POST_webhook), tracks_payments.
  - apply auth_safe. intros claims. apply calls_safe, wallets_does_change.
  - apply auth_safe. intros claims. apply calls_safe, transfer_does_change.
  - apply auth_safe. intros claims. apply safe_payments, tracks_payments.
  - apply auth_safe. intros claims. apply calls_safe, runs_does_change.
Qed.

Lemma goroutine_safe d0 rdb secret t :
  safe (tracks d0) anything (goroutine promhttp_Handler rdb secret t) (λ _, True).
Proof.
  destruct t as [rt r|n|n]; cbn [goroutine].
  - apply safe_bind; [|done]. unfold NewServer, MetricsMiddleware.
    apply safe_bind; [by apply calls_safe, calls_call, same_does_change|]. intros start.
    assert (Hr : safe (tracks d0) anything (routed promhttp_Handler secret rt r) (λ _, True)).
    { apply safe_bind; [apply handler_safe|done]. }
    apply safe_bind.
    + destruct rdb; [|done]. apply safe_bind.
      * apply calls_safe, calls_call, same_does_change. intros w. apply allow_db.
      * by intros [u|e]; [|case_bool_decide].
    + intros [resp pattern]. apply safe_bind; [|done].
      by apply calls_safe, calls_call, same_does_change.
  - apply calls_safe, outbox_does_change.
  - apply calls_safe, reconciliation_does_change.
Qed.

(** Every run of the server, with any requests and any rounds of the workers. *)
Lemma server_tracks rdb secret tasks w ps' w' :
  payments_ok (w_db w) →
  interleaving (goroutine promhttp_Handler rdb secret <$> tasks, w) (ps', w') →
  tracks (w_db w) w'.
Proof.
  intros Hok Hrun. eapply interleaving_safe; [|split; [exact Hok|done]|exact Hrun].
  apply Forall_fmap, Forall_true. intros t. exists (λ _, True).
  split; [apply goroutine_safe|done].
Qed.
End Components.

(** ** Properties *)

(** C3. The whole server refines its specification: whatever requests arrive, however they
    interleave with each other and with the workers, and whatever fails, the database only
    goes through business events of [change]; and the schema of the payments is kept. *)
Theorem server_refines_changes `{UuidLaws} `{Bcrypt} `{Jwt} `{JsonText} `{Hmac} `{Router}
    promhttp_Handler rdb secret tasks w ps' w' :
  payments_ok (w_db w) →
  interleaving (goroutine promhttp_Handler rdb secret <$> tasks, w) (ps', w') →
  rtc change (w_db w) (w_db w') ∧ payments_ok (w_db w').
Proof. intros Hok Hrun. by destruct (server_tracks _ _ _ _ _ _ _ Hok Hrun). Qed.

(** ** Concrete inputs *)

(** A bank whose books match: two empty wallets, the platform's account, and a payment of
    three hundred dollars on its way to the first wallet. *)
Definition young_bank : DB :=
  set_payments (<["p1" := payments.mkPayment "p1" "w1" 300 "USD" payments.StatusProcessing "ext_1" 0 0]> ∅)
    (set_accounts (<[platform_account := mkAccount platform_account "PLATFORM" "USD" 0]>
                     (accounts sample_bank))
       (set_wallets (<["w1" := sample_wallet "w1" "b1" "a1" 0]>
                       (<["w2" := sample_wallet "w2" "b2" "a2" 0]> ∅)) sample_bank)).

(** Webhook bodies are event ids, and every other body asks for a transfer. *)
Definition server_text : JsonText := {|
  json_first := json_first (JsonText := transfer_text);
  json_whole := json_whole (JsonText := payments_text);
|}.

(** The provider reports success, the owner transfers a hundred dollars, with the request
    sent twice, and the reconciliation worker runs. *)
Definition young_tasks : list task :=
  [Serve POST_payment_provider (webhook_request "e1"); Serve POST_transfers (bearer "secretUb1" "k2");
   Serve POST_transfers (bearer "secretUb1" "k2"); ReconciliationWorker 0].

Definition young_run : list (prog unit) * World :=
  schedule (concat (repeat [0; 3; 1; 2] 30)%nat)
    (goroutine (H2 := server_text) (H3 := sample_hmac) (λ _, mkResponse StatusOK NoBody) true
       "secret" <$> young_tasks, sample_world young_bank).

Lemma young_payments_ok : payments_ok young_bank.
Proof.
  intros id p Hp. cbn in Hp. apply lookup_insert_Some in Hp as [[<- <-]|[_ Hp]]; [|done].
  split; [by vm_compute|]. split; [by vm_compute|]. split; [by eexists|]. done.
Qed.

Lemma young_interleaving :
  interleaving (goroutine (H2 := server_text) (H3 := sample_hmac) (λ _, mkResponse StatusOK NoBody)
    true "secret" <$> young_tasks, sample_world young_bank) (young_run.1, young_run.2).
Proof. rewrite <- surjective_pairing. apply schedule_interleaving. Qed.

Lemma server_refines_changes_witness :
  young_bank ≠ w_db young_run.2 ∧ rtc change young_bank (w_db young_run.2).
Proof.
  split; [intros Heq; apply (f_equal reconciliation_runs) in Heq; by vm_compute in Heq|].
  exact (proj1 (server_refines_changes (λ _, mkResponse StatusOK NoBody) true "secret" young_tasks
    (sample_world young_bank) young_run.1 young_run.2 young_payments_ok young_interleaving)).
Defined.
