(* ===== verification/Books.v ===== *)
(** * The books always match

    The invariant of the whole program: every wallet holds what the entries of its own
    account add up to, and the ledger balances.  It is proved once, by induction on the
    events of the specification, and so holds in every state the server can reach. *)

From S2P Require Import Prelude Go Models Postgres Runtime Sample Http Auth Middleware Metrics.
From S2P Require Import Ledger Outbox Idempotency Wallets Transfers TransferHandler.
From S2P Require Import Payments Reconciliation Server Steps.
#[local] Open Scope prog_scope.
#[local] Open Scope Z_scope.

(** ** The invariant *)

Section Books.
Context `{UuidLaws}.

(** The account of each wallet. *)
Definition account_of (d : DB) : gmap string string := wallets.Wallet_AccountID <$> wallets_t d.

(** Every wallet has an account of its own, which is not the platform's, and entries are
    of existing accounts. *)
Record layout (d : DB) : Prop := {
  layout_account id a : account_of d !! id = Some a →
    canonical a ∧ is_Some (accounts d !! a) ∧ uuid_in platform_account ≠ Some a;
  layout_own i j a : account_of d !! i = Some a → account_of d !! j = Some a → i = j;
  layout_entry id e : ledger_entries d !! id = Some e →
    is_Some (accounts d !! ledger.Entry_AccountID e);
}.

Definition books (d : DB) : Prop := layout d ∧ consistent d.

Definition holds (w : wallets.Wallet) : Z :=
  wallets.Wallet_AvailableBalance w + wallets.Wallet_LockedBalance w.

Lemma account_of_lookup d id w :
  wallets_t d !! id = Some w → account_of d !! id = Some (wallets.Wallet_AccountID w).
Proof. intros Hw. unfold account_of. by rewrite lookup_fmap, Hw. Qed.

(** Replacing a wallet by one with the same account. *)
Lemma account_of_update d id w w' :
  wallets_t d !! id = Some w → wallets.Wallet_AccountID w' = wallets.Wallet_AccountID w →
  wallets.Wallet_AccountID <$> <[id := w']> (wallets_t d) = account_of d.
Proof.
  intros Hw Ha. unfold account_of. rewrite fmap_insert, Ha. apply insert_id.
  by rewrite lookup_fmap, Hw.
Qed.

(** The invariant looks at three tables. *)
Lemma books_frame d d' :
  wallets_t d' = wallets_t d → accounts d' = accounts d → ledger_entries d' = ledger_entries d →
  books d → books d'.
Proof.
  intros Hw Ha He [Hl [Hb Hm]]. split.
  - destruct Hl as [H1 H2 H3]. unfold account_of in *. split; unfold account_of; rewrite ?Hw, ?Ha, ?He; auto.
  - split; [unfold ledger_balances, ledger_total in *; by rewrite He|].
    rewrite Hw. eapply map_Forall_impl; [exact Hm|]. intros id w Hmatch.
    unfold wallet_matches, net_ledger in *. by rewrite He.
Qed.

Lemma posted_entries txn d d' id e :
  posted txn d d' → ledger_entries d' !! id = Some e →
  ledger_entries d !! id = Some e ∨ is_Some (accounts d !! ledger.Entry_AccountID e).
Proof.
  intros (hdr & rows & t & _ & _ & _ & _ & Hr & Hadd & ->) He. simpl in He.
  destruct (entries_added_lookup _ _ _ _ _ Hadd He) as [?|[Hin _]]; [by left|right].
  apply list_elem_of_lookup in Hin as [i Hi].
  destruct (Forall2_lookup_r _ _ _ _ _ Hr Hi) as (e0 & _ & Hrec). apply Hrec.
Qed.

(** A posting whose debits equal its credits, together with the matching change of the
    wallets, keeps the books. *)
Lemma books_posted d d' d1 d2 txn :
  books d → accounts d' = accounts d → account_of d' = account_of d →
  ledger_entries d1 = ledger_entries d → accounts d1 = accounts d → posted txn d1 d2 →
  ledger_entries d' = ledger_entries d2 →
  total ledger.DirectionDebit (ledger.Transaction_Entries txn) =
    total ledger.DirectionCredit (ledger.Transaction_Entries txn) →
  (∀ id w', wallets_t d' !! id = Some w' → ∃ w, wallets_t d !! id = Some w ∧
     wallets.Wallet_AccountID w' = wallets.Wallet_AccountID w ∧
     holds w' = holds w + net_of (wallets.Wallet_AccountID w) (ledger.Transaction_Entries txn)) →
  books d'.
Proof.
  intros [Hl [Hb Hm]] Ha Hacc He1 Ha1 Hp He2 Htotal Hw.
  assert (Hnet : ∀ a, net_ledger a d' = net_ledger a d + net_of a (ledger.Transaction_Entries txn)).
  { intros a. transitivity (net_ledger a d2); [unfold net_ledger; by rewrite He2|].
    rewrite (posted_net a _ _ _ Hp). unfold net_ledger. by rewrite He1. }
  assert (Htot : ∀ dir, ledger_total dir d' =
            ledger_total dir d + total dir (ledger.Transaction_Entries txn)).
  { intros dir. transitivity (ledger_total dir d2); [unfold ledger_total; by rewrite He2|].
    rewrite (posted_total dir _ _ _ Hp). unfold ledger_total. by rewrite He1. }
  split.
  - destruct Hl as [H1 H2 H3]. split; rewrite ?Hacc, ?Ha; [exact H1|exact H2|].
    intros id e He. rewrite He2 in He.
    destruct (posted_entries _ _ _ _ _ Hp He) as [Hold|Hnew]; [|by rewrite <- Ha1].
    rewrite He1 in Hold. eauto.
  - split; [unfold ledger_balances in *; rewrite !Htot; lia|].
    intros id w' Hw'. destruct (Hw _ _ Hw') as (w & Hwd & Haw & Hh).
    specialize (Hm _ _ Hwd). unfold wallet_matches, holds in *. rewrite Hnet, Haw. lia.
Qed.

Lemma net_of_pair account a b amount currency :
  net_of account
    [ledger.mkEntry "" "" a amount ledger.DirectionDebit currency 0;
     ledger.mkEntry "" "" b amount ledger.DirectionCredit currency 0] =
  (if decide (uuid_in b = Some account) then amount else 0) -
  (if decide (uuid_in a = Some account) then amount else 0).
Proof. unfold net_of, signed_amount. simpl. repeat case_decide; simpl; lia. Qed.

Lemma total_pair dir a b amount currency :
  dir = ledger.DirectionDebit ∨ dir = ledger.DirectionCredit →
  total dir
    [ledger.mkEntry "" "" a amount ledger.DirectionDebit currency 0;
     ledger.mkEntry "" "" b amount ledger.DirectionCredit currency 0] = amount.
Proof. intros [-> | ->]; simpl; lia. Qed.

(** Transfers. *)
Lemma booked_books req key debited credited t d d' :
  booked req key debited credited t d d' → books d → books d'.
Proof.
  intros Hbk Hbooks. pose proof Hbooks as [Hl _].
  pose proof (booked_frame _ _ _ _ _ _ _ Hbk) as (_ & Hacc & _).
  destruct Hbk as (src & dst & now & enq & d1 & d2 & d3 & Hs & Hd & _ & _ & Hm & Hr & Hp & He).
  apply enqueued_frame in He as (_ & _ & Hw3 & _ & He3 & _).
  pose proof (posted_frame _ _ _ Hp) as (_ & _ & Hw2 & _).
  destruct Hr as (row & _ & _ & _ & _ & _ & _ & _ & _ & _ & _ & Hd2).
  destruct Hm as (src' & dst' & Hs' & Hd' & Hne & _ & _ & Hd1). simplify_eq.
  simpl in Hw2, Hw3. rewrite Hw2 in Hw3.
  destruct (layout_account _ Hl _ _ (account_of_lookup _ _ _ Hs)) as (Hcs & _).
  destruct (layout_account _ Hl _ _ (account_of_lookup _ _ _ Hd)) as (Hcd & _).
  refine (books_posted d d' _ _ _ Hbooks Hacc _ _ _ Hp He3 _ _); [|by subst..| |].
  - unfold account_of at 1. rewrite Hw3, (fmap_insert _ _ credited). simpl.
    rewrite (account_of_update _ _ src) by done. apply insert_id. by apply account_of_lookup.
  - cbn [ledger.Transaction_Entries double_entry]. by rewrite !total_pair by auto.
  - intros id w' Hw'. rewrite Hw3 in Hw'. cbn [ledger.Transaction_Entries double_entry].
    setoid_rewrite net_of_pair. unfold canonical in Hcs, Hcd. rewrite Hcs, Hcd.
    assert (Hapart : ∀ j w, wallets_t d !! j = Some w → ∀ k v, wallets_t d !! k = Some v →
      j ≠ k → wallets.Wallet_AccountID v ≠ wallets.Wallet_AccountID w).
    { intros j w Hj k v Hk Hjk Heq. apply Hjk. eapply (layout_own _ Hl); [by apply account_of_lookup|].
      rewrite <- Heq. by apply account_of_lookup. }
    apply lookup_insert_Some in Hw' as [[<- <-]|[Hnc Hw']];
      [|apply lookup_insert_Some in Hw' as [[<- <-]|[Hnd Hw']]].
    + exists dst. split; [done|]. split; [done|].
      rewrite decide_True, decide_False by
        (done || (intros [= Heq]; by apply (Hapart _ _ Hd _ _ Hs (not_eq_sym Hne)))).
      unfold holds. simpl. lia.
    + exists src. split; [done|]. split; [done|].
      rewrite decide_False, decide_True by
        (done || (intros [= Heq]; by apply (Hapart _ _ Hs _ _ Hd Hne))).
      unfold holds. simpl. lia.
    + exists w'. split; [done|]. split; [done|].
      rewrite !decide_False; [lia| |]; intros [= Heq];
        [by apply (Hapart _ _ Hw' _ _ Hs (not_eq_sym Hnd))|by apply (Hapart _ _ Hw' _ _ Hd (not_eq_sym Hnc))].
Qed.

(** Payments. *)
Lemma webhook_books provider event payload d d' :
  webhook_effect provider event payload d d' → books d → books d'.
Proof.
  intros He Hbooks. pose proof Hbooks as [Hl _].
  destruct He as (id & p & w & now & enq & d1 & d2 & d3 & Hp & _ & Hw & _ & Hst & Hd2 & Hd3 & He).
  apply enqueued_frame in He as (_ & Ha & Hw' & _ & He & _).
  destruct Hst as (row & _ & _ & _ & _ & _ & _ & Hd1). subst d1 d2.
  case_decide as Hsucc.
  2:{ subst d3. by apply (books_frame d). }
  destruct Hd3 as (d4 & _ & _ & -> & Hpost).
  pose proof (posted_frame _ _ _ Hpost) as (_ & Ha4 & Hw4 & _). simpl in Ha4, Hw4.
  rewrite Hw4 in Hw'. rewrite Ha4 in Ha.
  destruct (layout_account _ Hl _ _ (account_of_lookup _ _ _ Hw)) as (Hc & _ & _).
  refine (books_posted d d' _ _ _ Hbooks Ha _ _ _ Hpost He _ _); [|done|done|..].
  - unfold account_of at 1. rewrite Hw'. by apply (account_of_update _ _ w).
  - cbn [ledger.Transaction_Entries double_entry]. by rewrite !total_pair by auto.
  - intros id' w' Hlook. rewrite Hw' in Hlook.
    cbn [ledger.Transaction_Entries double_entry]. setoid_rewrite net_of_pair.
    unfold canonical in Hc. rewrite Hc.
    apply lookup_insert_Some in Hlook as [[<- <-]|[Hne Hlook]].
    + exists w. split; [done|]. split; [done|]. rewrite decide_True, decide_False; [|..|done].
      * unfold holds. simpl. lia.
      * by destruct (layout_account _ Hl _ _ (account_of_lookup _ _ _ Hw)) as (_ & _ & ?).
    + exists w'. split; [done|]. split; [done|]. rewrite !decide_False; [lia|..].
      * by destruct (layout_account _ Hl _ _ (account_of_lookup _ _ _ Hlook)) as (_ & _ & ?).
      * intros [= Heq]. apply Hne. eapply (layout_own _ Hl); [by apply account_of_lookup|].
        rewrite Heq. by apply account_of_lookup.
Qed.

(** Opening a wallet: its account is new, so it has no entry, and it was drawn by the
    generator, which never draws the platform's id (the nil UUID is of no version). *)
Lemma opened_books owner ty currency wlt d d' :
  (∀ n, uuid_in platform_account ≠ Some (env_uuid n)) →
  opened owner ty currency wlt d d' → books d → books d'.
Proof.
  intros Hnil (acct & Hna & Hnw & _ & _ & _ & _ & Hacc & _ & H1 & H2 & _ & _ & [n Hn] & ->)
    [[Ha Ho He] [Hb Hm]].
  assert (Hfresh : ∀ id, account_of d !! id ≠ Some (wallets.Wallet_AccountID wlt)).
  { intros id Hid. destruct (Ha _ _ Hid) as (_ & [a Hacct] & _). rewrite Hacc in Hacct. congruence. }
  split; [split|split].
  - intros id a. unfold account_of. simpl. rewrite fmap_insert.
    intros [[<- <-]|[Hne Hid]]%lookup_insert_Some.
    + rewrite Hacc, Hn. split; [apply env_uuid_canonical|]. split; [|apply Hnil].
      rewrite <- Hn, lookup_insert_eq. by eexists.
    + destruct (Ha _ _ Hid) as (? & Hs & ?). split; [done|]. split; [|done].
      apply lookup_insert_is_Some'. by right.
  - intros i j a. unfold account_of. simpl. rewrite fmap_insert.
    intros [[<- <-]|[Hi Hia]]%lookup_insert_Some [[<- Heq]|[Hj Hja]]%lookup_insert_Some.
    + done.
    + by destruct (Hfresh j).
    + subst a. by destruct (Hfresh i).
    + by eapply Ho.
  - intros id e Hid. simpl. apply lookup_insert_is_Some'. right. by eapply He.
  - exact Hb.
  - simpl. apply map_Forall_insert_2; [|exact Hm].
    unfold wallet_matches, net_ledger. simpl. rewrite H1, H2, map_sum_zero; [done|].
    intros k e Hk. rewrite decide_False; [done|]. intros Heq.
    destruct (He _ _ Hk) as [a Hacct]. rewrite Heq, Hacc in Hacct. congruence.
Qed.

(** Freezing and releasing. *)
Lemma status_books id row st now d :
  wallets_t d !! id = Some row → books d →
  books (set_wallets (<[id := wallets.set_status st now row]> (wallets_t d)) d).
Proof.
  intros Hrow [[Ha Ho He] [Hb Hm]].
  assert (Hacc : account_of (set_wallets (<[id := wallets.set_status st now row]> (wallets_t d)) d)
                 = account_of d) by by apply (account_of_update _ _ row).
  split; [split; rewrite ?Hacc; [exact Ha|exact Ho|exact He]|]. split; [exact Hb|].
  simpl. apply map_Forall_insert_2; [|exact Hm]. exact (Hm _ _ Hrow).
Qed.

Lemma change_books d d' :
  (∀ n, uuid_in platform_account ≠ Some (env_uuid n)) → change d d' → books d → books d'.
Proof.
  intros Hnil. destruct 1 as [|user id now d' He|owner ty cur wlt d' Ho|id row st now Hw Hst
    |d' (k & o & r & i & ->)%housekeeping_frame|req key a b t d' Hb|p id d' Hc|provider event payload d' He]; try done.
  - destruct He as (? & ? & ? & _ & _ & _ & _ & _ & ->). by apply books_frame.
  - by eapply opened_books.
  - by apply status_books.
  - by apply books_frame.
  - by eapply booked_books.
  - destruct Hc as (row & _ & _ & _ & _ & _ & _ & _ & _ & _ & _ & _ & ->). by apply books_frame.
  - by eapply webhook_books.
Qed.

Lemma changes_books d d' :
  (∀ n, uuid_in platform_account ≠ Some (env_uuid n)) → rtc change d d' → books d → books d'.
Proof. intros Hnil. induction 1; [done|]. intros Hd. by apply IHrtc, (change_books _ _ Hnil) with (1 := H1). Qed.

(** ** Where money comes from *)

(** The money in all wallets, and what all succeeded payments brought. *)
Definition money_held (d : DB) : Z := map_sum holds (wallets_t d).

Definition paid_in (p : payments.Payment) : Z :=
  if decide (payments.Payment_Status p = payments.StatusSucceeded)
  then payments.Payment_Amount p else 0.

Definition money_paid_in (d : DB) : Z := map_sum paid_in (payments_t d).

Lemma money_frame d d' :
  wallets_t d' = wallets_t d → payments_t d' = payments_t d →
  money_held d' - money_paid_in d' = money_held d - money_paid_in d.
Proof. unfold money_held, money_paid_in. by intros -> ->. Qed.

Lemma booked_money req key a b t d d' :
  booked req key a b t d d' → money_held d' - money_paid_in d' = money_held d - money_paid_in d.
Proof.
  intros Hb. pose proof (booked_frame _ _ _ _ _ _ _ Hb) as (_ & _ & _ & Hp & _).
  apply booked_wallets in Hb as (src & dst & Ha & Hd & Hne & _ & _ & _ & _ & Hw).
  unfold money_held, money_paid_in. rewrite Hp, Hw.
  rewrite (map_sum_update _ _ b dst) by (by rewrite lookup_insert_ne).
  rewrite (map_sum_update _ _ a src) by done. unfold holds. simpl. lia.
Qed.

Lemma webhook_money provider event payload d d' :
  webhook_effect provider event payload d d' →
  money_held d' - money_paid_in d' = money_held d - money_paid_in d.
Proof.
  intros (id & p & w & now & row & Hp & _ & Hw & Hv & Hp' & Hw' & _)%webhook_effect_tables.
  apply valid_transition_from in Hv. unfold money_held, money_paid_in. rewrite Hp', Hw'.
  rewrite (map_sum_update paid_in _ id p) by done. unfold paid_in at 2 3. simpl.
  rewrite (decide_False (P := payments.Payment_Status p = _)) by done.
  destruct (decide (payments.Webhook_Status event = payments.StatusSucceeded)); [|lia].
  rewrite (map_sum_update holds _ _ w) by done. unfold holds at 2 3. simpl. lia.
Qed.

Lemma change_money d d' :
  change d d' → money_held d' - money_paid_in d' = money_held d - money_paid_in d.
Proof.
  destruct 1 as [|user id now d' He|owner ty cur wlt d' Ho|id row st now Hw Hst
    |d' (k & o & r & i & ->)%housekeeping_frame|req key a b t d' Hb|p id d' Hc Hst|provider event payload d' He]; try done.
  - by destruct He as (? & ? & ? & _ & _ & _ & _ & _ & ->).
  - destruct Ho as (acct & _ & Hnw & _ & _ & _ & _ & _ & _ & H1 & H2 & _ & _ & _ & ->).
    unfold money_held, money_paid_in. simpl. rewrite map_sum_insert_new by done.
    unfold holds at 1. rewrite H1, H2. lia.
  - unfold money_held, money_paid_in. simpl. rewrite (map_sum_update _ _ id row) by done.
    unfold holds at 2 3. simpl. lia.
  - by eapply booked_money.
  - destruct Hc as (row & Hn & _ & _ & _ & _ & _ & _ & _ & Hvar & _ & _ & ->).
    unfold money_held, money_paid_in. simpl. rewrite map_sum_insert_new by done.
    unfold paid_in at 1. rewrite decide_False; [lia|]. intros Hs.
    destruct Hst as [Hst|Hst]; rewrite Hst in Hvar; by injection Hvar as Hvar; rewrite Hs in Hvar.
  - by eapply webhook_money.
Qed.

Lemma change_solvent d d' : payments_ok d → change d d' → solvent d → solvent d'.
Proof.
  intros Hok. destruct 1 as [|user id now d' He|owner ty cur wlt d' Ho|id row st now Hw Hst
    |d' (k & o & r & i & ->)%housekeeping_frame|req key a b t d' Hb|p id d' Hc Hst|provider event payload d' He]; try done.
  - by destruct He as (? & ? & ? & _ & _ & _ & _ & _ & ->).
  - destruct Ho as (acct & _ & _ & _ & _ & _ & _ & _ & _ & H1 & _ & _ & _ & _ & ->).
    intros Hs id w. simpl. intros [[<- <-]|[_ Hid]]%lookup_insert_Some; [lia|by eapply Hs].
  - intros Hs id' w. simpl. intros [[<- <-]|[_ Hid]]%lookup_insert_Some; [|by eapply Hs].
    exact (Hs _ _ Hw).
  - by eapply booked_solvent.
  - by destruct Hc as (row & _ & _ & _ & _ & _ & _ & _ & _ & _ & _ & _ & ->).
  - apply webhook_effect_tables in He as (id & p & w & now & row & Hp & _ & Hw & _ & _ & Hw' & _).
    destruct (Hok _ _ Hp) as (_ & _ & _ & Hpos & _).
    intros Hs id' v. rewrite Hw'. case_decide; [|apply Hs].
    intros [[<- <-]|[_ Hid]]%lookup_insert_Some; [|by eapply Hs].
    specialize (Hs _ _ Hw). simpl. lia.
Qed.

Lemma changes_money d d' :
  rtc change d d' → payments_ok d →
  money_held d' - money_paid_in d' = money_held d - money_paid_in d ∧ (solvent d → solvent d').
Proof.
  induction 1 as [d|d d1 d2 Hc _ IH]; [done|]. intros Hok.
  destruct IH as [IH1 IH2]; [by eapply change_payments_ok|].
  split; [by rewrite IH1, (change_money _ _ Hc)|]. intros Hs. by eapply IH2, change_solvent.
Qed.
End Books.

(** ** Properties *)

(** C1. The books match in every reachable state: from a database where they do (the empty
    one, to begin with), whatever requests arrive, however they interleave with each other
    and with the workers, and whatever fails, the ledger balances and every wallet holds
    exactly what the entries of its account add up to. *)
Theorem books_always_match `{UuidLaws} `{Bcrypt} `{Jwt} `{JsonText} `{Hmac} `{Router}
    promhttp_Handler rdb secret tasks w ps' w' :
  (∀ n, uuid_in platform_account ≠ Some (env_uuid n)) →
  payments_ok (w_db w) → books (w_db w) →
  interleaving (goroutine promhttp_Handler rdb secret <$> tasks, w) (ps', w') →
  books (w_db w').
Proof.
  intros Hnil Hok Hb Hrun. destruct (server_tracks _ _ _ _ _ _ _ Hok Hrun) as [_ Hc].
  by eapply changes_books.
Qed.

(** C2. Money only comes from payments: over any run of the server, the money in all
    wallets grows exactly by the amounts of the payments that succeed meanwhile, and no
    wallet is ever overdrawn. *)
Theorem money_comes_from_payments `{UuidLaws} `{Bcrypt} `{Jwt} `{JsonText} `{Hmac} `{Router}
    promhttp_Handler rdb secret tasks w ps' w' :
  payments_ok (w_db w) →
  interleaving (goroutine promhttp_Handler rdb secret <$> tasks, w) (ps', w') →
  money_held (w_db w') - money_held (w_db w) = money_paid_in (w_db w') - money_paid_in (w_db w) ∧
  (solvent (w_db w) → solvent (w_db w')).
Proof.
  intros Hok Hrun. destruct (server_tracks _ _ _ _ _ _ _ Hok Hrun) as [_ Hc].
  destruct (changes_money _ _ Hc Hok) as [Hm Hs]. split; [lia|exact Hs].
Qed.

(** C20. The reconciliation worker has nothing to find: after any run of the server from
    matching books, a reconciliation that meets no failure is recorded as PASSED with no
    mismatch, as long as the sums it computes fit their types. *)
Theorem reconciliation_passes `{UuidLaws} `{Bcrypt} `{Jwt} `{JsonText} `{Hmac} `{Router}
    promhttp_Handler rdb secret tasks w ps' w' :
  (∀ n, uuid_in platform_account ≠ Some (env_uuid n)) →
  payments_ok (w_db w) → books (w_db w) →
  interleaving (goroutine promhttp_Handler rdb secret <$> tasks, w) (ps', w') →
  no_faults (w_tick w') → reconciliation_runs (w_db w') !! env_uuid (w_tick w') = None →
  sums_fit (w_db w') →
  ∃ run, reconciliation_runs (w_db (Runtime.run RunReconciliation w').2) !! env_uuid (w_tick w')
           = Some run ∧
    reconciliation.Run_Status run = reconciliation.StatusPassed ∧
    reconciliation.Run_MismatchesFound run = 0.
Proof.
  intros Hnil Hok Hb Hrun Hf Hfresh Hfit.
  destruct (server_tracks _ _ _ _ _ _ _ Hok Hrun) as [_ Hc].
  destruct (changes_books _ _ Hnil Hc Hb) as [_ Hcons].
  destruct (run_reconciliation_verdict w' Hf Hfresh Hfit) as (run & Hlook & Hst & _ & _ & Hm & _).
  exists run. split; [exact Hlook|]. rewrite Hst, Hm, decide_True by done. split; [done|].
  destruct Hcons as [Hbal Hwal]. rewrite decide_True by done.
  by rewrite (proj2 (wrong_wallets_nil _) Hwal).
Qed.

(** ** Concrete inputs *)

Lemma young_books : books young_bank.
Proof.
  split; [split|].
  - intros id a Hid. cbn in Hid. unfold account_of in Hid. cbn in Hid.
    rewrite !fmap_insert, fmap_empty in Hid.
    apply lookup_insert_Some in Hid as [[<- <-]|[_ Hid]]; [|apply lookup_insert_Some in Hid as
      [[<- <-]|[_ Hid]]; [|by apply lookup_empty_Some in Hid]];
      (split; [by vm_compute|]; split; [by eexists|by vm_compute]).
  - intros i j a Hi Hj. unfold account_of in *. cbn in Hi, Hj.
    rewrite !fmap_insert, fmap_empty in Hi, Hj.
    apply lookup_insert_Some in Hi as [[<- <-]|[_ Hi]]; [|apply lookup_insert_Some in Hi as
      [[<- <-]|[_ Hi]]; [|by apply lookup_empty_Some in Hi]];
    (apply lookup_insert_Some in Hj as [[<- Hja]|[_ Hj]]; [|apply lookup_insert_Some in Hj as
      [[<- Hja]|[_ Hj]]; [|by apply lookup_empty_Some in Hj]]); by vm_compute in *.
  - intros id e He. cbn in He. by apply lookup_empty_Some in He.
  - by apply (bool_decide_eq_true_1 (consistent young_bank)).
Qed.

(** The nil UUID of the platform's account is none that the environment makes. *)
Lemma sample_not_nil n : uuid_in platform_account ≠ Some (env_uuid n).
Proof. by intros [=]. Qed.

Lemma books_always_match_witness : books young_bank ∧ books (w_db young_run.2).
Proof.
  split; [exact young_books|].
  exact (books_always_match (λ _, mkResponse StatusOK NoBody) true "secret" young_tasks
    (sample_world young_bank) young_run.1 young_run.2 sample_not_nil young_payments_ok
    young_books young_interleaving).
Defined.

Lemma money_comes_from_payments_witness :
  money_held young_bank = 0 ∧ money_held (w_db young_run.2) = 300 ∧
  money_held (w_db young_run.2) - money_held young_bank =
    money_paid_in (w_db young_run.2) - money_paid_in young_bank.
Proof.
  split; [by vm_compute|]. split; [by vm_compute|].
  exact (proj1 (money_comes_from_payments (λ _, mkResponse StatusOK NoBody) true "secret" young_tasks
    (sample_world young_bank) young_run.1 young_run.2 young_payments_ok young_interleaving)).
Defined.

Lemma reconciliation_passes_witness :
  wallets_t (w_db young_run.2) ≠ wallets_t young_bank ∧
  ∃ run, reconciliation_runs (w_db (Runtime.run RunReconciliation young_run.2).2)
           !! env_uuid (w_tick young_run.2) = Some run ∧
    reconciliation.Run_Status run = reconciliation.StatusPassed ∧
    reconciliation.Run_MismatchesFound run = 0.
Proof.
  split; [by vm_compute|].
  refine (reconciliation_passes (λ _, mkResponse StatusOK NoBody) true "secret" young_tasks
    (sample_world young_bank) young_run.1 young_run.2 sample_not_nil young_payments_ok
    young_books young_interleaving _ _ _).
  - by intros n _.
  - by vm_compute.
  - by apply (bool_decide_eq_true_1 (sums_fit (w_db young_run.2))).
Defined.
