(* ===== verification/History.v ===== *)
(** * What is never rewritten

    The tables that tell what happened (the ledger, transfers, webhook events, users,
    accounts, mismatches) only grow, and the rows that have a state of their own (wallets,
    payments, keys, events of the outbox, reconciliation runs) stay and keep the columns that
    identify them.  Proved over the events of [Steps], so for every run of the server. *)

From S2P Require Import Prelude Go Models Postgres Runtime Sample Http Auth Middleware Metrics.
From S2P Require Import Ledger Outbox Idempotency Wallets Transfers TransferHandler.
From S2P Require Import Payments Reconciliation Server Steps.
#[local] Open Scope prog_scope.
#[local] Open Scope Z_scope.

(** ** Tables that grow *)

(** The columns [f] of every row are kept, and no row is removed. *)
Definition keeps_columns {A B} (f : A → B) (t t' : gmap string A) : Prop := f <$> t ⊆ f <$> t'.

Section Columns.
Context {A B : Type} (f : A → B).
Implicit Types t : gmap string A.

#[export] Instance keeps_columns_preorder : PreOrder (keeps_columns f).
Proof.
  unfold keeps_columns. split; [by intros t; apply reflexivity|].
  intros t1 t2 t3 H12 H23. by transitivity (f <$> t2).
Qed.

Lemma keeps_columns_new k x t : t !! k = None → keeps_columns f t (<[k := x]> t).
Proof.
  intros Hn. unfold keeps_columns. rewrite fmap_insert. apply insert_subseteq.
  by rewrite lookup_fmap, Hn.
Qed.

Lemma keeps_columns_row k x y t :
  t !! k = Some y → f x = f y → keeps_columns f t (<[k := x]> t).
Proof.
  intros Hy Hf. unfold keeps_columns. rewrite fmap_insert, Hf, insert_id; [done|].
  by rewrite lookup_fmap, Hy.
Qed.
End Columns.

(** ** What identifies a row *)

Definition wallet_identity (w : wallets.Wallet) :=
  (wallets.Wallet_ID w, wallets.Wallet_OwnerID w, wallets.Wallet_AccountID w,
   wallets.Wallet_Currency w, wallets.Wallet_LockedBalance w, wallets.Wallet_CreatedAt w).

Definition payment_identity (p : payments.Payment) :=
  (payments.Payment_ID p, payments.Payment_WalletID p, payments.Payment_Amount p,
   payments.Payment_Currency p, payments.Payment_ProviderReference p,
   payments.Payment_CreatedAt p).

Definition key_identity (k : idempotency.KeyRow) :=
  (idempotency.Row_Key k, idempotency.Row_RequestPayload k, idempotency.Row_LockedAt k,
   idempotency.Row_CreatedAt k).

Definition event_identity (ev : outbox.Event) :=
  (outbox.Event_ID ev, outbox.Event_Topic ev, outbox.Event_Payload ev, outbox.Event_CreatedAt ev).

Definition run_identity (r : reconciliation.Run) :=
  (reconciliation.Run_ID r, reconciliation.Run_StartedAt r).

(** Later, nothing on record is gone or altered. *)
Definition recorded_in (d d' : DB) : Prop :=
  (users d ⊆ users d' ∧ accounts d ⊆ accounts d' ∧
   ledger_transactions d ⊆ ledger_transactions d' ∧ ledger_entries d ⊆ ledger_entries d' ∧
   transfers_t d ⊆ transfers_t d' ∧ webhook_events d ⊆ webhook_events d' ∧
   reconciliation_items d ⊆ reconciliation_items d') ∧
  keeps_columns wallet_identity (wallets_t d) (wallets_t d') ∧
  keeps_columns payment_identity (payments_t d) (payments_t d') ∧
  keeps_columns key_identity (idempotency_keys d) (idempotency_keys d') ∧
  keeps_columns event_identity (outbox_events d) (outbox_events d') ∧
  keeps_columns run_identity (reconciliation_runs d) (reconciliation_runs d').

#[export] Instance recorded_in_preorder : PreOrder recorded_in.
Proof.
  split.
  - intros d. unfold recorded_in. split_and!; done.
  - intros d1 d2 d3 ((?&?&?&?&?&?&?)&?&?&?&?&?) ((?&?&?&?&?&?&?)&?&?&?&?&?).
    unfold recorded_in. split_and!; by etrans.
Qed.

(** ** Every event adds to the record *)

Section Events.
Context `{UuidLaws}.

Ltac on_record := unfold recorded_in; simpl; split_and!;
  try done; try (by apply insert_subseteq); try (by apply keeps_columns_new);
  try (by eapply keeps_columns_row).

Lemma posted_record txn d d' : posted txn d d' → recorded_in d d'.
Proof.
  intros (hdr & rows & t & Hn & _ & _ & _ & _ & Hadd & ->). on_record.
  by eapply entries_added_mono.
Qed.

Lemma enqueued_record topic payload now d d' : enqueued topic payload now d d' → recorded_in d d'.
Proof. intros (ev & Hn & _ & _ & _ & _ & _ & _ & _ & ->). on_record. Qed.

Lemma moved_record amount a b d d' : moved amount a b d d' → recorded_in d d'.
Proof.
  intros (src & dst & Ha & Hb & Hne & _ & _ & ->). on_record.
  etrans; [by apply (keeps_columns_row _ a (wallets.set_available
    (wallets.Wallet_AvailableBalance src - amount) src) src)|].
  apply (keeps_columns_row _ b _ dst); [by rewrite lookup_insert_ne|done].
Qed.

Lemma transfer_record req key t d d' : recorded req key t d d' → recorded_in d d'.
Proof. intros (row & Hn & _ & _ & _ & _ & _ & _ & _ & _ & _ & ->). on_record. Qed.

Lemma booked_record req key a b t d d' : booked req key a b t d d' → recorded_in d d'.
Proof.
  intros (src & dst & now & enq & d1 & d2 & d3 & _ & _ & _ & _ & Hm & Hr & Hp & He).
  etrans; [exact (moved_record _ _ _ _ _ Hm)|]. etrans; [exact (transfer_record _ _ _ _ _ Hr)|].
  etrans; [exact (posted_record _ _ _ Hp)|exact (enqueued_record _ _ _ _ _ He)].
Qed.

Lemma webhook_record provider event payload d d' :
  webhook_effect provider event payload d d' → recorded_in d d'.
Proof.
  intros (id & p & w & now & enq & d1 & d2 & d3 & Hp & _ & Hw & _ & Hst & -> & Hd3 & He).
  destruct Hst as (row & Hn & _ & _ & _ & _ & _ & ->).
  etrans; [|exact (enqueued_record _ _ _ _ _ He)].
  set (d2 := set_payments _ _) in *. assert (Hd2 : recorded_in d d2) by on_record.
  etrans; [exact Hd2|]. case_decide; [|by subst d3].
  destruct Hd3 as (d4 & _ & _ & -> & Hpost). etrans; [|exact (posted_record _ _ _ Hpost)].
  on_record.
Qed.

Lemma housekeeping_record d d' : housekeeping d d' → recorded_in d d'.
Proof. destruct 1; on_record. Qed.

Lemma change_record d d' : change d d' → recorded_in d d'.
Proof.
  destruct 1 as [|user id now d' He|owner ty cur wlt d' Ho|id row st now Hw Hst|d' Hh
    |req key a b t d' Hb|p id d' Hc Hst|provider event payload d' He].
  - done.
  - destruct He as (? & ? & ? & _ & _ & _ & Hn & _ & ->). on_record.
  - destruct Ho as (acct & Ha & Hn & _ & _ & _ & _ & _ & _ & _ & _ & _ & _ & _ & ->). on_record.
  - on_record.
  - by apply housekeeping_record.
  - by eapply booked_record.
  - destruct Hc as (row & Hn & _ & _ & _ & _ & _ & _ & _ & _ & _ & _ & ->). on_record.
  - by eapply webhook_record.
Qed.

Lemma changes_record d d' : rtc change d d' → recorded_in d d'.
Proof. induction 1 as [|d d1 d2 Hc _ IH]; [done|]. etrans; [exact (change_record _ _ Hc)|exact IH]. Qed.

(** Users are only added by registrations, under new emails. *)
Lemma change_unique d d' : change d d' → unique_emails d → unique_emails d'.
Proof.
  destruct 1 as [|user id now d' He|owner ty cur wlt d' Ho|id row st now Hw Hst
    |d' (k & o & r & i & ->)%housekeeping_frame
    |req key a b t d' Hb|p id d' Hc Hst|provider event payload d' He]; try done.
  - by eapply enrolled_unique.
  - by destruct Ho as (acct & _ & _ & _ & _ & _ & _ & _ & _ & _ & _ & _ & _ & _ & ->).
  - unfold unique_emails. by rewrite (proj1 (booked_frame _ _ _ _ _ _ _ Hb)).
  - by destruct Hc as (row & _ & _ & _ & _ & _ & _ & _ & _ & _ & _ & _ & ->).
  - unfold unique_emails.
    apply webhook_effect_tables in He as (? & ? & ? & ? & ? & _ & _ & _ & _ & _ & _ & _ & _ & -> & _).
    done.
Qed.

Lemma changes_unique d d' : rtc change d d' → unique_emails d → unique_emails d'.
Proof. induction 1 as [|d d1 d2 Hc _ IH]; [done|]. intros Hd. by eapply IH, change_unique. Qed.
End Events.

(** ** Properties *)

(** C17. The record is append-only: over any run of the server, under any requests,
    interleaving with the workers and failures, users, accounts, ledger transactions and
    entries, transfers, webhook events and recorded mismatches are never altered or removed;
    wallets, payments, idempotency keys, outbox events and reconciliation runs are never
    removed, and keep what identifies them: owner, account and currency; wallet, amount,
    currency and reference; the request; topic and payload; the start. *)
Theorem history_is_append_only `{UuidLaws} `{Bcrypt} `{Jwt} `{JsonText} `{Hmac} `{Router}
    promhttp_Handler rdb secret tasks w ps' w' :
  payments_ok (w_db w) →
  interleaving (goroutine promhttp_Handler rdb secret <$> tasks, w) (ps', w') →
  recorded_in (w_db w) (w_db w').
Proof.
  intros Hok Hrun. apply changes_record. by apply (server_tracks _ _ _ _ _ _ _ Hok Hrun).
Qed.

(** C36. An email identifies a user for good: over any run of the server from a database in
    which no two users share an email, however registrations race and whatever fails, no two
    users ever do, and every user that was there is still there, unchanged. *)
Theorem emails_identify_users `{UuidLaws} `{Bcrypt} `{Jwt} `{JsonText} `{Hmac} `{Router}
    promhttp_Handler rdb secret tasks w ps' w' :
  payments_ok (w_db w) → unique_emails (w_db w) →
  interleaving (goroutine promhttp_Handler rdb secret <$> tasks, w) (ps', w') →
  (∀ i j u v, users (w_db w') !! i = Some u → users (w_db w') !! j = Some v →
     auth.User_Email u = auth.User_Email v → i = j) ∧
  (∀ i u, users (w_db w) !! i = Some u → users (w_db w') !! i = Some u).
Proof.
  intros Hok Hu Hrun. destruct (server_tracks _ _ _ _ _ _ _ Hok Hrun) as [_ Hc]. split.
  - exact (changes_unique _ _ Hc Hu).
  - intros i u Hi. destruct (changes_record _ _ Hc) as [[Hsub _] _]. exact (lookup_weaken _ _ _ _ Hi Hsub).
Qed.

(** ** Concrete inputs *)

Lemma history_is_append_only_witness :
  ledger_entries young_bank ≠ ledger_entries (w_db young_run.2) ∧
  recorded_in young_bank (w_db young_run.2).
Proof.
  split; [intros Heq; apply (f_equal size) in Heq; by vm_compute in Heq|].
  exact (history_is_append_only (λ _, mkResponse StatusOK NoBody) true "secret" young_tasks
    (sample_world young_bank) young_run.1 young_run.2 young_payments_ok young_interleaving).
Defined.

(** Two registrations of one email race on an empty database. *)
Definition race_tasks : list task :=
  [Serve (auth_routes POST_register) post; Serve (auth_routes POST_register) post].

Definition race_run : list (prog unit) * World :=
  schedule (concat (repeat [0; 1] 12)%nat)
    (goroutine (H2 := auth_text) (H3 := sample_hmac) (λ _, mkResponse StatusOK NoBody) false
       "secret" <$> race_tasks, init_world).

Lemma race_interleaving :
  interleaving (goroutine (H2 := auth_text) (H3 := sample_hmac) (λ _, mkResponse StatusOK NoBody)
    false "secret" <$> race_tasks, init_world) (race_run.1, race_run.2).
Proof. rewrite <- surjective_pairing. apply schedule_interleaving. Qed.

Lemma emails_identify_users_witness :
  size (users (w_db race_run.2)) = 1%nat ∧
  ∀ i j u v, users (w_db race_run.2) !! i = Some u → users (w_db race_run.2) !! j = Some v →
    auth.User_Email u = auth.User_Email v → i = j.
Proof.
  split; [by vm_compute|].
  refine (proj1 (emails_identify_users (λ _, mkResponse StatusOK NoBody) false "secret" race_tasks
    init_world race_run.1 race_run.2 _ _ race_interleaving)).
  - intros id p Hp. by destruct (lookup_empty_Some (M := gmap string) id p Hp).
  - intros i j u v Hu. by destruct (lookup_empty_Some (M := gmap string) i u Hu).
Defined.
