(* ===== verification/Lifecycle.v ===== *)
(** * The life of the process (internal/server/server.go, [Start]; cmd/api/main.go)

    After start-up the process serves until it is told to stop: it then accepts no request any
    more, waits for those it has for ten seconds at most, and closes its connections.  It can
    also end at once, when the listener fails.  Requests and workers are the goroutines of
    [Server], and every event may come at any time. *)

From S2P Require Import Prelude Go Models Postgres Runtime Sample Http Auth Middleware Metrics.
From S2P Require Import Ledger Outbox Payments Server Startup Steps Books.
#[local] Open Scope prog_scope.
#[local] Open Scope Z_scope.

(** ** The code *)

(** The process with the goroutines of its requests and its workers.  [sv_listening]: the
    listener is open; [sv_notified]: the process has subscribed to the signals;
    [sv_deadline]: the context of [Shutdown], once it was called;
    [sv_connections]: the pool and the Redis client are open; [sv_exit]: the exit code, [-1]
    for a process that a signal has killed. *)
Record Service := mkService {
  sv_world : World;
  sv_requests : list (prog unit);
  sv_workers : list (prog unit);
  sv_listening : bool;
  sv_notified : bool;
  sv_deadline : option Z;
  sv_connections : bool;
  sv_exit : option Z;
}.

(** What can happen: a connection with a request, the turn of a goroutine, the passing of
    time, a failure of [ListenAndServe], the call of [signal.Notify], [SIGINT] or [SIGTERM],
    and the return of [srv.Shutdown]. *)
Inductive event :=
| Connect (rt : route) (r : Request)
| RequestTurn (i : nat)
| WorkerTurn (i : nat)
| Wait
| ListenerFails
| Notify
| Interrupt
| ShutdownReturns.

Definition done (p : prog unit) : bool := match p with Ret _ => true | _ => false end.

(** One step of the [i]-th goroutine, if it has one. *)
Definition turn (i : nat) (ps : list (prog unit)) (w : World) : list (prog unit) * World :=
  match ps !! i ≫= λ p, prog_step p w with
  | Some (p', w') => (<[i := p']> ps, w')
  | None => (ps, w)
  end.

Section Process.
Context `{Env} `{Bcrypt} `{Jwt} `{JsonText} `{Hmac} `{Router}.
Variable promhttp_Handler : World → Response.

(** [context.WithTimeout(context.Background(), 10*time.Second)] *)
Definition shutdown_timeout : Z := 10 * 1000000.

Definition now (s : Service) : Z := env_now (w_tick (sv_world s)).

(** [srv.Shutdown(ctx)] returns when no connection is active, or when its context is done. *)
Definition shutdown_over (s : Service) : bool :=
  match sv_deadline s with
  | Some t => forallb done (sv_requests s) || (t <=? now s)
  | None => false
  end.

(** A process that has exited does nothing more.  A turn is a whole call, with the
    connection it holds: between two turns no connection is held, and [db.Close], which waits
    for those in use, returns. *)
Definition handle (p : Process) (s : Service) (e : event) : Service :=
  let secret := JWTSecret (process_config p) in
  let '(mkService w reqs wrks listening notified deadline connections exit) := s in
  match exit with
  | Some _ => s
  | None =>
    match e with
    | Connect rt r =>
      if listening then
        mkService w (reqs ++ [goroutine promhttp_Handler true secret (Serve rt r)]) wrks listening
          notified deadline connections exit
      else s
    | RequestTurn i =>
      let '(reqs', w') := turn i reqs w in
      mkService w' reqs' wrks listening notified deadline connections exit
    | WorkerTurn i =>
      let '(wrks', w') := turn i wrks w in
      mkService w' reqs wrks' listening notified deadline connections exit
    | Wait => mkService (bump w) reqs wrks listening notified deadline connections exit
    (* os.Exit(1) runs no deferred call; after Shutdown the error is http.ErrServerClosed *)
    | ListenerFails =>
      if listening
      then mkService w reqs wrks listening notified deadline connections (Some 1) else s
    | Notify => mkService w reqs wrks listening true deadline connections exit
    (* before signal.Notify the signal kills the process; after it, <-quit, then srv.Shutdown
       closes the listener; a second signal stays in the channel *)
    | Interrupt =>
      if negb notified
      then mkService w reqs wrks listening notified deadline connections (Some (-1))
      else if listening then
        mkService w reqs wrks false notified (Some (env_now (w_tick w) + shutdown_timeout))
          connections exit
      else s
    (* main returns: rdb.Close() and db.Close() *)
    | ShutdownReturns =>
      if shutdown_over s
      then mkService w reqs wrks listening notified deadline false (Some 0) else s
    end
  end.

(** The process as [NewServer] and [Start] set it going. *)
Definition serving (p : Process) (batches runs : nat) (w : World) : Service :=
  mkService w []
    (goroutine promhttp_Handler true (JWTSecret (process_config p)) <$>
       process_tasks p [] batches runs)
    true false None true None.

Definition live (p : Process) (s : Service) (es : list event) : Service := foldl (handle p) s es.
End Process.

#[local] Arguments goroutine : simpl never.

(** ** What every event keeps *)

Section Kept.
Context `{UuidLaws} `{Bcrypt} `{Jwt} `{JsonText} `{Hmac} `{Router}.
Variable promhttp_Handler : World → Response.
Variable p : Process.

Notation live := (live promhttp_Handler p).
Notation handle := (handle promhttp_Handler p).

Lemma live_app s es es' : live s (es ++ es') = live (live s es) es'.
Proof. apply foldl_app. Qed.

Lemma live_snoc s es e : live s (es ++ [e]) = handle (live s es) e.
Proof. apply live_app. Qed.

Lemma turn_length i ps w : length (turn i ps w).1 = length ps.
Proof.
  unfold turn. destruct (ps !! i ≫= _) as [[q' w']|]; [|done].
  simpl. by rewrite length_insert.
Qed.

(** ** Shutting down *)

(** The process stops listening exactly when it is told to stop, and it closes its
    connections only when [Shutdown] has returned. *)
Record orderly (s : Service) : Prop := {
  orderly_listening : sv_listening s = bool_decide (sv_deadline s = None);
  orderly_connections : sv_connections s = bool_decide (sv_exit s ≠ Some 0);
  orderly_exit : sv_exit s = Some 0 → shutdown_over s = true;
}.

Lemma handle_orderly s e : orderly s → orderly (handle s e).
Proof.
  destruct s as [w reqs wrks listening notified deadline connections [c|]]; [done|].
  intros [Hl Hc Hx]; simpl in Hl, Hc, Hx.
  destruct e as [rt r|i|i| | | | |]; simpl.
  - by destruct listening.
  - by destruct (turn i reqs w).
  - by destruct (turn i wrks w).
  - done.
  - by destruct listening.
  - done.
  - destruct notified; [|by split]. destruct listening; [|done]. split; done.
  - destruct (shutdown_over _) eqn:Ho; [|done]. by split.
Qed.

Lemma live_orderly s es : orderly s → orderly (live s es).
Proof.
  revert s. induction es as [|e es IH]; intros s Hs; [done|]. apply IH. by apply handle_orderly.
Qed.

(** What an event may do to the deadline and to the number of requests. *)
Lemma handle_deadline s e :
  orderly s →
  (sv_deadline (handle s e) = sv_deadline s ∧
   (sv_deadline s ≠ None → length (sv_requests (handle s e)) = length (sv_requests s))) ∨
  (e = Interrupt ∧ sv_notified s = true ∧ sv_deadline s = None ∧ sv_deadline (handle s e) = Some (now s + shutdown_timeout) ∧
   length (sv_requests (handle s e)) = length (sv_requests s)).
Proof.
  destruct s as [w reqs wrks listening notified deadline connections [c|]]; [by left|].
  intros [Hl _ _]; simpl in Hl.
  destruct e as [rt r|i|i| | | | |]; simpl.
  - left. destruct listening; [|done]. split; [done|]. symmetry in Hl.
    by apply bool_decide_eq_true in Hl.
  - left. pose proof (turn_length i reqs w). by destruct (turn i reqs w).
  - left. by destruct (turn i wrks w).
  - by left.
  - left. by destruct listening.
  - by left.
  - destruct notified; [|by left]. destruct listening; [right|by left]. symmetry in Hl.
    by apply bool_decide_eq_true in Hl.
  - left. by destruct (shutdown_over _).
Qed.

(** A deadline is that of the first signal, and no request was accepted since. *)
Lemma deadline_set s es t :
  orderly s → sv_deadline s = None → sv_deadline (live s es) = Some t →
  ∃ es1 es2, es = es1 ++ Interrupt :: es2 ∧ sv_notified (live s es1) = true ∧
    t = now (live s es1) + shutdown_timeout ∧
    length (sv_requests (live s es)) = length (sv_requests (live s es1)).
Proof.
  intros Ho Hs. revert t. induction es as [|e es IH] using rev_ind; intros t; [unfold Lifecycle.live; simpl; by rewrite Hs|].
  rewrite live_snoc.
  destruct (handle_deadline (live s es) e (live_orderly _ _ Ho)) as [[-> Hlen]|(-> & Hn & Hd & -> & Hlen)].
  - intros Ht. destruct (IH _ Ht) as (es1 & es2 & -> & Hn & -> & Hl). exists es1, (es2 ++ [e]).
    split; [by rewrite <- app_assoc|]. split; [done|]. split; [done|]. rewrite Hlen, Hl; [done|]. by rewrite Ht.
  - intros [= <-]. exists es, []. done.
Qed.

(** ** Turns *)

Definition turns (i : nat) (es : list event) : nat :=
  length (List.filter (λ e, match e with RequestTurn j => Nat.eqb j i | _ => false end) es).

Lemma exited s es c : sv_exit s = Some c → live s es = s.
Proof.
  intros Hc. induction es as [|e es IH] using rev_ind; [done|]. rewrite live_snoc, IH.
  destruct s as [w reqs wrks listening notified deadline connections exit]. simpl in Hc. by subst exit.
Qed.

Lemma turn_other i j ps w : i ≠ j → (turn i ps w).1 !! j = ps !! j.
Proof.
  intros Hne. unfold turn. destruct (ps !! i ≫= _) as [[q' w']|]; [|done].
  simpl. by rewrite list_lookup_insert_ne.
Qed.

Lemma turn_within i n q ps w :
  ps !! i = Some q → within (S n) q → ∃ q', (turn i ps w).1 !! i = Some q' ∧ within n q'.
Proof.
  intros Hi Hq. unfold turn. rewrite Hi. simpl. destruct q as [a|X m k]; simpl.
  { exists (Ret a). by split. }
  destruct (m w) as [r w']. exists (k r). split; [|apply Hq].
  simpl. apply list_lookup_insert_eq. by eapply lookup_lt_Some.
Qed.

(** Only its own turn changes a request. *)
Lemma handle_other i q s e :
  e ≠ RequestTurn i → sv_requests s !! i = Some q → sv_requests (handle s e) !! i = Some q.
Proof.
  destruct s as [w reqs wrks listening notified deadline connections [c|]]; [done|]. simpl. intros He Hi.
  destruct e as [rt r|j|j| | | | |]; simpl.
  - destruct listening; [|done]. simpl. by apply lookup_app_l_Some.
  - pose proof (turn_other j i reqs w ltac:(congruence)) as Ht.
    destruct (turn j reqs w). simpl in *. congruence.
  - by destruct (turn j wrks w).
  - done.
  - by destruct listening.
  - done.
  - by destruct notified, listening.
  - by destruct (shutdown_over _).
Qed.

Lemma handle_turn i s :
  sv_exit s = None →
  sv_requests (handle s (RequestTurn i)) = (turn i (sv_requests s) (sv_world s)).1.
Proof.
  destruct s as [w reqs wrks listening notified deadline connections exit]. simpl. intros ->.
  by destruct (turn i reqs w).
Qed.

(** A request that is given its turns while the process lives is answered. *)
Lemma request_returns i n q s es :
  sv_requests s !! i = Some q → within n q → (n ≤ turns i es)%nat →
  sv_exit (live s es) = None → ∃ a, sv_requests (live s es) !! i = Some (Ret a).
Proof.
  revert s n q. induction es as [|e es IH]; intros s n q Hi Hq Hn Hx.
  { destruct q as [a|X m k]; [by exists a|]. unfold turns in Hn. simpl in *.
    destruct n; [done|lia]. }
  destruct (sv_exit s) as [c|] eqn:Hs; [by rewrite (exited s _ _ Hs), Hs in Hx|].
  change (live s (e :: es)) with (live (handle s e) es) in *.
  assert (Hcase : e = RequestTurn i ∨ (e ≠ RequestTurn i ∧ turns i (e :: es) = turns i es)).
  { unfold turns. destruct e as [| j| | | | | |]; simpl; try (by right).
    destruct (Nat.eqb_spec j i) as [->|]; [by left|right; split; congruence]. }
  destruct Hcase as [->|[He Ht]].
  - destruct n as [|n].
    { destruct q as [a|X m k]; [|done].
      apply (IH _ O (Ret a)); [|done|lia|done]. rewrite (handle_turn i s Hs). unfold turn.
      by rewrite Hi. }
    destruct (turn_within i n q _ (sv_world s) Hi Hq) as (q' & Hi' & Hq').
    apply (IH _ n q'); [by rewrite (handle_turn i s Hs)|done| |done].
    unfold turns in *. simpl in Hn. rewrite Nat.eqb_refl in Hn. simpl in Hn. lia.
  - eapply IH; [by apply handle_other|exact Hq|lia|exact Hx].
Qed.

(** Every request of the process needs ten turns at most. *)
Definition brief (s : Service) : Prop := Forall (within 10) (sv_requests s).

Lemma handle_brief s e : brief s → brief (handle s e).
Proof.
  destruct s as [w reqs wrks listening notified deadline connections [c|]]; [done|].
  unfold brief. simpl. intros Hb. destruct e as [rt r|i|i| | | | |]; simpl.
  - destruct listening; [|done]. simpl. apply Forall_app. split; [done|].
    apply Forall_singleton, serve_within.
  - unfold turn. destruct (reqs !! i) as [q|] eqn:Hi; simpl; [|done].
    destruct q as [a|X m k]; simpl; [done|]. destruct (m w) as [r w']. simpl.
    apply Forall_insert; [done|]. apply (within_mono 9); [lia|].
    pose proof (Forall_lookup_1 _ _ _ _ Hb Hi) as Hq. apply Hq.
  - by destruct (turn i wrks w).
  - done.
  - by destruct listening.
  - done.
  - by destruct notified, listening.
  - by destruct (shutdown_over _).
Qed.

Lemma live_brief s es : brief s → brief (live s es).
Proof.
  revert s. induction es as [|e es IH]; intros s Hs; [done|]. apply IH. by apply handle_brief.
Qed.
End Kept.

(** ** Properties *)

(** C26. Shutting down is orderly: whatever the process went through, it has closed its
    connections only if it ended by itself, with exit code zero; it had then subscribed to
    the signals and been told to stop, accepted no request from that moment on, and either
    has answered every request it had accepted or has waited at least ten seconds (ten
    million microseconds) since. *)
Theorem shutdown_is_graceful `{UuidLaws} `{Bcrypt} `{Jwt} `{JsonText} `{Hmac} `{Router}
    promhttp_Handler p batches runs w es :
  let s0 := serving promhttp_Handler p batches runs w in
  let s := live promhttp_Handler p s0 es in
  sv_connections s = false →
  sv_exit s = Some 0 ∧
  ∃ es1 es2, es = es1 ++ Interrupt :: es2 ∧
    let s1 := live promhttp_Handler p s0 es1 in
    sv_notified s1 = true ∧ length (sv_requests s) = length (sv_requests s1) ∧
    (forallb done (sv_requests s) = true ∨ now s1 + 10 * 1000000 <= now s).
Proof.
  intros s0 s Hc.
  assert (Ho : orderly s) by (apply live_orderly; by split).
  rewrite (orderly_connections _ Ho) in Hc. apply bool_decide_eq_false in Hc.
  assert (Hx : sv_exit s = Some 0) by (destruct (decide (sv_exit s = Some 0)); tauto).
  split; [done|]. pose proof (orderly_exit _ Ho Hx) as Hover. unfold shutdown_over in Hover.
  destruct (sv_deadline s) as [t|] eqn:Hd; [|done].
  destruct (deadline_set promhttp_Handler p s0 es t ltac:(by split) eq_refl Hd)
    as (es1 & es2 & -> & Hn & -> & Hl).
  exists es1, es2. split; [done|]. split; [exact Hn|]. split; [exact Hl|].
  apply orb_true_iff in Hover as [?|Hle]; [by left|right]. by apply Z.leb_le.
Qed.

(** C27. Ten turns each are enough to drain the server: once it was told to stop and while it
    has not ended, every request it accepted is answered after ten of its turns, and
    [Shutdown] then returns, so that the process ends with exit code zero. *)
Theorem shutdown_drains `{UuidLaws} `{Bcrypt} `{Jwt} `{JsonText} `{Hmac} `{Router}
    promhttp_Handler p batches runs w es1 es2 :
  let s1 := live promhttp_Handler p (serving promhttp_Handler p batches runs w) es1 in
  let s2 := live promhttp_Handler p s1 (Interrupt :: es2) in
  sv_exit s1 = None → sv_exit s2 = None →
  (∀ i, (i < length (sv_requests s1))%nat → (10 ≤ turns i es2)%nat) →
  forallb done (sv_requests s2) = true ∧
  sv_exit (handle promhttp_Handler p s2 ShutdownReturns) = Some 0.
Proof.
  intros s1 s2 Hx1 Hx2 Hturns.
  assert (Ho1 : orderly s1) by (apply live_orderly; by split).
  assert (Ho2 : orderly s2) by by apply live_orderly.
  assert (Hb1 : brief s1) by (apply live_brief; constructor).
  set (s1' := handle promhttp_Handler p s1 Interrupt).
  assert (Hreq : sv_requests s1' = sv_requests s1 ∧ sv_deadline s1' ≠ None).
  { assert (Hx1' : sv_exit s1' = None).
    { destruct (sv_exit s1') as [c|] eqn:Hx; [|done].
      change s2 with (live promhttp_Handler p s1' es2) in Hx2.
      by rewrite (exited _ _ _ _ _ Hx), Hx in Hx2. }
    unfold s1' in *. clear -Hx1 Hx1' Ho1. destruct s1 as [v reqs wrks listening notified deadline connections exit].
    destruct Ho1 as [Hl _ _]. simpl in *. subst exit. destruct notified; [|done].
    destruct listening; simpl; [done|].
    symmetry in Hl. by apply bool_decide_eq_false in Hl. }
  destruct Hreq as [Hreq Hdl].
  assert (Ho1' : orderly s1') by by apply handle_orderly.
  assert (Hlen : length (sv_requests s2) = length (sv_requests s1) ∧ sv_deadline s2 ≠ None).
  { change s2 with (live promhttp_Handler p s1' es2). rewrite <- Hreq. clear -Hdl Ho1'.
    induction es2 as [|e es IH] using rev_ind; [done|]. rewrite live_snoc.
    destruct (handle_deadline promhttp_Handler p (live promhttp_Handler p s1' es) e
      (live_orderly _ _ _ _ Ho1')) as [[Hd Hl]|(_ & _ & Hd & _)]; [|tauto].
    rewrite Hd, Hl by tauto. tauto. }
  assert (Hdone : forallb done (sv_requests s2) = true).
  { apply forallb_forall. intros q [i Hi]%list_elem_of_In%list_elem_of_lookup.
    assert (Hlt : (i < length (sv_requests s1))%nat).
    { rewrite <- (proj1 Hlen). by eapply lookup_lt_Some. }
    destruct (lookup_lt_is_Some_2 _ _ Hlt) as [q1 Hq1].
    destruct (request_returns promhttp_Handler p i 10 q1 s1' es2) as [a Ha];
      [by rewrite Hreq|exact (Forall_lookup_1 _ _ _ _ Hb1 Hq1)|by apply Hturns|exact Hx2|].
    change (live promhttp_Handler p s1' es2) with s2 in Ha. rewrite Hi in Ha. by injection Ha as ->. }
  split; [done|]. destruct Hlen as [_ Hd2]. clearbody s2.
  destruct s2 as [v reqs wrks listening notified deadline connections exit]. simpl in *. subst exit.
  destruct deadline as [t|]; [|done]. simpl. unfold shutdown_over. simpl. by rewrite Hdone.
Qed.

(** ** Concrete inputs *)

Definition small_process : Process :=
  mkProcess (mkConfig "production" "8080" "postgres://db" "redis://r" "kafka:9092" "secret")
    (NewLogger "production") (with_limits (mkPoolConfig "postgres://db" 4 0 0 0)) true.

#[local] Notation small_start := (serving (H2 := server_text) (H3 := sample_hmac)
  (λ _, mkResponse StatusOK NoBody) small_process 2 1 (sample_world young_bank)).

#[local] Notation small_life := (live (H2 := server_text) (H3 := sample_hmac)
  (λ _, mkResponse StatusOK NoBody) small_process small_start).

(** The provider reports success and the owner asks for a transfer; the signal comes when
    both have begun, and a third request comes too late. *)
Definition before_signal : list event :=
  [Notify; Connect POST_payment_provider (webhook_request "e1");
   Connect POST_transfers (bearer "secretUb1" "k2");
   RequestTurn 0; RequestTurn 1; WorkerTurn 0; RequestTurn 0].

Definition after_signal : list event :=
  Connect GET_health post :: concat (repeat [RequestTurn 0; WorkerTurn 1; RequestTurn 1] 10).

Definition small_events : list event :=
  before_signal ++ Interrupt :: after_signal ++ [ShutdownReturns].

Lemma small_events_end : sv_connections (small_life small_events) = false.
Proof. vm_compute. reflexivity. Qed.

Lemma shutdown_is_graceful_witness :
  sv_exit (small_life small_events) = Some 0 ∧
  ∃ es1 es2, small_events = es1 ++ Interrupt :: es2.
Proof.
  pose proof small_events_end as Hc.
  pose proof (shutdown_is_graceful (H3 := server_text) (H4 := sample_hmac)
    (λ _, mkResponse StatusOK NoBody) small_process 2 1 (sample_world young_bank) small_events)
    as Hg. cbv zeta in Hg. specialize (Hg Hc). destruct Hg as [Hx (es1 & es2 & He & _)].
  split; [exact Hx|]. exists es1, es2. exact He.
Defined.

Lemma small_drain :
  sv_exit (small_life before_signal) = None ∧
  sv_exit (small_life (before_signal ++ Interrupt :: after_signal)) = None ∧
  length (sv_requests (small_life before_signal)) = 2%nat.
Proof. vm_compute. done. Qed.

Lemma shutdown_drains_witness :
  forallb done (sv_requests (small_life (before_signal ++ Interrupt :: after_signal))) = true.
Proof.
  destruct small_drain as (Hx1 & Hx2 & Hlen). rewrite live_app in Hx2 |- *.
  pose proof (shutdown_drains (H3 := server_text) (H4 := sample_hmac)
    (λ _, mkResponse StatusOK NoBody) small_process 2 1 (sample_world young_bank) before_signal
    after_signal) as Hg. cbv zeta in Hg. rewrite Hlen in Hg. refine (proj1 (Hg Hx1 Hx2 _)).
  clear. intros i Hi. destruct i as [|[|i]]; [vm_compute; lia|vm_compute; lia|lia].
Defined.
