(* ===== verification/Transactions.v ===== *)
(** * The transactions of the service, statement by statement

    The three transactions the service runs (a transfer, a webhook, the opening of a wallet)
    as sequences of statements in the sense of [Isolation]: the same statements in the same
    order, with the rows each of them locks and writes.  They are shown to be what the
    packages call, and steady; so that whatever is interleaved with their statements, each of
    them does at its commit what the theorems about it as one step say. *)

From S2P Require Import Prelude Go Models Postgres Runtime Isolation Sample.
From S2P Require Import Ledger Outbox Idempotency Wallets Transfers Payments.
From S2P Require Import Steps Books.
Import transfers payments.
#[local] Open Scope go_scope.
#[local] Open Scope Z_scope.

(** ** Tables and rows *)

Lemma row_at_users d id : row_at d ("users", id) = UserRow <$> users d !! id.
Proof. done. Qed.
Lemma row_at_accounts d id : row_at d ("accounts", id) = AccountRow <$> accounts d !! id.
Proof. done. Qed.
Lemma row_at_wallets d id : row_at d ("wallets", id) = WalletRow <$> wallets_t d !! id.
Proof. done. Qed.
Lemma row_at_ledger_transactions d id :
  row_at d ("ledger_transactions", id) = LedgerTransactionRow <$> ledger_transactions d !! id.
Proof. done. Qed.
Lemma row_at_ledger_entries d id :
  row_at d ("ledger_entries", id) = LedgerEntryRow <$> ledger_entries d !! id.
Proof. done. Qed.
Lemma row_at_idempotency_keys d id :
  row_at d ("idempotency_keys", id) = IdempotencyKeyRow <$> idempotency_keys d !! id.
Proof. done. Qed.
Lemma row_at_transfers d id : row_at d ("transfers", id) = TransferRow <$> transfers_t d !! id.
Proof. done. Qed.
Lemma row_at_payments d id : row_at d ("payments", id) = PaymentRow <$> payments_t d !! id.
Proof. done. Qed.
Lemma row_at_webhook_events d id :
  row_at d ("webhook_events", id) = WebhookEventRow <$> webhook_events d !! id.
Proof. done. Qed.
Lemma row_at_outbox_events d id :
  row_at d ("outbox_events", id) = OutboxEventRow <$> outbox_events d !! id.
Proof. done. Qed.

Create HintDb rows.
#[export] Hint Rewrite row_at_users row_at_accounts row_at_wallets row_at_ledger_transactions
  row_at_ledger_entries row_at_idempotency_keys row_at_transfers row_at_payments
  row_at_webhook_events row_at_outbox_events @fmap_None @fmap_is_Some : rows.

(** The schema, table by table. *)
Lemma schema_tables `{Env} d :
  (∀ i j u v, users d !! i = Some u → users d !! j = Some v →
     auth.User_Email u = auth.User_Email v → i = j) →
  (∀ i j p q, payments_t d !! i = Some p → payments_t d !! j = Some q →
     Payment_ProviderReference p = Payment_ProviderReference q → i = j) →
  (∀ i j e f, webhook_events d !! i = Some e → webhook_events d !! j = Some f →
     WebhookEvent_Provider e = WebhookEvent_Provider f →
     WebhookEvent_EventID e = WebhookEvent_EventID f → i = j) →
  (∀ i p, payments_t d !! i = Some p → canonical i ∧ canonical (Payment_WalletID p)) →
  schema d.
Proof.
  intros Hu Hp Hw Hc. split.
  - intros [t1 i] [t2 j] r1 r2 c H1 H2 E1 E2.
    pose proof (row_at_table _ _ _ H1) as Ht1. pose proof (row_at_table _ _ _ H2) as Ht2.
    simpl in Ht1, Ht2. subst t1 t2.
    destruct r1; [..|done]; try done; destruct r2; try done; simplify_eq/=;
      autorewrite with rows in H1, H2;
      apply fmap_Some in H1 as (? & H1 & [= <-]); apply fmap_Some in H2 as (? & H2 & [= <-]);
      f_equal; eauto.
  - intros [t i] r Hr. pose proof (row_at_table _ _ _ Hr) as Ht. simpl in Ht. subst t.
    destruct r; try done. autorewrite with rows in Hr.
    apply fmap_Some in Hr as (? & Hr & [= <-]). by apply Hc.
Qed.

(** The rows of one database are in the other. *)
Definition kept (v v' : DB) : Prop := ∀ k, is_Some (row_at v k) → is_Some (row_at v' k).

Lemma kept_users v v' id : kept v v' → is_Some (users v !! id) → is_Some (users v' !! id).
Proof. intros Hk. specialize (Hk ("users", id)). by autorewrite with rows in Hk. Qed.
Lemma kept_accounts v v' id : kept v v' → is_Some (accounts v !! id) → is_Some (accounts v' !! id).
Proof. intros Hk. specialize (Hk ("accounts", id)). by autorewrite with rows in Hk. Qed.
Lemma kept_wallets v v' id : kept v v' → is_Some (wallets_t v !! id) → is_Some (wallets_t v' !! id).
Proof. intros Hk. specialize (Hk ("wallets", id)). by autorewrite with rows in Hk. Qed.
Lemma kept_keys v v' id :
  kept v v' → is_Some (idempotency_keys v !! id) → is_Some (idempotency_keys v' !! id).
Proof. intros Hk. specialize (Hk ("idempotency_keys", id)). by autorewrite with rows in Hk. Qed.
Lemma kept_ledger_transactions v v' id :
  kept v v' → is_Some (ledger_transactions v !! id) → is_Some (ledger_transactions v' !! id).
Proof. intros Hk. specialize (Hk ("ledger_transactions", id)). by autorewrite with rows in Hk. Qed.

#[export] Hint Resolve kept_users kept_accounts kept_wallets kept_keys kept_ledger_transactions
  : rows.

(** Reads a successful statement, keeping the equations of its checks. *)
Ltac read_statement :=
  repeat (match goal with
    | H : res_bind ?r _ = Ok _ |- _ =>
      let E := fresh "E" in destruct r eqn:E; cbn [res_bind] in H; [|discriminate H]
    end);
  repeat match goal with
    | H : insert_pk _ _ _ _ = Ok _ |- _ => apply insert_pk_ok in H as [? ->]
    | H : references _ _ _ = Ok _ |- _ => apply references_ok in H
    end.

(** Runs the statement again on another database, where the checks still pass. *)
Ltac run_statement :=
  cbn [res_bind];
  repeat (match goal with
    | E : ?r = Ok _ |- context [?r] => rewrite E; cbn [res_bind]
    | |- context [insert_pk _ _ _ _] =>
      rewrite insert_pk_fresh by assumption; cbn [res_bind]
    | |- context [references _ _ _] =>
      rewrite references_some by eauto with rows; cbn [res_bind]
    end).

Section Shapes.
Context `{UuidLaws}.

(** ** Insertions *)

(** A new row under the statement's fresh id. *)
Definition insertion (t : string) (claims : list (string * list string)) : footprint :=
  mkFootprint (λ c, Some (t, c_uuid c)) (λ _ _, []) claims.

Lemma written_put fp c v id r :
  fp_write fp c = Some (table_of r, id) → written fp c (put_row v (id, r)) = [(id, r)].
Proof.
  intros Hw. unfold written. pose proof (row_at_put_eq v (id, r)) as Hp. unfold key_of in Hp.
  cbn [fst snd] in Hp. by rewrite Hw, Hp.
Qed.

Lemma steady_insert pr {X} t claims (sql : Z → Ctx → DB → Res (X * DB)) :
  (∀ clk c v x d1, sql clk c v = Ok (x, d1) →
     ∃ r, table_of r = t ∧ row_at v (t, c_uuid c) = None ∧ d1 = put_row v (c_uuid c, r) ∧
       uuid_columns (c_uuid c) r ∧
       (∀ e, index_entry r = Some e →
          e ∈ claims ∧ ∀ k r', row_at v k = Some r' → index_entry r' ≠ Some e) ∧
       ∀ v', row_at v' (t, c_uuid c) = None →
         kept v v' →
         (∀ k r' e, e ∈ claims → row_at v' k = Some r' → index_entry r' = Some e →
            ∃ r0, row_at v k = Some r0 ∧ index_entry r0 = Some e) →
         sql clk c v' = Ok (x, put_row v' (c_uuid c, r))) →
  steady pr sql (insertion t claims).
Proof.
  intros Hsql. split.
  - intros. constructor.
  - intros clk c v x d1 Hq _ _. destruct (Hsql _ _ _ _ _ Hq) as (r & Ht & Hn & -> & Hc & Hi & _).
    rewrite written_put by (simpl; congruence). split; [done|]. apply Forall_singleton.
    split; unfold key_of; simpl; rewrite ?Ht; [by right|intros ?; congruence| |done].
    intros e He. right. by apply Hi.
  - intros clk c v v' x d1 Hq _ _ _ Hr.
    destruct (Hsql _ _ _ _ _ Hq) as (r & Ht & Hn & -> & _ & _ & Hv').
    exists (put_row v' (c_uuid c, r)). rewrite !written_put by (simpl; congruence). split; [|done].
    apply Hv'.
    + eapply respects_fresh; [exact Hr|set_solver|done].
    + intros k [r0 Hk]. destruct (respects_fixed _ _ _ _ _ Hr _ _ Hk) as (r' & ? & _). eauto.
    + intros k r' e. apply (respects_claims _ _ _ _ _ Hr).
Qed.

(** A statement that inserts a row of the kind [row], with no other index than its key. *)
Ltac solve_insert f row :=
  apply steady_insert; intros ? c v x d1 Hq; unfold f in *; read_statement; simplify_eq;
  eexists (row _); split; [done|]; split; [by autorewrite with rows|]; split; [done|];
  split; [done|]; split; [done|]; intros v' Hn Hp _; autorewrite with rows in Hn;
  run_statement; done.

Lemma steady_insert_transfer pr t :
  steady pr (λ _, sql_insert_transfer t) (insertion "transfers" []).
Proof. solve_insert @sql_insert_transfer TransferRow. Qed.

Lemma steady_insert_transaction pr txn :
  steady pr (λ _, sql_insert_transaction txn) (insertion "ledger_transactions" []).
Proof. solve_insert @sql_insert_transaction LedgerTransactionRow. Qed.

Lemma steady_insert_entry pr e :
  steady pr (λ _, sql_insert_entry e) (insertion "ledger_entries" []).
Proof. solve_insert @sql_insert_entry LedgerEntryRow. Qed.

Lemma steady_event pr topic (payload : Z → json) :
  steady pr (λ now, sql_insert_event topic (payload now)) (insertion "outbox_events" []).
Proof. solve_insert @sql_insert_event OutboxEventRow. Qed.

Lemma steady_insert_account pr ty currency :
  steady pr (λ _, sql_insert_account ty currency) (insertion "accounts" []).
Proof. solve_insert @sql_insert_account AccountRow. Qed.

Lemma steady_insert_wallet pr owner account currency :
  steady pr (λ _, sql_insert_wallet owner account currency) (insertion "wallets" []).
Proof. solve_insert @sql_insert_wallet WalletRow. Qed.

(** The event of a webhook also enters the index on provider and event id. *)
Definition webhook_claims (provider : string) (event : WebhookPayload)
  : list (string * list string) :=
  match varchar 50 provider, varchar 255 (Webhook_EventID event) with
  | Ok p, Ok e => [("webhook_events_provider_event_id_key", [p; e])]
  | _, _ => []
  end.

Lemma event_index_free v p e c :
  ¬ map_Exists (λ _ r, WebhookEvent_Provider r = p ∧ WebhookEvent_EventID r = e)
      (webhook_events v) →
  c = ("webhook_events_provider_event_id_key", [p; e]) →
  ∀ k r, row_at v k = Some r → index_entry r ≠ Some c.
Proof.
  intros Hno -> [t id] r Hr He. destruct r; simplify_eq/=.
  pose proof (row_at_table _ _ _ Hr) as Ht. simpl in Ht. subst t. autorewrite with rows in Hr.
  apply fmap_Some in Hr as (r' & Hr & [= <-]). apply Hno. eexists id, _. split; [exact Hr|]. by split.
Qed.

Lemma steady_insert_webhook pr provider event payload :
  steady pr (λ _, sql_insert_webhook provider event payload)
    (insertion "webhook_events" (webhook_claims provider event)).
Proof.
  apply steady_insert. intros _ c v x d1 Hq. unfold sql_insert_webhook, webhook_claims in *.
  read_statement. simplify_eq. eexists (WebhookEventRow _). split; [done|].
  split; [by autorewrite with rows|]. split; [done|]. split; [done|].
  match goal with E : guard_res _ _ = Ok _ |- _ =>
    apply guard_res_ok, bool_decide_eq_true in E; rename E into Hno end.
  split.
  { intros e [= <-]. split; [by left|]. by eapply event_index_free. }
  intros v' Hn _ Hcl. autorewrite with rows in Hn. run_statement.
  rewrite bool_decide_eq_true_2; [done|]. intros (id & r & Hr & Hp & He).
  destruct (Hcl ("webhook_events", id) (WebhookEventRow r)
    ("webhook_events_provider_event_id_key", [a; a0])) as (r0 & Hr0 & He0);
    [by left|by autorewrite with rows; rewrite Hr|simpl; by rewrite Hp, He|].
  by eapply event_index_free.
Qed.

(** ** Updates *)

(** A new version of a row, which is locked first. *)
Definition modification (t id : string) : footprint :=
  mkFootprint (λ _, Some (t, id)) (λ _ _, [(t, id)]) [].

Lemma steady_update pr {X} t id (sql : Z → Ctx → DB → Res (X * DB)) :
  (t, id) ∈ pr →
  (∀ clk c v x d1 row, row_at v (t, id) = Some row → sql clk c v = Ok (x, d1) → schema v →
     ∃ r, table_of r = t ∧ d1 = put_row v (id, r) ∧ fixed row r ∧ uuid_columns id r ∧
       ∀ v', row_at v' (t, id) = Some row → sql clk c v' = Ok (x, put_row v' (id, r))) →
  steady pr sql (modification t id).
Proof.
  intros Hpr Hsql.
  assert (Hrow : ∀ v, all_there pr v → ∃ row, row_at v (t, id) = Some row).
  { intros v Hp. exact (proj1 (Forall_forall _ _) Hp _ Hpr). }
  split.
  - intros clk c v x d1 _ Hp _. apply Forall_singleton, Hrow, Hp.
  - intros clk c v x d1 Hq Hp Hs. destruct (Hrow v Hp) as [row Hv].
    destruct (Hsql _ _ _ _ _ _ Hv Hq Hs) as (r & Ht & -> & Hf & Hc & _).
    rewrite written_put by (simpl; congruence). split; [done|]. apply Forall_singleton.
    split; unfold key_of; simpl; rewrite ?Ht; [left; rewrite Hv; split; [by left|eauto]| | |done].
    + intros r0 Hr0. congruence.
    + intros e _. left. rewrite Hv. eauto.
  - intros clk c v v' x d1 Hq Hp Hs _ Hr. destruct (Hrow v Hp) as [row Hv].
    destruct (Hsql _ _ _ _ _ _ Hv Hq Hs) as (r & Ht & -> & _ & _ & Hv').
    exists (put_row v' (id, r)). rewrite !written_put by (simpl; congruence).
    split; [|done]. apply Hv'. eapply respects_locked; [exact Hr|by left|done].
Qed.

Lemma steady_balance pr op amount id :
  canonical id → ("wallets", id) ∈ pr →
  steady pr (λ _, sql_update_balance op amount id) (modification "wallets" id).
Proof.
  intros Hid Hpr. apply steady_update; [done|]. intros _ c v x d1 row Hv Hq _.
  autorewrite with rows in Hv. apply fmap_Some in Hv as (wlt & Hv & ->).
  unfold sql_update_balance, uuid_param in *. unfold canonical in Hid. rewrite Hid in Hq |- *.
  destruct (bigint amount) as [n|]; [|done]. simpl in Hq |- *. rewrite Hv in Hq.
  destruct (bigint _) as [b|] eqn:Hb; [|done]. simpl in Hq.
  destruct (check_constraint _ _) as [u|] eqn:Hcheck; [|done]. simpl in Hq. simplify_eq.
  exists (WalletRow (wallets.set_available b wlt)). split; [done|]. split; [done|].
  split; [done|]. split; [done|]. intros v' Hv'. autorewrite with rows in Hv'.
  apply fmap_Some in Hv' as (wlt' & -> & [= <-]). rewrite Hb. simpl. by rewrite Hcheck.
Qed.

Lemma steady_update_payment pr status id :
  ("payments", id) ∈ pr →
  steady pr (λ _, sql_update_payment status id) (modification "payments" id).
Proof.
  intros Hpr. apply steady_update; [done|]. intros _ c v x d1 row Hv Hq Hs.
  pose proof (schema_uuid _ Hs _ _ Hv) as Hc. autorewrite with rows in Hv.
  apply fmap_Some in Hv as (p & Hv & ->). destruct Hc as [Hid Hwid]. simpl in Hid.
  unfold sql_update_payment, uuid_param in *. unfold canonical in Hid. rewrite Hid in Hq |- *.
  simpl in Hq |- *. rewrite Hv in Hq.
  destruct (varchar 50 status) as [st|]; [|done]. simpl in Hq |- *. simplify_eq.
  exists (PaymentRow (set_payment_status st (c_now c) p)). split; [done|]. split; [done|].
  split; [done|]. split; [by split|]. intros v' Hv'. autorewrite with rows in Hv'.
  by apply fmap_Some in Hv' as (p' & -> & [= <-]).
Qed.

(** ** [SELECT ... FOR UPDATE] *)

Definition for_update {X} (t : string) (id : X → string) (sql : Ctx → DB → Res (X * DB))
  : footprint :=
  mkFootprint (λ _, None)
    (λ c v, match sql c v with Ok (x, _) => [(t, id x)] | Err _ => [] end) [].

Lemma steady_for_update pr {X} t id (sql : Ctx → DB → Res (X * DB)) :
  (∀ c v x d1, sql c v = Ok (x, d1) → schema v →
     d1 = v ∧ ∃ r, row_at v (t, id x) = Some r ∧
       ∀ v', row_at v' (t, id x) = Some r → schema v' →
         (∀ k r0, row_at v k = Some r0 → ∃ r', row_at v' k = Some r' ∧ fixed r0 r') →
         sql c v' = Ok (x, v')) →
  steady pr (λ _, sql) (for_update t id sql).
Proof.
  intros Hsql. split.
  - intros _ c v x d1 Hq _ Hs. simpl. rewrite Hq. apply Forall_singleton.
    destruct (Hsql _ _ _ _ Hq Hs) as (_ & r & Hr & _). eauto.
  - intros _ c v x d1 Hq _ Hs. destruct (Hsql _ _ _ _ Hq Hs) as [-> _]. split; [done|constructor].
  - intros _ c v v' x d1 Hq _ Hs Hs' Hr. destruct (Hsql _ _ _ _ Hq Hs) as (_ & r & Hv & Hv').
    simpl in Hr. rewrite Hq in Hr.
    assert (Hq' : sql c v' = Ok (x, v')).
    { apply Hv'; [|done|apply (respects_fixed _ _ _ _ _ Hr)].
      eapply respects_locked; [exact Hr|by left|done]. }
    exists v'. simpl. by rewrite Hq, Hq'.
Qed.

Lemma steady_lock_wallet pr id :
  steady pr (λ _, sql_lock_wallet id) (for_update "wallets" wallets.Wallet_ID (sql_lock_wallet id)).
Proof.
  apply steady_for_update. intros c v x d1 Hq _. unfold sql_lock_wallet in *.
  destruct (uuid_param id) as [u|]; [|done]. simpl in *.
  destruct (wallets_t v !! u) as [row|] eqn:Hrow; [|done]. simplify_eq. split; [done|].
  exists (WalletRow row). simpl. autorewrite with rows. rewrite Hrow. split; [done|].
  intros v' Hv' _ _. autorewrite with rows in Hv'. by apply fmap_Some in Hv' as (row' & -> & [= ->]).
Qed.

Lemma steady_lock_payment pr ref :
  steady pr (λ _, sql_lock_payment ref)
    (for_update "payments" (λ row, Payment_ID row.1) (sql_lock_payment ref)).
Proof.
  apply steady_for_update. intros c v [p account] d1 Hq _.
  apply sql_lock_payment_ok in Hq as (-> & row & wlt & Hrow & Hp & Href & Hw & ->).
  split; [done|]. exists (PaymentRow row). simpl. autorewrite with rows. rewrite Hrow.
  split; [done|]. intros v' Hv' Hs' Hf. autorewrite with rows in Hv'.
  apply fmap_Some in Hv' as (row' & Hv' & [= <-]).
  destruct (Hf ("wallets", Payment_WalletID row) (WalletRow wlt)) as (r' & Hw' & Hfx).
  { autorewrite with rows. by rewrite Hw. }
  autorewrite with rows in Hw'. apply fmap_Some in Hw' as (wlt' & Hw' & ->).
  destruct (sql_lock_payment ref c v') as [[[p' account'] d']|e] eqn:Hq'.
  - apply sql_lock_payment_ok in Hq' as (-> & row' & wlt2 & Hrow' & Hp' & Href' & Hw2 & ->).
    assert (Hid : ("payments", Payment_ID p') = ("payments", Payment_ID p)).
    { eapply (schema_unique _ Hs' _ _ (PaymentRow row') (PaymentRow row)).
      - autorewrite with rows. by rewrite Hrow'.
      - autorewrite with rows. by rewrite Hv'.
      - simpl. rewrite Href'. reflexivity.
      - simpl. by rewrite Href. }
    injection Hid as Hid. rewrite Hid in Hrow', Hp'. rewrite Hv' in Hrow'. injection Hrow' as <-.
    rewrite Hw' in Hw2. injection Hw2 as <-. destruct Hfx as [_ [= ->]]. congruence.
  - exfalso. unfold sql_lock_payment in Hq'. destruct (omap _ _) as [|y ys] eqn:Hys; [|done].
    eapply (not_elem_of_nil (scan_payment (Payment_ID p) row, wallets.Wallet_AccountID wlt')).
    rewrite <- Hys. apply list_elem_of_omap. exists (Payment_ID p, row).
    split; [by apply elem_of_map_to_list|]. simpl. rewrite decide_True by done. by rewrite Hw'.
Qed.
End Shapes.

(** ** The code *)

Section Code.
Context `{Env}.
#[local] Open Scope tx_scope.

Definition tx_lock_wallet (id : string) : tx wallets.Wallet :=
  stmt (for_update "wallets" wallets.Wallet_ID (sql_lock_wallet id)) (sql_lock_wallet id).

Definition tx_update_balance (op : Z → Z → Z) (amount : Z) (id : string) : tx unit :=
  stmt (modification "wallets" id) (sql_update_balance op amount id).

Definition tx_lock_payment (ref : string) : tx (Payment * string) :=
  stmt (for_update "payments" (λ row, Payment_ID row.1) (sql_lock_payment ref))
    (sql_lock_payment ref).

(** An event whose payload has the time at which it is sent. *)
Definition tx_insert_event (topic : string) (payload : Z → json) : tx unit :=
  Statement id (λ now, sql_insert_event topic (payload now)) (insertion "outbox_events" [])
    (λ x, Done (Ok x)).

Fixpoint tx_insert_entries (es : list ledger.Entry) : tx (list ledger.Entry) :=
  match es with
  | [] => Done (Ok [])
  | e :: rest =>
    r <- stmt (insertion "ledger_entries" []) (sql_insert_entry e) ;;
    rest' <- tx_insert_entries rest ;;
    Done (Ok (with_id_time r.1 r.2 e :: rest'))
  end.

(** [ledger.Repository.CreateTransaction] *)
Definition tx_create_transaction (txn : ledger.Transaction) : tx ledger.Transaction :=
  _ <- Done (check_balanced (ledger.Transaction_Entries txn)) ;;
  r <- stmt (insertion "ledger_transactions" []) (sql_insert_transaction txn) ;;
  es <- tx_insert_entries (with_transaction_id r.1 <$> ledger.Transaction_Entries txn) ;;
  Done (Ok (ledger.mkTransaction r.1 (ledger.Transaction_ReferenceID txn)
              (ledger.Transaction_ReferenceType txn) (ledger.Transaction_Status txn) r.2 es)).

(** transfers/service.go, between [BeginTx] and [Commit] *)
Definition tx_record_transfer (req : CreateTransferRequest) (idempotencyKey : string)
    (sourceWallet destWallet : wallets.Wallet) : tx Transfer :=
  let transfer := mkTransfer "" (Req_SourceWalletID req) (Req_DestinationWalletID req)
                    (Req_Amount req) (Req_Currency req) StatusCompleted idempotencyKey 0 in
  r <- stmt (insertion "transfers" []) (sql_insert_transfer transfer) ;;
  let transfer := mkTransfer r.1 (Req_SourceWalletID req) (Req_DestinationWalletID req)
                    (Req_Amount req) (Req_Currency req) StatusCompleted idempotencyKey r.2 in
  tx_wrap "failed to create ledger transaction: "
    (tx_create_transaction (ledger_txn transfer sourceWallet destWallet req)) ;;
  tx_wrap "failed to insert outbox event: "
    (tx_insert_event "transfer.events" (event_payload transfer)) ;;
  Done (Ok transfer).

Definition tx_validate_and_move (req : CreateTransferRequest) (idempotencyKey : string)
    (sourceWallet destWallet : wallets.Wallet) : tx Transfer :=
  tx_guard (bool_decide (wallets.Wallet_Status sourceWallet = wallets.StatusActive) &&
            bool_decide (wallets.Wallet_Status destWallet = wallets.StatusActive)) err_not_active ;;
  tx_guard (bool_decide (wallets.Wallet_Currency sourceWallet = Req_Currency req) &&
            bool_decide (wallets.Wallet_Currency destWallet = Req_Currency req))
    ErrCurrencyMismatch ;;
  tx_guard (negb (wallets.Wallet_AvailableBalance sourceWallet <? Req_Amount req))
    ErrInsufficientFunds ;;
  tx_update_balance Z.sub (Req_Amount req) (wallets.Wallet_ID sourceWallet) ;;
  tx_update_balance Z.add (Req_Amount req) (wallets.Wallet_ID destWallet) ;;
  tx_record_transfer req idempotencyKey sourceWallet destWallet.

Definition tx_transfer (req : CreateTransferRequest) (idempotencyKey : string) : tx Transfer :=
  let '(firstLock, secondLock) := lock_order req in
  firstWallet <- tx_wrap ("failed to lock wallet " +:+ firstLock +:+ ": ")
                   (tx_lock_wallet firstLock) ;;
  secondWallet <- tx_wrap ("failed to lock wallet " +:+ secondLock +:+ ": ")
                    (tx_lock_wallet secondLock) ;;
  let '(sourceWallet, destWallet) := assign req firstWallet secondWallet in
  tx_validate_and_move req idempotencyKey sourceWallet destWallet.

(** payments/service.go *)
Definition tx_credit_wallet (p : Payment) (accountID : string) : tx unit :=
  tx_update_balance Z.add (Payment_Amount p) (Payment_WalletID p) ;;
  tx_wrap "ledger error: " (tx_create_transaction (payment_ledger_txn p accountID)) ;;
  Done (Ok tt).

Definition tx_webhook (provider : string) (event : WebhookPayload) (payload : json) : tx unit :=
  tx_map_err (λ err, if bool_decide (errors_As_SQLState err = Some "23505")
                     then ErrDuplicateWebhook else err)
    (stmt (insertion "webhook_events" (webhook_claims provider event))
       (sql_insert_webhook provider event payload)) ;;
  row <- tx_map_err (λ err, if errors_Is err pgx_ErrNoRows then ErrPaymentNotFound else err)
           (tx_lock_payment (Webhook_ReferenceID event)) ;;
  let '(p, accountID) := row in
  tx_guard (isValidTransition (Payment_Status p) (Webhook_Status event))
    (fmt_Errorf "" ErrInvalidStateTransition
       (": cannot transition from " +:+ Payment_Status p +:+ " to " +:+ Webhook_Status event)) ;;
  stmt (modification "payments" (Payment_ID p))
    (sql_update_payment (Webhook_Status event) (Payment_ID p)) ;;
  Effect (λ w, (RecordPayment (Webhook_Status event) w).2)
    ((if bool_decide (Webhook_Status event = StatusSucceeded) then tx_credit_wallet p accountID
      else Done (Ok tt)) ;;
     tx_wrap "failed to insert outbox event: "
       (tx_insert_event "payment.events" (λ _, payment_event p (Webhook_Status event))) ;;
     Done (Ok tt)).

(** wallets/repository.go *)
Definition tx_open_wallet (ownerID accountType currency : string) : tx wallets.Wallet :=
  accountID <- stmt (insertion "accounts" []) (sql_insert_account accountType currency) ;;
  wallet <- stmt (insertion "wallets" []) (sql_insert_wallet ownerID accountID currency) ;;
  Done (Ok wallet).
End Code.

(** ** They are the transactions of the packages *)

Section Equivalence.
Context `{Env}.

Lemma denote_bind_eq {A B} (p : tx A) (m : M A) (f : A → tx B) (g : A → M B) w :
  denote p w = m w → (∀ a w', m w = (Ok a, w') → denote (f a) w' = g a w') →
  denote (tx_bind p f) w = bind m g w.
Proof.
  intros Hp Hf. rewrite denote_bind. unfold bind. rewrite Hp.
  destruct (m w) as [[a|e] w'] eqn:Hm; [by apply Hf|done].
Qed.

Lemma denote_wrap_eq {A} pre (p : tx A) (m : M A) w :
  denote p w = m w → denote (tx_wrap pre p) w = wrap_err pre m w.
Proof. intros Hp. rewrite denote_wrap. unfold wrap_err. by rewrite Hp. Qed.

Lemma denote_map_err_eq {A} h (p : tx A) (m : M A) w :
  denote p w = m w → denote (tx_map_err h p) w = map_err h m w.
Proof. intros Hp. rewrite denote_map_err. unfold map_err. by rewrite Hp. Qed.

Lemma denote_insertion {X} t cl (sql : Ctx → DB → Res (X * DB)) w :
  denote (stmt (insertion t cl) sql) w = query sql w.
Proof. apply denote_stmt. Qed.

Lemma denote_for_update {X} t (id : X → string) (sql : Ctx → DB → Res (X * DB)) w :
  denote (stmt (for_update t id sql) sql) w =
  (x <- query sql ;; take_lock (t, id x) ;; ret x)%m w.
Proof.
  unfold stmt. simpl. unfold bind, map_err, query. destruct (env_outcome _); [|done..].
  by destruct (sql (ctx w) (w_db w)) as [[x d]|e].
Qed.

Lemma denote_lock_wallet id w : denote (tx_lock_wallet id) w = lock_wallet id w.
Proof. apply denote_for_update. Qed.

Lemma denote_lock_payment ref w : denote (tx_lock_payment ref) w = lock_payment ref w.
Proof. apply denote_for_update. Qed.

Lemma denote_modification {X} t id (sql : Ctx → DB → Res (X * DB)) w :
  denote (stmt (modification t id) sql) w = (x <- query sql ;; take_lock (t, id) ;; ret x)%m w.
Proof.
  unfold stmt. simpl. unfold bind, map_err. by destruct (query sql w) as [[x|e] w'].
Qed.

Lemma denote_update_balance op amount id w :
  denote (tx_update_balance op amount id) w = update_balance op amount id w.
Proof.
  unfold tx_update_balance. rewrite denote_modification. unfold update_balance, bind.
  destruct (query _ w) as [[[]|e] w']; [|done]. by rewrite take_lock_run.
Qed.

(** Its row being locked already, an update locks nothing more. *)
Lemma denote_update_locked t id (sql : Ctx → DB → Res (unit * DB)) w :
  (t, id) ∈ w_locks w → denote (stmt (modification t id) sql) w = query sql w.
Proof.
  intros Hl. rewrite denote_modification. unfold bind.
  destruct (query sql w) as [[[]|e] w'] eqn:Hq; [|done].
  apply query_silent in Hq as (_ & _ & Hl' & _). rewrite take_lock_run, Hl', add_lock_held by done.
  unfold ret. rewrite <- Hl'. by destruct w'.
Qed.

Lemma denote_insert_event topic payload w :
  denote (tx_insert_event topic payload) w =
  (now <- time_Now ;; InsertEvent topic (payload now))%m w.
Proof.
  unfold tx_insert_event. simpl. unfold bind, map_err, time_Now.
  by destruct (query _ w) as [[x|e] w'].
Qed.

Lemma denote_insert_entries es w : denote (tx_insert_entries es) w = insert_entries es w.
Proof.
  revert w. induction es as [|e es IH]; intros w; [done|]. cbn [tx_insert_entries insert_entries].
  apply denote_bind_eq; [apply denote_insertion|]. intros r w1 _.
  apply denote_bind_eq; [apply IH|done].
Qed.

Lemma denote_create_transaction txn w :
  denote (tx_create_transaction txn) w = Ledger.postgresRepository txn w.
Proof.
  apply denote_bind_eq; [done|]. intros _ w1 _.
  apply denote_bind_eq; [apply denote_insertion|]. intros r w2 _.
  apply denote_bind_eq; [apply denote_insert_entries|done].
Qed.
End Equivalence.

Section Packages.
Context `{Env}.

Lemma denote_record_transfer req key src dst w :
  denote (tx_record_transfer req key src dst) w =
  record_transfer (L := Ledger.postgresRepository) (X := Outbox.postgresRepository) req key src dst w.
Proof.
  apply denote_bind_eq; [apply denote_insertion|]. intros r w1 _.
  apply denote_bind_eq; [apply denote_wrap_eq, denote_create_transaction|]. intros txn w2 _.
  rewrite denote_bind. unfold bind at 1. rewrite denote_wrap. unfold wrap_err at 1.
  rewrite denote_insert_event. unfold bind, time_Now, wrap_err.
  by destruct (InsertEvent _ _ w2) as [[u|e] w3].
Qed.

Lemma denote_validate_and_move req key src dst w :
  denote (tx_validate_and_move req key src dst) w =
  validate_and_move (L := Ledger.postgresRepository) (X := Outbox.postgresRepository)
    req key src dst w.
Proof.
  do 3 (apply denote_bind_eq; [apply denote_guard|]; intros ? ? _).
  do 2 (apply denote_bind_eq; [apply denote_update_balance|]; intros ? ? _).
  apply denote_record_transfer.
Qed.

Lemma denote_transfer req key w :
  denote (tx_transfer req key) w =
  transfer_statements (L := Ledger.postgresRepository) (X := Outbox.postgresRepository) req key w.
Proof.
  unfold tx_transfer, transfer_statements. destruct (lock_order req) as [x1 x2].
  do 2 (apply denote_bind_eq; [apply denote_wrap_eq, denote_lock_wallet|]; intros ? ? _).
  destruct (assign req _ _) as [src dst]. apply denote_validate_and_move.
Qed.

Lemma denote_credit_wallet p account w :
  denote (tx_credit_wallet p account) w =
  credit_wallet (L := Ledger.postgresRepository) p account w.
Proof.
  apply denote_bind_eq; [apply denote_update_balance|]. intros ? ? _.
  by apply denote_bind_eq; [apply denote_wrap_eq, denote_create_transaction|].
Qed.

Lemma denote_webhook provider event payload w :
  denote (tx_webhook provider event payload) w =
  webhook_statements (L := Ledger.postgresRepository) (X := Outbox.postgresRepository)
    provider event payload w.
Proof.
  apply denote_bind_eq; [apply denote_map_err_eq, denote_insertion|]. intros u w1 _.
  apply denote_bind_eq; [apply denote_map_err_eq, denote_lock_payment|].
  intros [p account] w2 Hlock. apply map_err_ok in Hlock.
  apply denote_bind_eq; [apply denote_guard|]. intros ? w3 [_ ->]%guard_ok.
  apply denote_bind_eq.
  { apply denote_update_locked. unfold lock_payment in Hlock.
    apply bind_ok in Hlock as (row & w4 & _ & Hrest). unfold bind in Hrest.
    rewrite take_lock_run in Hrest. injection Hrest as -> <-.
    apply elem_of_add_lock. by left. }
  intros ? w4 _. cbn [denote]. unfold bind at 1. cbn [RecordPayment snd].
  apply denote_bind_eq; [by case_bool_decide; [apply denote_credit_wallet|]|]. intros ? w5 _.
  apply denote_bind_eq; [|done]. apply denote_wrap_eq. by rewrite denote_insert_event.
Qed.

Lemma denote_open_wallet_statements owner ty currency w :
  denote (tx_open_wallet owner ty currency) w =
  (accountID <- query (sql_insert_account ty currency) ;;
   wallet <- query (sql_insert_wallet owner accountID currency) ;; ret wallet)%m w.
Proof.
  apply denote_bind_eq; [apply denote_insertion|]. intros ? ? _.
  by apply denote_bind_eq; [apply denote_insertion|].
Qed.

Lemma denote_open_wallet owner ty currency w :
  with_tx (denote (tx_open_wallet owner ty currency)) w =
  CreateWalletAndAccount owner ty currency w.
Proof.
  cbn [CreateWalletAndAccount Wallets.postgresRepository]. unfold with_tx.
  destruct (env_outcome _); [|done..]. by rewrite denote_open_wallet_statements.
Qed.
End Packages.

(** ** They are well-behaved *)

Section Behaviour.
Context `{UuidLaws}.

Lemma behaves_done {A} pr (r : Res A) (Q : _ → A → Prop) :
  (∀ a, Q pr a) → behaves pr (Done r) Q.
Proof. destruct r; simpl; auto. Qed.

Lemma behaves_steady {X} pr fp (sql : Ctx → DB → Res (X * DB)) (Q : _ → X → Prop) :
  steady pr (λ _ : Z, sql) fp → (∀ x, Q pr x) → behaves pr (stmt fp sql) Q.
Proof. intros Hs HQ. apply behaves_stmt; [done|]. intros c v x d1 _ Hp _. by exists pr. Qed.

Lemma behaves_lock_wallet pr id (Q : _ → wallets.Wallet → Prop) :
  (∀ x pr', pr ⊆ pr' → ("wallets", wallets.Wallet_ID x) ∈ pr' → canonical (wallets.Wallet_ID x) →
     Q pr' x) →
  behaves pr (tx_lock_wallet id) Q.
Proof.
  intros HQ. apply behaves_stmt; [apply steady_lock_wallet|]. intros c v x d1 Hq Hp _.
  exists (("wallets", wallets.Wallet_ID x) :: pr). unfold sql_lock_wallet in Hq.
  destruct (uuid_param id) as [u|] eqn:Hu; [|done]. simpl in Hq. apply uuid_param_ok in Hu.
  destruct (wallets_t v !! u) as [row|] eqn:Hrow; [|done]. simplify_eq. split.
  - apply Forall_cons. split; [|done]. simpl. autorewrite with rows. by rewrite Hrow.
  - apply HQ; [set_solver|by left|]. exact (uuid_in_canonical _ _ Hu).
Qed.

Lemma behaves_lock_payment pr ref (Q : _ → Payment * string → Prop) :
  (∀ p account pr', pr ⊆ pr' → ("payments", Payment_ID p) ∈ pr' →
     ("wallets", Payment_WalletID p) ∈ pr' → canonical (Payment_WalletID p) → Q pr' (p, account)) →
  behaves pr (tx_lock_payment ref) Q.
Proof.
  intros HQ. apply behaves_stmt; [apply steady_lock_payment|]. intros c v [p account] d1 Hq Hp Hs.
  exists (("payments", Payment_ID p) :: ("wallets", Payment_WalletID p) :: pr).
  apply sql_lock_payment_ok in Hq as (_ & row & wlt & Hrow & Hscan & _ & Hw & _).
  assert (Hid : Payment_WalletID p = Payment_WalletID row) by (rewrite Hscan; done).
  assert (Hat : row_at v ("payments", Payment_ID p) = Some (PaymentRow row)).
  { autorewrite with rows. by rewrite Hrow. }
  destruct (schema_uuid _ Hs _ _ Hat) as [_ Hc]. rewrite Hid. split.
  - apply Forall_cons. split; [by rewrite Hat; eexists|]. apply Forall_cons. split; [|done].
    autorewrite with rows. by rewrite Hw.
  - apply HQ; rewrite ?Hid; [set_solver|by left|by right; left|done].
Qed.

Lemma behaves_update_balance pr op amount id (Q : _ → unit → Prop) :
  canonical id → ("wallets", id) ∈ pr → Q pr tt → behaves pr (tx_update_balance op amount id) Q.
Proof. intros ???. apply behaves_steady; [by apply steady_balance|by intros []]. Qed.

Lemma behaves_insert_event pr topic payload (Q : _ → unit → Prop) :
  Q pr tt → behaves pr (tx_insert_event topic payload) Q.
Proof.
  intros HQ. split; [apply steady_event|]. intros clk c v [] d1 _ Hp _. by exists pr.
Qed.

Lemma behaves_insert_entries pr es (Q : _ → list ledger.Entry → Prop) :
  (∀ es', Q pr es') → behaves pr (tx_insert_entries es) Q.
Proof.
  revert Q. induction es as [|e es IH]; intros Q HQ; cbn [tx_insert_entries]; [apply HQ|].
  eapply behaves_bind; [apply (behaves_steady _ _ _ (λ pr' _, pr' = pr)); [apply steady_insert_entry|done]|].
  intros ? r ->. eapply behaves_bind; [by apply (IH (λ pr' _, pr' = pr))|].
  intros ? rest ->. apply HQ.
Qed.

Lemma behaves_create_transaction pr txn (Q : _ → ledger.Transaction → Prop) :
  (∀ txn', Q pr txn') → behaves pr (tx_create_transaction txn) Q.
Proof.
  intros HQ. eapply behaves_bind; [by apply (behaves_done _ _ (λ pr' _, pr' = pr))|]. intros ? _ ->.
  eapply behaves_bind.
  { apply (behaves_steady _ _ _ (λ pr' _, pr' = pr)); [apply steady_insert_transaction|done]. }
  intros ? r ->. eapply behaves_bind; [by apply (behaves_insert_entries _ _ (λ pr' _, pr' = pr))|].
  intros ? es ->. apply HQ.
Qed.

Lemma behaves_record_transfer pr req key src dst :
  behaves pr (tx_record_transfer req key src dst) (λ _ _, True).
Proof.
  eapply behaves_bind.
  { apply (behaves_steady _ _ _ (λ _ _, True)); [apply steady_insert_transfer|done]. }
  intros pr1 r _. eapply behaves_bind.
  { by apply behaves_map_err, (behaves_create_transaction _ _ (λ _ _, True)). }
  intros pr2 txn _. eapply behaves_bind; [|done].
  by apply behaves_map_err, (behaves_insert_event _ _ _ (λ _ _, True)).
Qed.

Lemma behaves_transfer req key : well_behaved (tx_transfer req key).
Proof.
  unfold well_behaved, tx_transfer. destruct (lock_order req) as [x1 x2].
  eapply behaves_bind.
  { apply behaves_map_err, (behaves_lock_wallet _ _ (λ pr x,
      ("wallets", wallets.Wallet_ID x) ∈ pr ∧ canonical (wallets.Wallet_ID x))). auto. }
  intros pr1 first [H1 C1]. eapply behaves_bind.
  { apply behaves_map_err, (behaves_lock_wallet _ _ (λ pr x,
      ("wallets", wallets.Wallet_ID first) ∈ pr ∧ ("wallets", wallets.Wallet_ID x) ∈ pr ∧
      canonical (wallets.Wallet_ID x))). auto. }
  intros pr2 second (H2 & H3 & C2).
  assert (Hgo : ∀ src dst, (src = first ∧ dst = second) ∨ (src = second ∧ dst = first) →
    behaves pr2 (tx_validate_and_move req key src dst) (λ _ _, True)).
  { intros src dst Hor. unfold tx_validate_and_move.
    do 3 (eapply behaves_bind; [apply (behaves_guard _ _ _ (λ pr' _, pr' = pr2)); done|];
          intros ? _ ->).
    do 2 (eapply behaves_bind;
      [apply (behaves_update_balance _ _ _ _ (λ pr' _, pr' = pr2)); naive_solver|]; intros ? _ ->).
    apply behaves_record_transfer. }
  unfold assign. case_bool_decide; auto.
Qed.

Lemma behaves_webhook provider event payload : well_behaved (tx_webhook provider event payload).
Proof.
  eapply behaves_bind.
  { apply behaves_map_err, (behaves_steady _ _ _ (λ _ _, True)); [apply steady_insert_webhook|done]. }
  intros pr0 _ _. eapply behaves_bind.
  { apply behaves_map_err, (behaves_lock_payment _ _ (λ pr row, ("payments", Payment_ID row.1) ∈ pr ∧
      ("wallets", Payment_WalletID row.1) ∈ pr ∧ canonical (Payment_WalletID row.1))). auto. }
  intros pr [p account] (Hp & Hw & Hc). simpl in Hp, Hw, Hc.
  eapply behaves_bind; [apply (behaves_guard _ _ _ (λ pr' _, pr' = pr)); done|]. intros ? _ ->.
  eapply behaves_bind.
  { apply (behaves_steady _ _ _ (λ pr' _, pr' = pr)); [by apply steady_update_payment|done]. }
  intros ? _ ->. split; [by intros w|]. eapply (behaves_bind _ _ _ (λ _ _, True)).
  - case_bool_decide; [|done]. eapply behaves_bind.
    { by apply (behaves_update_balance _ _ _ _ (λ _ _, True)). }
    intros pr' _ _. eapply behaves_bind; [|done].
    by apply behaves_map_err, (behaves_create_transaction _ _ (λ _ _, True)).
  - intros pr' _ _. eapply behaves_bind; [|done].
    by apply behaves_map_err, (behaves_insert_event _ _ _ (λ _ _, True)).
Qed.

Lemma behaves_open_wallet owner ty currency : well_behaved (tx_open_wallet owner ty currency).
Proof.
  eapply behaves_bind.
  { apply (behaves_steady _ _ _ (λ _ _, True)); [apply steady_insert_account|done]. }
  intros pr a _. eapply behaves_bind; [|done].
  apply (behaves_steady _ _ _ (λ _ _, True)); [apply steady_insert_wallet|done].
Qed.
End Behaviour.
