(* ===== verification/Serializability.v ===== *)
(** * Interleaved transactions are as good as atomic ones

    Transfers, webhooks and wallet openings run as [Isolation] has it, one statement at a
    time, among themselves and among all other calls of the program.  The committed database
    then only goes through business events of [Steps], each transaction commits at most once
    and does what its answer says, and the books match whenever one looks. *)

From S2P Require Import Prelude Go Models Postgres Runtime Isolation Sample.
From S2P Require Import Ledger Outbox Idempotency Wallets Transfers Payments.
From S2P Require Import Steps Books Transactions.
Import transfers payments.
#[local] Open Scope Z_scope.

(** ** Jobs and their answers *)

Inductive job :=
| DoTransfer (req : CreateTransferRequest) (idempotencyKey : string)
| DoWebhook (provider : string) (event : WebhookPayload) (payload : json)
| DoOpenWallet (ownerID accountType currency : string).

Inductive reply :=
| Transferred (t : Transfer)
| Processed
| Opened (w : wallets.Wallet).

(** The transaction of a job. *)
Definition tx_of `{Env} (j : job) : tx reply :=
  match j with
  | DoTransfer req key => tx_bind (tx_transfer req key) (λ t, Done (Ok (Transferred t)))
  | DoWebhook provider event payload =>
    tx_bind (tx_webhook provider event payload) (λ _, Done (Ok Processed))
  | DoOpenWallet owner ty currency =>
    tx_bind (tx_open_wallet owner ty currency) (λ w, Done (Ok (Opened w)))
  end.

(** The same as the packages have it, all at once. *)
Definition body_of `{Env} (j : job) : M reply :=
  match j with
  | DoTransfer req key =>
    t <- transfer_statements (L := Ledger.postgresRepository) (X := Outbox.postgresRepository)
           req key ;; ret (Transferred t)
  | DoWebhook provider event payload =>
    webhook_statements (L := Ledger.postgresRepository) (X := Outbox.postgresRepository)
      provider event payload ;; ret Processed
  | DoOpenWallet owner ty currency =>
    accountID <- query (sql_insert_account ty currency) ;;
    w <- query (sql_insert_wallet owner accountID currency) ;; ret (Opened w)
  end%m.

(** What a job does to the database when it answers. *)
Definition effect `{Env} (j : job) (r : reply) (d d' : DB) : Prop :=
  match j, r with
  | DoTransfer req key, Transferred t => ∃ source dest,
      uuid_in (Req_SourceWalletID req) = Some source ∧
      uuid_in (Req_DestinationWalletID req) = Some dest ∧ returned req key t ∧
      booked req key (roles req source dest).1 (roles req source dest).2 t d d'
  | DoWebhook provider event payload, Processed => webhook_effect provider event payload d d'
  | DoOpenWallet owner ty currency, Opened w => opened owner ty currency w d d'
  | _, _ => False
  end.

Section Jobs.
Context `{UuidLaws}.

Lemma tx_of_behaves j : well_behaved (tx_of j).
Proof.
  destruct j; eapply behaves_bind; try done;
    [apply behaves_transfer|apply behaves_webhook|apply behaves_open_wallet].
Qed.

Lemma denote_tx_of j w : denote (tx_of j) w = body_of j w.
Proof.
  destruct j as [req key|provider event payload|owner ty currency];
    cbn [tx_of body_of]; rewrite denote_bind; unfold bind.
  - rewrite denote_transfer. by destruct (transfer_statements _ _ _) as [[t|e] w'].
  - rewrite denote_webhook. by destruct (webhook_statements _ _ _ _) as [[t|e] w'].
  - rewrite denote_open_wallet_statements. unfold bind.
    destruct (query _ w) as [[a|e] w1]; [|done]. by destruct (query _ w1) as [[wlt|e] w2].
Qed.

Lemma effect_change j r d d' : effect j r d d' → change d d'.
Proof.
  destruct j, r; simpl; try done.
  - intros (s & t' & _ & _ & _ & Hb). by eapply change_booked.
  - apply change_webhook.
  - apply change_opened.
Qed.

(** Run at once, a job has its effect. *)
Lemma at_once_effect j r d d' : payments_ok d → at_once (tx_of j) r d d' → effect j r d d'.
Proof.
  intros Hok (τ & w & w' & <- & Hrun & <-).
  destruct j as [req key|provider event payload|owner ty currency]; cbn [tx_of] in Hrun;
    rewrite denote_bind in Hrun; apply bind_ok in Hrun as (a & w1 & Hrun & Hret);
    apply lift_res_ok in Hret as [[= <-] ->].
  - pose proof (denote_transfer (H := renumbered τ) req key w) as Heq.
    change (@tx_transfer (renumbered τ) req key) with (tx_transfer req key) in Heq.
    rewrite Hrun in Heq. symmetry in Heq.
    apply (transfer_statements_ok (H := renumbered τ)) in Heq
      as (source & dest & Hs & Hd & _ & Hb & Hr & _).
    exists source, dest. split; [exact Hs|]. split; [exact Hd|]. split; [exact Hr|exact Hb].
  - pose proof (denote_webhook (H := renumbered τ) provider event payload w) as Heq.
    change (@tx_webhook (renumbered τ) provider event payload) with (tx_webhook provider event payload) in Heq.
    rewrite Hrun in Heq. symmetry in Heq.
    apply (webhook_statements_ok (H := renumbered τ)) in Heq; [|exact Hok]. exact Heq.
  - pose proof (denote_open_wallet_statements (H := renumbered τ) owner ty currency w) as Heq.
    change (@tx_open_wallet (renumbered τ) owner ty currency) with (tx_open_wallet owner ty currency) in Heq.
    rewrite Hrun in Heq. symmetry in Heq.
    apply (open_statements (H := renumbered τ)) in Heq as (acct & H1 & H2 & H3 & H4 & H5 & H6 & H7 &
      H8 & H9 & H10 & H11 & H12 & (n & H13) & H14).
    exists acct. repeat (split; [assumption|]). split; [by exists (τ n)|exact H14].
Qed.

(** ** Histories *)

(** Jobs one after the other, with other business events between them. *)
Inductive history (jobs : gmap nat job) (d0 : DB) : list (nat * reply) → DB → Prop :=
| history_start : history jobs d0 [] d0
| history_other h d d' : history jobs d0 h d → change d d' → history jobs d0 h d'
| history_job h d d' i j r :
    history jobs d0 h d → jobs !! i = Some j → effect j r d d' →
    history jobs d0 (h ++ [(i, r)]) d'.

Lemma history_changes jobs d0 h d : history jobs d0 h d → rtc change d0 d.
Proof.
  induction 1; [done|by eapply rtc_r|]. eapply rtc_r; [done|]. by eapply effect_change.
Qed.

Lemma changes_payments_ok d d' : rtc change d d' → payments_ok d → payments_ok d'.
Proof. induction 1; [done|]. intros Hok. apply IHrtc. by eapply change_payments_ok. Qed.

Lemma serial_history jobs d0 h d :
  payments_ok d0 → serial (tx_of <$> jobs) change d0 h d → history jobs d0 h d.
Proof.
  intros Hok. induction 1 as [|h d d' _ IH Hc|h d d' i b r _ IH Hb Ha]; [constructor| |].
  - by eapply history_other.
  - rewrite lookup_fmap in Hb. apply fmap_Some in Hb as (j & Hj & ->).
    eapply history_job; [done..|]. apply at_once_effect; [|done].
    by eapply changes_payments_ok, Hok; eapply history_changes.
Qed.

(** Jobs that have not begun, over a world. *)
Definition start_jobs (jobs : gmap nat job) (w : World) : pool reply :=
  (w, Waiting <$> (tx_of <$> jobs)).

Lemma jobs_history jobs w w' ss' :
  Inj (=) (=) env_uuid → schema (w_db w) → payments_ok (w_db w) →
  rtc (pool_moves change) (start_jobs jobs w) (w', ss') →
  ∃ h, history jobs (w_db w) h (w_db w') ∧ NoDup h.*1 ∧
    ∀ i r, ss' !! i = Some (Ended (Ok r)) → (i, r) ∈ h.
Proof.
  intros Hinj Hs Hok Hrun.
  assert (Hbs : map_Forall (λ _ b, well_behaved b) (tx_of <$> jobs)).
  { intros i b. rewrite lookup_fmap. intros (j & _ & ->)%fmap_Some. apply tx_of_behaves. }
  destruct (sound_moves _ Hbs Hinj change (w_db w) _ _ Hrun (sound_start _ Hbs Hinj change w Hs))
    as (N & h & _ & [Hh Hn _ Hr]).
  exists h. split; [by apply serial_history|done].
Qed.
End Jobs.

(** ** Properties *)

(** C4. Atomicity of the transactions is earned, not assumed: transfers, webhooks and wallet
    openings of any number of goroutines interleave statement by statement, under Read
    Committed with row locks and unique indexes, among themselves and with any other events
    of the program that wait for their locks, and any of their exchanges may fail.  The
    committed database is then where some order of whole jobs, each with the effect its
    theorems say, has led; no job is in that order twice, and every job that answered with
    success is in it with its answer. *)
Theorem transactions_serialize `{UuidLaws} jobs w w' ss' :
  Inj (=) (=) env_uuid → schema (w_db w) → payments_ok (w_db w) →
  rtc (pool_moves change) (start_jobs jobs w) (w', ss') →
  ∃ h, history jobs (w_db w) h (w_db w') ∧ NoDup h.*1 ∧
    ∀ i r, ss' !! i = Some (Ended (Ok r)) → (i, r) ∈ h.
Proof. apply jobs_history. Qed.

(** C5. The books match in every committed state between the statements of any transactions:
    every wallet holds what the ledger says and the ledger balances, although balances and
    entries are written by separate statements; and the money held has grown by exactly
    what the payments brought. *)
Theorem books_match_between_statements `{UuidLaws} jobs w w' ss' :
  (∀ n, uuid_in platform_account ≠ Some (env_uuid n)) →
  Inj (=) (=) env_uuid → schema (w_db w) → payments_ok (w_db w) → books (w_db w) →
  rtc (pool_moves change) (start_jobs jobs w) (w', ss') →
  books (w_db w') ∧
  money_held (w_db w') - money_held (w_db w) = money_paid_in (w_db w') - money_paid_in (w_db w).
Proof.
  intros Hnil Hinj Hs Hok Hb Hrun.
  destruct (jobs_history _ _ _ _ Hinj Hs Hok Hrun) as (h & Hh & _).
  apply history_changes in Hh. split; [by eapply changes_books|].
  by destruct (changes_money _ _ Hh Hok); lia.
Qed.

(** The two forms of a transaction agree: one that runs statement by statement and alone ends
    with the answer, the database and the number of exchanges of its one-step form. *)
Theorem alone_as_in_one_step `{UuidLaws} j w :
  schema (w_db w) →
  let '(r, w1) := with_tx (body_of j) w in
  ∃ n w', play (repeat 0%nat n) (start_jobs {[0%nat := j]} w) = (w', {[0%nat := Ended r]}) ∧
    w_db w' = w_db w1 ∧ w_tick w' = w_tick w1.
Proof.
  intros Hs. pose proof (play_alone 0 (tx_of j) w (tx_of_behaves j) Hs) as Hp.
  assert (Heq : with_tx (denote (tx_of j)) w = with_tx (body_of j) w).
  { unfold with_tx. destruct (env_outcome (w_tick w)); [|done..]. by rewrite denote_tx_of. }
  rewrite Heq in Hp. destruct (with_tx (body_of j) w) as [r w1].
  unfold start_jobs. by rewrite !map_fmap_singleton.
Qed.

(** ** Concrete inputs *)

(** The provider reports success on a payment of three hundred dollars, a hundred go on to
    the other wallet and thirty come back, while a user opens a wallet. *)
Definition busy_jobs : gmap nat job :=
  <[0%nat := DoWebhook "simulator" (mkWebhookPayload "e1" "payment.succeeded" "ext_1" StatusSucceeded)
         JNull]>
  (<[1%nat := DoTransfer (mkReq "w1" "w2" 100 "USD") "k1"]>
  (<[2%nat := DoTransfer (mkReq "w2" "w1" 30 "USD") "k1"]>
  (<[3%nat := DoOpenWallet "b1" "USER" "USD"]> ∅))).

(** All begin; the webhook gets as far as the wallet; then they take turns. *)
Definition busy_run : pool reply :=
  play ([0; 1; 2; 3; 0; 0; 0; 0; 0] ++ concat (repeat [0; 1; 2; 3] 40))%nat
    (start_jobs busy_jobs (sample_world young_bank)).

Definition answered (s : session reply) : option reply :=
  match s with Ended (Ok r) => Some r | _ => None end.

Lemma young_schema : schema young_bank.
Proof.
  apply schema_tables.
  - intros i j u v Hi Hj. cbn in Hi, Hj.
    apply lookup_insert_Some in Hi as [[<- <-]|[_ Hi]]; [|apply lookup_insert_Some in Hi as
      [[<- <-]|[_ Hi]]; [|by apply lookup_empty_Some in Hi]];
    (apply lookup_insert_Some in Hj as [[<- <-]|[_ Hj]]; [|apply lookup_insert_Some in Hj as
      [[<- <-]|[_ Hj]]; [|by apply lookup_empty_Some in Hj]]); done.
  - intros i j p q Hi Hj. cbn in Hi, Hj.
    apply lookup_insert_Some in Hi as [[<- <-]|[_ Hi]]; [|by apply lookup_empty_Some in Hi].
    by apply lookup_insert_Some in Hj as [[<- <-]|[_ Hj]]; [|apply lookup_empty_Some in Hj].
  - intros i j e f Hi. cbn in Hi. by apply lookup_empty_Some in Hi.
  - intros i p Hp. cbn in Hp. apply lookup_insert_Some in Hp as [[<- <-]|[_ Hp]];
      [by vm_compute|by apply lookup_empty_Some in Hp].
Qed.

Lemma sample_uuids_distinct : Inj (=) (=) (@env_uuid sample_env).
Proof. exact sample_uuid_inj. Qed.

Lemma busy_moves :
  rtc (pool_moves change) (start_jobs busy_jobs (sample_world young_bank)) (busy_run.1, busy_run.2).
Proof. rewrite <- surjective_pairing. apply play_moves. Qed.

Lemma transactions_serialize_witness :
  (answered <$> busy_run.2) !! 0%nat = Some (Some Processed) ∧
  ∃ h, history busy_jobs young_bank h (w_db busy_run.1) ∧ (0%nat, Processed) ∈ h.
Proof.
  split; [by vm_compute|].
  destruct (transactions_serialize busy_jobs (sample_world young_bank) busy_run.1 busy_run.2
    sample_uuids_distinct young_schema young_payments_ok busy_moves) as (h & Hh & _ & Hr).
  exists h. split; [exact Hh|]. apply Hr. vm_compute. reflexivity.
Defined.

Lemma books_match_between_statements_witness :
  wallets.Wallet_AvailableBalance <$> wallets_t (w_db busy_run.1) !! "w1" = Some 230 ∧
  books (w_db busy_run.1) ∧ money_held (w_db busy_run.1) - money_held young_bank = 300.
Proof.
  split; [by vm_compute|].
  destruct (books_match_between_statements busy_jobs (sample_world young_bank) busy_run.1 busy_run.2
    sample_not_nil sample_uuids_distinct young_schema young_payments_ok young_books busy_moves)
    as [Hb Hm].
  split; [exact Hb|]. refine (eq_trans Hm _). vm_compute. reflexivity.
Defined.

Lemma alone_as_in_one_step_witness :
  ∃ n w', play (repeat 0%nat n) (start_jobs {[0%nat := DoOpenWallet "b1" "USER" "USD"]}
      (sample_world young_bank)) =
    (w', {[0%nat := Ended (Ok (Opened (wallets.mkWallet "uaa" "b1" "ua" "USD" 0 0
       wallets.StatusActive 1 0 0)))]}) ∧ w_tick w' = 4%nat.
Proof.
  pose proof (alone_as_in_one_step (DoOpenWallet "b1" "USER" "USD") (sample_world young_bank)
    young_schema) as Hp.
  destruct (with_tx _ _) as [r w1] eqn:Hrun. vm_compute in Hrun. injection Hrun as <- <-.
  destruct Hp as (n & w' & Hplay & _ & Ht). exists n, w'. exact (conj Hplay Ht).
Defined.
